(* ===== verification/_CoqProject ===== *)
-Q . S2P
Prelude.v
Numeric.v
ArrayIndex.v
PriceAlgebra.v
PoolState.v
Allocator.v
AllocatorExact.v
Swap.v
SwapExact.v
Optimality.v
Monotone.v
Trace.v
Arbitrage.v
NoArbitrage.v
Ledger.v
Extensional.v
Additive.v
Threshold.v
Equivariant.v
Scaling.v
Dominance.v
Scenario.v
Binary64.v
