(* ===== verification/Prelude.v ===== *)
(** * Verification of the multi-tier full-range AMM pool ([src/muffin_fullrange.py])

    ** The program

    One Python file.  A [Pool] holds [size] tiers of one token pair, as
    five numpy arrays indexed by tier: liquidity, square-root price,
    square root of the fee factor ([sqrt_gamma]; the fee rate of a tier
    is [1 - sqrt_gamma^2]) and the fee growth of each token.  Its single
    mutating method, [swap], sells an amount of one token: it asks
    [_calc_tier_amts_in] how to split the amount over the tiers (a
    Lagrange-multiplier formula, repeated on fewer tiers while some tier
    gets a negative amount), takes the fee of each tier, moves each
    price with [calc_sqrt_p_from_amt], computes what each tier pays with
    [calc_amt_from_sqrt_p], writes the new prices and the fee growth of
    the token sold, and returns a dictionary of totals and per-tier
    arrays.

    ** The files, and what they model

    - [Prelude] (this file): Python's exceptions as the type [result]
      ([AssertionError] for a failed [assert], [ShapeError] for numpy's
      refusal of arrays of different lengths, [FuelExhausted] for the
      model's loop fuel), and numpy's boolean-mask operations on arrays
      as lists: [sel] for [a[mask]], [put] for [a[mask] = values],
      [fill] for [a[mask] = scalar], [map2], [mask_and], [mask_not],
      [count].
    - [Numeric]: the operations class [Num] in which all the code is
      written, its exact instance over [Q], [nsum] for [np.sum] (a left
      fold), [zeros], [all_nonneg]; the class [NumOrder] of the facts
      about the order that the rationals and the doubles share.
    - [ArrayIndex]: [map3], [where_] ([np.where]) and the lemmas that
      turn masked reads and writes into whole-array expressions and
      those into statements about one index.
    - [PriceAlgebra]: [calc_sqrt_p_from_amt] and [calc_amt_from_sqrt_p]
      (source lines 100-115), with the constant-product market maker
      ([reserves], [cpmm_sell], [cpmm_out]) as their specification.
    - [PoolState]: the record [Pool] (lines 4-10), [__init__] with its
      default arguments (lines 12-18), [prices] and [price] (lines
      20-29), and the validity predicate [wf_pool], which the source
      never checks.
    - [Allocator]: [_calc_tier_amts_in] (lines 73-97) with its
      assertion, the working arrays [lsg_of] and [res_of], the formula
      of one pass [lagrange_amts] and the [while True] loop as the
      [Fixpoint repair_loop] on fuel; a Hoare-style rule for the loop,
      termination, and the closed form of the result, for every
      instance of [Num].
    - [AllocatorExact]: the allocator over [Q]: the amounts are not
      negative, sum to the amount asked for, and the mask keeps a tier.
    - [Swap]: [swap] (lines 31-71), every assignment of it, with the
      new pool returned beside the result [SwapResult] since Python
      mutates [self]; the whole-array reference [swap_ref] and the
      proof that the two are equal for every instance of [Num].
    - [SwapExact]: [swap] over [Q], tier by tier: conservation, fees,
      direction of the price move, refinement of the constant-product
      market maker, sign and bound of the payout, fee growth.
    - [Optimality]: the allocation problem that [_calc_tier_amts_in]
      solves, as a specification: the payout of a split ([payout]), a
      second invariant of the loop (the tiers it dropped stay worse
      than the multiplier, which only decreases), the Kuhn-Tucker
      conditions and the optimality of the split.
    - [Monotone]: the split as water filling at the multiplier of the
      last pass, and what follows for two orders on the same pool: the
      larger one gives every tier at least as much.
    - [Trace]: sequences of swaps on one pool ([run], [steps],
      [reachable]); the source has no such code, the specification
      states properties of sequences.
    - [Arbitrage]: the tiers of a pool as one market: the band in which
      the prices of the tiers stay ([band]), the virtual reserves of
      the pool ([reserve0], [reserve1]) and their value at a price
      ([pool_value]), what a sequence of swaps costs the traders
      ([net_outlay]).  These are notions of the specification, stated
      of the pools and the swaps of the code.
    - [NoArbitrage]: sums over the tiers ([tsum]), the distance a price
      moved ([dist]) and the fee a tier withholds as its fee rate times
      that distance, a price that no tier is further from than its fee
      ([within]), and what a sequence of swaps brings the traders of
      each token ([gain0], [gain1]); [charges]: every tier has a
      fee factor below 1.
    - [Ledger]: what the pool holds of each token, reserves and fees
      accrued ([holdings0], [holdings1]).
    - [Extensional]: the relation "the same numbers, up to [Qeq]" on
      pools and results ([pool_equiv], [result_equiv]), which every
      array operation, the loop, [swap] and [run] respect.
    - [Additive]: an order sold in two parts: the two price formulas
      compose, the working array [res] after a swap has grown by the
      amounts routed, and a water filling on top of a water filling is
      a water filling.
    - [Threshold]: the level at which a tier starts to fill
      ([entry]), what the tiers hold at a level ([held]) and the order
      above which a tier is used ([threshold]), computed from the
      working arrays [lsg_of] and [res_of] of the allocator.
    - [Equivariant]: arrays and pools read through a permutation of
      the tier indices ([permute], [permute_pool]).
    - [Scaling]: arrays, pools and results multiplied by a factor
      ([scale], [scale_pool], [scale_result]).
    - [Dominance]: one pool paying every split at least as much as
      another ([dominates]), as a pool with more liquidity, lower fees
      and better prices does ([better]).
    - [Scenario]: the model evaluated on the pool of the constructor's
      default arguments: examples of the general theorems, and the
      inputs at which the theorems on sequences are applied.
    - [Binary64]: the instance of [Num] over the kernel's IEEE binary64
      floats; the sample swap and the inputs at the edges (dust, tiers
      listed in another order, a small order, overflow, NaN) run in
      double precision.

    ** What is proved

    - Termination: the loop returns within [size + 1] passes, because a
      pass that does not end it removes a tier from the mask
      ([Allocator.calc_loop_returns]).  The fuel [S size] that
      [_calc_tier_amts_in] passes is therefore never exhausted, and the
      result does not depend on it.  Over [Q], on a valid pool, [size]
      passes are enough, since the mask handed on is never empty
      ([AllocatorExact.calc_loop_within_size]); in double precision the
      pass [size + 1] can be needed
      ([Binary64.float_dust_extra_pass]).
    - Equivalence: the masked computation of [swap] is the whole-array
      reference ([Swap.swap_eq_ref]); over [Q] the outcome of a run
      does not depend on how the numbers are written
      ([Extensional.run_respects_Qeq]), nor on the order in which the
      tiers are listed ([Equivariant.swap_permute]; in double precision
      it does, [Binary64.float_tier_order_matters]); multiplying the
      liquidity and the order by a factor multiplies the amounts by it
      and leaves prices, fee rate and fee growth alone
      ([Scaling.swap_scale]); two consecutive orders of the same token
      in a sequence can be merged ([Additive.run_merge]).
    - Functional correctness of the allocator
      ([AllocatorExact.calc_tier_amts_in_post],
      [Allocator.calc_tier_amts_in_closed_form]) and of the swap
      ([SwapExact]: [swap_conserves_amount], [swap_fee_identity],
      [swap_fee_growth_increment]).
    - Optimality: the tiers used end the swap at one common marginal
      rate and no tier offers a better one
      ([Optimality.swap_equalises_marginal_rate]); no other split of
      the amount is paid more, and the best split is unique
      ([Optimality.swap_optimal]); a pool with more liquidity, lower
      fees and better prices in every tier pays at least as much
      ([Dominance.better_pays_more]), and an order is paid no more
      than its parts would be on the untouched pool
      ([Dominance.swap_subadditive]); a larger order gives every tier at
      least as much, moves every price at least as far and is paid at
      least as much ([Monotone.swap_monotone]); selling [a] and then
      [b] of the same token is selling [a + b], for the pool and for
      the result ([Additive.swap_split]).
    - Which tiers are used: a tier receives a positive amount exactly
      when the order exceeds its threshold, what the tiers with a
      better rate after the fee take up before it
      ([Threshold.swap_uses_tier_iff]); the tiers enter in the order of
      their rates ([Threshold.threshold_mono]) and the tier with the
      best rate is used by every order ([Threshold.threshold_zero]).
      So the loop drops a tier for small orders, never for large ones
      (the high-fee tier of the default pool from about 12 token0 on,
      [Scenario.default_threshold]).
    - Refinement: each tier implements the constant-product market
      maker on its virtual reserves ([SwapExact.swap_pays_cpmm]); round
      trip of the two price formulas ([PriceAlgebra.amt_of_price_move]).
    - Invariants and safety: validity is preserved by every swap and
      holds of every reachable pool ([Trace.reachable_wf]); prices only
      move in the direction of the trade ([SwapExact.swap_price_moves],
      along a sequence [Trace.steps_prices_monotone]);
      fee growth never decreases ([Trace.steps_fee_growth_monotone]);
      size, liquidity and fee factors never change
      ([Trace.steps_frame]); a tier outside the mask is untouched, for
      every instance of the numbers
      ([Swap.swap_inactive_untouched]).
    - The books balance: over any sequence of swaps, reserves plus
      fees accrued change, for each token, by what the traders paid
      less what they were paid ([Ledger.steps_conserves_tokens]).
    - The pool as one market.  In every reachable pool the prices of
      any two tiers differ by no more than their fees
      ([Arbitrage.reachable_band]).  A swap changes the reserves by
      the amount in net of the fee and by the amount out
      ([Arbitrage.swap_reserve_accounting]).  The reserves of a pool
      that starts with all tiers at one price are worth least, at that
      price, at the start, so that no sequence of swaps takes value
      out of it even before the fees
      ([Arbitrage.steps_no_free_lunch]), and a round trip returns at
      most what was sold less both fees
      ([Arbitrage.round_trip_loses]).  From a pool whose tiers are at
      different prices the fees have to be counted in: the fee a tier
      withholds is its fee rate times the distance its price moves,
      distances obey the triangle inequality, and within the band
      there is a price from which every tier is no further than its
      fee; valued at that price the traders receive no more than they
      give, so that no sequence of swaps on a reachable pool leaves
      them with more of one token and no less of the other
      ([NoArbitrage.reachable_no_arbitrage]).  When every tier
      charges a fee ([NoArbitrage.charges]) the loss is strict: the
      tier that the first swap moves pays for the way there and for
      the way back, so that every sequence of swaps that is not empty
      costs the traders something
      ([NoArbitrage.reachable_strict_loss]).
    - Bounds: the fee rate of a swap lies between the fee rates of the
      tiers, the payout is below the reserve it comes from and below
      the spot value of the amount in
      ([SwapExact.swap_pays_below_spot]), a price moves by at most
      the amount over the liquidity ([SwapExact.swap_price_bound]), the
      combined price lies between the tier prices
      ([PoolState.price_between]).
    - Errors: the assertions of [swap] and [_calc_tier_amts_in], the
      exact condition under which [swap] returns
      ([Swap.swap_succeeds_iff]), and what the errors do to a sequence
      of swaps ([Trace.run_rejects]); the constructor accepts invalid
      arguments ([PoolState.init_wf_iff],
      [PoolState.init_accepts_invalid]).
    - The degenerate allocation: when the loop hands back a mask with
      no tier, [swap] changes nothing and returns zeros and
      [0 / 0] ([Swap.swap_degenerate]).  Over [Q] this cannot happen on
      a valid pool; in double precision it does
      ([Binary64.swap_degenerate_witness]).
    - Liveness: every sequence of positive orders on a valid pool runs
      to its end ([Trace.run_total]).

    ** Numbers

    The source computes in [float64].  Every definition is generic in
    [Num]; termination, shapes, the error paths, the closed form and
    the equivalence with the reference are proved for every instance,
    so they hold of floating point too.  That no amount routed is
    negative ([Allocator.calc_tier_amts_in_nonneg]) and that [swap]
    returns exactly on positive amounts ([Swap.swap_succeeds_iff]) are
    proved from [NumOrder], whose instance for the doubles
    ([Binary64.NumOrder_float]) rests on the specification of the
    primitive comparisons in [FloatAxioms].  The algebraic theorems
    (sums, signs, prices, fees, optimality) are proved for the exact
    instance [Q], up to [Qeq]; the specification states them "to within
    floating tolerance".  [Binary64] runs the model in double precision
    on the default pool and shows every output within [10^-9] of the
    exact one ([Binary64.float_scenario_split]).  It also shows where
    the exact theorems stop holding of the doubles: a small order is
    not conserved ([Binary64.float_small_order_inexact]), an order
    below the rounding of the reserves empties the mask, and an order
    that overflows leaves a pool that is not valid
    ([Binary64.float_overflow_breaks_validity]).  No general
    rounding-error bound is proved.

    ** Fuel

    The only loop is the [while True] of [_calc_tier_amts_in].
    [repair_loop] takes fuel and [_calc_tier_amts_in] gives it
    [S size]: the mask starts with [size] tiers and loses one at least
    in every pass that does not return, so pass [size + 1] at the
    latest returns.  [run] is structural in the list of orders.

    ** Not modelled

    - A rounding-error analysis; numpy's pairwise summation of arrays
      of eight elements and more ([nsum] is a left fold, which is what
      numpy computes on shorter arrays).  Over [Q] the order of
      summation is immaterial ([Extensional.nsum_Permutation]).
    - numpy broadcasting: an array of length one combined with a longer
      one is a [ShapeError] here, as is every other mismatch of
      lengths; in the source a mismatch raises [ValueError] or
      [IndexError] at the first operation that meets it, in every case
      before [swap] writes to the pool.
    - [python -O], which removes the assertions.
    - Concurrent calls: the source has no synchronisation and the
      specification asks the caller for mutual exclusion; [Trace]
      models sequential use.

    ** This file

    The prelude: the error/result type shared by every fallible
    operation, the numpy array primitives, their lemmas, the hint
    databases and the tactics of the development. *)

From Stdlib Require Import List Bool Arith Lia.
Import ListNotations.

(** ** Errors and results

    Python raises; the model returns.  [AssertionError] is the failed
    [assert] of [swap] and [_calc_tier_amts_in]; [ShapeError] stands for
    numpy's [ValueError]/[IndexError] on arrays of different lengths;
    [FuelExhausted] is the model's own artefact for a loop that outlives
    its fuel (proved unreachable in [Allocator]). *)

Inductive error : Type :=
| AssertionError
| ShapeError
| FuelExhausted.

Inductive result (A : Type) : Type :=
| Ok (a : A)
| Err (e : error).

Arguments Ok {A} a.
Arguments Err {A} e.

Definition bind {A B : Type} (r : result A) (k : A -> result B) : result B :=
  match r with
  | Ok a => k a
  | Err e => Err e
  end.

Definition assert (b : bool) : result unit :=
  if b then Ok tt else Err AssertionError.

(** numpy refuses to combine arrays of different shapes. *)
Definition same_shape (b : bool) : result unit :=
  if b then Ok tt else Err ShapeError.

Definition is_ok {A : Type} (r : result A) : bool :=
  match r with Ok _ => true | Err _ => false end.

(** The value of a computation that returned, [d] otherwise. *)
Definition get_ok {A : Type} (d : A) (r : result A) : A :=
  match r with Ok a => a | Err _ => d end.

Declare Scope result_scope.
Delimit Scope result_scope with result.
Notation "'let!' x ':=' c 'in' k" := (bind c (fun x => k))
  (at level 10, x pattern, c at level 100, k at level 200) : result_scope.

(** ** numpy array primitives

    A one-dimensional [ndarray] is a list.  A boolean mask is a
    [list bool] of the same length. *)

Section Arrays.
Context {A : Type}.

(** [a[mask]]: the elements of [a] at the positions where [mask] holds. *)
Fixpoint sel (mask : list bool) (a : list A) : list A :=
  match mask, a with
  | true :: m, x :: a' => x :: sel m a'
  | false :: m, _ :: a' => sel m a'
  | _, _ => []
  end.

(** [a[mask] = vs]: the positions where [mask] holds receive the
    elements of [vs], in order; the others keep their value. *)
Fixpoint put (mask : list bool) (a vs : list A) : list A :=
  match mask, a with
  | true :: m, x :: a' =>
      match vs with
      | v :: vs' => v :: put m a' vs'
      | [] => x :: put m a' []
      end
  | false :: m, x :: a' => x :: put m a' vs
  | _, _ => a
  end.

(** [a[mask] = v] with a scalar [v], broadcast. *)
Fixpoint fill (mask : list bool) (a : list A) (v : A) : list A :=
  match mask, a with
  | b :: m, x :: a' => (if b then v else x) :: fill m a' v
  | _, _ => a
  end.
End Arrays.

(** Element-wise binary operation on two arrays of the same shape. *)
Fixpoint map2 {A B C : Type} (f : A -> B -> C) (a : list A) (b : list B)
  : list C :=
  match a, b with
  | x :: a', y :: b' => f x y :: map2 f a' b'
  | _, _ => []
  end.

(** Number of [True] entries of a mask ([np.count_nonzero]). *)
Definition count (mask : list bool) : nat := length (filter id mask).

(** [mask & other] and [~mask]. *)
Definition mask_and (m1 m2 : list bool) : list bool := map2 andb m1 m2.
Definition mask_not (m : list bool) : list bool := map negb m.

(** ** Tactics *)

(** Case analysis on the scrutinee of the first [match]/[if] of the goal. *)
Ltac case_scrut :=
  match goal with
  | |- context [match ?e with _ => _ end] =>
      let E := fresh "E" in destruct e eqn:E
  end.

(** Inversion that cleans up after itself. *)
Ltac inv H := inversion H; subst; clear H.

Create HintDb arr discriminated.
Create Rewrite HintDb arr.

(** ** Lemmas on the array primitives *)

Section ArrayLemmas.
Context {A : Type}.
Implicit Types (m : list bool) (a vs : list A).

Lemma count_cons b m : count (b :: m) = (if b then 1 else 0) + count m.
Proof. destruct b; reflexivity. Qed.

Lemma count_le_length m : count m <= length m.
Proof. apply filter_length_le. Qed.

Lemma count_repeat_true n : count (repeat true n) = n.
Proof. induction n; simpl; auto. unfold count in *; simpl; lia. Qed.

Lemma length_sel m : forall a,
  length m = length a -> length (sel m a) = count m.
Proof.
  unfold count.
  induction m as [|[] m IH]; intros [|x a] H; simpl in *;
    try discriminate; auto.
Qed.

Lemma length_put m : forall a vs, length (put m a vs) = length a.
Proof.
  induction m as [|[] m IH]; intros [|x a] vs; simpl; auto;
    destruct vs; simpl; f_equal; auto.
Qed.

Lemma length_fill m : forall a (v : A), length (fill m a v) = length a.
Proof. induction m as [|b m IH]; intros [|x a] v; simpl; auto. Qed.

(** Reading back through the mask what was written through it. *)
Lemma sel_put m : forall a vs,
  length m = length a -> length vs = count m -> sel m (put m a vs) = vs.
Proof.
  unfold count.
  induction m as [|[] m IH]; intros [|x a] [|v vs] Hl Hv; simpl in *;
    try discriminate; auto.
  f_equal; auto.
Qed.

(** Writing through a mask leaves the complement alone. *)
Lemma sel_not_put m : forall a vs,
  sel (mask_not m) (put m a vs) = sel (mask_not m) a.
Proof.
  induction m as [|[] m IH]; intros [|x a] vs; simpl; auto.
  - destruct vs; simpl; auto.
  - f_equal; auto.
Qed.

Lemma sel_fill_not m : forall a (v : A),
  sel m (fill (mask_not m) a v) = sel m a.
Proof.
  induction m as [|[] m IH]; intros [|x a] v; simpl; auto.
  f_equal; auto.
Qed.

Lemma sel_repeat_true a : sel (repeat true (length a)) a = a.
Proof. induction a; simpl; congruence. Qed.

Lemma Forall_sel (P : A -> Prop) m : forall a,
  Forall P a -> Forall P (sel m a).
Proof.
  induction m as [|[] m IH]; intros [|x a] H; simpl; auto; inv H; auto.
Qed.

Lemma Forall_put (P : A -> Prop) m : forall a vs,
  Forall P a -> Forall P vs -> Forall P (put m a vs).
Proof.
  induction m as [|[] m IH]; intros [|x a] vs Ha Hv; simpl; auto; inv Ha.
  - destruct vs; [|inv Hv]; auto.
  - auto.
Qed.

(** After [a[~mask] = v], every element satisfies what the selected
    ones and [v] satisfy. *)
Lemma Forall_fill_not (P : A -> Prop) (v : A) m : forall a,
  length m = length a -> Forall P (sel m a) -> P v ->
  Forall P (fill (mask_not m) a v).
Proof.
  induction m as [|[] m IH]; intros [|x a] Hl H Hv; simpl in *;
    try discriminate; auto.
  inv H; auto.
Qed.

(** A test that fails somewhere under the mask strictly shrinks the
    mask when it is and-ed in: the step that makes the repair loop of
    the allocator terminate. *)
Lemma count_mask_and_le m : forall bs, count (mask_and m bs) <= count m.
Proof.
  unfold mask_and, count.
  induction m as [|b m IH]; intros [|c bs]; simpl; try lia.
  specialize (IH bs). destruct b, c; simpl; lia.
Qed.

Lemma count_mask_and_lt (p : A -> bool) m : forall a,
  length m = length a -> forallb p (sel m a) = false ->
  count (mask_and m (map p a)) < count m.
Proof.
  induction m as [|[] m IH]; intros [|x a] Hl H; simpl in *;
    try discriminate; injection Hl as Hl.
  - pose proof (count_mask_and_le m (map p a)) as Hle.
    unfold mask_and, count in *; simpl.
    destruct (p x); simpl in *; [specialize (IH a Hl H)|]; lia.
  - specialize (IH a Hl H). unfold mask_and, count in *; simpl; lia.
Qed.

(** A test that succeeds somewhere under the mask keeps the mask
    inhabited. *)
Lemma count_mask_and_pos (p : A -> bool) m : forall a,
  existsb p (sel m a) = true -> 0 < count (mask_and m (map p a)).
Proof.
  unfold mask_and, count.
  induction m as [|[] m IH]; intros [|x a] H; simpl in *;
    try discriminate; auto.
  destruct (p x); simpl in *; [lia|auto].
Qed.

Lemma length_mask_and m (bs : list bool) :
  length m = length bs -> length (mask_and m bs) = length m.
Proof.
  unfold mask_and. revert bs.
  induction m; intros [|c bs] H; simpl in *; try discriminate; auto.
Qed.
End ArrayLemmas.

Lemma length_map2 {A B C : Type} (f : A -> B -> C) (a : list A) :
  forall b, length a = length b -> length (map2 f a b) = length a.
Proof. induction a; intros [|y b] H; simpl in *; try discriminate; auto. Qed.

Lemma sel_map {A B : Type} (f : A -> B) (m : list bool) : forall a,
  sel m (map f a) = map f (sel m a).
Proof. induction m as [|[] m IH]; intros [|x a]; simpl; auto; f_equal; auto. Qed.

Lemma sel_map2 {A B C : Type} (f : A -> B -> C) (m : list bool) :
  forall a b, sel m (map2 f a b) = map2 f (sel m a) (sel m b).
Proof.
  induction m as [|[] m IH]; intros [|x a] [|y b]; simpl; auto.
  - f_equal; auto.
  - destruct (sel m a); reflexivity.
Qed.

Lemma length_mask_not (m : list bool) : length (mask_not m) = length m.
Proof. apply length_map. Qed.

Lemma Forall_map2 {A B C : Type} (P : A -> Prop) (Q : B -> Prop)
  (R : C -> Prop) (f : A -> B -> C) :
  (forall x y, P x -> Q y -> R (f x y)) ->
  forall a b, Forall P a -> Forall Q b -> Forall R (map2 f a b).
Proof.
  intros Hf a. induction a as [|x a IH]; intros [|y b] Ha Hb; simpl; auto.
  inv Ha. inv Hb. auto.
Qed.

Lemma Forall_repeat {A : Type} (P : A -> Prop) (x : A) (n : nat) :
  P x -> Forall P (repeat x n).
Proof. intros Hx. induction n; simpl; constructor; auto. Qed.

Lemma forallb_Forall {A : Type} (f : A -> bool) (P : A -> Prop) (l : list A) :
  (forall x, f x = true <-> P x) -> forallb f l = true <-> Forall P l.
Proof.
  intros Hf. rewrite forallb_forall, Forall_forall.
  split; intros Hall x Hx; apply Hf; auto.
Qed.

(** The part of an array under the complement of a mask, after
    [a[~mask] = v]. *)
Lemma sel_not_fill_not {A : Type} (m : list bool) : forall (a : list A) v,
  length m = length a ->
  sel (mask_not m) (fill (mask_not m) a v)
  = repeat v (length m - count m).
Proof.
  unfold count.
  induction m as [|[] m IH]; intros [|x a] v Hl; simpl in *;
    try discriminate; auto.
  pose proof (filter_length_le id m).
  rewrite IH by congruence.
  destruct (length (filter id m)) eqn:E; [now rewrite Nat.sub_0_r|].
  destruct (length m - S n) eqn:E'; simpl.
  - replace (length m - n) with 1 by lia. reflexivity.
  - replace (length m - n) with (S (S n0)) by lia. reflexivity.
Qed.

#[export] Hint Rewrite @length_put @length_fill @length_map @repeat_length
  length_mask_not count_repeat_true : arr.
#[export] Hint Rewrite @length_map2 @length_sel @length_mask_and
  using (autorewrite with arr; congruence) : arr.
#[export] Hint Resolve Forall_sel Forall_put Forall_fill_not : arr.

(** Lengths of arrays built from the primitives. *)
Ltac len := autorewrite with arr in *; try congruence; try lia.
