(* ===== verification/Numeric.v ===== *)
(** * Numeric: the numbers of the program

    The program computes with numpy [float64].  Its code is written once,
    over the operations class [Num] (literals, the four operations, the
    two comparisons the source uses).  Theorems that do not depend on
    the arithmetic are proved for every instance, floating point
    included; the others are proved at [Num_Q], exact rational
    arithmetic (the specification speaks of identities "to within
    floating tolerance"; over [Q] they are exact, up to [Qeq]).  The
    instance over IEEE binary64 is in [Binary64].

    [NumOrder] states the two facts about the comparisons that both
    instances have; the theorems proved from it (the sign of the
    amounts routed, the condition under which [swap] returns) hold of
    the doubles as they hold of the rationals.

    This file holds the classes, the [Q] instance, the reduction
    [np.sum] and the lemmas on sums, order and division over [Q] that
    the components share. *)

From Stdlib Require Import List Bool ZArith QArith Lqa Lia Morphisms.
From S2P Require Import Prelude.
Import ListNotations.

(** ** The operations class *)

Class Num (F : Type) : Type := {
  nlit : Z -> F;
  nadd : F -> F -> F;
  nsub : F -> F -> F;
  nmul : F -> F -> F;
  ndiv : F -> F -> F;
  nleb : F -> F -> bool;
  nltb : F -> F -> bool
}.

Declare Scope num_scope.
Delimit Scope num_scope with num.
Notation "0" := (nlit 0%Z) : num_scope.
Notation "x + y" := (nadd x y) : num_scope.
Notation "x - y" := (nsub x y) : num_scope.
Notation "x * y" := (nmul x y) : num_scope.
Notation "x / y" := (ndiv x y) : num_scope.
Notation "x <=? y" := (nleb x y) : num_scope.
Notation "x <? y" := (nltb x y) : num_scope.
Notation "x >=? y" := (nleb y x) (at level 70) : num_scope.
Notation "x >? y" := (nltb y x) (at level 70) : num_scope.

Section Generic.
Context {F : Type} `{Num F}.
Local Open Scope num_scope.

(** [x ** 2] *)
Definition nsqr (x : F) : F := x * x.

(** [np.sum(a)]: accumulation from [0], left to right. *)
Definition nsum (a : list F) : F := fold_left nadd a 0.

(** [np.zeros(n)] *)
Definition zeros (n : nat) : list F := repeat 0 n.

(** [np.all(a >= 0)] *)
Definition all_nonneg (a : list F) : bool := forallb (fun x => x >=? 0) a.

Lemma length_zeros n : length (zeros n) = n.
Proof. apply repeat_length. Qed.
End Generic.

#[export] Hint Rewrite @length_zeros : arr.

(** ** The exact instance *)

Definition Qlt_bool (x y : Q) : bool := negb (Qle_bool y x).

#[export] Instance Num_Q : Num Q := {|
  nlit z := z # 1;
  nadd := Qplus;
  nsub := Qminus;
  nmul := Qmult;
  ndiv := Qdiv;
  nleb := Qle_bool;
  nltb := Qlt_bool
|}.

(** Reads the class operations at [Q] as the operations of [QArith]. *)
Ltac qnum :=
  cbv [nlit nadd nsub nmul ndiv nleb nltb nsqr Num_Q] in *.

Local Open Scope Q_scope.

(** ** Comparisons *)

Lemma Qle_bool_false x y : Qle_bool x y = false <-> y < x.
Proof.
  rewrite <- Bool.not_true_iff_false, Qle_bool_iff. split; intro; lra.
Qed.

Lemma Qlt_bool_iff x y : Qlt_bool x y = true <-> x < y.
Proof. unfold Qlt_bool. rewrite Bool.negb_true_iff. apply Qle_bool_false. Qed.

Lemma Qlt_bool_false x y : Qlt_bool x y = false <-> y <= x.
Proof. unfold Qlt_bool. rewrite Bool.negb_false_iff. apply Qle_bool_iff. Qed.

(** Turns the boolean tests of the code into order facts. *)
Ltac qbool :=
  repeat match goal with
    | H : Qle_bool _ _ = true |- _ => apply Qle_bool_iff in H
    | H : Qle_bool _ _ = false |- _ => apply Qle_bool_false in H
    | H : Qlt_bool _ _ = true |- _ => apply Qlt_bool_iff in H
    | H : Qlt_bool _ _ = false |- _ => apply Qlt_bool_false in H
    | |- Qle_bool _ _ = true => apply Qle_bool_iff
    | |- Qle_bool _ _ = false => apply Qle_bool_false
    | |- Qlt_bool _ _ = true => apply Qlt_bool_iff
    | |- Qlt_bool _ _ = false => apply Qlt_bool_false
    end.

(** ** The order, as far as every instance has it

    Two facts about the comparisons that hold of the rationals and of
    the IEEE doubles alike (NaN included): zero passes [>= 0], and
    [x < y] implies [x <= y].  What is proved from them holds of the
    program as it runs, in floating point. *)

Class NumOrder (F : Type) `{Num F} : Prop := {
  nleb_zero : nleb (nlit 0) (nlit 0) = true;
  nltb_nleb : forall x y : F, nltb x y = true -> nleb x y = true
}.

#[export] Instance NumOrder_Q : NumOrder Q.
Proof.
  split; [reflexivity|]. intros x y Hxy. qnum. qbool. lra.
Qed.

(** ** Order and division *)

Lemma Qdiv_pos a b : 0 < a -> 0 < b -> 0 < a / b.
Proof. intros. apply Qlt_shift_div_l; lra. Qed.

Lemma Qdiv_nonneg a b : 0 <= a -> 0 < b -> 0 <= a / b.
Proof. intros. apply Qle_shift_div_l; lra. Qed.

Lemma Qdiv_cancel a b : 0 < b -> a / b * b == a.
Proof. intros. field. lra. Qed.

Lemma Qsqr_pos a : 0 < a -> 0 < a * a.
Proof. intros. nra. Qed.

Lemma Qmult_pos a b : 0 < a -> 0 < b -> 0 < a * b.
Proof. intros. nra. Qed.

Create HintDb qpos discriminated.
#[export] Hint Resolve Qdiv_pos Qdiv_nonneg Qsqr_pos Qmult_pos Qlt_le_weak
  : qpos.

(** Positivity side conditions. *)
Ltac qpos := solve [ auto 6 with qpos | lra | nra ].

(** ** Sums over [Q] *)

(** Arrays of rationals are compared element by element, up to [Qeq]. *)
Definition Qeq_list : list Q -> list Q -> Prop := Forall2 Qeq.

#[export] Instance Qeq_list_Equivalence : Equivalence Qeq_list.
Proof.
  unfold Qeq_list. split.
  - intros l. induction l; constructor; auto. reflexivity.
  - intros l1 l2 H. induction H; constructor; auto. now symmetry.
  - intros l1 l2 l3 H. revert l3.
    induction H; intros l3 H3; inv H3; constructor; eauto.
    etransitivity; eauto.
Qed.

Lemma fold_left_Qplus (l : list Q) : forall a,
  fold_left Qplus l a == a + fold_left Qplus l 0.
Proof.
  induction l as [|x l IH]; intros a; simpl; [lra|].
  rewrite IH, (IH (0 + x)). lra.
Qed.

Lemma nsum_nil : nsum (@nil Q) == 0.
Proof. reflexivity. Qed.

Lemma nsum_cons (x : Q) l : nsum (x :: l) == x + nsum l.
Proof. unfold nsum; qnum; simpl. rewrite fold_left_Qplus. lra. Qed.

#[export] Instance nsum_Proper : Proper (Qeq_list ==> Qeq) nsum.
Proof.
  intros l1 l2 H. induction H; [reflexivity|].
  rewrite !nsum_cons. now rewrite IHForall2, H.
Qed.

(** [np.sum(a - b) = np.sum(a) - np.sum(b)] *)
Lemma nsum_map2_sub (a : list Q) : forall b,
  length a = length b -> nsum (map2 Qminus a b) == nsum a - nsum b.
Proof.
  induction a as [|x a IH]; intros [|y b] Hl; simpl in *; try discriminate.
  - rewrite nsum_nil. lra.
  - rewrite !nsum_cons, IH by congruence. lra.
Qed.

(** [np.sum(a * c / w) = np.sum(a) * c / w] *)
Lemma nsum_map_scale (c w : Q) (a : list Q) :
  nsum (map (fun x => x * c / w) a) == nsum a * c / w.
Proof.
  induction a as [|x a IH]; simpl.
  - rewrite nsum_nil. unfold Qdiv. lra.
  - rewrite !nsum_cons, IH. unfold Qdiv. lra.
Qed.

Lemma nsum_nonneg (a : list Q) : Forall (fun x => 0 <= x) a -> 0 <= nsum a.
Proof.
  induction 1; [rewrite nsum_nil|rewrite nsum_cons]; lra.
Qed.

Lemma nsum_pos (a : list Q) :
  Forall (fun x => 0 < x) a -> a <> [] -> 0 < nsum a.
Proof.
  induction 1 as [|x a Hx Ha IH]; intros Hne; [congruence|].
  rewrite nsum_cons. destruct a; [rewrite nsum_nil; lra|].
  assert (0 < nsum (q :: a)) by (apply IH; discriminate). lra.
Qed.

(** A non-empty array all of whose elements fail [>= 0] sums below zero:
    the allocator uses the contrapositive. *)
Lemma nsum_neg (a : list Q) :
  Forall (fun x => x < 0) a -> a <> [] -> nsum a < 0.
Proof.
  induction 1 as [|x a Hx Ha IH]; intros Hne; [congruence|].
  rewrite nsum_cons. destruct a; [rewrite nsum_nil; lra|].
  assert (nsum (q :: a) < 0) by (apply IH; discriminate). lra.
Qed.

Lemma all_nonneg_iff (a : list Q) :
  all_nonneg a = true <-> Forall (fun x => 0 <= x) a.
Proof.
  unfold all_nonneg. rewrite forallb_forall, Forall_forall.
  split; intros Hall x Hx; specialize (Hall x Hx); qnum; qbool; auto.
Qed.

(** When the sum is non-negative and the array is not empty, some
    element passes [>= 0]. *)
Lemma exists_nonneg (a : list Q) :
  0 <= nsum a -> a <> [] -> existsb (fun x => nleb 0 x) a = true.
Proof.
  intros Hs Hne.
  destruct (existsb (fun x => nleb 0 x) a) eqn:E; [reflexivity|exfalso].
  assert (Forall (fun x => x < 0) a) as Hall.
  { apply Forall_forall. intros x Hx.
    assert (nleb 0 x = false) as Hf.
    { destruct (nleb 0 x) eqn:Ex; [|reflexivity].
      rewrite <- E. symmetry. apply existsb_exists. eauto. }
    qnum. qbool. auto. }
  pose proof (nsum_neg a Hall Hne). lra.
Qed.

(** Zeroing the complement of a mask leaves the sum under the mask. *)
Lemma nsum_fill_not (m : list bool) : forall a : list Q,
  length m = length a -> nsum (fill (mask_not m) a 0) == nsum (sel m a).
Proof.
  induction m as [|[] m IH]; intros [|x a] Hl; simpl in *;
    try discriminate; try reflexivity;
    rewrite !nsum_cons, ?IH by congruence; lra.
Qed.
