(* ===== verification/ArrayIndex.v ===== *)
(** * ArrayIndex: masked array operations, tier by tier

    [swap] computes on the selected part of each array
    ([a[mask] = f(b[mask], c[mask])]).  This file relates that style to
    the computation on whole arrays followed by a choice per position
    ([np.where(mask, f(b, c), a)], here [where_]), and gives the value
    of every array operation of the program at an index. *)

From Stdlib Require Import List Bool Arith Lia QArith Lqa.
From S2P Require Import Prelude Numeric.
Import ListNotations.

(** Element-wise ternary operation on three arrays of the same shape. *)
Fixpoint map3 {A B C D : Type} (f : A -> B -> C -> D)
  (a : list A) (b : list B) (c : list C) : list D :=
  match a, b, c with
  | x :: a', y :: b', z :: c' => f x y z :: map3 f a' b' c'
  | _, _, _ => []
  end.

(** [np.where(mask, w, a)] *)
Fixpoint where_ {A : Type} (mask : list bool) (w a : list A) : list A :=
  match mask, w, a with
  | b :: m, x :: w', y :: a' => (if b then x else y) :: where_ m w' a'
  | _, _, _ => []
  end.

Section Lemmas.
Context {A B C D : Type}.

Lemma length_map3 (f : A -> B -> C -> D) (a : list A) : forall b c,
  length a = length b -> length a = length c ->
  length (map3 f a b c) = length a.
Proof.
  induction a as [|x a IH]; intros [|y b] [|z c] Hb Hc; simpl in *;
    try discriminate; auto.
Qed.

Lemma sel_map3 (f : A -> B -> C -> D) (m : list bool) : forall a b c,
  length m = length a -> length m = length b -> length m = length c ->
  sel m (map3 f a b c) = map3 f (sel m a) (sel m b) (sel m c).
Proof.
  induction m as [|[] m IH]; intros [|x a] [|y b] [|z c] Ha Hb Hc;
    simpl in *; try discriminate; auto.
  f_equal; auto.
Qed.

Lemma sel_map2_eq (f : A -> B -> C) (m : list bool) (a : list A)
  (b : list B) :
  map2 f (sel m a) (sel m b) = sel m (map2 f a b).
Proof. symmetry. apply sel_map2. Qed.

Lemma length_where (m : list bool) : forall w a : list A,
  length m = length w -> length m = length a ->
  length (where_ m w a) = length m.
Proof.
  induction m as [|b m IH]; intros [|x w] [|y a] Hw Ha; simpl in *;
    try discriminate; auto.
Qed.

(** Writing through the mask what was read through it from [w] is the
    choice, position by position, between [w] and the old array. *)
Lemma put_sel_where (m : list bool) : forall w a : list A,
  length m = length w -> length m = length a ->
  put m a (sel m w) = where_ m w a.
Proof.
  induction m as [|[] m IH]; intros [|x w] [|y a] Hw Ha; simpl in *;
    try discriminate; auto; f_equal; auto.
Qed.

Lemma sel_where (m : list bool) : forall w a : list A,
  length m = length w -> length m = length a ->
  sel m (where_ m w a) = sel m w.
Proof.
  induction m as [|[] m IH]; intros [|x w] [|y a] Hw Ha; simpl in *;
    try discriminate; auto; f_equal; auto.
Qed.

Lemma sel_not_where (m : list bool) : forall w a : list A,
  length m = length w -> length m = length a ->
  sel (mask_not m) (where_ m w a) = sel (mask_not m) a.
Proof.
  induction m as [|[] m IH]; intros [|x w] [|y a] Hw Ha; simpl in *;
    try discriminate; auto; f_equal; auto.
Qed.

Lemma fill_not_where (m : list bool) : forall (a : list A) (v : A),
  length m = length a ->
  fill (mask_not m) a v = where_ m a (repeat v (length m)).
Proof.
  induction m as [|[] m IH]; intros [|x a] v Ha; simpl in *;
    try discriminate; auto; f_equal; auto.
Qed.

(** Choosing twice by the same mask is choosing once. *)
Lemma where_where (m : list bool) : forall w a b : list A,
  length m = length w -> length m = length a -> length m = length b ->
  where_ m (where_ m w a) b = where_ m w b.
Proof.
  induction m as [|[] m IH]; intros [|x w] [|y a] [|z b] Hw Ha Hb;
    simpl in *; try discriminate; auto; f_equal; auto.
Qed.

(** ** Values at an index *)

(** An all-false mask selects nothing and [np.where] keeps the array. *)
Lemma sel_none (m : list bool) : forall a : list A,
  count m = 0%nat -> sel m a = [].
Proof.
  induction m as [|[] m IH]; intros [|x a] Hc; simpl; auto;
    rewrite count_cons in Hc; auto; discriminate.
Qed.

Lemma where_none (m : list bool) : forall w a : list A,
  count m = 0%nat -> length w = length m -> length a = length m ->
  where_ m w a = a.
Proof.
  induction m as [|[] m IH]; intros [|x w] [|y a] Hc Hw Ha;
    simpl in *; try discriminate; auto;
    rewrite count_cons in Hc; try discriminate.
  f_equal. apply IH; auto.
Qed.

(** A test that holds under the mask and of the filler holds of the
    whole array. *)
Lemma forallb_where_repeat (p : A -> bool) (v : A) (m : list bool) :
  forall w : list A,
  length w = length m -> p v = true -> forallb p (sel m w) = true ->
  forallb p (where_ m w (repeat v (length m))) = true.
Proof.
  induction m as [|b m IH]; intros [|x w] Hl Hv Hw; simpl in *;
    try discriminate; auto.
  destruct b; simpl in *.
  - apply andb_true_iff in Hw as [Hx Hw]. rewrite Hx. apply IH; auto.
  - rewrite Hv. apply IH; auto.
Qed.

Lemma nth_where (m : list bool) : forall (w a : list A) (i : nat) (d : A),
  length m = length w -> length m = length a ->
  nth i (where_ m w a) d = if nth i m false then nth i w d else nth i a d.
Proof.
  induction m as [|b m IH]; intros [|x w] [|y a] [|i] d Hw Ha; simpl in *;
    try discriminate; auto.
Qed.

(** Where the mask does not hold, [np.where] gives the old element. *)
Lemma nth_where_off (m : list bool) (w a : list A) (i : nat) (d : A) :
  length m = length w -> length m = length a -> nth i m false = false ->
  nth i (where_ m w a) d = nth i a d.
Proof. intros Hw Ha Hi. now rewrite nth_where, Hi. Qed.

Lemma nth_map2 (f : A -> B -> C) (a : list A) :
  forall (b : list B) (i : nat) (da : A) (db : B) (dc : C),
  length a = length b -> (i < length a)%nat ->
  nth i (map2 f a b) dc = f (nth i a da) (nth i b db).
Proof.
  induction a as [|x a IH]; intros [|y b] [|i] da db dc Hb Hi; simpl in *;
    try discriminate; try lia; auto.
  apply IH; auto. lia.
Qed.

Lemma nth_map3 (f : A -> B -> C -> D) (a : list A) :
  forall (b : list B) (c : list C) (i : nat) (da : A) (db : B) (dc : C)
         (dd : D),
  length a = length b -> length a = length c -> (i < length a)%nat ->
  nth i (map3 f a b c) dd = f (nth i a da) (nth i b db) (nth i c dc).
Proof.
  induction a as [|x a IH]; intros [|y b] [|z c] [|i] da db dc dd Hb Hc Hi;
    simpl in *; try discriminate; try lia; auto.
  apply IH; auto. lia.
Qed.

Lemma nth_map_lt (f : A -> B) (a : list A) (i : nat) (da : A) (db : B) :
  (i < length a)%nat -> nth i (map f a) db = f (nth i a da).
Proof.
  intros Hi. rewrite (nth_indep _ db (f da)) by now rewrite length_map.
  apply map_nth.
Qed.

(** A property of every element, from its statement at every index. *)
Lemma Forall_nth_at (P : A -> Prop) (a : list A) (i : nat) (d : A) :
  Forall P a -> (i < length a)%nat -> P (nth i a d).
Proof. intros Ha Hi. now apply Forall_nth. Qed.

Lemma Forall_nth_lt (P : A -> Prop) (a : list A) (d : A) :
  (forall i, (i < length a)%nat -> P (nth i a d)) -> Forall P a.
Proof.
  intros Hn. apply Forall_forall. intros x Hx.
  destruct (In_nth a x d Hx) as (i & Hi & <-). auto.
Qed.

Lemma Forall2_nth_lt (R : A -> B -> Prop) (a : list A) :
  forall (b : list B) (da : A) (db : B),
  length a = length b ->
  (forall i, (i < length a)%nat -> R (nth i a da) (nth i b db)) ->
  Forall2 R a b.
Proof.
  induction a as [|x a IH]; intros [|y b] da db Hl Hn; simpl in *;
    try discriminate; constructor.
  - apply (Hn 0%nat). lia.
  - apply (IH b da db); [congruence|]. intros i Hi. apply (Hn (S i)). lia.
Qed.
End Lemmas.

#[export] Hint Rewrite @length_map3 @length_where
  using (autorewrite with arr; congruence) : arr.

(** ** From the masked style to the whole-array style *)

Lemma put_map2_sel {A B C : Type} (f : A -> B -> C) (m : list bool)
  (a : list C) (b : list A) (c : list B) :
  length m = length a -> length m = length b -> length m = length c ->
  put m a (map2 f (sel m b) (sel m c)) = where_ m (map2 f b c) a.
Proof.
  intros Ha Hb Hc. rewrite sel_map2_eq. apply put_sel_where; auto.
  rewrite length_map2; congruence.
Qed.

Lemma put_map3_sel {A B C D : Type} (f : A -> B -> C -> D) (m : list bool)
  (a : list D) (b : list A) (c : list B) (d : list C) :
  length m = length a -> length m = length b -> length m = length c ->
  length m = length d ->
  put m a (map3 f (sel m b) (sel m c) (sel m d)) = where_ m (map3 f b c d) a.
Proof.
  intros Ha Hb Hc Hd. rewrite <- sel_map3 by auto. apply put_sel_where; auto.
  rewrite length_map3; congruence.
Qed.

(** ** Properties of every element *)

Lemma Forall_where {A : Type} (P : A -> Prop) (m : list bool) :
  forall w a : list A,
  Forall P w -> Forall P a -> Forall P (where_ m w a).
Proof.
  induction m as [|b m IH]; intros [|x w] [|y a] Hw Ha; simpl; auto.
  inv Hw. inv Ha. constructor; auto. now destruct b.
Qed.

Lemma Forall_map3 {A B C D : Type} (P : A -> Prop) (Q : B -> Prop)
  (R : C -> Prop) (S : D -> Prop) (f : A -> B -> C -> D) :
  (forall x y z, P x -> Q y -> R z -> S (f x y z)) ->
  forall a b c, Forall P a -> Forall Q b -> Forall R c ->
                Forall S (map3 f a b c).
Proof.
  intros Hf a. induction a as [|x a IH]; intros [|y b] [|z c] Ha Hb Hc;
    simpl; auto.
  inv Ha. inv Hb. inv Hc. auto.
Qed.

(** A relation between an array and what [where_] makes of it. *)
Lemma Forall2_where_r {A : Type} (R : A -> A -> Prop) (m : list bool) :
  forall w a : list A,
  length m = length a ->
  Forall2 R a w -> Forall2 R a a -> Forall2 R a (where_ m w a).
Proof.
  induction m as [|b m IH]; intros [|x w] [|y a] Hl Hw Ha; simpl in *;
    try discriminate; try constructor; inv Hw; inv Ha; auto.
  now destruct b.
Qed.

Lemma Forall2_map2_r {A B : Type} (R : A -> A -> Prop) (f : A -> B -> A)
  (P : B -> Prop) :
  (forall x y, P y -> R x (f x y)) ->
  forall (a : list A) (b : list B),
  length a = length b -> Forall P b -> Forall2 R a (map2 f a b).
Proof.
  intros Hf a. induction a as [|x a IH]; intros [|y b] Hl Hb; simpl in *;
    try discriminate; constructor; inv Hb; auto.
Qed.

(** ** Sums *)

Local Open Scope Q_scope.

(** What [where_] leaves at zero does not count. *)
Lemma nsum_where_zeros (m : list bool) : forall (w : list Q),
  length m = length w ->
  nsum (where_ m w (zeros (length m))) == nsum (sel m w).
Proof.
  induction m as [|b m IH]; intros [|x w] Hl; simpl in *;
    try discriminate; try reflexivity.
  unfold zeros in *; simpl. destruct b; rewrite !nsum_cons, ?IH by congruence.
  - reflexivity.
  - qnum. lra.
Qed.

Lemma nsum_nonpos (a : list Q) : Forall (fun v => v <= 0) a -> nsum a <= 0.
Proof. induction 1; [rewrite nsum_nil|rewrite nsum_cons]; lra. Qed.

Lemma nsum_nonpos_neg (a : list Q) :
  Forall (fun v => v <= 0) a -> Exists (fun v => v < 0) a -> nsum a < 0.
Proof.
  induction 1 as [|v a Hv Ha IH]; intros He; inv He; rewrite nsum_cons.
  - pose proof (nsum_nonpos a Ha). lra.
  - specialize (IH H0). lra.
Qed.

(** A sum of non-negative numbers that is positive has a positive term. *)
Lemma nsum_pos_exists (a : list Q) :
  Forall (fun v => 0 <= v) a -> 0 < nsum a -> Exists (fun v => 0 < v) a.
Proof.
  induction 1 as [|v a Hv Ha IH]; intros Hs.
  - rewrite nsum_nil in Hs. lra.
  - rewrite nsum_cons in Hs.
    destruct (Qlt_le_dec 0 v); [now left|right]. apply IH. lra.
Qed.

(** The same, by index. *)
Lemma nsum_pos_index (a : list Q) :
  Forall (fun v => 0 <= v) a -> 0 < nsum a ->
  exists i, (i < length a)%nat /\ 0 < nth i a 0.
Proof.
  intros Ha Hs.
  apply (nsum_pos_exists a Ha) in Hs. apply Exists_exists in Hs.
  destruct Hs as (v & Hin & Hv). destruct (In_nth a v 0 Hin) as (i & Hi & <-).
  exists i. auto.
Qed.

Lemma nsum_neg_index (a : list Q) (i : nat) :
  Forall (fun v => v <= 0) a -> (i < length a)%nat -> nth i a 0 < 0 ->
  nsum a < 0.
Proof.
  intros Ha Hi Hn. apply nsum_nonpos_neg; auto.
  apply Exists_exists. exists (nth i a 0). split; [now apply nth_In|auto].
Qed.

(** A sum of terms each between [lo] and [hi] times a non-negative
    weight lies between [lo] and [hi] times the sum of the weights. *)
Lemma nsum_between (lo hi : Q) (f : list Q) : forall x : list Q,
  length f = length x ->
  (forall i, (i < length x)%nat ->
     0 <= nth i x 0 /\ lo * nth i x 0 <= nth i f 0 <= hi * nth i x 0) ->
  lo * nsum x <= nsum f <= hi * nsum x.
Proof.
  induction f as [|v f IH]; intros [|w x] Hl Hb; simpl in *;
    try discriminate.
  - rewrite nsum_nil. lra.
  - rewrite !nsum_cons.
    destruct (Hb 0%nat) as (? & ? & ?); [lia|].
    destruct (IH x) as [? ?]; [congruence| |lra].
    intros i Hi. apply (Hb (S i)). lia.
Qed.

(** Sums compared index by index. *)
Lemma nsum_nth_le (a : list Q) : forall b : list Q,
  length a = length b ->
  (forall i, (i < length a)%nat -> nth i a 0 <= nth i b 0) ->
  nsum a <= nsum b.
Proof.
  induction a as [|x a IH]; intros [|y b] Hl Hn; simpl in *;
    try discriminate.
  rewrite !nsum_cons. specialize (IH b).
  pose proof (Hn 0%nat) as H0. simpl in H0.
  assert (nsum a <= nsum b)
    by (apply IH; [congruence|]; intros i Hi; apply (Hn (S i)); lia).
  assert (x <= y) by (apply H0; lia). lra.
Qed.

Lemma nsum_nth_eq (a b : list Q) :
  length a = length b ->
  (forall i, (i < length a)%nat -> nth i a 0 == nth i b 0) ->
  nsum a == nsum b.
Proof.
  intros Hl Hn. apply Qle_antisym; apply nsum_nth_le; auto.
  - intros i Hi. rewrite Hn by auto. apply Qle_refl.
  - intros i Hi. rewrite Hn by congruence. apply Qle_refl.
Qed.

(** [np.sum(c * a) = c * np.sum(a)] *)
Lemma nsum_map_mult (c : Q) (a : list Q) :
  nsum (map (Qmult c) a) == c * nsum a.
Proof.
  induction a as [|x a IH]; simpl; rewrite ?nsum_cons, ?nsum_nil, ?IH; lra.
Qed.

Lemma nsum_map_opp (a : list Q) : nsum (map Qopp a) == - nsum a.
Proof.
  induction a as [|x a IH]; simpl; rewrite ?nsum_cons, ?nsum_nil, ?IH; lra.
Qed.

Lemma nsum_nth_lt (a : list Q) : forall (b : list Q) (j : nat),
  length a = length b ->
  (forall i, (i < length a)%nat -> nth i a 0 <= nth i b 0) ->
  (j < length a)%nat -> nth j a 0 < nth j b 0 ->
  nsum a < nsum b.
Proof.
  induction a as [|x a IH]; intros [|y b] j Hl Hn Hj Hlt; simpl in *;
    try discriminate; try lia.
  rewrite !nsum_cons.
  assert (x <= y) by (apply (Hn 0%nat); lia).
  assert (forall i, (i < length a)%nat -> nth i a 0 <= nth i b 0) as Hn'
    by (intros i Hi; apply (Hn (S i)); lia).
  destruct j as [|j].
  - assert (nsum a <= nsum b) by (apply nsum_nth_le; auto). lra.
  - assert (nsum a < nsum b) by (apply (IH b j); auto; lia). lra.
Qed.

(** A term of a sum of non-negative numbers is at most the sum. *)
Lemma nth_le_nsum (a : list Q) : forall i : nat,
  Forall (fun v => 0 <= v) a -> nth i a 0 <= nsum a.
Proof.
  induction a as [|x a IH]; intros [|i] Ha; simpl;
    rewrite ?nsum_nil, ?nsum_cons; try apply Qle_refl; inv Ha.
  - pose proof (nsum_nonneg a H2). lra.
  - specialize (IH i H2). lra.
Qed.
