(* ===== verification/PriceAlgebra.v ===== *)
(** * PriceAlgebra: the closed-form price and amount formulas

    Models the two module-level functions of [src/muffin_fullrange.py],
    [calc_sqrt_p_from_amt] (lines 100-106) and [calc_amt_from_sqrt_p]
    (lines 109-115), over the operations class [Num]; numpy applies them
    element by element, so the scalar function is the model and [swap]
    maps it over the selected tiers.

    The theorems are about the exact instance.  They show that a tier is
    a constant-product market maker on its virtual reserves
    [L / sqrt_p] and [L * sqrt_p] (the abstract specification
    [cpmm_sell]), that the price moves in the direction of the trade and
    stays positive, that the amount implied by the price move is the
    amount that moved the price (round trip), and that the amount the
    code computes for the token leaving the pool is not positive. *)

From Stdlib Require Import List Bool ZArith QArith Lqa Lia Morphisms.
From S2P Require Import Prelude Numeric.
Import ListNotations.

Section Code.
Context {F : Type} `{Num F}.
Local Open Scope num_scope.

Definition calc_sqrt_p_from_amt (is_token0 : bool) (sqrt_p0 liquidity amt : F)
  : F :=
  if is_token0
  then (liquidity * sqrt_p0) / (liquidity + (amt * sqrt_p0))
  else sqrt_p0 + (amt / liquidity).

Definition calc_amt_from_sqrt_p (is_token0 : bool)
  (sqrt_p0 sqrt_p1 liquidity : F) : F :=
  if is_token0
  then liquidity * (sqrt_p0 - sqrt_p1) / (sqrt_p0 * sqrt_p1)
  else liquidity * (sqrt_p1 - sqrt_p0).
End Code.

Local Open Scope Q_scope.

(** ** Abstract specification: a constant-product pair of reserves *)

Record reserves : Type := { r_in : Q; r_out : Q }.

Definition reserves_eq (r s : reserves) : Prop :=
  r_in r == r_in s /\ r_out r == r_out s.

#[export] Instance reserves_eq_Equivalence : Equivalence reserves_eq.
Proof.
  unfold reserves_eq. split.
  - intros r. split; reflexivity.
  - intros r s [? ?]. split; now symmetry.
  - intros r s t [? ?] [? ?]. split; etransitivity; eauto.
Qed.

(** The virtual reserves of a tier seen from the token being sold:
    selling token0 adds to [L / sqrt_p] and takes from [L * sqrt_p];
    selling token1 is the mirror image. *)
Definition reserves_of (is_token0 : bool) (liquidity sqrt_p : Q) : reserves :=
  if is_token0
  then {| r_in := liquidity / sqrt_p; r_out := liquidity * sqrt_p |}
  else {| r_in := liquidity * sqrt_p; r_out := liquidity / sqrt_p |}.

(** Selling [a] into a constant-product pair: the product of the reserves
    is kept. *)
Definition cpmm_sell (r : reserves) (a : Q) : reserves :=
  {| r_in := r_in r + a; r_out := r_in r * r_out r / (r_in r + a) |}.

(** What the pair pays out for [a]. *)
Definition cpmm_out (r : reserves) (a : Q) : Q :=
  r_out r * a / (r_in r + a).

(** ** Shared facts *)

Section Facts.
Variables (p L a : Q).
Hypotheses (Hp : 0 < p) (HL : 0 < L) (Ha : 0 <= a).

Lemma denom_pos : 0 < L + a * p.
Proof using All. nra. Qed.

Lemma sqrt_p_token0_eq :
  calc_sqrt_p_from_amt true p L a * (L + a * p) == L * p.
Proof using All.
  unfold calc_sqrt_p_from_amt; qnum. apply Qdiv_cancel, denom_pos.
Qed.

Lemma sqrt_p_token1_eq :
  calc_sqrt_p_from_amt false p L a * L == p * L + a.
Proof using All. unfold calc_sqrt_p_from_amt; qnum. field. lra. Qed.

Lemma sqrt_p_pos (z : bool) : 0 < calc_sqrt_p_from_amt z p L a.
Proof using All.
  destruct z.
  - pose proof denom_pos. pose proof sqrt_p_token0_eq. nra.
  - pose proof sqrt_p_token1_eq. nra.
Qed.
End Facts.

#[export] Hint Resolve denom_pos sqrt_p_pos : qpos.

(** ** The formulas respect equality of rationals *)

#[export] Instance calc_sqrt_p_from_amt_Proper :
  Proper (eq ==> Qeq ==> Qeq ==> Qeq ==> Qeq) calc_sqrt_p_from_amt.
Proof.
  intros z ? <- p p' Hp L L' HL a a' Ha.
  destruct z; unfold calc_sqrt_p_from_amt; qnum; now rewrite Hp, HL, Ha.
Qed.

#[export] Instance calc_amt_from_sqrt_p_Proper :
  Proper (eq ==> Qeq ==> Qeq ==> Qeq ==> Qeq) calc_amt_from_sqrt_p.
Proof.
  intros z ? <- p p' Hp q q' Hq L L' HL.
  destruct z; unfold calc_amt_from_sqrt_p; qnum; now rewrite Hp, Hq, HL.
Qed.

(** ** Nothing in, nothing moves *)

Lemma sqrt_p_of_zero (z : bool) (p L : Q) :
  0 < p -> 0 < L -> calc_sqrt_p_from_amt z p L 0 == p.
Proof.
  intros Hp HL. destruct z; unfold calc_sqrt_p_from_amt; qnum; field; lra.
Qed.

Lemma amt_of_no_move (z : bool) (p L : Q) :
  0 < p -> calc_amt_from_sqrt_p z p p L == 0.
Proof.
  intros Hp. destruct z; unfold calc_amt_from_sqrt_p; qnum; field; lra.
Qed.

(** ** Direction of the price move *)

Lemma sqrt_p_token0_le (p L a : Q) :
  0 < p -> 0 < L -> 0 <= a -> calc_sqrt_p_from_amt true p L a <= p.
Proof.
  intros Hp HL Ha. pose proof (denom_pos p L a Hp HL Ha).
  pose proof (sqrt_p_token0_eq p L a Hp HL Ha). nra.
Qed.

Lemma sqrt_p_token0_decreases (p L a : Q) :
  0 < p -> 0 < L -> 0 < a -> 0 < calc_sqrt_p_from_amt true p L a < p.
Proof.
  intros Hp HL Ha. split; [apply sqrt_p_pos; lra|].
  assert (0 <= a) as Ha' by lra. pose proof (denom_pos p L a Hp HL Ha').
  pose proof (sqrt_p_token0_eq p L a Hp HL Ha').
  assert (0 < a * p * p) by (apply Qmult_pos; auto with qpos). nra.
Qed.

Lemma sqrt_p_token0_decreases_witness :
  0 < calc_sqrt_p_from_amt true 1 10000 1000 < 1.
Proof. apply sqrt_p_token0_decreases; reflexivity. Defined.

Lemma sqrt_p_token1_increases (p L a : Q) :
  0 < p -> 0 < L -> 0 < a -> p < calc_sqrt_p_from_amt false p L a.
Proof.
  intros Hp HL Ha. assert (0 <= a) as Ha' by lra.
  pose proof (sqrt_p_token1_eq p L a Hp HL Ha'). nra.
Qed.

Lemma sqrt_p_token1_increases_witness :
  1 < calc_sqrt_p_from_amt false 1 10000 1000.
Proof. apply sqrt_p_token1_increases; reflexivity. Defined.

(** Selling more token0 moves the price further down:
    calc_sqrt_p_from_amt is strictly decreasing in the amount. *)
Lemma sqrt_p_token0_antitone (p L a1 a2 : Q) :
  0 < p -> 0 < L -> 0 <= a1 -> a1 < a2 ->
  calc_sqrt_p_from_amt true p L a2 < calc_sqrt_p_from_amt true p L a1.
Proof.
  intros Hp HL H1 H12. assert (0 <= a2) as H2 by lra.
  pose proof (denom_pos p L a1 Hp HL H1).
  pose proof (denom_pos p L a2 Hp HL H2).
  pose proof (sqrt_p_token0_eq p L a1 Hp HL H1) as E1.
  pose proof (sqrt_p_token0_eq p L a2 Hp HL H2) as E2.
  pose proof (sqrt_p_pos p L a1 Hp HL H1 true) as P1.
  pose proof (sqrt_p_pos p L a2 Hp HL H2 true) as P2.
  set (q1 := calc_sqrt_p_from_amt true p L a1) in *.
  set (q2 := calc_sqrt_p_from_amt true p L a2) in *.
  clearbody q1 q2.
  assert (q1 * q2 * ((a2 - a1) * p) == (q1 - q2) * (L * p)) as E.
  { transitivity (q1 * (q2 * (L + a2 * p)) - q2 * (q1 * (L + a1 * p)));
      [ring | rewrite E1, E2; ring]. }
  assert (0 < q1 * q2 * ((a2 - a1) * p)) by (repeat apply Qmult_pos; lra).
  assert (0 < L * p) by (apply Qmult_pos; lra).
  nra.
Qed.

Lemma sqrt_p_token0_antitone_witness :
  calc_sqrt_p_from_amt true 1 10000 2000
  < calc_sqrt_p_from_amt true 1 10000 1000.
Proof. apply sqrt_p_token0_antitone; lra. Defined.

(** ** Round trip and the constant-product specification *)

(** C15: The amount of the sold token that calc_amt_from_sqrt_p derives
    from the price move made by calc_sqrt_p_from_amt is the amount that
    was put in, for both tokens. *)
Lemma amt_of_price_move (z : bool) (p L a : Q) :
  0 < p -> 0 < L -> 0 <= a ->
  calc_amt_from_sqrt_p z p (calc_sqrt_p_from_amt z p L a) L == a.
Proof.
  intros Hp HL Ha. pose proof (denom_pos p L a Hp HL Ha).
  destruct z; unfold calc_amt_from_sqrt_p, calc_sqrt_p_from_amt; qnum;
    field; repeat split; lra.
Qed.

Lemma amt_of_price_move_witness :
  calc_amt_from_sqrt_p true 1 (calc_sqrt_p_from_amt true 1 10000 1000) 10000
  == 1000.
Proof. apply amt_of_price_move; lra. Defined.

(** The price update is the constant-product sale on the virtual
    reserves. *)
Lemma price_update_refines_cpmm (z : bool) (p L a : Q) :
  0 < p -> 0 < L -> 0 <= a ->
  reserves_eq (reserves_of z L (calc_sqrt_p_from_amt z p L a))
              (cpmm_sell (reserves_of z L p) a).
Proof.
  intros Hp HL Ha. pose proof (denom_pos p L a Hp HL Ha).
  assert (0 < L * p + a) by nra.
  destruct z; unfold reserves_eq, reserves_of, cpmm_sell,
    calc_sqrt_p_from_amt; qnum; simpl; split; field; repeat split; lra.
Qed.

Lemma price_update_refines_cpmm_witness :
  reserves_eq (reserves_of true 10000 (calc_sqrt_p_from_amt true 1 10000 1000))
              (cpmm_sell (reserves_of true 10000 1) 1000).
Proof. apply price_update_refines_cpmm; lra. Defined.

(** The amount [swap] computes for the token that leaves the pool is the
    constant-product payout, negated. *)
Lemma amt_out_is_cpmm_out (z : bool) (p L a : Q) :
  0 < p -> 0 < L -> 0 <= a ->
  calc_amt_from_sqrt_p (negb z) p (calc_sqrt_p_from_amt z p L a) L
  == - cpmm_out (reserves_of z L p) a.
Proof.
  intros Hp HL Ha. pose proof (denom_pos p L a Hp HL Ha).
  assert (0 < L * p + a) by nra.
  destruct z; unfold cpmm_out, reserves_of, calc_amt_from_sqrt_p,
    calc_sqrt_p_from_amt; qnum; simpl; field; repeat split; lra.
Qed.

Lemma amt_out_is_cpmm_out_witness :
  calc_amt_from_sqrt_p false 1 (calc_sqrt_p_from_amt true 1 10000 1000) 10000
  == - cpmm_out (reserves_of true 10000 1) 1000.
Proof. apply (amt_out_is_cpmm_out true); lra. Defined.

Lemma cpmm_out_bounds (r : reserves) (a : Q) :
  0 < r_in r -> 0 < r_out r -> 0 < a -> 0 < cpmm_out r a < r_out r.
Proof.
  intros Hi Ho Ha. unfold cpmm_out. split.
  - apply Qdiv_pos; [apply Qmult_pos|]; lra.
  - apply Qlt_shift_div_r; nra.
Qed.

Lemma reserves_of_pos (z : bool) (p L : Q) :
  0 < p -> 0 < L ->
  0 < r_in (reserves_of z L p) /\ 0 < r_out (reserves_of z L p).
Proof. intros. destruct z; simpl; split; auto with qpos. Qed.

Lemma cpmm_out_range (r : reserves) (a : Q) :
  0 < r_in r -> 0 < r_out r -> 0 <= a -> 0 <= cpmm_out r a < r_out r.
Proof.
  intros Hi Ho Ha. unfold cpmm_out. split.
  - apply Qdiv_nonneg; nra.
  - apply Qlt_shift_div_r; nra.
Qed.

(** The spot price of the token sold, in units of the token bought:
    the ratio of the reserves, [sqrt_p^2] for token0 and its inverse
    for token1. *)
Definition spot (is_token0 : bool) (sqrt_p : Q) : Q :=
  if is_token0 then sqrt_p * sqrt_p else / (sqrt_p * sqrt_p).

Lemma spot_pos (z : bool) (p : Q) : 0 < p -> 0 < spot z p.
Proof.
  intros Hp. assert (0 < p * p) by nra.
  destruct z; simpl; auto. now apply Qinv_lt_0_compat.
Qed.

Lemma spot_reserves (z : bool) (p L : Q) :
  0 < p -> 0 < L ->
  r_out (reserves_of z L p) / r_in (reserves_of z L p) == spot z p.
Proof. intros Hp HL. destruct z; simpl; field; split; lra. Qed.

(** A constant-product pair never pays better than its spot price, and
    pays strictly worse for any positive amount. *)
Lemma cpmm_out_below_spot (r : reserves) (a : Q) :
  0 < r_in r -> 0 < r_out r -> 0 <= a ->
  cpmm_out r a <= a * (r_out r / r_in r)
  /\ (0 < a -> cpmm_out r a < a * (r_out r / r_in r)).
Proof.
  intros Hi Ho Ha. unfold cpmm_out.
  assert (a * (r_out r / r_in r) - r_out r * a / (r_in r + a)
          == a * a * r_out r / (r_in r * (r_in r + a))) as E
    by (field; split; lra).
  assert (0 < r_in r * (r_in r + a)) as Hd by nra.
  split; [|intros Hpos].
  - assert (0 <= a * a * r_out r / (r_in r * (r_in r + a)))
      by (apply Qdiv_nonneg; nra). lra.
  - assert (0 < a * a * r_out r / (r_in r * (r_in r + a)))
      by (apply Qdiv_pos; auto; repeat apply Qmult_pos; auto). lra.
Qed.

(** Whatever comes in, the payout is not positive and stays below the
    reserve it is paid from. *)
Lemma amt_out_range (z : bool) (p L a : Q) :
  0 < p -> 0 < L -> 0 <= a ->
  - r_out (reserves_of z L p)
  < calc_amt_from_sqrt_p (negb z) p (calc_sqrt_p_from_amt z p L a) L <= 0.
Proof.
  intros Hp HL Ha. rewrite amt_out_is_cpmm_out by lra.
  destruct (reserves_of_pos z p L Hp HL) as [Hi Ho].
  pose proof (cpmm_out_range _ a Hi Ho Ha). lra.
Qed.

(** The amount computed for the token leaving the pool is negative, and
    smaller in magnitude than the reserve it is paid from. *)
Lemma amt_out_negative (z : bool) (p L a : Q) :
  0 < p -> 0 < L -> 0 < a ->
  - r_out (reserves_of z L p)
  < calc_amt_from_sqrt_p (negb z) p (calc_sqrt_p_from_amt z p L a) L < 0.
Proof.
  intros Hp HL Ha. rewrite amt_out_is_cpmm_out by lra.
  destruct (reserves_of_pos z p L Hp HL) as [Hi Ho].
  pose proof (cpmm_out_bounds _ a Hi Ho Ha). lra.
Qed.

Lemma amt_out_negative_witness :
  - r_out (reserves_of true 10000 1)
  < calc_amt_from_sqrt_p false 1 (calc_sqrt_p_from_amt true 1 10000 1000) 10000
  < 0.
Proof. apply (amt_out_negative true); lra. Defined.
