(* ===== verification/PoolState.v ===== *)
(** * PoolState: the per-tier arrays of a pool

    Models [class Pool] of [src/muffin_fullrange.py]: its fields (lines
    4-10), the constructor [__init__] (lines 12-18) with its default
    arguments, and the two read-only properties [prices] (lines 20-22)
    and [price] (lines 24-29).

    The constructor validates nothing, so validity is a predicate of the
    development: [wf_pool] (all arrays of length [size], liquidity and
    prices positive, [0 < sqrt_gamma <= 1], fee growth non-negative),
    with its boolean counterpart [wf_poolb].  The theorems say when the
    constructor establishes it, and that the combined price is a weighted
    mean of the tier prices. *)

From Stdlib Require Import List Bool Arith ZArith QArith Lqa Lia Morphisms.
From S2P Require Import Prelude Numeric.
Import ListNotations.

(** ** State *)

Record Pool (F : Type) : Type := mkPool {
  size : nat;
  liquidity_arr : list F;
  sqrt_p_arr : list F;
  sqrt_gamma_arr : list F;
  fee0_growth_arr : list F;
  fee1_growth_arr : list F
}.

Arguments mkPool {F}.
Arguments size {F}.
Arguments liquidity_arr {F}.
Arguments sqrt_p_arr {F}.
Arguments sqrt_gamma_arr {F}.
Arguments fee0_growth_arr {F}.
Arguments fee1_growth_arr {F}.

Section Code.
Context {F : Type} `{Num F}.
Local Open Scope num_scope.

Definition __init__ (liquidity_arr sqrt_gamma_arr : list F) (sqrt_p : F)
  : Pool F :=
  let size := length liquidity_arr in
  {| size := size;
     sqrt_gamma_arr := sqrt_gamma_arr;
     liquidity_arr := liquidity_arr;
     sqrt_p_arr := repeat sqrt_p (length liquidity_arr);
     fee0_growth_arr := repeat 0 size;
     fee1_growth_arr := repeat 0 size |}.

(** The default arguments of the constructor: [[10000, 10000]],
    [[0.9985, 0.9997]] and [1.0].  A decimal literal is the quotient of
    two integer literals. *)
Definition default_liquidity_arr : list F := [nlit 10000; nlit 10000].
Definition default_sqrt_gamma_arr : list F :=
  [nlit 9985 / nlit 10000; nlit 9997 / nlit 10000].
Definition default_sqrt_p : F := nlit 1.

Definition default_pool : Pool F :=
  __init__ default_liquidity_arr default_sqrt_gamma_arr default_sqrt_p.

Definition prices (self : Pool F) : list F := map nsqr (sqrt_p_arr self).

Definition price (self : Pool F) : F :=
  nsum (map2 nmul (prices self) (liquidity_arr self))
  / nsum (liquidity_arr self).

(** The arrays numpy combines element by element have one shape. *)
Definition shape_ok (self : Pool F) : bool :=
  (length (liquidity_arr self) =? size self)%nat
  && (length (sqrt_p_arr self) =? size self)%nat
  && (length (sqrt_gamma_arr self) =? size self)%nat
  && (length (fee0_growth_arr self) =? size self)%nat
  && (length (fee1_growth_arr self) =? size self)%nat.
End Code.

Local Open Scope Q_scope.

(** ** Validity *)

Record wf_pool (pool : Pool Q) : Prop := {
  wf_len_liquidity : length (liquidity_arr pool) = size pool;
  wf_len_sqrt_p : length (sqrt_p_arr pool) = size pool;
  wf_len_sqrt_gamma : length (sqrt_gamma_arr pool) = size pool;
  wf_len_fee0 : length (fee0_growth_arr pool) = size pool;
  wf_len_fee1 : length (fee1_growth_arr pool) = size pool;
  wf_liquidity : Forall (fun l => 0 < l) (liquidity_arr pool);
  wf_sqrt_p : Forall (fun p => 0 < p) (sqrt_p_arr pool);
  wf_sqrt_gamma : Forall (fun g => 0 < g <= 1) (sqrt_gamma_arr pool);
  wf_fee0 : Forall (fun f => 0 <= f) (fee0_growth_arr pool);
  wf_fee1 : Forall (fun f => 0 <= f) (fee1_growth_arr pool)
}.

Definition wf_poolb (pool : Pool Q) : bool :=
  shape_ok pool
  && forallb (fun l => Qlt_bool 0 l) (liquidity_arr pool)
  && forallb (fun p => Qlt_bool 0 p) (sqrt_p_arr pool)
  && forallb (fun g => Qlt_bool 0 g && Qle_bool g 1) (sqrt_gamma_arr pool)
  && forallb (fun f => Qle_bool 0 f) (fee0_growth_arr pool)
  && forallb (fun f => Qle_bool 0 f) (fee1_growth_arr pool).

Lemma shape_ok_iff {F : Type} (pool : Pool F) :
  shape_ok pool = true <->
  length (liquidity_arr pool) = size pool
  /\ length (sqrt_p_arr pool) = size pool
  /\ length (sqrt_gamma_arr pool) = size pool
  /\ length (fee0_growth_arr pool) = size pool
  /\ length (fee1_growth_arr pool) = size pool.
Proof.
  unfold shape_ok. rewrite !andb_true_iff, !Nat.eqb_eq. tauto.
Qed.

Lemma wf_shape_ok (pool : Pool Q) : wf_pool pool -> shape_ok pool = true.
Proof. intros []. apply shape_ok_iff. auto. Qed.

Lemma wf_poolb_iff (pool : Pool Q) : wf_poolb pool = true <-> wf_pool pool.
Proof.
  unfold wf_poolb. rewrite !andb_true_iff, shape_ok_iff.
  rewrite (forallb_Forall _ (fun l => 0 < l)) by (intro; apply Qlt_bool_iff).
  rewrite (forallb_Forall _ (fun p => 0 < p)) by (intro; apply Qlt_bool_iff).
  rewrite (forallb_Forall _ (fun g => 0 < g <= 1))
    by (intro; now rewrite andb_true_iff, Qlt_bool_iff, Qle_bool_iff).
  rewrite !(forallb_Forall _ (fun f => 0 <= f)) by (intro; apply Qle_bool_iff).
  split; [intros [[[[[(?&?&?&?&?) ?] ?] ?] ?] ?]; constructor; auto|].
  intros []. tauto.
Qed.

Create HintDb pool discriminated.
#[export] Hint Resolve wf_len_liquidity wf_len_sqrt_p wf_len_sqrt_gamma
  wf_len_fee0 wf_len_fee1 wf_liquidity wf_sqrt_p wf_sqrt_gamma wf_fee0
  wf_fee1 wf_shape_ok : pool.

(** ** The constructor *)

(** C37: The constructor builds a valid pool exactly when its arguments
    are valid (equal lengths, positive liquidity, fee factors in (0, 1],
    positive price unless there is no tier): it checks none of this
    itself. *)
Lemma init_wf_iff (liquidity sqrt_gamma : list Q) (sqrt_p : Q) :
  wf_pool (__init__ liquidity sqrt_gamma sqrt_p) <->
  length sqrt_gamma = length liquidity
  /\ Forall (fun l => 0 < l) liquidity
  /\ Forall (fun g => 0 < g <= 1) sqrt_gamma
  /\ (liquidity = [] \/ 0 < sqrt_p).
Proof.
  split.
  - intros [_ _ Hg _ _ Hl Hp Hsg _ _]; simpl in *. repeat split; auto.
    destruct liquidity; [now left|right]. now inv Hp.
  - intros (Hlen & Hl & Hg & Hp).
    constructor; simpl; auto using repeat_length;
      try (apply Forall_repeat; qnum; lra).
    destruct Hp as [->|Hp]; [constructor|now apply Forall_repeat].
Qed.

Lemma init_wf (liquidity sqrt_gamma : list Q) (sqrt_p : Q) :
  length sqrt_gamma = length liquidity ->
  Forall (fun l => 0 < l) liquidity ->
  Forall (fun g => 0 < g <= 1) sqrt_gamma ->
  0 < sqrt_p ->
  wf_pool (__init__ liquidity sqrt_gamma sqrt_p).
Proof.
  intros Hlen Hl Hg Hp.
  constructor; simpl; auto using repeat_length;
    apply Forall_repeat; qnum; lra.
Qed.

Lemma default_pool_wf : wf_pool (@default_pool Q _).
Proof. apply wf_poolb_iff. reflexivity. Qed.

(** The constructor builds a pool from arrays of different lengths
    and a zero liquidity without failing. *)
Lemma init_accepts_invalid :
  exists pool : Pool Q,
    pool = __init__ [0; 1] [1] 1 /\ size pool = 2%nat /\ ~ wf_pool pool.
Proof.
  eexists. split; [reflexivity|]. split; [reflexivity|].
  intros Hwf. apply wf_poolb_iff in Hwf. discriminate.
Qed.

(** ** The read-only views *)

Lemma length_prices {F : Type} `{Num F} (pool : Pool F) :
  length (prices pool) = length (sqrt_p_arr pool).
Proof. apply length_map. Qed.

(** Weighted sums: [lo * sum w <= sum (x * w) <= hi * sum w]. *)
Lemma weighted_sum_bounds (lo hi : Q) (x : list Q) : forall w,
  length x = length w ->
  Forall (fun v => lo <= v <= hi) x -> Forall (fun l => 0 < l) w ->
  lo * nsum w <= nsum (map2 Qmult x w) <= hi * nsum w.
Proof.
  induction x as [|v x IH]; intros [|l w] Hlen Hx Hw; simpl in *;
    try discriminate.
  - rewrite nsum_nil. lra.
  - inv Hx. inv Hw. rewrite !nsum_cons.
    destruct (IH w) as [? ?]; auto. nra.
Qed.

(** C33: The combined price that Pool.price computes on a valid pool
    with at least one tier, the liquidity-weighted mean of the squared
    tier prices, lies between any lower and any upper bound on the
    prices of the tiers that Pool.prices returns. *)
Lemma price_between (pool : Pool Q) (lo hi : Q) :
  wf_pool pool -> (0 < size pool)%nat ->
  Forall (fun v => lo <= v <= hi) (prices pool) ->
  lo <= price pool <= hi.
Proof.
  intros Hwf Hsz Hb. unfold price; qnum.
  assert (0 < nsum (liquidity_arr pool)) as Hpos.
  { apply nsum_pos; auto with pool. intros E.
    pose proof (wf_len_liquidity _ Hwf) as Hl. rewrite E in Hl. simpl in Hl.
    lia. }
  destruct (weighted_sum_bounds lo hi (prices pool) (liquidity_arr pool));
    auto with pool.
  { rewrite length_prices. destruct Hwf. congruence. }
  split; [apply Qle_shift_div_l|apply Qle_shift_div_r]; auto.
Qed.

Lemma price_between_witness : 1 <= price (@default_pool Q _) <= 1.
Proof.
  apply price_between;
    [exact default_pool_wf | simpl; lia | repeat constructor; simpl; lra].
Defined.
