(* ===== verification/Allocator.v ===== *)
(** * Allocator: the split of an input amount across the tiers

    Models [Pool._calc_tier_amts_in] ([src/muffin_fullrange.py], lines
    73-97): the working arrays [gamma], [lsg] and [res] (lines 79-82),
    one pass of the Lagrange-multiplier formula ([lagrange_amts], line
    92) and the repair loop that rejects the tiers whose amount is
    negative and solves again ([repair_loop], lines 91-96).

    The [while True] of the source is a [Fixpoint] on fuel;
    [_calc_tier_amts_in] runs it with [S size] units.  That this is
    enough is a theorem for every instance of the numbers, floating
    point included: a pass that does not end the loop removes at least
    one tier from the mask. *)

From Stdlib Require Import List Bool Arith ZArith QArith Lqa Lia Morphisms.
From S2P Require Import Prelude Numeric ArrayIndex PoolState.
Import ListNotations.

Section Code.
Context {F : Type} `{Num F}.
Local Open Scope num_scope.
Local Open Scope result_scope.

(** [amts[mask] = (lsg[mask] * (amount + np.sum(res[mask]))
                   / np.sum(lsg[mask])) - res[mask]] *)
Definition lagrange_amts (lsg res : list F) (amount : F)
  (mask : list bool) (amts : list F) : list F :=
  let lsg_m := sel mask lsg in
  let res_m := sel mask res in
  put mask amts
    (map2 nsub
       (map (fun l => l * (amount + nsum res_m) / nsum lsg_m) lsg_m)
       res_m).

(** [amts >= 0], element by element. *)
Definition nonneg_mask (amts : list F) : list bool :=
  map (fun a => a >=? 0) amts.

(** The [while True] loop, on fuel. *)
Fixpoint repair_loop (fuel : nat) (lsg res : list F) (amount : F)
  (mask : list bool) (amts : list F) : option (list F * list bool) :=
  match fuel with
  | O => None
  | S fuel' =>
      let amts := lagrange_amts lsg res amount mask amts in
      if all_nonneg (sel mask amts)
      then Some (fill (mask_not mask) amts 0, mask)
      else repair_loop fuel' lsg res amount
             (mask_and mask (nonneg_mask amts)) amts
  end.

(** [lsg]: liquidity divided by sqrt_gamma. *)
Definition lsg_of (self : Pool F) : list F :=
  map2 ndiv (liquidity_arr self) (sqrt_gamma_arr self).

(** [res]: token reserve divided by gamma. *)
Definition res_of (self : Pool F) (is_token0 : bool) : list F :=
  let gamma := map nsqr (sqrt_gamma_arr self) in
  if is_token0
  then map2 ndiv (map2 ndiv (liquidity_arr self) (sqrt_p_arr self)) gamma
  else map2 ndiv (map2 nmul (liquidity_arr self) (sqrt_p_arr self)) gamma.

Definition _calc_tier_amts_in (self : Pool F) (is_token0 : bool) (amount : F)
  : result (list F * list bool) :=
  let! _ := assert (amount >=? 0) in
  let! _ := same_shape (shape_ok self) in
  let lsg := lsg_of self in
  let res := res_of self is_token0 in
  let mask := repeat true (size self) in
  let amts := zeros (size self) in
  match repair_loop (S (size self)) lsg res amount mask amts with
  | Some r => Ok r
  | None => Err FuelExhausted
  end.

(** ** Shapes *)

Lemma length_lagrange_amts lsg res amount mask amts :
  length (lagrange_amts lsg res amount mask amts) = length amts.
Proof. apply length_put. Qed.

Lemma length_nonneg_mask amts : length (nonneg_mask amts) = length amts.
Proof. apply length_map. Qed.

(** ** A proof rule for the loop

    [Inv] holds of the mask and amounts at the head of each pass; a pass
    either ends the loop, and then must establish [Post] of what is
    returned, or goes round, and then must re-establish [Inv]. *)
Lemma repair_loop_rule (lsg res : list F) (amount : F)
  (Inv : list bool -> list F -> Prop) (Post : list F -> list bool -> Prop) :
  (forall mask amts, Inv mask amts ->
     let amts1 := lagrange_amts lsg res amount mask amts in
     if all_nonneg (sel mask amts1)
     then Post (fill (mask_not mask) amts1 0) mask
     else Inv (mask_and mask (nonneg_mask amts1)) amts1) ->
  forall fuel mask amts r,
    Inv mask amts ->
    repair_loop fuel lsg res amount mask amts = Some r ->
    Post (fst r) (snd r).
Proof.
  intros Hstep fuel.
  induction fuel as [|fuel IH]; intros mask amts r HI Hr; [discriminate|].
  simpl in Hr. specialize (Hstep mask amts HI). simpl in Hstep.
  destruct (all_nonneg _); [inv Hr; auto|eauto].
Qed.

(** ** Termination *)

(** A pass that goes round strictly shrinks the mask. *)
Lemma repair_shrinks (mask : list bool) (amts : list F) :
  length mask = length amts ->
  all_nonneg (sel mask amts) = false ->
  (count (mask_and mask (nonneg_mask amts)) < count mask)%nat.
Proof. intros. now apply count_mask_and_lt. Qed.

Lemma repair_loop_terminates (lsg res : list F) (amount : F) :
  forall fuel mask amts,
    length mask = length amts -> (count mask < fuel)%nat ->
    exists r, repair_loop fuel lsg res amount mask amts = Some r.
Proof.
  induction fuel as [|fuel IH]; intros mask amts Hlen Hc; [lia|]. simpl.
  set (amts1 := lagrange_amts lsg res amount mask amts).
  assert (length mask = length amts1) as Hlen1
    by (unfold amts1; now rewrite length_lagrange_amts).
  destruct (all_nonneg (sel mask amts1)) eqn:E; [eauto|].
  apply IH.
  - rewrite length_mask_and; now rewrite ?length_nonneg_mask.
  - pose proof (repair_shrinks mask amts1 Hlen1 E). lia.
Qed.

(** More fuel changes nothing once the loop has returned. *)
Lemma repair_loop_fuel_mono (lsg res : list F) (amount : F) :
  forall fuel fuel' mask amts r,
    (fuel <= fuel')%nat ->
    repair_loop fuel lsg res amount mask amts = Some r ->
    repair_loop fuel' lsg res amount mask amts = Some r.
Proof.
  induction fuel as [|fuel IH]; intros [|fuel'] mask amts r Hle Hr;
    try discriminate; try lia.
  simpl in *. destruct (all_nonneg _); auto. apply IH; auto. lia.
Qed.

(** From the full mask, [S n] passes are enough. *)
Lemma full_loop_returns (lsg res : list F) (amount : F) (n : nat) :
  exists r,
    repair_loop (S n) lsg res amount (repeat true n) (zeros n) = Some r.
Proof.
  apply repair_loop_terminates.
  - now rewrite repeat_length, length_zeros.
  - rewrite count_repeat_true. lia.
Qed.

(** C4: The while loop of _calc_tier_amts_in returns within size + 1
    passes on every pool, for every amount and every instance of the
    numbers (floating point included), and more fuel does not change
    what it returns. *)
Theorem calc_loop_returns (self : Pool F) (is_token0 : bool) (amount : F) :
  exists r, forall fuel,
    (size self < fuel)%nat ->
    repair_loop fuel (lsg_of self) (res_of self is_token0)
      amount (repeat true (size self)) (zeros (size self)) = Some r.
Proof.
  destruct (full_loop_returns (lsg_of self) (res_of self is_token0) amount
              (size self)) as [r Hr].
  exists r. intros fuel Hf.
  apply repair_loop_fuel_mono with (fuel := S (size self)); auto.
Qed.

(** The outcome of the allocator, branch by branch: the assertion, the
    shape of the arrays, then amounts and a mask.  The fuel never runs
    out. *)
Theorem calc_tier_amts_in_cases (self : Pool F) (is_token0 : bool)
  (amount : F) :
  _calc_tier_amts_in self is_token0 amount
  = if negb (amount >=? 0) then Err AssertionError
    else if negb (shape_ok self) then Err ShapeError
    else match repair_loop (S (size self)) (lsg_of self)
                 (res_of self is_token0) amount
                 (repeat true (size self)) (zeros (size self)) with
         | Some r => Ok r
         | None => Err FuelExhausted
         end.
Proof.
  unfold _calc_tier_amts_in.
  destruct (amount >=? 0); [|reflexivity].
  destruct (shape_ok self); reflexivity.
Qed.

Theorem calc_tier_amts_in_total (self : Pool F) (is_token0 : bool)
  (amount : F) :
  (amount >=? 0) = true -> shape_ok self = true ->
  exists r, _calc_tier_amts_in self is_token0 amount = Ok r.
Proof.
  intros Ha Hs. rewrite calc_tier_amts_in_cases, Ha, Hs. cbn [negb].
  destruct (full_loop_returns (lsg_of self) (res_of self is_token0) amount
              (size self)) as [r ->].
  eauto.
Qed.

(** _calc_tier_amts_in fails its assertion on a negative amount,
    for every instance of the numbers. *)
Theorem calc_tier_amts_in_rejects (self : Pool F) (is_token0 : bool)
  (amount : F) :
  (amount >=? 0) = false ->
  _calc_tier_amts_in self is_token0 amount = Err AssertionError.
Proof. intros Ha. now rewrite calc_tier_amts_in_cases, Ha. Qed.

Theorem calc_tier_amts_in_never_out_of_fuel (self : Pool F)
  (is_token0 : bool) (amount : F) :
  _calc_tier_amts_in self is_token0 amount = Err FuelExhausted -> False.
Proof.
  rewrite calc_tier_amts_in_cases.
  destruct (full_loop_returns (lsg_of self) (res_of self is_token0) amount
              (size self)) as [r ->].
  destruct (negb _); [discriminate|]. destruct (negb _); discriminate.
Qed.

(** What a call that returned went through. *)
Lemma calc_tier_amts_in_inv (self : Pool F) (is_token0 : bool)
  (amount : F) amts mask :
  _calc_tier_amts_in self is_token0 amount = Ok (amts, mask) ->
  (amount >=? 0) = true /\ shape_ok self = true
  /\ repair_loop (S (size self)) (lsg_of self) (res_of self is_token0)
       amount (repeat true (size self)) (zeros (size self))
     = Some (amts, mask).
Proof.
  rewrite calc_tier_amts_in_cases.
  destruct (amount >=? 0); [|discriminate].
  destruct (shape_ok self); [|discriminate]. cbn [negb].
  destruct (repair_loop _ _ _ _ _ _) as [r|]; intros Hr; inv Hr. auto.
Qed.

(** What is returned has the shape of the pool, whatever the numbers. *)
Lemma repair_loop_lengths (lsg res : list F) (amount : F) (n fuel : nat)
  (mask : list bool) (amts : list F) r :
  length mask = n -> length amts = n ->
  repair_loop fuel lsg res amount mask amts = Some r ->
  length (fst r) = n /\ length (snd r) = n.
Proof.
  intros Hm Ha.
  apply (repair_loop_rule lsg res amount
           (fun mask amts => length mask = n /\ length amts = n)
           (fun amts mask => length amts = n /\ length mask = n)); auto.
  clear. intros mask amts [Hm Ha]. cbv zeta.
  destruct (all_nonneg _).
  - now rewrite length_fill, length_lagrange_amts.
  - rewrite length_mask_and;
      rewrite ?length_nonneg_mask, ?length_lagrange_amts; auto; congruence.
Qed.

(** ** The closed form of what is returned

    The Lagrange formula on whole arrays, for the multiplier of a given
    mask. *)
Definition lagrange_all (lsg res : list F) (amount : F) (mask : list bool)
  : list F :=
  map2 nsub
    (map (fun l => l * (amount + nsum (sel mask res)) / nsum (sel mask lsg))
       lsg)
    res.

Lemma length_lagrange_all lsg res amount mask :
  length lsg = length res ->
  length (lagrange_all lsg res amount mask) = length lsg.
Proof.
  intros Hl. unfold lagrange_all.
  rewrite length_map2; now rewrite length_map.
Qed.

Lemma lagrange_amts_where (lsg res : list F) (amount : F) (n : nat)
  (mask : list bool) (amts : list F) :
  length lsg = n -> length res = n -> length mask = n -> length amts = n ->
  lagrange_amts lsg res amount mask amts
  = where_ mask (lagrange_all lsg res amount mask) amts.
Proof.
  intros Hl Hr Hm Ha. unfold lagrange_amts, lagrange_all.
  rewrite <- sel_map, put_map2_sel; rewrite ?length_map; congruence.
Qed.

(** The loop returns its last mask, the amounts of the closed form for
    that mask on the tiers inside it and zero outside, and none of the
    amounts inside is negative.  This holds for every instance of the
    numbers. *)
Theorem repair_loop_closed_form (lsg res : list F) (amount : F)
  (n fuel : nat) (mask : list bool) (amts : list F) r :
  length lsg = n -> length res = n -> length mask = n -> length amts = n ->
  repair_loop fuel lsg res amount mask amts = Some r ->
  length (snd r) = n
  /\ fst r = where_ (snd r) (lagrange_all lsg res amount (snd r)) (zeros n)
  /\ all_nonneg (sel (snd r) (lagrange_all lsg res amount (snd r))) = true.
Proof.
  intros Hl Hr Hm Ha.
  apply (repair_loop_rule lsg res amount
           (fun mask amts => length mask = n /\ length amts = n)
           (fun amts mask =>
              length mask = n
              /\ amts = where_ mask (lagrange_all lsg res amount mask)
                          (zeros n)
              /\ all_nonneg (sel mask (lagrange_all lsg res amount mask))
                 = true)); auto.
  clear mask amts Hm Ha r. intros mask amts [Hm Ha]. cbv zeta.
  pose proof (length_lagrange_all lsg res amount mask) as Hla.
  rewrite (lagrange_amts_where lsg res amount n) by auto.
  rewrite sel_where by (rewrite ?Hla; congruence).
  destruct (all_nonneg _) eqn:E.
  - split; [auto|split; [|auto]].
    rewrite fill_not_where by (rewrite length_where; rewrite ?Hla; congruence).
    rewrite where_where; rewrite ?repeat_length, ?Hla; try congruence.
    now rewrite Hm.
  - split; [|rewrite length_where; rewrite ?Hla; congruence].
    rewrite length_mask_and; auto.
    rewrite length_nonneg_mask, length_where; rewrite ?Hla; congruence.
Qed.

Lemma length_lsg_of (self : Pool F) :
  shape_ok self = true -> length (lsg_of self) = size self.
Proof.
  intros Hs. apply shape_ok_iff in Hs. unfold lsg_of.
  rewrite length_map2; intuition congruence.
Qed.

Lemma length_res_of (self : Pool F) (is_token0 : bool) :
  shape_ok self = true -> length (res_of self is_token0) = size self.
Proof.
  intros Hs. apply shape_ok_iff in Hs. unfold res_of.
  destruct is_token0; repeat rewrite length_map2; rewrite ?length_map;
    intuition congruence.
Qed.

(** C27: Whenever _calc_tier_amts_in returns, the amounts are those of
    the Lagrange formula for the returned mask on the tiers inside the
    mask and zero outside it, and none of the amounts inside is
    negative; this holds for every instance of the numbers. *)
Theorem calc_tier_amts_in_closed_form (self : Pool F) (is_token0 : bool)
  (amount : F) amts mask :
  _calc_tier_amts_in self is_token0 amount = Ok (amts, mask) ->
  amts = where_ mask
           (lagrange_all (lsg_of self) (res_of self is_token0) amount mask)
           (zeros (size self))
  /\ all_nonneg
       (sel mask
          (lagrange_all (lsg_of self) (res_of self is_token0) amount mask))
     = true.
Proof.
  intros Hc. destruct (calc_tier_amts_in_inv _ _ _ _ _ Hc) as (_ & Hs & E).
  apply (repair_loop_closed_form _ _ _ (size self)) in E;
    rewrite ?repeat_length, ?length_zeros;
    auto using length_lsg_of, length_res_of.
  simpl in E. tauto.
Qed.

(** C26: Non-negative allocation: whenever _calc_tier_amts_in returns,
    on any pool whatever its contents, every amount it returns passes >=
    0: inside the mask by the test that ended the loop, outside it
    because it is zero. This holds for every instance of the numbers in
    which zero passes >= 0, so for the rationals and for IEEE doubles
    (the witness). *)
Theorem calc_tier_amts_in_nonneg `{!NumOrder F} (self : Pool F)
  (is_token0 : bool) (amount : F) amts mask :
  _calc_tier_amts_in self is_token0 amount = Ok (amts, mask) ->
  all_nonneg amts = true.
Proof.
  intros Hc. destruct (calc_tier_amts_in_inv _ _ _ _ _ Hc) as (_ & Hs & E).
  pose proof (length_lsg_of self Hs) as Hl.
  pose proof (length_res_of self is_token0 Hs) as Hr.
  apply (repair_loop_closed_form _ _ _ (size self)) in E;
    rewrite ?repeat_length, ?length_zeros; auto.
  simpl in E. destruct E as (Hm & -> & Hin). unfold zeros. rewrite <- Hm.
  apply forallb_where_repeat; auto using nleb_zero.
  rewrite length_lagrange_all; congruence.
Qed.

Lemma calc_tier_amts_in_lengths (self : Pool F) (is_token0 : bool)
  (amount : F) amts mask :
  _calc_tier_amts_in self is_token0 amount = Ok (amts, mask) ->
  shape_ok self = true /\ length amts = size self
  /\ length mask = size self.
Proof.
  intros Hc. destruct (calc_tier_amts_in_inv _ _ _ _ _ Hc) as (_ & Hs & E).
  apply (repair_loop_lengths _ _ _ (size self)) in E;
    rewrite ?repeat_length, ?length_zeros; auto.
Qed.
End Code.

(** ** The sample call: 1000 of token0 into the default pool *)

Definition sample_alloc : list Q * list bool :=
  Eval vm_compute in
    get_ok ([], []) (_calc_tier_amts_in default_pool true (1000 # 1)).

Lemma calc_tier_amts_in_closed_form_witness :
  fst sample_alloc
  = where_ (snd sample_alloc)
      (lagrange_all (lsg_of default_pool) (res_of default_pool true)
         (1000 # 1) (snd sample_alloc))
      (zeros (size (@default_pool Q _)))
  /\ all_nonneg
       (sel (snd sample_alloc)
          (lagrange_all (lsg_of default_pool) (res_of default_pool true)
             (1000 # 1) (snd sample_alloc)))
     = true.
Proof.
  apply (calc_tier_amts_in_closed_form default_pool true (1000 # 1)).
  vm_compute. reflexivity.
Defined.
