(* ===== verification/AllocatorExact.v ===== *)
(** * AllocatorExact: what the allocator computes, in exact arithmetic

    The theorems on [_calc_tier_amts_in] at the instance [Num_Q].  For a
    valid pool with at least one tier and an amount that is not negative:
    the loop keeps at least one tier in the mask, the amounts returned
    are not negative, they sum to the amount asked for, the tiers outside
    the mask receive zero and the tiers inside it receive what the
    closed form of the last pass gives them ([alloc_post]).

    The proof is one application of the loop rule of [Allocator] to the
    invariant [loop_inv]: the mask and the amounts have the pool's
    length and the mask is inhabited.  The mask stays inhabited because
    the amounts of a pass sum to the amount asked for, so they cannot
    all be negative.  For the same reason [size] passes are enough
    ([calc_loop_within_size]): a pass that does not return hands on a
    mask with fewer tiers, and never an empty one. *)

From Stdlib Require Import List Bool Arith ZArith QArith Lqa Lia Morphisms.
From S2P Require Import Prelude Numeric ArrayIndex PoolState Allocator.
Import ListNotations.
Local Open Scope Q_scope.

Section Exact.
Variables (lsg res : list Q) (amount : Q) (n : nat).
Hypotheses (Hlsg : length lsg = n) (Hres : length res = n).

(** The multiplier of a pass: [(amount + sum res[mask]) / sum lsg[mask]]. *)
Definition level (mask : list bool) : Q :=
  (amount + nsum (sel mask res)) / nsum (sel mask lsg).

Lemma sel_lagrange_amts (mask : list bool) (amts : list Q) :
  length mask = n -> length amts = n ->
  sel mask (lagrange_amts lsg res amount mask amts)
  = map2 Qminus
      (map (fun l => l * (amount + nsum (sel mask res))
                     / nsum (sel mask lsg)) (sel mask lsg))
      (sel mask res).
Proof using All.
  intros Hm Ha. unfold lagrange_amts. apply sel_put; [congruence|].
  rewrite length_map2; rewrite ?length_map, !length_sel; congruence.
Qed.

Lemma nsum_sel_lagrange_amts (mask : list bool) (amts : list Q) :
  length mask = n -> length amts = n -> 0 < nsum (sel mask lsg) ->
  nsum (sel mask (lagrange_amts lsg res amount mask amts)) == amount.
Proof using All.
  intros Hm Ha HW. rewrite sel_lagrange_amts by auto.
  rewrite nsum_map2_sub, nsum_map_scale.
  - field. lra.
  - rewrite length_map, !length_sel; congruence.
Qed.

Hypotheses (Hpos : Forall (fun l => 0 < l) lsg) (Hamt : 0 <= amount).

Lemma weight_pos (mask : list bool) :
  length mask = n -> (0 < count mask)%nat -> 0 < nsum (sel mask lsg).
Proof using All.
  intros Hm Hc. apply nsum_pos; [now apply Forall_sel|].
  intros E. apply (f_equal (@length Q)) in E.
  rewrite length_sel in E by congruence. simpl in E. lia.
Qed.

(** What holds at the head of every pass. *)
Definition loop_inv (mask : list bool) (amts : list Q) : Prop :=
  length mask = n /\ length amts = n /\ (0 < count mask)%nat.

(** What holds of the amounts and mask returned. *)
Record alloc_post (amts : list Q) (mask : list bool) : Prop := {
  post_len_amts : length amts = n;
  post_len_mask : length mask = n;
  post_active : (0 < count mask)%nat;
  post_nonneg : Forall (fun a => 0 <= a) amts;
  post_sum : nsum amts == amount;
  post_sum_active : nsum (sel mask amts) == amount;
  post_weight : 0 < nsum (sel mask lsg);
  post_closed :
    amts = where_ mask (lagrange_all lsg res amount mask) (zeros n)
}.

(** The part of it that the order of the rationals gives. *)
Definition alloc_core (amts : list Q) (mask : list bool) : Prop :=
  length amts = n /\ length mask = n /\ (0 < count mask)%nat
  /\ Forall (fun a => 0 <= a) amts /\ nsum amts == amount
  /\ nsum (sel mask amts) == amount /\ 0 < nsum (sel mask lsg).

Lemma repair_step (mask : list bool) (amts : list Q) :
  loop_inv mask amts ->
  let amts1 := lagrange_amts lsg res amount mask amts in
  if all_nonneg (sel mask amts1)
  then alloc_core (fill (mask_not mask) amts1 0) mask
  else loop_inv (mask_and mask (nonneg_mask amts1)) amts1.
Proof using All.
  intros (Hm & Ha & Hc) amts1.
  assert (length amts1 = n) as Ha1
    by (unfold amts1; now rewrite length_lagrange_amts).
  pose proof (weight_pos mask Hm Hc) as HW.
  pose proof (nsum_sel_lagrange_amts mask amts Hm Ha HW) as Hsum.
  fold amts1 in Hsum.
  destruct (all_nonneg (sel mask amts1)) eqn:E.
  - apply all_nonneg_iff in E. unfold alloc_core.
    rewrite length_fill, sel_fill_not, nsum_fill_not by congruence.
    repeat split; auto. apply Forall_fill_not; auto; [congruence|lra].
  - repeat split; auto.
    + rewrite length_mask_and; rewrite ?length_nonneg_mask; congruence.
    + apply count_mask_and_pos, exists_nonneg; [lra|].
      intros E0. apply (f_equal (@length Q)) in E0.
      rewrite length_sel in E0 by congruence. simpl in E0. lia.
Qed.

Lemma repair_loop_post (fuel : nat) (mask : list bool) (amts : list Q) r :
  loop_inv mask amts ->
  repair_loop fuel lsg res amount mask amts = Some r ->
  alloc_post (fst r) (snd r).
Proof using All.
  intros HI Hr.
  destruct (repair_loop_rule lsg res amount loop_inv alloc_core repair_step
              fuel mask amts r HI Hr) as (?&?&?&?&?&?&?).
  destruct HI as (Hm & Ha & _).
  destruct (repair_loop_closed_form lsg res amount n fuel mask amts r)
    as (_ & Hcl & _); auto.
  constructor; auto.
Qed.

(** As the mask keeps a tier, as many passes as the mask has tiers are
    enough. *)
Lemma repair_loop_within (fuel : nat) : forall mask amts,
  loop_inv mask amts -> (count mask <= fuel)%nat ->
  exists r, repair_loop fuel lsg res amount mask amts = Some r.
Proof using All.
  induction fuel as [|fuel IH]; intros mask amts HI Hc;
    [destruct HI as (_ & _ & ?); lia|].
  pose proof (repair_step mask amts HI) as Hstep. simpl in *.
  destruct HI as (Hm & Ha & _).
  destruct (all_nonneg _) eqn:E; [eauto|]. apply IH; [exact Hstep|].
  apply repair_shrinks in E; [lia|].
  rewrite length_lagrange_amts; congruence.
Qed.
End Exact.

Arguments alloc_post lsg res amount n amts mask : assert.

(** ** The working arrays of a valid pool *)

Lemma lsg_of_pos (pool : Pool Q) :
  wf_pool pool -> Forall (fun l => 0 < l) (lsg_of pool).
Proof.
  intros Hwf. unfold lsg_of.
  apply Forall_map2 with (P := fun l => 0 < l) (Q := fun g => 0 < g <= 1);
    auto with pool.
  intros l g Hl [Hg _]. qnum. auto with qpos.
Qed.

Lemma res_of_pos (pool : Pool Q) (z : bool) :
  wf_pool pool -> Forall (fun r => 0 < r) (res_of pool z).
Proof.
  intros Hwf. unfold res_of.
  assert (Forall (fun g => 0 < g) (map nsqr (sqrt_gamma_arr pool))) as Hg.
  { apply Forall_map. eapply Forall_impl; [|apply (wf_sqrt_gamma _ Hwf)].
    intros g [Hg _]. qnum. auto with qpos. }
  assert (forall f : Q -> Q -> Q,
            (forall x y, 0 < x -> 0 < y -> 0 < f x y) ->
            Forall (fun r => 0 < r)
              (map2 Qdiv (map2 f (liquidity_arr pool) (sqrt_p_arr pool))
                 (map nsqr (sqrt_gamma_arr pool)))) as Hres.
  { intros f Hf.
    apply Forall_map2 with (P := fun x => 0 < x) (Q := fun g => 0 < g);
      auto with qpos.
    apply Forall_map2 with (P := fun x => 0 < x) (Q := fun g => 0 < g);
      auto with pool. }
  destruct z; apply Hres; intros; auto with qpos.
Qed.

(** ** The allocator on a valid pool *)

(** What a call that returned has computed. *)
Lemma alloc_inv_post (pool : Pool Q) (z : bool) (amount : Q)
  (amts : list Q) (mask : list bool) :
  wf_pool pool -> (0 < size pool)%nat -> 0 <= amount ->
  _calc_tier_amts_in pool z amount = Ok (amts, mask) ->
  alloc_post (lsg_of pool) (res_of pool z) amount (size pool) amts mask.
Proof.
  intros Hwf Hsz Ha Hc.
  destruct (calc_tier_amts_in_inv _ _ _ _ _ Hc) as (_ & Hs & E).
  apply (repair_loop_post _ _ _ (size pool)) in E;
    auto using length_lsg_of, length_res_of, lsg_of_pos.
  repeat split; rewrite ?repeat_length, ?length_zeros, ?count_repeat_true; auto.
Qed.

(** C3: On a valid pool with at least one tier and for an amount that is
    not negative, _calc_tier_amts_in returns; the amounts are not
    negative, sum to the amount asked for (over all tiers and over the
    mask), are zero outside the mask and the Lagrange closed form of the
    last pass inside it, and the mask keeps at least one tier. *)
Theorem calc_tier_amts_in_post (pool : Pool Q) (z : bool) (amount : Q) :
  wf_pool pool -> (0 < size pool)%nat -> 0 <= amount ->
  exists amts mask,
    _calc_tier_amts_in pool z amount = Ok (amts, mask)
    /\ alloc_post (lsg_of pool) (res_of pool z) amount (size pool) amts mask.
Proof.
  intros Hwf Hsz Ha.
  destruct (calc_tier_amts_in_total pool z amount) as [[amts mask] Hc];
    [qnum; now qbool | auto with pool |].
  exists amts, mask. split; [exact Hc|]. now apply alloc_inv_post.
Qed.

Lemma calc_tier_amts_in_post_witness :
  exists amts mask,
    _calc_tier_amts_in default_pool true 1000 = Ok (amts, mask)
    /\ alloc_post (lsg_of default_pool) (res_of default_pool true) 1000
         (size (@default_pool Q _)) amts mask.
Proof.
  apply calc_tier_amts_in_post;
    [apply wf_poolb_iff; reflexivity | simpl; lia | lra].
Defined.

(** C28: In exact arithmetic, on a valid pool with at least one tier and
    for an amount that is not negative, the while loop of
    _calc_tier_amts_in returns within size passes, one fewer than in
    general: the mask that a pass hands on is never empty, so the loop
    with fuel size returns what _calc_tier_amts_in returns. *)
Theorem calc_loop_within_size (pool : Pool Q) (z : bool) (amount : Q) :
  wf_pool pool -> (0 < size pool)%nat -> 0 <= amount ->
  exists r,
    repair_loop (size pool) (lsg_of pool) (res_of pool z) amount
      (repeat true (size pool)) (zeros (size pool)) = Some r
    /\ _calc_tier_amts_in pool z amount = Ok r.
Proof.
  intros Hwf Hsz Ha.
  destruct (repair_loop_within (lsg_of pool) (res_of pool z) amount
              (size pool)) with (fuel := size pool)
              (mask := repeat true (size pool)) (amts := zeros (size pool))
    as [r Hr];
    auto using length_lsg_of, length_res_of, lsg_of_pos with pool.
  - unfold loop_inv.
    now rewrite repeat_length, length_zeros, count_repeat_true.
  - now rewrite count_repeat_true.
  - exists r. split; [exact Hr|].
    destruct (calc_tier_amts_in_total pool z amount) as [[amts mask] Hc];
      [qnum; now qbool | auto with pool |].
    destruct (calc_tier_amts_in_inv _ _ _ _ _ Hc) as (_ & _ & E).
    apply (repair_loop_fuel_mono _ _ _ _ (S (size pool))) in Hr; [|lia].
    rewrite E in Hr. now inv Hr.
Qed.

Lemma calc_loop_within_size_witness :
  exists r,
    repair_loop (size (@default_pool Q _)) (lsg_of default_pool)
      (res_of default_pool true) 1000 (repeat true (size (@default_pool Q _)))
      (zeros (size (@default_pool Q _))) = Some r
    /\ _calc_tier_amts_in default_pool true 1000 = Ok r.
Proof.
  apply calc_loop_within_size;
    [apply wf_poolb_iff; reflexivity | simpl; lia | lra].
Defined.

(** ** Non-negative allocation, on any pool

    The amounts returned are not negative whatever the pool holds: the
    loop only ends on a pass whose selected amounts are all [>= 0], and
    the others are set to zero. *)

Lemma repair_loop_nonneg (lsg res : list Q) (amount : Q) (fuel : nat)
  (mask : list bool) (amts : list Q) r :
  length mask = length amts ->
  repair_loop fuel lsg res amount mask amts = Some r ->
  Forall (fun a => 0 <= a) (fst r).
Proof.
  apply (repair_loop_rule lsg res amount
           (fun mask amts => length mask = length amts)
           (fun amts _ => Forall (fun a => 0 <= a) amts)).
  clear. intros mask amts Hl. cbv zeta.
  destruct (all_nonneg _) eqn:E.
  - apply all_nonneg_iff in E.
    apply Forall_fill_not; rewrite ?length_lagrange_amts; auto.
    qnum. lra.
  - rewrite length_mask_and;
      rewrite ?length_nonneg_mask, ?length_lagrange_amts; auto.
Qed.
