(* ===== verification/Swap.v ===== *)
(** * Swap: the single entry point of the pool

    Models [Pool.swap] ([src/muffin_fullrange.py], lines 31-71) with
    every statement that changes state: the assertion on the amount, the
    call of the allocator, the fee, the new prices, the amounts out, the
    write of [sqrt_p_arr], the in-place update of the fee-growth array
    chosen by [is_token0 == is_exact_in], and the dictionary returned
    ([SwapResult]).  Python mutates [self]; the model returns the new
    pool beside the result, and nothing when an exception is raised.

    [swap_ref] is a reference for it: the same quantities computed on
    whole arrays, for every tier, with the mask applied once at the end
    of each ([np.where]).  [swap_eq_ref] proves the two equal for every
    instance of the numbers; the theorems of [SwapExact] are proved on
    the reference.  [swap_succeeds_iff] says when [swap] returns,
    [swap_inactive_untouched] that the tiers outside the mask keep
    their state, and [swap_degenerate] what [swap] returns when the
    allocator leaves no tier in the mask. *)

From Stdlib Require Import List Bool Arith ZArith QArith Lia.
From S2P Require Import Prelude Numeric ArrayIndex PriceAlgebra PoolState.
From S2P Require Import Allocator.
Import ListNotations.

(** The dictionary [swap] returns. *)
Record SwapResult (F : Type) : Type := mkSwapResult {
  amt_in : F;
  amt_out : F;
  fee_amt : F;
  fee_bps : F;
  amts_in : list F;
  amts_out : list F;
  fee_amts : list F
}.

Arguments mkSwapResult {F}.
Arguments amt_in {F}.
Arguments amt_out {F}.
Arguments fee_amt {F}.
Arguments fee_bps {F}.
Arguments amts_in {F}.
Arguments amts_out {F}.
Arguments fee_amts {F}.

Section Code.
Context {F : Type} `{Num F}.
Local Open Scope num_scope.
Local Open Scope result_scope.

(** [fee_growth_arr[mask] += fee_amts[mask] / self.liquidity_arr[mask]] *)
Definition add_fee_growth (mask : list bool)
  (fee_growth_arr fee_amts liquidity_arr : list F) : list F :=
  put mask fee_growth_arr
    (map2 nadd (sel mask fee_growth_arr)
       (map2 ndiv (sel mask fee_amts) (sel mask liquidity_arr))).

Definition swap (self : Pool F) (is_token0 : bool) (amt_desired : F)
  : result (Pool F * SwapResult F) :=
  let is_exact_in := amt_desired >? 0 in
  let! _ := assert is_exact_in in
  let! (amts_in, mask) := _calc_tier_amts_in self is_token0 amt_desired in
  let gamma := map nsqr (sqrt_gamma_arr self) in
  let amts_in_after_fee :=
    put mask (zeros (size self))
      (map2 nmul (sel mask amts_in) (sel mask gamma)) in
  let sqrt_p_new :=
    put mask (zeros (size self))
      (map3 (calc_sqrt_p_from_amt is_token0)
         (sel mask (sqrt_p_arr self)) (sel mask (liquidity_arr self))
         (sel mask amts_in_after_fee)) in
  let amts_out :=
    put mask (zeros (size self))
      (map3 (calc_amt_from_sqrt_p (negb is_token0))
         (sel mask (sqrt_p_arr self)) (sel mask sqrt_p_new)
         (sel mask (liquidity_arr self))) in
  let fee_amts :=
    put mask (zeros (size self))
      (map2 nsub (sel mask amts_in) (sel mask amts_in_after_fee)) in
  let to_fee0 := Bool.eqb is_token0 is_exact_in in
  let grow fee_growth_arr :=
    add_fee_growth mask fee_growth_arr fee_amts (liquidity_arr self) in
  Ok ({| size := size self;
         liquidity_arr := liquidity_arr self;
         sqrt_p_arr := put mask (sqrt_p_arr self) (sel mask sqrt_p_new);
         sqrt_gamma_arr := sqrt_gamma_arr self;
         fee0_growth_arr :=
           if to_fee0 then grow (fee0_growth_arr self)
           else fee0_growth_arr self;
         fee1_growth_arr :=
           if to_fee0 then fee1_growth_arr self
           else grow (fee1_growth_arr self) |},
      {| amt_in := nsum (sel mask amts_in);
         amt_out := nsum (sel mask amts_out);
         fee_amt := nsum (sel mask fee_amts);
         fee_bps :=
           nsum (sel mask fee_amts) / nsum (sel mask amts_in) * nlit 10000;
         amts_in := amts_in;
         amts_out := amts_out;
         fee_amts := fee_amts |}).

(** ** The reference: whole arrays, then the mask *)

Section Reference.
Variables (self : Pool F) (is_token0 : bool) (x : list F).

(** Per tier, as if every tier were used. *)
Definition all_after_fee : list F :=
  map2 nmul x (map nsqr (sqrt_gamma_arr self)).

Definition all_sqrt_p_new : list F :=
  map3 (calc_sqrt_p_from_amt is_token0)
    (sqrt_p_arr self) (liquidity_arr self) all_after_fee.

Definition all_amts_out : list F :=
  map3 (calc_amt_from_sqrt_p (negb is_token0))
    (sqrt_p_arr self) all_sqrt_p_new (liquidity_arr self).

Definition all_fee_amts : list F := map2 nsub x all_after_fee.

Definition all_fee_growth (fee_growth_arr : list F) : list F :=
  map2 nadd fee_growth_arr (map2 ndiv all_fee_amts (liquidity_arr self)).
End Reference.

(** The pool after a swap that routes [x] through [mask]. *)
Definition ref_pool (self : Pool F) (is_token0 : bool) (x : list F)
  (mask : list bool) : Pool F :=
  let grow fee_growth_arr :=
    where_ mask (all_fee_growth self x fee_growth_arr) fee_growth_arr in
  {| size := size self;
     liquidity_arr := liquidity_arr self;
     sqrt_p_arr :=
       where_ mask (all_sqrt_p_new self is_token0 x) (sqrt_p_arr self);
     sqrt_gamma_arr := sqrt_gamma_arr self;
     fee0_growth_arr :=
       if is_token0 then grow (fee0_growth_arr self)
       else fee0_growth_arr self;
     fee1_growth_arr :=
       if is_token0 then fee1_growth_arr self
       else grow (fee1_growth_arr self) |}.

(** The dictionary it returns. *)
Definition ref_result (self : Pool F) (is_token0 : bool) (x : list F)
  (mask : list bool) : SwapResult F :=
  let z := zeros (size self) in
  let amts_out := where_ mask (all_amts_out self is_token0 x) z in
  let fee_amts := where_ mask (all_fee_amts self x) z in
  {| amt_in := nsum (sel mask x);
     amt_out := nsum (sel mask amts_out);
     fee_amt := nsum (sel mask fee_amts);
     fee_bps := nsum (sel mask fee_amts) / nsum (sel mask x) * nlit 10000;
     amts_in := x;
     amts_out := amts_out;
     fee_amts := fee_amts |}.

Definition swap_ref (self : Pool F) (is_token0 : bool) (amt_desired : F)
  : result (Pool F * SwapResult F) :=
  let! _ := assert (amt_desired >? 0) in
  let! (x, mask) := _calc_tier_amts_in self is_token0 amt_desired in
  Ok (ref_pool self is_token0 x mask, ref_result self is_token0 x mask).
End Code.

(** ** The masked computation is the reference *)

Section Equivalence.
Context {F : Type} `{Num F}.

Lemma length_all_after_fee (self : Pool F) (x : list F) :
  shape_ok self = true -> length x = size self ->
  length (all_after_fee self x) = size self.
Proof.
  intros Hs Hx. apply shape_ok_iff in Hs. unfold all_after_fee.
  rewrite length_map2; rewrite ?length_map; intuition congruence.
Qed.

Lemma length_all_sqrt_p_new (self : Pool F) (z : bool) (x : list F) :
  shape_ok self = true -> length x = size self ->
  length (all_sqrt_p_new self z x) = size self.
Proof.
  intros Hs Hx. pose proof (length_all_after_fee self x Hs Hx).
  apply shape_ok_iff in Hs. unfold all_sqrt_p_new.
  rewrite length_map3; intuition congruence.
Qed.

Lemma length_all_fee_amts (self : Pool F) (x : list F) :
  shape_ok self = true -> length x = size self ->
  length (all_fee_amts self x) = size self.
Proof.
  intros Hs Hx. pose proof (length_all_after_fee self x Hs Hx).
  unfold all_fee_amts. rewrite length_map2; congruence.
Qed.

(** The outcome of [swap], branch by branch: the assertion, the
    allocator, then the pool and the result of the reference. *)
Lemma swap_cases (self : Pool F) (is_token0 : bool) (amt_desired : F) :
  swap self is_token0 amt_desired
  = if negb (nltb (nlit 0) amt_desired) then Err AssertionError
    else match _calc_tier_amts_in self is_token0 amt_desired with
         | Ok (x, mask) =>
             Ok (ref_pool self is_token0 x mask,
                 ref_result self is_token0 x mask)
         | Err e => Err e
         end.
Proof.
  unfold swap, ref_pool, ref_result.
  destruct (nltb (nlit 0) amt_desired) eqn:Ea; [|reflexivity].
  cbn [assert bind negb].
  destruct (_calc_tier_amts_in self is_token0 amt_desired)
    as [[x mask]|e] eqn:Ec; [|reflexivity].
  cbn [bind].
  destruct (calc_tier_amts_in_lengths _ _ _ _ _ Ec) as (Hs & Hx & Hm).
  pose proof (length_all_after_fee self x Hs Hx) as Haf.
  pose proof (length_all_sqrt_p_new self is_token0 x Hs Hx) as Hpn.
  pose proof (length_all_fee_amts self x Hs Hx) as Hfa.
  pose proof Hs as Hs'. apply shape_ok_iff in Hs' as (HL & Hp & Hg & H0 & H1).
  assert (length (zeros (size self)) = size self) as Hz by apply length_zeros.
  assert (length (map nsqr (sqrt_gamma_arr self)) = size self) as Hga
    by (rewrite length_map; congruence).
  rewrite (put_map2_sel nmul) by congruence.
  fold (all_after_fee self x).
  rewrite !sel_where by congruence.
  rewrite !(put_map3_sel (calc_sqrt_p_from_amt is_token0)) by congruence.
  fold (all_sqrt_p_new self is_token0 x).
  rewrite !sel_where by congruence.
  rewrite !put_map3_sel, !put_map2_sel by congruence.
  fold (all_amts_out self is_token0 x). fold (all_fee_amts self x).
  rewrite put_sel_where by congruence.
  unfold add_fee_growth.
  rewrite !sel_where by congruence.
  rewrite sel_map2_eq, !put_map2_sel
    by (rewrite ?length_map2; congruence).
  destruct is_token0; reflexivity.
Qed.

(** C1: The masked computation of swap (boolean-mask reads and writes on
    arrays of zeros, as in the source) returns the same pool, the same
    result and the same error as the reference that computes every
    quantity on whole arrays and applies the mask once, on every pool,
    for every amount and for every instance of the numbers. *)
Theorem swap_eq_ref (self : Pool F) (is_token0 : bool) (amt_desired : F) :
  swap self is_token0 amt_desired = swap_ref self is_token0 amt_desired.
Proof.
  rewrite swap_cases. unfold swap_ref.
  destruct (nltb (nlit 0) amt_desired); [|reflexivity]. cbn [negb assert bind].
  destruct (_calc_tier_amts_in _ _ _) as [[x mask]|e]; reflexivity.
Qed.

(** swap fails its assertion on an amount that is not positive, and
    returns no pool: nothing is changed. *)
Theorem swap_rejects (self : Pool F) (is_token0 : bool) (amt_desired : F) :
  nltb (nlit 0) amt_desired = false ->
  swap self is_token0 amt_desired = Err AssertionError.
Proof. intros Ha. now rewrite swap_cases, Ha. Qed.

(** Whether [swap] returns, for every instance of the numbers: the two
    assertions and the shape; the fuel of the loop plays no part. *)
Lemma swap_ok_cases (self : Pool F) (is_token0 : bool) (amt_desired : F) :
  is_ok (swap self is_token0 amt_desired)
  = nltb (nlit 0) amt_desired && nleb (nlit 0) amt_desired && shape_ok self.
Proof.
  rewrite swap_cases, calc_tier_amts_in_cases.
  destruct (full_loop_returns (lsg_of self) (res_of self is_token0)
              amt_desired (size self)) as [[x mask] ->].
  destruct (nltb _ _), (nleb _ _), (shape_ok self); reflexivity.
Qed.

(** C39: swap returns a pool and a result exactly when amt_desired > 0
    and the arrays of the pool have one shape, and raises otherwise: the
    assertion of _calc_tier_amts_in (line 74) never fails under swap and
    the bound on the passes of the loop is never the reason. This holds
    for every instance of the numbers in which x < y implies x <= y, so
    for the rationals and for IEEE doubles, where NaN is rejected and
    infinity accepted. *)
Theorem swap_succeeds_iff `{!NumOrder F} (self : Pool F) (is_token0 : bool)
  (amt_desired : F) :
  is_ok (swap self is_token0 amt_desired)
  = nltb (nlit 0) amt_desired && shape_ok self.
Proof.
  rewrite swap_ok_cases.
  destruct (nltb (nlit 0) amt_desired) eqn:E; [|reflexivity].
  now rewrite (nltb_nleb _ _ E).
Qed.

(** ** The degenerate case: no tier left in the mask

    What [swap] returns when the allocator hands back a mask with no
    tier: sums of empty arrays and arrays of zeros. *)
Definition idle_result (n : nat) : SwapResult F :=
  {| amt_in := nlit 0;
     amt_out := nlit 0;
     fee_amt := nlit 0;
     fee_bps := ndiv (nlit 0) (nlit 0) * nlit 10000;
     amts_in := zeros n;
     amts_out := zeros n;
     fee_amts := zeros n |}%num.

Lemma ref_pool_none (self : Pool F) (z : bool) (x : list F)
  (mask : list bool) :
  shape_ok self = true -> length x = size self ->
  length mask = size self -> count mask = 0%nat ->
  ref_pool self z x mask = self.
Proof.
  intros Hs Hx Hm Hc.
  pose proof (length_all_sqrt_p_new self z x Hs Hx) as Hpn.
  pose proof (length_all_fee_amts self x Hs Hx) as Hfa.
  apply shape_ok_iff in Hs as (HL & Hp & Hg & H0 & H1).
  unfold ref_pool, all_fee_growth.
  rewrite !where_none; [destruct self, z; reflexivity|..];
    repeat first [congruence | rewrite length_map2].
Qed.

Lemma ref_result_none (self : Pool F) (z : bool) (mask : list bool) :
  shape_ok self = true -> length mask = size self -> count mask = 0%nat ->
  ref_result self z (zeros (size self)) mask = idle_result (size self).
Proof.
  intros Hs Hm Hc.
  assert (length (zeros (size self)) = size self) as Hz by apply length_zeros.
  pose proof (length_all_sqrt_p_new self z _ Hs Hz) as Hpn.
  pose proof (length_all_fee_amts self _ Hs Hz) as Hfa.
  apply shape_ok_iff in Hs as (HL & Hp & Hg & H0 & H1).
  unfold ref_result, idle_result, all_amts_out.
  rewrite !where_none, !sel_none; auto;
    repeat first [congruence | rewrite length_map3].
Qed.

(** C24: The degenerate allocation, for every instance of the numbers:
    when the allocator returns a mask with no tier, the amounts are all
    zero and swap changes nothing in the pool; it returns sums of empty
    arrays, that is amt_in, amt_out and fee_amt zero and fee_bps 0 / 0
    (NaN in floating point), with arrays of zeros. In double precision
    this happens on a valid pool for a positive amount (the witness). *)
Theorem swap_degenerate (self : Pool F) (is_token0 : bool) (amt_desired : F)
  (x : list F) (mask : list bool) :
  nltb (nlit 0) amt_desired = true ->
  _calc_tier_amts_in self is_token0 amt_desired = Ok (x, mask) ->
  count mask = 0%nat ->
  x = zeros (size self)
  /\ swap self is_token0 amt_desired = Ok (self, idle_result (size self)).
Proof.
  intros Ha Hc Hm.
  destruct (calc_tier_amts_in_lengths _ _ _ _ _ Hc) as (Hs & Hx & Hl).
  destruct (calc_tier_amts_in_inv _ _ _ _ _ Hc) as (_ & _ & E).
  apply (repair_loop_closed_form _ _ _ (size self)) in E as (_ & E & _);
    rewrite ?repeat_length, ?length_zeros;
    auto using length_lsg_of, length_res_of.
  assert (length (lsg_of self) = length (res_of self is_token0)) as Hlr
    by now rewrite length_lsg_of, length_res_of.
  simpl in E. rewrite where_none in E;
    rewrite ?length_zeros, ?length_lagrange_all, ?length_lsg_of; auto.
  subst x. split; [reflexivity|].
  rewrite swap_cases, Ha, Hc. cbn [negb].
  rewrite ref_pool_none, ref_result_none; auto using length_zeros.
Qed.

(** ** The tiers outside the mask *)

(** C40: A tier that the allocator leaves out of the mask is untouched
    by the swap, for every instance of the numbers (in floating point
    the entries are bit for bit the old ones): its price and its fee
    growth of both tokens are what they were, and its entries of
    amts_in, amts_out and fee_amts are zero. *)
Theorem swap_inactive_untouched (self self' : Pool F) (is_token0 : bool)
  (amt_desired : F) (r : SwapResult F) (x : list F) (mask : list bool)
  (i : nat) (d : F) :
  swap self is_token0 amt_desired = Ok (self', r) ->
  _calc_tier_amts_in self is_token0 amt_desired = Ok (x, mask) ->
  nth i mask false = false ->
  nth i (sqrt_p_arr self') d = nth i (sqrt_p_arr self) d
  /\ nth i (fee0_growth_arr self') d = nth i (fee0_growth_arr self) d
  /\ nth i (fee1_growth_arr self') d = nth i (fee1_growth_arr self) d
  /\ nth i (amts_in r) (nlit 0) = nlit 0
  /\ nth i (amts_out r) (nlit 0) = nlit 0
  /\ nth i (fee_amts r) (nlit 0) = nlit 0.
Proof.
  rewrite swap_cases. destruct (negb _); [discriminate|].
  intros Hr Hc Hi. rewrite Hc in Hr. inv Hr.
  destruct (calc_tier_amts_in_lengths _ _ _ _ _ Hc) as (Hs & Hx & Hm).
  destruct (calc_tier_amts_in_inv _ _ _ _ _ Hc) as (_ & _ & E).
  apply (repair_loop_closed_form _ _ _ (size self)) in E;
    rewrite ?repeat_length, ?length_zeros;
    auto using length_lsg_of, length_res_of.
  simpl in E. destruct E as (_ & Ex & _).
  pose proof (length_all_sqrt_p_new self is_token0 x Hs Hx) as Hpn.
  pose proof (length_all_fee_amts self x Hs Hx) as Hfa.
  pose proof (length_lsg_of self Hs) as Hl.
  pose proof (length_res_of self is_token0 Hs) as Hre.
  pose proof (@length_zeros F _ (size self)) as Hz.
  apply shape_ok_iff in Hs as (HL & Hp & Hg & H0 & H1).
  assert (forall n, nth i (@zeros F _ n) (nlit 0) = nlit 0) as Hz0
    by (intros; apply nth_repeat).
  assert (nth i x (nlit 0) = nlit 0) as Hx0
    by (rewrite Ex, nth_where_off, Hz0; auto;
        rewrite ?length_lagrange_all; congruence).
  simpl. unfold all_fee_growth, all_amts_out.
  destruct is_token0;
    rewrite ?nth_where_off, ?Hz0; auto 10;
    repeat first [congruence | rewrite length_map2 | rewrite length_map3].
Qed.

(** What [swap] never touches. *)
Lemma swap_frame (self self' : Pool F) (is_token0 : bool)
  (amt_desired : F) (r : SwapResult F) :
  swap self is_token0 amt_desired = Ok (self', r) ->
  size self' = size self
  /\ liquidity_arr self' = liquidity_arr self
  /\ sqrt_gamma_arr self' = sqrt_gamma_arr self
  /\ (if is_token0 then fee1_growth_arr self' = fee1_growth_arr self
      else fee0_growth_arr self' = fee0_growth_arr self).
Proof.
  rewrite swap_cases. destruct (negb _); [discriminate|].
  destruct (_calc_tier_amts_in _ _ _) as [[x mask]|e]; [|discriminate].
  intros Hr. inv Hr. destruct is_token0; simpl; auto.
Qed.
End Equivalence.

(** ** The sample swap: 1000 of token0 into the default pool *)

Definition sample_swap : Pool Q * SwapResult Q :=
  Eval vm_compute in
    get_ok (default_pool, ref_result default_pool true [] [])
      (swap default_pool true (nlit 1000)).

Definition sample_pool : Pool Q := fst sample_swap.
Definition sample_result : SwapResult Q := snd sample_swap.

Lemma sample_swap_ok :
  swap default_pool true (nlit 1000) = Ok (sample_pool, sample_result).
Proof. vm_compute. reflexivity. Qed.

