(* ===== verification/SwapExact.v ===== *)
(** * SwapExact: what a swap does to a valid pool, in exact arithmetic

    The theorems on [swap] at the instance [Num_Q], proved on the pool
    and result of the reference ([ref_pool], [ref_result]) that
    [swap_cases] shows [swap] to return: a swap on a valid
    pool returns and leaves the pool valid; the amounts in sum to the
    amount asked for and each aggregate of the result is the sum of its
    per-tier array; the fee of a tier is [1 - sqrt_gamma^2] of what it
    receives; prices move in the direction of the trade; the fee-growth
    array of the token sold only grows and the other one is unchanged;
    the amount out is negative, and smaller in magnitude than the
    amount in at the spot price; the fees collected are the growth of
    the fee arrays weighted by liquidity; the combined price moves in
    the direction of the trade, and by little when the amount is
    small. *)

From Stdlib Require Import List Bool Arith ZArith QArith Lqa Lia Morphisms.
From S2P Require Import Prelude Numeric ArrayIndex PriceAlgebra PoolState.
From S2P Require Import Allocator AllocatorExact Swap.
Import ListNotations.
Local Open Scope Q_scope.

(** ** Inversion of a successful swap *)

Lemma swap_inv (pool pool' : Pool Q) (z : bool) (amt : Q) (r : SwapResult Q) :
  swap pool z amt = Ok (pool', r) ->
  exists x mask,
    0 < amt
    /\ _calc_tier_amts_in pool z amt = Ok (x, mask)
    /\ pool' = ref_pool pool z x mask
    /\ r = ref_result pool z x mask.
Proof.
  rewrite swap_cases. destruct (nltb _ _) eqn:Ea; [|discriminate].
  cbn [negb]. qnum. qbool.
  destruct (_calc_tier_amts_in _ _ _) as [[x mask]|e] eqn:Ec; [|discriminate].
  intros Hr. inv Hr. exists x, mask. auto.
Qed.

(** The facts every theorem below starts from. *)
Record swap_facts (pool : Pool Q) (z : bool) (amt : Q) (x : list Q)
  (mask : list bool) : Prop := {
  sf_amt : 0 < amt;
  sf_len_x : length x = size pool;
  sf_len_mask : length mask = size pool;
  sf_nonneg : Forall (fun a => 0 <= a) x;
  sf_len_after_fee : length (all_after_fee pool x) = size pool;
  sf_len_sqrt_p_new : length (all_sqrt_p_new pool z x) = size pool;
  sf_len_fee_amts : length (all_fee_amts pool x) = size pool;
  sf_inactive : forall i, nth i mask false = false -> nth i x 0 = 0
}.

Lemma swap_inv_facts (pool pool' : Pool Q) (z : bool) (amt : Q)
  (r : SwapResult Q) :
  swap pool z amt = Ok (pool', r) ->
  exists x mask,
    swap_facts pool z amt x mask
    /\ _calc_tier_amts_in pool z amt = Ok (x, mask)
    /\ pool' = ref_pool pool z x mask
    /\ r = ref_result pool z x mask.
Proof.
  intros Hs. destruct (swap_inv _ _ _ _ _ Hs) as (x & mask & Ha & Ec & -> & ->).
  exists x, mask. split; [|auto].
  destruct (calc_tier_amts_in_lengths _ _ _ _ _ Ec) as (Hsh & Hx & Hm).
  destruct (calc_tier_amts_in_inv _ _ _ _ _ Ec) as (_ & _ & El).
  constructor; auto.
  - apply repair_loop_nonneg in El; auto.
    now rewrite repeat_length, length_zeros.
  - now apply length_all_after_fee.
  - now apply length_all_sqrt_p_new.
  - now apply length_all_fee_amts.
  - intros i Hi.
    apply (repair_loop_closed_form _ _ _ (size pool)) in El;
      rewrite ?repeat_length, ?length_zeros;
      auto using length_lsg_of, length_res_of.
    destruct El as (_ & E & _). simpl in E.
    assert (length (lagrange_all (lsg_of pool) (res_of pool z) amt mask)
            = size pool) as Hla
      by (rewrite length_lagrange_all; rewrite ?length_lsg_of, ?length_res_of;
          auto).
    rewrite E, nth_where, Hi by (rewrite ?length_zeros; congruence).
    apply nth_repeat.
Qed.

(** ** A swap on a valid pool returns *)

Theorem swap_total (pool : Pool Q) (z : bool) (amt : Q) :
  wf_pool pool -> 0 < amt ->
  exists pool' r, swap pool z amt = Ok (pool', r).
Proof.
  intros Hwf Ha. rewrite swap_cases.
  replace (nltb 0 amt) with true by (symmetry; qnum; now qbool).
  destruct (calc_tier_amts_in_total pool z amt) as [[x mask] ->];
    [qnum; qbool; lra | auto with pool | cbn [negb]; eauto].
Qed.

(** ** The tiers one by one *)

Section PerTier.
Variables (pool : Pool Q) (z : bool) (amt : Q) (x : list Q)
  (mask : list bool).
Hypotheses (Hwf : wf_pool pool) (Hsf : swap_facts pool z amt x mask).

(** Tier [i]: what it receives, its liquidity, price and fee factor. *)
Definition x_ (i : nat) : Q := nth i x 0.
Definition L_ (i : nat) : Q := nth i (liquidity_arr pool) 0.
Definition p_ (i : nat) : Q := nth i (sqrt_p_arr pool) 0.
Definition g_ (i : nat) : Q := nth i (sqrt_gamma_arr pool) 0.

Lemma tier_facts (i : nat) :
  (i < size pool)%nat ->
  0 <= x_ i /\ 0 < L_ i /\ 0 < p_ i /\ 0 < g_ i <= 1.
Proof using All.
  intros Hi. destruct Hwf, Hsf. unfold x_, L_, p_, g_. repeat split.
  - eapply Forall_nth in sf_nonneg0; [apply sf_nonneg0|congruence].
  - eapply Forall_nth in wf_liquidity; [apply wf_liquidity|congruence].
  - eapply Forall_nth in wf_sqrt_p; [apply wf_sqrt_p|congruence].
  - eapply Forall_nth in wf_sqrt_gamma; [apply wf_sqrt_gamma|congruence].
  - eapply Forall_nth in wf_sqrt_gamma; [apply wf_sqrt_gamma|congruence].
Qed.

Lemma tier_after_fee_nonneg (i : nat) :
  (i < size pool)%nat -> 0 <= x_ i * (g_ i * g_ i).
Proof using All. intros Hi. destruct (tier_facts i Hi) as (?&?&?&?&?). nra. Qed.

Lemma nth_all_after_fee (i : nat) :
  (i < size pool)%nat ->
  nth i (all_after_fee pool x) 0 = x_ i * (g_ i * g_ i).
Proof using All.
  intros Hi. destruct Hwf, Hsf. unfold all_after_fee.
  rewrite (nth_map2 _ _ _ _ 0 0), (nth_map_lt _ _ _ 0)
    by (rewrite ?length_map; congruence).
  reflexivity.
Qed.

Lemma nth_all_sqrt_p_new (i : nat) :
  (i < size pool)%nat ->
  nth i (all_sqrt_p_new pool z x) 0
  = calc_sqrt_p_from_amt z (p_ i) (L_ i) (x_ i * (g_ i * g_ i)).
Proof using All.
  intros Hi. rewrite <- nth_all_after_fee by auto.
  destruct Hwf, Hsf. unfold all_sqrt_p_new.
  now rewrite (nth_map3 _ _ _ _ _ 0 0 0) by congruence.
Qed.

Lemma nth_all_amts_out (i : nat) :
  (i < size pool)%nat ->
  nth i (all_amts_out pool z x) 0
  = calc_amt_from_sqrt_p (negb z) (p_ i)
      (calc_sqrt_p_from_amt z (p_ i) (L_ i) (x_ i * (g_ i * g_ i))) (L_ i).
Proof using All.
  intros Hi. rewrite <- nth_all_sqrt_p_new by auto.
  destruct Hwf, Hsf. unfold all_amts_out.
  now rewrite (nth_map3 _ _ _ _ _ 0 0 0) by congruence.
Qed.

Lemma nth_all_fee_amts (i : nat) :
  (i < size pool)%nat ->
  nth i (all_fee_amts pool x) 0 = x_ i - x_ i * (g_ i * g_ i).
Proof using All.
  intros Hi. rewrite <- nth_all_after_fee by auto.
  destruct Hwf, Hsf. unfold all_fee_amts.
  now rewrite (nth_map2 _ _ _ _ 0 0) by congruence.
Qed.

Lemma nth_all_fee_growth (fg : list Q) (i : nat) :
  length fg = size pool -> (i < size pool)%nat ->
  nth i (all_fee_growth pool x fg) 0
  = nth i fg 0 + (x_ i - x_ i * (g_ i * g_ i)) / L_ i.
Proof using All.
  intros Hfg Hi. rewrite <- nth_all_fee_amts by auto.
  destruct Hwf, Hsf. unfold all_fee_growth.
  rewrite (nth_map2 _ _ _ _ 0 0), (nth_map2 _ _ _ _ 0 0);
    rewrite ?length_map2; try congruence.
  reflexivity.
Qed.

Lemma length_all_fee_growth (fg : list Q) :
  length fg = size pool -> length (all_fee_growth pool x fg) = size pool.
Proof using All.
  intros Hfg. destruct Hwf, Hsf. unfold all_fee_growth.
  rewrite length_map2; rewrite ?length_map2; congruence.
Qed.

Lemma length_all_amts_out : length (all_amts_out pool z x) = size pool.
Proof using All.
  destruct Hwf, Hsf. unfold all_amts_out. rewrite length_map3; congruence.
Qed.

Lemma tier_fee_nonneg (i : nat) :
  (i < size pool)%nat -> 0 <= x_ i - x_ i * (g_ i * g_ i).
Proof using All.
  intros Hi. destruct (tier_facts i Hi) as (?&?&?&?&?).
  assert (g_ i * g_ i <= 1) by nra. nra.
Qed.

Lemma all_sqrt_p_new_pos : Forall (fun p => 0 < p) (all_sqrt_p_new pool z x).
Proof using All.
  apply Forall_nth_lt with (d := 0). intros i Hi.
  rewrite (sf_len_sqrt_p_new _ _ _ _ _ Hsf) in Hi.
  rewrite nth_all_sqrt_p_new by auto.
  destruct (tier_facts i Hi) as (?&?&?&?&?).
  apply sqrt_p_pos; auto using tier_after_fee_nonneg.
Qed.

Lemma all_fee_growth_nonneg (fg : list Q) :
  length fg = size pool -> Forall (fun f => 0 <= f) fg ->
  Forall (fun f => 0 <= f) (all_fee_growth pool x fg).
Proof using All.
  intros Hl Hfg. apply Forall_nth_lt with (d := 0). intros i Hi.
  rewrite length_all_fee_growth in Hi by auto.
  rewrite nth_all_fee_growth by auto.
  destruct (tier_facts i Hi) as (?&?&?&?&?).
  pose proof (tier_fee_nonneg i Hi).
  assert (0 <= nth i fg 0)
    by (eapply Forall_nth in Hfg; [apply Hfg|congruence]).
  assert (0 <= (x_ i - x_ i * (g_ i * g_ i)) / L_ i)
    by now apply Qdiv_nonneg.
  lra.
Qed.
End PerTier.

(** ** Validity is kept *)

Theorem swap_preserves_wf (pool pool' : Pool Q) (z : bool) (amt : Q)
  (r : SwapResult Q) :
  wf_pool pool -> swap pool z amt = Ok (pool', r) -> wf_pool pool'.
Proof.
  intros Hwf Hs.
  destruct (swap_inv_facts _ _ _ _ _ Hs) as (x & mask & Hsf & _ & -> & _).
  pose proof (all_sqrt_p_new_pos pool z amt x mask Hwf Hsf) as Hp.
  pose proof (all_fee_growth_nonneg pool z amt x mask Hwf Hsf) as Hg.
  pose proof (length_all_fee_growth pool z amt x mask Hwf Hsf) as Hgl.
  destruct Hsf. pose proof Hwf as [].
  constructor; simpl; auto;
    try (destruct z; auto; rewrite length_where; rewrite ?Hgl; congruence);
    try (rewrite length_where; congruence);
    try (destruct z; auto); apply Forall_where; auto.
Qed.

(** The same, with what the allocator guarantees on a valid pool that
    has a tier. *)
Lemma swap_inv_post (pool pool' : Pool Q) (z : bool) (amt : Q)
  (r : SwapResult Q) :
  wf_pool pool -> (0 < size pool)%nat ->
  swap pool z amt = Ok (pool', r) ->
  exists x mask,
    swap_facts pool z amt x mask
    /\ alloc_post (lsg_of pool) (res_of pool z) amt (size pool) x mask
    /\ pool' = ref_pool pool z x mask
    /\ r = ref_result pool z x mask.
Proof.
  intros Hwf Hsz Hs.
  destruct (swap_inv_facts _ _ _ _ _ Hs) as (x & mask & Hsf & Ec & -> & ->).
  exists x, mask. split; [auto|split; [|auto]].
  pose proof (sf_amt _ _ _ _ _ Hsf).
  apply alloc_inv_post; auto. lra.
Qed.

(** ** Conservation of the amounts *)

(** The totals of the reference result are the sums of its arrays. *)
Lemma ref_result_sums (pool : Pool Q) (z : bool) (amt : Q) (x : list Q)
  (mask : list bool) :
  wf_pool pool -> swap_facts pool z amt x mask ->
  let r := ref_result pool z x mask in
  nsum (amts_out r) == amt_out r /\ nsum (fee_amts r) == fee_amt r.
Proof.
  intros Hwf Hsf.
  pose proof (length_all_amts_out pool z amt x mask Hwf Hsf).
  destruct Hsf. simpl.
  rewrite !sel_where by (rewrite ?length_zeros; congruence).
  rewrite <- sf_len_mask0.
  split; apply nsum_where_zeros; congruence.
Qed.

(** The totals a swap reports are the sums of its arrays. *)
Lemma swap_sums (pool pool' : Pool Q) (z : bool) (amt : Q)
  (r : SwapResult Q) :
  wf_pool pool -> swap pool z amt = Ok (pool', r) ->
  nsum (amts_out r) == amt_out r /\ nsum (fee_amts r) == fee_amt r.
Proof.
  intros Hwf Hs.
  destruct (swap_inv_facts _ _ _ _ _ Hs) as (x & mask & Hsf & _ & _ & ->).
  now apply (ref_result_sums pool z amt).
Qed.

(** C5: Amount conservation: after a swap on a valid pool with at least
    one tier, the per-tier amounts in sum to the amount asked for, and
    so does the reported amt_in; the reported amt_out and fee_amt, which
    the code sums under the mask, are the sums of the whole per-tier
    arrays amts_out and fee_amts. *)
Theorem swap_conserves_amount (pool pool' : Pool Q) (z : bool) (amt : Q)
  (r : SwapResult Q) :
  wf_pool pool -> (0 < size pool)%nat ->
  swap pool z amt = Ok (pool', r) ->
  amt_in r == amt /\ nsum (amts_in r) == amt
  /\ nsum (amts_out r) == amt_out r /\ nsum (fee_amts r) == fee_amt r.
Proof.
  intros Hwf Hsz Hs. pose proof (swap_sums _ _ _ _ _ Hwf Hs) as Hsum.
  destruct (swap_inv_post _ _ _ _ _ Hwf Hsz Hs) as (x & mask & _ & Hp & _ & ->).
  simpl in *. destruct Hp. auto.
Qed.

(** ** The tiers after a swap *)

(** The fee-growth array of the token being sold. *)
Definition sold_fee_growth (z : bool) (pool : Pool Q) : list Q :=
  if z then fee0_growth_arr pool else fee1_growth_arr pool.

(** What a swap does to tier [i], in terms of the amount it routes
    there: the fee withheld, the new price, the amount paid out and the
    fee growth. *)
Record tier_step (pool pool' : Pool Q) (z : bool) (r : SwapResult Q)
  (i : nat) : Prop := {
  ts_amt : 0 <= nth i (amts_in r) 0;
  ts_fee :
    nth i (fee_amts r) 0
    == nth i (amts_in r) 0 * (1 - g_ pool i * g_ pool i);
  ts_price :
    nth i (sqrt_p_arr pool') 0
    == calc_sqrt_p_from_amt z (p_ pool i) (L_ pool i)
         (nth i (amts_in r) 0 * (g_ pool i * g_ pool i));
  ts_out :
    nth i (amts_out r) 0
    == calc_amt_from_sqrt_p (negb z) (p_ pool i)
         (calc_sqrt_p_from_amt z (p_ pool i) (L_ pool i)
            (nth i (amts_in r) 0 * (g_ pool i * g_ pool i)))
         (L_ pool i);
  ts_growth :
    nth i (sold_fee_growth z pool') 0
    == nth i (sold_fee_growth z pool) 0 + nth i (fee_amts r) 0 / L_ pool i
}.

(** A tier the allocator left out: nothing in, nothing moves. *)
Lemma tier_unused (z : bool) (p L g : Q) :
  0 < p -> 0 < L ->
  p == calc_sqrt_p_from_amt z p L (0 * (g * g))
  /\ 0 == calc_amt_from_sqrt_p (negb z) p
            (calc_sqrt_p_from_amt z p L (0 * (g * g))) L.
Proof.
  intros Hp HL.
  assert (calc_sqrt_p_from_amt z p L (0 * (g * g)) == p) as E
    by (rewrite <- (sqrt_p_of_zero z p L Hp HL) at 2;
        apply calc_sqrt_p_from_amt_Proper; auto; try reflexivity; ring).
  now rewrite E, amt_of_no_move.
Qed.

Section TierStep.
Variables (pool : Pool Q) (z : bool) (amt : Q) (x : list Q)
  (mask : list bool) (i : nat).
Hypotheses (Hwf : wf_pool pool) (Hsf : swap_facts pool z amt x mask)
  (Hi : (i < size pool)%nat).

Lemma nth_ref_fee_amts :
  nth i (where_ mask (all_fee_amts pool x) (zeros (size pool))) 0
  == nth i x 0 * (1 - g_ pool i * g_ pool i).
Proof using All.
  pose proof Hsf as [].
  rewrite nth_where by (rewrite ?length_zeros; congruence).
  destruct (nth i mask false) eqn:Em.
  - rewrite (nth_all_fee_amts pool z amt x mask) by auto. unfold x_. ring.
  - rewrite sf_inactive0 by auto. unfold zeros. rewrite nth_repeat.
    qnum. ring.
Qed.

Lemma nth_ref_sqrt_p :
  nth i (where_ mask (all_sqrt_p_new pool z x) (sqrt_p_arr pool)) 0
  == calc_sqrt_p_from_amt z (p_ pool i) (L_ pool i)
       (nth i x 0 * (g_ pool i * g_ pool i)).
Proof using All.
  pose proof Hsf as []. pose proof Hwf as [].
  destruct (tier_facts pool z amt x mask Hwf Hsf i Hi) as (?&?&?&?&?).
  rewrite nth_where by congruence.
  destruct (nth i mask false) eqn:Em.
  - now rewrite (nth_all_sqrt_p_new pool z amt x mask) by auto.
  - rewrite sf_inactive0 by auto. now apply tier_unused.
Qed.

Lemma nth_ref_amts_out :
  nth i (where_ mask (all_amts_out pool z x) (zeros (size pool))) 0
  == calc_amt_from_sqrt_p (negb z) (p_ pool i)
       (calc_sqrt_p_from_amt z (p_ pool i) (L_ pool i)
          (nth i x 0 * (g_ pool i * g_ pool i)))
       (L_ pool i).
Proof using All.
  pose proof Hsf as [].
  pose proof (length_all_amts_out pool z amt x mask Hwf Hsf).
  destruct (tier_facts pool z amt x mask Hwf Hsf i Hi) as (?&?&?&?&?).
  rewrite nth_where by (rewrite ?length_zeros; congruence).
  destruct (nth i mask false) eqn:Em.
  - now rewrite (nth_all_amts_out pool z amt x mask) by auto.
  - rewrite sf_inactive0 by auto. unfold zeros. rewrite nth_repeat.
    now apply tier_unused.
Qed.

Lemma nth_ref_fee_growth (fg : list Q) :
  length fg = size pool ->
  nth i (where_ mask (all_fee_growth pool x fg) fg) 0
  == nth i fg 0
     + nth i (where_ mask (all_fee_amts pool x) (zeros (size pool))) 0
       / L_ pool i.
Proof using All.
  intros Hfg. pose proof Hsf as [].
  pose proof (length_all_fee_growth pool z amt x mask Hwf Hsf fg Hfg).
  destruct (tier_facts pool z amt x mask Hwf Hsf i Hi) as (?&?&?&?&?).
  rewrite !nth_where by (rewrite ?length_zeros; congruence).
  destruct (nth i mask false) eqn:Em.
  - rewrite (nth_all_fee_growth pool z amt x mask),
      (nth_all_fee_amts pool z amt x mask) by auto.
    reflexivity.
  - unfold zeros. rewrite nth_repeat. qnum. field. lra.
Qed.
End TierStep.

Lemma swap_tier_step (pool pool' : Pool Q) (z : bool) (amt : Q)
  (r : SwapResult Q) (i : nat) :
  wf_pool pool -> swap pool z amt = Ok (pool', r) ->
  (i < size pool)%nat -> tier_step pool pool' z r i.
Proof.
  intros Hwf Hs Hi.
  destruct (swap_inv_facts _ _ _ _ _ Hs) as (x & mask & Hsf & _ & -> & ->).
  constructor; simpl.
  - apply (tier_facts pool z amt x mask Hwf Hsf i Hi).
  - now apply (nth_ref_fee_amts pool z amt).
  - now apply (nth_ref_sqrt_p pool z amt).
  - now apply (nth_ref_amts_out pool z amt).
  - pose proof (nth_ref_fee_growth pool z amt x mask i Hwf Hsf Hi) as Hg.
    destruct z; simpl; apply Hg; auto with pool.
Qed.

(** Lengths of the arrays of the result. *)
Lemma swap_result_lengths (pool pool' : Pool Q) (z : bool) (amt : Q)
  (r : SwapResult Q) :
  wf_pool pool -> swap pool z amt = Ok (pool', r) ->
  length (amts_in r) = size pool
  /\ length (amts_out r) = size pool
  /\ length (fee_amts r) = size pool.
Proof.
  intros Hwf Hs.
  destruct (swap_inv_facts _ _ _ _ _ Hs) as (x & mask & Hsf & _ & -> & ->).
  pose proof (length_all_amts_out pool z amt x mask Hwf Hsf).
  destruct Hsf. simpl.
  rewrite !length_where by (rewrite ?length_zeros; congruence). auto.
Qed.

(** ** Fees *)

(** C17: For every tier, the amount in minus the fee is the amount in
    times sqrt_gamma squared, and the fee lies between zero and the
    amount in. *)
Theorem swap_fee_identity (pool pool' : Pool Q) (z : bool) (amt : Q)
  (r : SwapResult Q) (i : nat) :
  wf_pool pool -> swap pool z amt = Ok (pool', r) ->
  (i < size pool)%nat ->
  nth i (amts_in r) 0 - nth i (fee_amts r) 0
  == nth i (amts_in r) 0 * (g_ pool i * g_ pool i)
  /\ 0 <= nth i (fee_amts r) 0 <= nth i (amts_in r) 0.
Proof.
  intros Hwf Hs Hi. destruct (swap_tier_step _ _ _ _ _ i Hwf Hs Hi).
  assert (0 < g_ pool i <= 1) as Hg.
  { unfold g_. pose proof Hwf as [].
    eapply Forall_nth in wf_sqrt_gamma; [apply wf_sqrt_gamma|congruence]. }
  assert (g_ pool i * g_ pool i <= 1) by nra.
  rewrite ts_fee0. split; [ring|nra].
Qed.

(** C29: The fee rate fee_bps reported by a swap lies between any lower
    and upper bound on the fee rates 1 - sqrt_gamma^2 of the tiers, in
    basis points. *)
Theorem swap_fee_bps_between (pool pool' : Pool Q) (z : bool) (amt : Q)
  (r : SwapResult Q) (lo hi : Q) :
  wf_pool pool -> (0 < size pool)%nat ->
  swap pool z amt = Ok (pool', r) ->
  (forall i, (i < size pool)%nat ->
     lo <= 1 - g_ pool i * g_ pool i <= hi) ->
  lo * 10000 <= fee_bps r <= hi * 10000.
Proof.
  intros Hwf Hsz Hs Hb.
  destruct (swap_result_lengths _ _ _ _ _ Hwf Hs) as (Hlx & _ & Hlf).
  assert (lo * nsum (amts_in r) <= nsum (fee_amts r)
          <= hi * nsum (amts_in r)) as Hsum.
  { apply nsum_between; [congruence|]. rewrite Hlx. intros i Hi.
    destruct (swap_tier_step _ _ _ _ _ i Hwf Hs Hi).
    specialize (Hb i Hi). rewrite ts_fee0. split; [auto|nra]. }
  revert Hsum.
  destruct (swap_inv_post _ _ _ _ _ Hwf Hsz Hs) as (x & mask & Hsf & Hp & _ & ->).
  pose proof (sf_amt _ _ _ _ _ Hsf). destruct Hp, Hsf. simpl.
  rewrite !sel_where by (rewrite ?length_zeros; congruence).
  rewrite <- sf_len_mask0, nsum_where_zeros by congruence.
  rewrite post_sum_active, post_sum. qnum. intros [? ?].
  split; [apply Qmult_le_compat_r|apply Qmult_le_compat_r]; try lra;
    [apply Qle_shift_div_l|apply Qle_shift_div_r]; lra.
Qed.

(** ** Prices *)

Lemma tier_pool_facts (pool : Pool Q) (i : nat) :
  wf_pool pool -> (i < size pool)%nat ->
  0 < L_ pool i /\ 0 < p_ pool i /\ 0 < g_ pool i <= 1.
Proof.
  intros [] Hi. unfold L_, p_, g_. repeat split.
  - eapply Forall_nth in wf_liquidity; [apply wf_liquidity|congruence].
  - eapply Forall_nth in wf_sqrt_p; [apply wf_sqrt_p|congruence].
  - eapply Forall_nth in wf_sqrt_gamma; [apply wf_sqrt_gamma|congruence].
  - eapply Forall_nth in wf_sqrt_gamma; [apply wf_sqrt_gamma|congruence].
Qed.

(** The new price of a tier is positive and on the side of the old one
    that the trade pushes to, strictly when the tier receives something. *)
Lemma tier_price_facts (pool pool' : Pool Q) (z : bool) (amt : Q)
  (r : SwapResult Q) (i : nat) :
  wf_pool pool -> swap pool z amt = Ok (pool', r) ->
  (i < size pool)%nat ->
  0 < nth i (sqrt_p_arr pool') 0
  /\ (if z then nth i (sqrt_p_arr pool') 0 <= p_ pool i
      else p_ pool i <= nth i (sqrt_p_arr pool') 0)
  /\ (0 < nth i (amts_in r) 0 ->
      if z then nth i (sqrt_p_arr pool') 0 < p_ pool i
      else p_ pool i < nth i (sqrt_p_arr pool') 0).
Proof.
  intros Hwf Hs Hi.
  destruct (swap_tier_step _ _ _ _ _ i Hwf Hs Hi) as [Ha _ Hprice _ _].
  destruct (tier_pool_facts pool i Hwf Hi) as (HL & Hp & Hg & _).
  set (a := nth i (amts_in r) 0) in *.
  assert (0 < g_ pool i * g_ pool i) as Hgg by nra.
  assert (0 <= a * (g_ pool i * g_ pool i)) as Haf by nra.
  split; [|split].
  - rewrite Hprice. now apply sqrt_p_pos.
  - destruct z; rewrite Hprice; [now apply sqrt_p_token0_le|].
    pose proof (sqrt_p_token1_eq _ _ _ Hp HL Haf). nra.
  - intros Hpos. assert (0 < a * (g_ pool i * g_ pool i)) by nra.
    destruct z; rewrite Hprice;
      [now apply sqrt_p_token0_decreases|now apply sqrt_p_token1_increases].
Qed.

(** C16: A swap that sells token0 moves the price of no tier up and a
    swap that sells token1 moves the price of no tier down; the move is
    strict in every tier that receives a positive amount, and a tier
    that receives nothing keeps its price. *)
Theorem swap_price_moves (pool pool' : Pool Q) (z : bool) (amt : Q)
  (r : SwapResult Q) (i : nat) :
  wf_pool pool -> swap pool z amt = Ok (pool', r) ->
  (i < size pool)%nat ->
  let p := nth i (sqrt_p_arr pool) 0 in
  let p' := nth i (sqrt_p_arr pool') 0 in
  (if z then p' <= p else p <= p')
  /\ (0 < nth i (amts_in r) 0 -> if z then p' < p else p < p')
  /\ (nth i (amts_in r) 0 == 0 -> p' == p).
Proof.
  intros Hwf Hs Hi. cbv zeta. fold (p_ pool i).
  destruct (tier_price_facts _ _ _ _ _ i Hwf Hs Hi) as (_ & Hle & Hlt).
  destruct (swap_tier_step _ _ _ _ _ i Hwf Hs Hi) as [_ _ Hprice _ _].
  destruct (tier_pool_facts pool i Hwf Hi) as (HL & Hp & _).
  split; [exact Hle|split; [exact Hlt|]].
  intros E. rewrite Hprice, E, Qmult_0_l. now apply sqrt_p_of_zero.
Qed.

(** ** What the pool pays *)

(** C13: In a swap every tier implements the constant-product market
    maker on its virtual reserves L / sqrt_p and L * sqrt_p: the
    reserves at the new price are the reserves after selling the amount
    the tier receives net of its fee, the amount out is the constant-
    product payout with a minus sign, and it is smaller in magnitude
    than the reserve it is paid from. *)
Theorem swap_pays_cpmm (pool pool' : Pool Q) (z : bool) (amt : Q)
  (r : SwapResult Q) (i : nat) :
  wf_pool pool -> swap pool z amt = Ok (pool', r) ->
  (i < size pool)%nat ->
  let R := reserves_of z (L_ pool i) (p_ pool i) in
  let a := nth i (amts_in r) 0 * (g_ pool i * g_ pool i) in
  nth i (amts_out r) 0 == - cpmm_out R a
  /\ reserves_eq (reserves_of z (L_ pool i) (nth i (sqrt_p_arr pool') 0))
       (cpmm_sell R a)
  /\ - r_out R < nth i (amts_out r) 0 <= 0.
Proof.
  intros Hwf Hs Hi R a. destruct (swap_tier_step _ _ _ _ _ i Hwf Hs Hi).
  destruct (tier_pool_facts pool i Hwf Hi) as (HL & Hp & Hg & _).
  assert (0 <= a) as Ha by (subst a; nra).
  destruct (reserves_of_pos z _ _ Hp HL) as [Hin Hout]. fold R in Hin, Hout.
  assert (nth i (amts_out r) 0 == - cpmm_out R a) as E
    by (rewrite ts_out0; now apply amt_out_is_cpmm_out).
  split; [exact E|split].
  - transitivity (reserves_of z (L_ pool i)
                    (calc_sqrt_p_from_amt z (p_ pool i) (L_ pool i) a));
      [|now apply price_update_refines_cpmm].
    unfold reserves_eq. destruct z; simpl; now rewrite ts_price0.
  - rewrite ts_out0. now apply amt_out_range.
Qed.

(** C30: The amounts out that a swap reports are not positive in any
    tier, and their sum is negative: the code reports what the pool pays
    with a minus sign. *)
Theorem swap_amt_out_negative (pool pool' : Pool Q) (z : bool) (amt : Q)
  (r : SwapResult Q) :
  wf_pool pool -> (0 < size pool)%nat ->
  swap pool z amt = Ok (pool', r) ->
  Forall (fun o => o <= 0) (amts_out r) /\ nsum (amts_out r) < 0.
Proof.
  intros Hwf Hsz Hs.
  destruct (swap_result_lengths _ _ _ _ _ Hwf Hs) as (Hlx & Hlo & _).
  assert (forall i, (i < size pool)%nat ->
            nth i (amts_out r) 0 <= 0
            /\ (0 < nth i (amts_in r) 0 -> nth i (amts_out r) 0 < 0)) as Ht.
  { intros i Hi. destruct (swap_tier_step _ _ _ _ _ i Hwf Hs Hi).
    destruct (tier_pool_facts pool i Hwf Hi) as (HL & Hp & Hg & _).
    assert (0 < g_ pool i * g_ pool i) by nra.
    rewrite ts_out0. split; [|intros Hpos].
    - apply amt_out_range; auto. nra.
    - apply amt_out_negative; auto. nra. }
  assert (Forall (fun o => o <= 0) (amts_out r)) as Hall
    by (apply Forall_nth_lt with (d := 0); rewrite Hlo; intros; now apply Ht).
  split; [exact Hall|].
  destruct (swap_inv_post _ _ _ _ _ Hwf Hsz Hs) as (x & mask & Hsf & Hp & _ & E).
  destruct (nsum_pos_index x) as (i & Hi & Hpos).
  { apply Hsf. } { destruct Hp, Hsf. lra. }
  rewrite (sf_len_x _ _ _ _ _ Hsf) in Hi.
  apply nsum_neg_index with (i := i); auto; [congruence|].
  apply Ht; auto. now rewrite E.
Qed.

(** A tier pays at most the spot value of what it receives, and
    strictly less when it receives something. *)
Lemma tier_pays_below_spot (pool pool' : Pool Q) (z : bool) (amt : Q)
  (r : SwapResult Q) (i : nat) :
  wf_pool pool -> swap pool z amt = Ok (pool', r) -> (i < size pool)%nat ->
  - nth i (amts_out r) 0 <= nth i (amts_in r) 0 * spot z (p_ pool i)
  /\ (0 < nth i (amts_in r) 0 ->
      - nth i (amts_out r) 0 < nth i (amts_in r) 0 * spot z (p_ pool i)).
Proof.
  intros Hwf Hs Hi.
  destruct (swap_tier_step _ _ _ _ _ i Hwf Hs Hi) as [Hx _ _ Hout _].
  destruct (tier_pool_facts pool i Hwf Hi) as (HL & Hp & Hg & Hg1).
  set (x := nth i (amts_in r) 0) in *. set (c := g_ pool i * g_ pool i) in *.
  assert (0 < c <= 1) as Hc by (subst c; nra).
  assert (0 <= x * c) as Ha by nra.
  rewrite Hout, amt_out_is_cpmm_out by auto.
  destruct (reserves_of_pos z _ _ Hp HL) as [Hin Ho].
  destruct (cpmm_out_below_spot _ (x * c) Hin Ho Ha) as [Hle Hlt].
  rewrite spot_reserves in Hle, Hlt by auto.
  pose proof (spot_pos z _ Hp) as Hs0.
  assert (0 <= x * spot z (p_ pool i)) by (apply Qmult_le_0_compat; lra).
  assert (x * c * spot z (p_ pool i) <= x * spot z (p_ pool i)) by nra.
  split; [lra|]. intros Hpos. assert (0 < x * c) as Hxc by nra.
  specialize (Hlt Hxc). lra.
Qed.

(** C31: What a swap on a valid pool with at least one tier pays out in
    all is strictly less than the amount in valued at any upper bound on
    the spot prices of the tiers (sqrt_p^2 when token0 is sold, 1 /
    sqrt_p^2 when token1 is): price impact and fees consume value, and
    at prices 1 the magnitude of amt_out is below amt_in. *)
Theorem swap_pays_below_spot (pool pool' : Pool Q) (z : bool) (amt hi : Q)
  (r : SwapResult Q) :
  wf_pool pool -> (0 < size pool)%nat ->
  swap pool z amt = Ok (pool', r) ->
  Forall (fun p => spot z p <= hi) (sqrt_p_arr pool) ->
  - amt_out r < amt * hi.
Proof.
  intros Hwf Hsz Hs Hhi.
  destruct (swap_result_lengths _ _ _ _ _ Hwf Hs) as (Hlx & Hlo & _).
  pose proof (fun i => tier_pays_below_spot _ _ _ _ _ i Hwf Hs) as Ht.
  pose proof (fun i => swap_tier_step _ _ _ _ _ i Hwf Hs) as Hstep.
  destruct (swap_inv_post _ _ _ _ _ Hwf Hsz Hs)
    as (x & mask & Hsf & Hp & _ & E).
  destruct (ref_result_sums pool z amt x mask Hwf Hsf) as [Eo _].
  rewrite <- E in Eo. rewrite <- Eo, <- nsum_map_opp.
  assert (nsum (amts_in r) == amt) as Ex by (rewrite E; apply Hp).
  rewrite <- Ex, Qmult_comm, <- nsum_map_mult.
  assert (forall i, (i < size pool)%nat ->
            nth i (amts_in r) 0 * spot z (p_ pool i)
            <= hi * nth i (amts_in r) 0) as Hb.
  { intros i Hi. destruct (Hstep i Hi) as [Hx _ _ _ _].
    assert (spot z (p_ pool i) <= hi)
      by (apply (Forall_nth_at _ _ i 0 Hhi); rewrite wf_len_sqrt_p; auto).
    nra. }
  destruct (nsum_pos_index (amts_in r)) as (j & Hj & Hpos).
  { rewrite E. apply Hsf. } { rewrite Ex. apply Hsf. }
  rewrite Hlx in Hj.
  apply nsum_nth_lt with (j := j); rewrite ?length_map; try congruence.
  - intros i Hi. rewrite Hlo in Hi.
    rewrite (nth_map_lt Qopp _ i 0 0), (nth_map_lt (Qmult hi) _ i 0 0)
      by congruence.
    destruct (Ht i Hi) as [Hle _]. specialize (Hb i Hi). lra.
  - rewrite (nth_map_lt Qopp _ j 0 0), (nth_map_lt (Qmult hi) _ j 0 0)
      by congruence.
    destruct (Ht j Hj) as [_ Hlt]. specialize (Hb j Hj).
    specialize (Hlt Hpos). lra.
Qed.

(** ** Fee growth *)

(** C35: A swap adds to the fee growth of the token sold, in every tier,
    the fee of the tier divided by its liquidity, and leaves the fee-
    growth array of the other token as it was. *)
Theorem swap_fee_growth_increment (pool pool' : Pool Q) (z : bool) (amt : Q)
  (r : SwapResult Q) (i : nat) :
  wf_pool pool -> swap pool z amt = Ok (pool', r) ->
  (i < size pool)%nat ->
  nth i (sold_fee_growth z pool') 0
  == nth i (sold_fee_growth z pool) 0
     + nth i (amts_in r) 0 * (1 - g_ pool i * g_ pool i) / L_ pool i
  /\ sold_fee_growth (negb z) pool' = sold_fee_growth (negb z) pool.
Proof.
  intros Hwf Hs Hi. destruct (swap_tier_step _ _ _ _ _ i Hwf Hs Hi).
  split; [now rewrite ts_growth0, ts_fee0|].
  destruct (swap_frame _ _ _ _ _ Hs) as (_ & _ & _ & Hf).
  now destruct z.
Qed.

Lemma Forall2_Qle_refl (a : list Q) : Forall2 Qle a a.
Proof. induction a; constructor; auto. apply Qle_refl. Qed.

(** Neither fee-growth array decreases in a swap. *)
Lemma swap_fee_growth_grows (pool pool' : Pool Q) (z : bool) (amt : Q)
  (r : SwapResult Q) :
  wf_pool pool -> swap pool z amt = Ok (pool', r) ->
  Forall2 Qle (fee0_growth_arr pool) (fee0_growth_arr pool')
  /\ Forall2 Qle (fee1_growth_arr pool) (fee1_growth_arr pool').
Proof.
  intros Hwf Hs.
  assert (Forall2 Qle (sold_fee_growth z pool) (sold_fee_growth z pool'))
    as Hsold.
  { pose proof (swap_preserves_wf _ _ _ _ _ Hwf Hs) as Hwf'.
    destruct (swap_frame _ _ _ _ _ Hs) as (Hsz & _).
    assert (length (sold_fee_growth z pool) = size pool) as Hl
      by (destruct z; simpl; auto with pool).
    apply Forall2_nth_lt with (da := 0) (db := 0).
    - rewrite Hl, <- Hsz. destruct z; simpl; symmetry; auto with pool.
    - rewrite Hl. intros i Hi.
      destruct (swap_tier_step _ _ _ _ _ i Hwf Hs Hi).
      destruct (tier_pool_facts pool i Hwf Hi) as (HL & _ & Hg & Hg1).
      assert (g_ pool i * g_ pool i <= 1) by nra.
      rewrite ts_growth0, ts_fee0.
      assert (0 <= nth i (amts_in r) 0 * (1 - g_ pool i * g_ pool i)
                   / L_ pool i)
        by (apply Qdiv_nonneg; [nra|auto]).
      lra. }
  destruct (swap_frame _ _ _ _ _ Hs) as (_ & _ & _ & Hf).
  destruct z; simpl in *; rewrite Hf; auto using Forall2_Qle_refl.
Qed.

(** ** Fees collected and fee growth *)

Lemma length_sold_fee_growth (pool : Pool Q) (z : bool) :
  wf_pool pool -> length (sold_fee_growth z pool) = size pool.
Proof. intros Hwf. destruct z; simpl; auto with pool. Qed.

(** The fee_amt a swap reports is the growth of the fee array of
    the token sold, summed over the tiers with each tier weighted by its
    liquidity: what the fee-growth accumulators record is exactly what
    was withheld. *)
Theorem swap_fee_accounting (pool pool' : Pool Q) (z : bool) (amt : Q)
  (r : SwapResult Q) :
  wf_pool pool -> swap pool z amt = Ok (pool', r) ->
  nsum (map2 Qmult (liquidity_arr pool)
          (map2 Qminus (sold_fee_growth z pool') (sold_fee_growth z pool)))
  == fee_amt r.
Proof.
  intros Hwf Hs.
  destruct (swap_result_lengths _ _ _ _ _ Hwf Hs) as (_ & _ & Hlf).
  pose proof (swap_preserves_wf _ _ _ _ _ Hwf Hs) as Hwf'.
  destruct (swap_frame _ _ _ _ _ Hs) as (Hsz & _).
  pose proof (length_sold_fee_growth pool z Hwf) as Hl.
  pose proof (length_sold_fee_growth pool' z Hwf') as Hl'.
  pose proof (wf_len_liquidity _ Hwf) as HL.
  transitivity (nsum (fee_amts r)).
  - apply nsum_nth_eq; rewrite ?length_map2; rewrite ?length_map2;
      try congruence.
    rewrite HL. intros i Hi.
    rewrite !(nth_map2 _ _ _ _ 0 0) by (rewrite ?length_map2; congruence).
    destruct (swap_tier_step _ _ _ _ _ i Hwf Hs Hi) as [_ _ _ _ Hgrow].
    destruct (tier_pool_facts pool i Hwf Hi) as (HLi & _).
    rewrite Hgrow. fold (L_ pool i). field. lra.
  - destruct (swap_inv_facts _ _ _ _ _ Hs) as (x & mask & Hsf & _ & _ & ->).
    now apply (ref_result_sums pool z amt).
Qed.

(** When every tier charges a fee (sqrt_gamma below 1), a swap
    strictly increases the fee growth of the token sold in at least one
    tier. *)
Theorem swap_fee_growth_strict (pool pool' : Pool Q) (z : bool) (amt : Q)
  (r : SwapResult Q) :
  wf_pool pool -> (0 < size pool)%nat ->
  swap pool z amt = Ok (pool', r) ->
  (forall i, (i < size pool)%nat -> g_ pool i < 1) ->
  exists i, (i < size pool)%nat
    /\ nth i (sold_fee_growth z pool) 0 < nth i (sold_fee_growth z pool') 0.
Proof.
  intros Hwf Hsz Hs Hfee.
  destruct (swap_inv_post _ _ _ _ _ Hwf Hsz Hs) as (x & mask & Hsf & Hp & _ & E).
  destruct (nsum_pos_index x) as (i & Hi & Hpos).
  { apply Hsf. }
  { pose proof (sf_amt _ _ _ _ _ Hsf). rewrite (post_sum _ _ _ _ _ _ Hp). auto. }
  rewrite (sf_len_x _ _ _ _ _ Hsf) in Hi. exists i. split; [exact Hi|].
  destruct (swap_tier_step _ _ _ _ _ i Hwf Hs Hi) as [_ Hf _ _ Hgrow].
  destruct (tier_pool_facts pool i Hwf Hi) as (HL & _ & Hg & _).
  specialize (Hfee i Hi). rewrite Hgrow, Hf, E. simpl.
  assert (0 < nth i x 0 * (1 - g_ pool i * g_ pool i) / L_ pool i);
    [|lra].
  apply Qdiv_pos; [|auto]. assert (g_ pool i * g_ pool i < 1) by nra. nra.
Qed.

(** ** How far the prices move *)

(** C32: A swap on a valid pool with at least one tier moves the price
    of a tier by at most amt / L when token1 is sold and by at most amt
    * sqrt_p^2 / L when token0 is: a vanishing amount leaves the prices
    where they were. *)
Theorem swap_price_bound (pool pool' : Pool Q) (z : bool) (amt : Q)
  (r : SwapResult Q) (i : nat) :
  wf_pool pool -> (0 < size pool)%nat ->
  swap pool z amt = Ok (pool', r) -> (i < size pool)%nat ->
  if z
  then p_ pool i - nth i (sqrt_p_arr pool') 0
       <= amt * (p_ pool i * p_ pool i) / L_ pool i
  else nth i (sqrt_p_arr pool') 0 - p_ pool i <= amt / L_ pool i.
Proof.
  intros Hwf Hsz Hs Hi.
  destruct (swap_inv_post _ _ _ _ _ Hwf Hsz Hs) as (x & mask & Hsf & Hp & _ & E).
  destruct (swap_tier_step _ _ _ _ _ i Hwf Hs Hi) as [Ha _ Hprice _ _].
  destruct (tier_price_facts _ _ _ _ _ i Hwf Hs Hi) as (Hpos & Hle & _).
  destruct (tier_pool_facts pool i Hwf Hi) as (HL & Hpi & Hg & Hg1).
  assert (nth i (amts_in r) 0 <= amt) as Hx.
  { rewrite E. simpl. rewrite <- (post_sum _ _ _ _ _ _ Hp).
    apply nth_le_nsum, Hsf. }
  set (a := nth i (amts_in r) 0) in *. set (c := g_ pool i * g_ pool i) in *.
  assert (0 <= c <= 1) as Hc by (subst c; nra).
  assert (0 <= a * c <= amt) as Hac by nra.
  set (q := nth i (sqrt_p_arr pool') 0) in *.
  destruct z; apply Qle_shift_div_l; auto.
  - pose proof (sqrt_p_token0_eq _ _ _ Hpi HL (proj1 Hac)) as Eq.
    rewrite <- Hprice in Eq.
    assert (a * c * p_ pool i * q <= amt * p_ pool i * p_ pool i);
      [|nra].
    assert (0 <= a * c * p_ pool i) by nra.
    assert (a * c * p_ pool i * q <= a * c * p_ pool i * p_ pool i) by nra.
    nra.
  - pose proof (sqrt_p_token1_eq _ _ _ Hpi HL (proj1 Hac)) as Eq.
    rewrite <- Hprice in Eq. nra.
Qed.

Lemma sqr_weight_le (a b L : Q) :
  0 < a -> a <= b -> 0 < L -> a * a * L <= b * b * L.
Proof.
  intros Ha Hab HL. assert (a * a <= a * b) by nra.
  assert (a * b <= b * b) by nra. nra.
Qed.

Lemma sqr_weight_lt (a b L : Q) :
  0 < a -> a < b -> 0 < L -> a * a * L < b * b * L.
Proof.
  intros Ha Hab HL. assert (a * a < a * b) by nra.
  assert (a * b < b * b) by nra. nra.
Qed.

(** The numerator of the combined price, tier by tier. *)
Lemma nth_price_terms (pool : Pool Q) (i : nat) :
  wf_pool pool -> (i < size pool)%nat ->
  nth i (map2 Qmult (prices pool) (liquidity_arr pool)) 0
  = p_ pool i * p_ pool i * L_ pool i.
Proof.
  intros [] Hi. unfold prices.
  rewrite (nth_map2 _ _ _ _ 0 0), (nth_map_lt _ _ _ 0)
    by (rewrite ?length_map; congruence).
  reflexivity.
Qed.

Lemma length_price_terms (pool : Pool Q) :
  wf_pool pool ->
  length (map2 Qmult (prices pool) (liquidity_arr pool)) = size pool.
Proof.
  intros []. rewrite length_map2; rewrite length_prices; congruence.
Qed.

(** Old price, new price and liquidity of a tier are positive. *)
Lemma tier_positive (pool pool' : Pool Q) (z : bool) (amt : Q)
  (r : SwapResult Q) (i : nat) :
  wf_pool pool -> swap pool z amt = Ok (pool', r) ->
  (i < size pool)%nat ->
  0 < nth i (sqrt_p_arr pool') 0 /\ 0 < p_ pool i /\ 0 < L_ pool i.
Proof.
  intros Hwf Hs Hi.
  destruct (tier_price_facts _ _ _ _ _ i Hwf Hs Hi) as (? & _).
  destruct (tier_pool_facts pool i Hwf Hi) as (? & ? & _). auto.
Qed.

Lemma liquidity_sum_pos (pool : Pool Q) :
  wf_pool pool -> (0 < size pool)%nat -> 0 < nsum (liquidity_arr pool).
Proof.
  intros Hwf Hsz. apply nsum_pos; auto with pool. intros E.
  pose proof (wf_len_liquidity _ Hwf) as Hl. rewrite E in Hl. simpl in Hl.
  lia.
Qed.

(** C38: A swap on a valid pool with at least one tier moves the
    combined price of the pool (the liquidity-weighted mean of the tier
    prices that Pool.price computes) strictly in the direction of the
    trade: down when token0 is sold, up when token1 is. *)
Theorem swap_moves_combined_price (pool pool' : Pool Q) (z : bool)
  (amt : Q) (r : SwapResult Q) :
  wf_pool pool -> (0 < size pool)%nat ->
  swap pool z amt = Ok (pool', r) ->
  if z then price pool' < price pool else price pool < price pool'.
Proof.
  intros Hwf Hsz Hs.
  pose proof (swap_preserves_wf _ _ _ _ _ Hwf Hs) as Hwf'.
  destruct (swap_frame _ _ _ _ _ Hs) as (Esz & EL & _).
  destruct (swap_inv_post _ _ _ _ _ Hwf Hsz Hs) as (x & mask & Hsf & Hp & _ & E).
  destruct (nsum_pos_index x) as (j & Hj & Hpos).
  { apply Hsf. }
  { pose proof (sf_amt _ _ _ _ _ Hsf). rewrite (post_sum _ _ _ _ _ _ Hp). auto. }
  rewrite (sf_len_x _ _ _ _ _ Hsf) in Hj.
  assert (amts_in r = x) as Ex by (rewrite E; reflexivity).
  pose proof (liquidity_sum_pos pool Hwf Hsz) as Hden.
  pose proof (length_price_terms pool Hwf) as Hl.
  pose proof (length_price_terms pool' Hwf') as Hl'. rewrite Esz in Hl'.
  assert (forall i, L_ pool' i = L_ pool i) as HL
    by (intros i; unfold L_; now rewrite EL).
  destruct (tier_price_facts _ _ _ _ _ j Hwf Hs Hj) as (_ & _ & Hlt).
  rewrite Ex in Hlt. specialize (Hlt Hpos).
  pose proof (fun i => tier_positive pool pool' z amt r i Hwf Hs) as Hpp.
  unfold price; qnum.
  replace (nsum (liquidity_arr pool')) with (nsum (liquidity_arr pool))
    by now rewrite EL.
  destruct z; apply Qmult_lt_compat_r; try (now apply Qinv_lt_0_compat);
    apply nsum_nth_lt with (j := j); rewrite ?Hl, ?Hl'; try congruence;
    try (intros i Hi; destruct (tier_price_facts _ _ _ _ _ i Hwf Hs Hi)
           as (_ & Hle & _));
    rewrite !nth_price_terms, HL by congruence; unfold p_ at 1 2;
    first [apply sqr_weight_le | apply sqr_weight_lt];
    auto; now apply Hpp.
Qed.

(** No price moves against the trade. *)
Lemma swap_prices_monotone (pool pool' : Pool Q) (z : bool) (amt : Q)
  (r : SwapResult Q) :
  wf_pool pool -> swap pool z amt = Ok (pool', r) ->
  if z then Forall2 Qle (sqrt_p_arr pool') (sqrt_p_arr pool)
  else Forall2 Qle (sqrt_p_arr pool) (sqrt_p_arr pool').
Proof.
  intros Hwf Hs.
  pose proof (swap_preserves_wf _ _ _ _ _ Hwf Hs) as Hwf'.
  destruct (swap_frame _ _ _ _ _ Hs) as (Esz & _).
  pose proof (wf_len_sqrt_p _ Hwf) as Hl.
  pose proof (wf_len_sqrt_p _ Hwf') as Hl'. rewrite Esz in Hl'.
  pose proof (fun i => tier_price_facts pool pool' z amt r i Hwf Hs) as Ht.
  destruct z; apply Forall2_nth_lt with (da := 0) (db := 0);
    rewrite ?Hl, ?Hl'; auto; intros i Hi; now apply Ht.
Qed.

(** ** The theorems at the sample swap

    1000 of token0 into the default pool ([sample_swap]). *)

Ltac sample_swap :=
  first [ exact default_pool_wf | exact sample_swap_ok | simpl; lia ].

Lemma swap_conserves_amount_witness :
  amt_in sample_result == 1000 /\ nsum (amts_in sample_result) == 1000
  /\ nsum (amts_out sample_result) == amt_out sample_result
  /\ nsum (fee_amts sample_result) == fee_amt sample_result.
Proof.
  apply (swap_conserves_amount default_pool sample_pool true); sample_swap.
Defined.

Lemma swap_fee_identity_witness :
  nth 0 (amts_in sample_result) 0 - nth 0 (fee_amts sample_result) 0
  == nth 0 (amts_in sample_result) 0
     * (g_ default_pool 0 * g_ default_pool 0)
  /\ 0 <= nth 0 (fee_amts sample_result) 0
     <= nth 0 (amts_in sample_result) 0.
Proof.
  apply (swap_fee_identity default_pool sample_pool true 1000); sample_swap.
Defined.

Lemma swap_fee_bps_between_witness :
  (5 # 10000) * 10000 <= fee_bps sample_result <= (30 # 10000) * 10000.
Proof.
  apply (swap_fee_bps_between default_pool sample_pool true 1000);
    try sample_swap.
  intros [|[|i]] Hi; [vm_compute; intuition discriminate ..|simpl in Hi; lia].
Defined.

Lemma swap_price_moves_witness :
  let p := nth 0 (sqrt_p_arr (@default_pool Q _)) 0 in
  let p' := nth 0 (sqrt_p_arr sample_pool) 0 in
  p' <= p
  /\ (0 < nth 0 (amts_in sample_result) 0 -> p' < p)
  /\ (nth 0 (amts_in sample_result) 0 == 0 -> p' == p).
Proof.
  apply (swap_price_moves default_pool sample_pool true 1000); sample_swap.
Defined.

Lemma swap_pays_cpmm_witness :
  let R := reserves_of true (L_ default_pool 0) (p_ default_pool 0) in
  let a := nth 0 (amts_in sample_result) 0
           * (g_ default_pool 0 * g_ default_pool 0) in
  nth 0 (amts_out sample_result) 0 == - cpmm_out R a
  /\ reserves_eq
       (reserves_of true (L_ default_pool 0) (nth 0 (sqrt_p_arr sample_pool) 0))
       (cpmm_sell R a)
  /\ - r_out R < nth 0 (amts_out sample_result) 0 <= 0.
Proof.
  apply (swap_pays_cpmm default_pool sample_pool true 1000); sample_swap.
Defined.

Lemma swap_amt_out_negative_witness :
  Forall (fun o => o <= 0) (amts_out sample_result)
  /\ nsum (amts_out sample_result) < 0.
Proof.
  apply (swap_amt_out_negative default_pool sample_pool true 1000);
    sample_swap.
Defined.

Lemma swap_fee_growth_increment_witness :
  nth 0 (sold_fee_growth true sample_pool) 0
  == nth 0 (sold_fee_growth true default_pool) 0
     + nth 0 (amts_in sample_result) 0
       * (1 - g_ default_pool 0 * g_ default_pool 0) / L_ default_pool 0
  /\ sold_fee_growth (negb true) sample_pool
     = sold_fee_growth (negb true) default_pool.
Proof.
  apply (swap_fee_growth_increment default_pool sample_pool true 1000);
    sample_swap.
Defined.

Lemma swap_fee_accounting_witness :
  nsum (map2 Qmult (liquidity_arr default_pool)
          (map2 Qminus (sold_fee_growth true sample_pool)
             (sold_fee_growth true default_pool)))
  == fee_amt sample_result.
Proof.
  apply (swap_fee_accounting default_pool sample_pool true 1000);
    sample_swap.
Defined.

Lemma swap_fee_growth_strict_witness :
  exists i, (i < size (@default_pool Q _))%nat
    /\ nth i (sold_fee_growth true default_pool) 0
       < nth i (sold_fee_growth true sample_pool) 0.
Proof.
  apply (swap_fee_growth_strict default_pool sample_pool true 1000
           sample_result); try sample_swap.
  intros [|[|i]] Hi; [reflexivity ..|simpl in Hi; lia].
Defined.

Lemma swap_price_bound_witness :
  p_ default_pool 0 - nth 0 (sqrt_p_arr sample_pool) 0
  <= 1000 * (p_ default_pool 0 * p_ default_pool 0) / L_ default_pool 0.
Proof.
  apply (swap_price_bound default_pool sample_pool true 1000 sample_result);
    sample_swap.
Defined.

Lemma swap_moves_combined_price_witness :
  price sample_pool < price default_pool.
Proof.
  apply (swap_moves_combined_price default_pool sample_pool true 1000
           sample_result); sample_swap.
Defined.

Lemma swap_pays_below_spot_witness : - amt_out sample_result < 1000 * 1.
Proof.
  apply (swap_pays_below_spot default_pool sample_pool true);
    try sample_swap.
  repeat constructor; discriminate.
Defined.
