(* ===== verification/Optimality.v ===== *)
(** * Optimality: the split of the allocator is the best one

    [_calc_tier_amts_in] solves, by Lagrange multipliers, the problem of
    splitting an amount over the tiers so that the pool pays the most.
    This file proves that it does.

    - The Kuhn-Tucker conditions: with [t] the multiplier of the last
      pass, every tier inside the mask ends the swap at the same
      marginal rate [1 / t^2], and every tier the loop dropped offers a
      lower rate at its unchanged price
      ([swap_equalises_marginal_rate]).  That the dropped tiers stay
      worse is a second invariant of the loop: the multiplier only
      decreases from pass to pass ([level_decreases]).
    - Optimality: the payout of a tier is strictly concave in what it
      receives, so no other split of the same amount into non-negative
      parts is paid more, and one that is paid as much is the same
      split ([swap_optimal]). *)

From Stdlib Require Import List Bool Arith ZArith QArith Lqa Lia Morphisms.
From S2P Require Import Prelude Numeric ArrayIndex PriceAlgebra PoolState.
From S2P Require Import Allocator AllocatorExact Swap SwapExact.
Import ListNotations.
Local Open Scope Q_scope.

(** ** Sums under a shrinking mask *)

(** [sum (l * t - r * w)] over a mask. *)
Lemma nsum_sel_dev (t w : Q) (m : list bool) : forall l r : list Q,
  length m = length l -> length m = length r ->
  nsum (sel m (map2 (fun x y => x * t - y * w) l r))
  == nsum (sel m l) * t - nsum (sel m r) * w.
Proof.
  induction m as [|[] m IH]; intros [|x l] [|y r] Hl Hr; simpl in *;
    try discriminate; rewrite ?nsum_cons, ?nsum_nil, ?IH by congruence; lra.
Qed.

(** Dropping from a mask entries that are not positive does not lower
    the sum under it. *)
Lemma nsum_sel_mask_and_ge (m : list bool) : forall (b : list bool) (d : list Q),
  length m = length b -> length m = length d ->
  (forall j, nth j m false = true -> nth j b false = false ->
             nth j d 0 <= 0) ->
  nsum (sel m d) <= nsum (sel (mask_and m b) d).
Proof.
  unfold mask_and.
  induction m as [|x m IH]; intros [|y b] [|v d] Hb Hd Hn; simpl in *;
    try discriminate.
  assert (nsum (sel m d) <= nsum (sel (map2 andb m b) d)) as Hrec.
  { apply IH; try congruence. intros j. apply (Hn (S j)). }
  pose proof (Hn 0%nat) as H0. simpl in H0.
  destruct x, y; simpl; rewrite ?nsum_cons; auto; lra.
Qed.

(** If the multiplier decreases, a tier that was worse stays worse. *)
Lemma worse_mono (a r T W T' W' : Q) :
  0 < a -> 0 < W -> 0 < W' ->
  a * T < r * W -> T' * W <= T * W' -> a * T' < r * W'.
Proof.
  intros Ha HW HW' Hw Hle.
  assert (a * T' * W <= a * T * W') by nra.
  assert (a * T * W' < r * W * W') by nra.
  apply (Qmult_lt_r _ _ W); [auto|]. lra.
Qed.

(** ** The dropped tiers stay worse *)

Section Excluded.
Variables (lsg res : list Q) (amount : Q) (n : nat).
Hypotheses (Hlsg : length lsg = n) (Hres : length res = n).
Hypotheses (Hpos : Forall (fun l => 0 < l) lsg) (Hamt : 0 <= amount).

(** Numerator and denominator of the multiplier of a mask. *)
Definition level_num (mask : list bool) : Q := amount + nsum (sel mask res).
Definition level_den (mask : list bool) : Q := nsum (sel mask lsg).

(** Tier [i] would get a negative amount at the multiplier of [mask]. *)
Definition worse (mask : list bool) (i : nat) : Prop :=
  nth i lsg 0 * level_num mask < nth i res 0 * level_den mask.

Definition excluded_worse (mask : list bool) : Prop :=
  forall i, (i < n)%nat -> nth i mask false = false -> worse mask i.

Lemma nth_lagrange_all (mask : list bool) (i : nat) :
  (i < n)%nat ->
  nth i (lagrange_all lsg res amount mask) 0
  = nth i lsg 0 * level_num mask / level_den mask - nth i res 0.
Proof using Hlsg Hres.
  intros Hi. unfold lagrange_all.
  rewrite (nth_map2 _ _ _ _ 0 0), (nth_map_lt _ _ _ 0)
    by (rewrite ?length_map; congruence).
  reflexivity.
Qed.

(** A negative amount is a negative deviation. *)
Lemma negative_worse (mask : list bool) (i : nat) :
  (i < n)%nat -> 0 < level_den mask ->
  nth i (lagrange_all lsg res amount mask) 0 < 0 -> worse mask i.
Proof using Hlsg Hres.
  intros Hi HW. rewrite nth_lagrange_all by auto. unfold worse.
  set (a := nth i lsg 0 * level_num mask). intros Hneg.
  assert (a / level_den mask * level_den mask == a) as E
    by (field; lra).
  nra.
Qed.
Let weight := weight_pos lsg res amount n Hlsg Hres Hpos Hamt.
Let step := repair_step lsg res amount n Hlsg Hres Hpos Hamt.

(** A tier that a pass drops is worse at the multiplier of that pass. *)
Lemma dropped_worse (mask : list bool) (amts : list Q) (j : nat) :
  loop_inv n mask amts -> (j < n)%nat -> nth j mask false = true ->
  nth j (nonneg_mask (lagrange_amts lsg res amount mask amts)) false = false ->
  worse mask j.
Proof using All.
  intros (Hm & Ha & Hc) Hj Hmj Hb.
  apply negative_worse; [auto|now apply weight|].
  unfold nonneg_mask in Hb.
  rewrite (nth_map_lt _ _ _ 0) in Hb
    by (rewrite length_lagrange_amts; congruence).
  rewrite (lagrange_amts_where lsg res amount n) in Hb by auto.
  rewrite nth_where, Hmj in Hb
    by (rewrite ?length_lagrange_all; congruence).
  qnum. now qbool.
Qed.

(** From one pass to the next the multiplier does not increase. *)
Lemma level_decreases (mask : list bool) (amts : list Q) :
  loop_inv n mask amts ->
  let mask' :=
    mask_and mask (nonneg_mask (lagrange_amts lsg res amount mask amts)) in
  level_num mask' * level_den mask <= level_num mask * level_den mask'.
Proof using All.
  intros HI mask'. pose proof HI as (Hm & Ha & Hc).
  assert (length mask' = n) as Hm'
    by (unfold mask'; rewrite length_mask_and;
        rewrite ?length_nonneg_mask, ?length_lagrange_amts; congruence).
  set (dev := map2 (fun x y => x * level_num mask - y * level_den mask)
                lsg res).
  assert (nsum (sel mask dev) <= nsum (sel mask' dev)) as Hge.
  { apply nsum_sel_mask_and_ge;
      rewrite ?length_nonneg_mask, ?length_lagrange_amts;
      try (unfold dev; rewrite length_map2); try congruence.
    intros j Hj Hb.
    assert (j < n)%nat as Hjn.
    { destruct (Nat.lt_ge_cases j n); auto.
      rewrite nth_overflow in Hj by lia. discriminate. }
    pose proof (dropped_worse mask amts j HI Hjn Hj Hb) as Hw.
    unfold dev. rewrite (nth_map2 _ _ _ _ 0 0) by congruence.
    unfold worse in Hw. lra. }
  unfold dev in Hge. rewrite !nsum_sel_dev in Hge by congruence.
  unfold level_num, level_den in *. lra.
Qed.

Lemma excluded_step (mask : list bool) (amts : list Q) :
  loop_inv n mask amts -> excluded_worse mask ->
  let amts1 := lagrange_amts lsg res amount mask amts in
  all_nonneg (sel mask amts1) = false ->
  excluded_worse (mask_and mask (nonneg_mask amts1)).
Proof using All.
  intros HI Hex amts1 Hneg i Hi Hmi. pose proof HI as (Hm & Ha & Hc).
  pose proof (step mask amts HI) as Hs. cbv zeta in Hs.
  fold amts1 in Hs. rewrite Hneg in Hs. destruct Hs as (Hm' & _ & Hc').
  assert (worse mask i) as Hw.
  { unfold mask_and in Hmi.
    rewrite (nth_map2 _ _ _ _ false false) in Hmi
      by (unfold amts1;
          rewrite ?length_nonneg_mask, ?length_lagrange_amts; congruence).
    destruct (nth i mask false) eqn:E; [|now apply Hex].
    now apply (dropped_worse mask amts). }
  apply worse_mono with (T := level_num mask) (W := level_den mask).
  - apply Forall_nth_at; [auto|congruence].
  - now apply weight.
  - now apply weight.
  - exact Hw.
  - exact (level_decreases mask amts HI).
Qed.

(** The mask returned leaves out only tiers that are worse at its own
    multiplier. *)
Lemma repair_loop_excluded (fuel : nat) (mask : list bool) (amts : list Q) r :
  loop_inv n mask amts -> excluded_worse mask ->
  repair_loop fuel lsg res amount mask amts = Some r ->
  excluded_worse (snd r).
Proof using All.
  intros HI Hex.
  apply (repair_loop_rule lsg res amount
           (fun m a => loop_inv n m a /\ excluded_worse m)
           (fun _ m => excluded_worse m)); [|auto].
  intros m a [HI' Hex']. cbv zeta.
  pose proof (step m a HI') as Hs. cbv zeta in Hs.
  destruct (all_nonneg _) eqn:E; [auto|].
  split; [exact Hs|]. now apply excluded_step.
Qed.
End Excluded.

Arguments worse lsg res amount mask i : assert.
Arguments excluded_worse lsg res amount n mask : assert.
Arguments level_num res amount mask : assert.
Arguments level_den lsg mask : assert.

(** ** The allocator on a valid pool *)

Lemma alloc_excluded (pool : Pool Q) (z : bool) (amount : Q)
  (amts : list Q) (mask : list bool) :
  wf_pool pool -> (0 < size pool)%nat -> 0 <= amount ->
  _calc_tier_amts_in pool z amount = Ok (amts, mask) ->
  excluded_worse (lsg_of pool) (res_of pool z) amount (size pool) mask.
Proof.
  intros Hwf Hsz Ha Hc.
  destruct (calc_tier_amts_in_inv _ _ _ _ _ Hc) as (_ & Hs & E).
  apply (repair_loop_excluded _ _ _ (size pool)) in E;
    auto using length_lsg_of, length_res_of, lsg_of_pos.
  - repeat split; rewrite ?repeat_length, ?length_zeros, ?count_repeat_true;
      auto.
  - intros i Hi Hm. rewrite nth_repeat_lt in Hm by auto. discriminate.
Qed.

Lemma nth_lsg_of (pool : Pool Q) (i : nat) :
  wf_pool pool -> (i < size pool)%nat ->
  nth i (lsg_of pool) 0 = L_ pool i / g_ pool i.
Proof.
  intros [] Hi. unfold lsg_of.
  now rewrite (nth_map2 _ _ _ _ 0 0) by congruence.
Qed.

Lemma nth_res_of (pool : Pool Q) (z : bool) (i : nat) :
  wf_pool pool -> (i < size pool)%nat ->
  nth i (res_of pool z) 0
  = if z then L_ pool i / p_ pool i / (g_ pool i * g_ pool i)
    else L_ pool i * p_ pool i / (g_ pool i * g_ pool i).
Proof.
  intros [] Hi. unfold res_of.
  destruct z;
    rewrite (nth_map2 _ _ _ _ 0 0), (nth_map2 _ _ _ _ 0 0),
      (nth_map_lt _ _ _ 0)
      by (rewrite ?length_map2, ?length_map; congruence);
    reflexivity.
Qed.

(** ** Marginal rates *)

(** The square root of what a tier pays, at the margin, per unit of the
    token sold: [sqrt_gamma * sqrt_p] when token0 is sold,
    [sqrt_gamma / sqrt_p] when token1 is. *)
Definition rate (z : bool) (g p : Q) : Q := if z then g * p else g / p.

#[export] Instance rate_Proper : Proper (eq ==> Qeq ==> Qeq ==> Qeq) rate.
Proof. intros z ? <- g g' Hg p p' Hp. destruct z; simpl; now rewrite Hg, Hp. Qed.

(** A tier that receives what the formula gives it ends at rate [W / T]. *)
Lemma active_rate (z : bool) (L p g T W : Q) :
  0 < L -> 0 < p -> 0 < g -> 0 < T -> 0 < W ->
  let x := L / g * T / W
           - (if z then L / p / (g * g) else L * p / (g * g)) in
  rate z g (calc_sqrt_p_from_amt z p L (x * (g * g))) * (T / W) == 1.
Proof.
  intros HL Hp Hg HT HW x.
  assert (x * (g * g) * p == (if z then L * g * p * T / W - L
                              else (L * g * T / W - L * p) * p)) as Ex
    by (subst x; destruct z; field; repeat split; lra).
  assert (0 < L * g * p * T / W)
    by (apply Qdiv_pos; [repeat apply Qmult_pos|]; auto).
  assert (0 < L * g * T / W)
    by (apply Qdiv_pos; [repeat apply Qmult_pos|]; auto).
  destruct z; unfold rate, calc_sqrt_p_from_amt; qnum.
  - setoid_replace (L + x * (g * g) * p) with (L * g * p * T / W)
      by (rewrite Ex; ring).
    field. repeat split; nra.
  - setoid_replace (x * (g * g) / L) with (g * T / W - p)
      by (subst x; field; repeat split; lra).
    field. repeat split; nra.
Qed.

(** A tier that the formula would give a negative amount offers less
    than [W / T] at its price. *)
Lemma excluded_rate (z : bool) (L p g T W : Q) :
  0 < L -> 0 < p -> 0 < g -> 0 < W ->
  L / g * T < (if z then L / p / (g * g) else L * p / (g * g)) * W ->
  rate z g p * (T / W) < 1.
Proof.
  intros HL Hp Hg HW Hw.
  assert (0 < g * g) by nra. assert (0 < L * g) by nra.
  destruct z; unfold rate.
  - setoid_replace (g * p * (T / W)) with
      ((L / g * T) * (g * g * p / L) / W) by (field; repeat split; lra).
    apply Qlt_shift_div_r; [auto|].
    setoid_replace (1 * W) with
      ((L / p / (g * g) * W) * (g * g * p / L)) by (field; repeat split; lra).
    apply Qmult_lt_compat_r; [|auto]. apply Qdiv_pos; nra.
  - setoid_replace (g / p * (T / W)) with
      ((L / g * T) * (g * g / (L * p)) / W) by (field; repeat split; lra).
    apply Qlt_shift_div_r; [auto|].
    setoid_replace (1 * W) with
      ((L * p / (g * g) * W) * (g * g / (L * p)))
      by (field; repeat split; lra).
    apply Qmult_lt_compat_r; [|auto]. apply Qdiv_pos; nra.
Qed.

(** ** The Kuhn-Tucker conditions of a swap *)

(** What a successful swap on a valid pool went through, with the
    conditions on the mask. *)
Lemma swap_inv_kkt (pool pool' : Pool Q) (z : bool) (amt : Q)
  (r : SwapResult Q) :
  wf_pool pool -> (0 < size pool)%nat ->
  swap pool z amt = Ok (pool', r) ->
  exists x mask,
    swap_facts pool z amt x mask
    /\ alloc_post (lsg_of pool) (res_of pool z) amt (size pool) x mask
    /\ excluded_worse (lsg_of pool) (res_of pool z) amt (size pool) mask
    /\ 0 < level_num (res_of pool z) amt mask
    /\ amts_in r = x.
Proof.
  intros Hwf Hsz Hs.
  destruct (swap_inv_facts _ _ _ _ _ Hs) as (x & mask & Hsf & Ec & _ & ->).
  pose proof (sf_amt _ _ _ _ _ Hsf) as Ha.
  exists x, mask. split; [auto|].
  split; [apply alloc_inv_post; auto; lra|].
  split; [apply (alloc_excluded pool z amt x); auto; lra|].
  split; [|reflexivity].
  assert (0 <= nsum (sel mask (res_of pool z))); [|unfold level_num; lra].
  apply nsum_nonneg, Forall_sel.
  eapply Forall_impl; [|apply res_of_pos; auto]. intros; simpl in *; lra.
Qed.

(** ** The tiers at the multiplier of the last pass *)

Section Rates.
Variables (pool : Pool Q) (z : bool) (amt : Q) (x : list Q)
  (mask : list bool).
Hypotheses (Hwf : wf_pool pool)
  (Hsf : swap_facts pool z amt x mask)
  (Hp : alloc_post (lsg_of pool) (res_of pool z) amt (size pool) x mask)
  (Hex : excluded_worse (lsg_of pool) (res_of pool z) amt (size pool) mask)
  (HT : 0 < level_num (res_of pool z) amt mask).

(** The multiplier. *)
Definition multiplier : Q :=
  level_num (res_of pool z) amt mask / level_den (lsg_of pool) mask.

(** The rate at which tier [i] ends the swap. *)
Definition end_rate (i : nat) : Q :=
  rate z (g_ pool i)
    (calc_sqrt_p_from_amt z (p_ pool i) (L_ pool i)
       (nth i x 0 * (g_ pool i * g_ pool i))).

Lemma multiplier_pos : 0 < multiplier.
Proof using All.
  apply Qdiv_pos; [exact HT|]. exact (post_weight _ _ _ _ _ _ Hp).
Qed.

Lemma end_rate_pos (i : nat) : (i < size pool)%nat -> 0 < end_rate i.
Proof using All.
  intros Hi. destruct (tier_facts pool z amt x mask Hwf Hsf i Hi)
    as (Hx & HL & Hpi & Hg & _).
  assert (0 <= x_ x i * (g_ pool i * g_ pool i)) by nra.
  pose proof (sqrt_p_pos _ _ _ Hpi HL H z). unfold end_rate, rate.
  destruct z; [now apply Qmult_pos|now apply Qdiv_pos].
Qed.

(** A tier inside the mask ends at rate [1 / multiplier]; a tier outside it
    received nothing and offers less. *)
Lemma tier_rate (i : nat) :
  (i < size pool)%nat ->
  if nth i mask false then end_rate i * multiplier == 1
  else nth i x 0 = 0 /\ end_rate i * multiplier < 1.
Proof using All.
  intros Hi. unfold end_rate, multiplier.
  destruct (tier_pool_facts pool i Hwf Hi) as (HL & Hpi & Hg & _).
  pose proof (post_weight _ _ _ _ _ _ Hp) as HW.
  destruct (nth i mask false) eqn:Em; [|split].
  - replace (nth i x 0) with
      (L_ pool i / g_ pool i * level_num (res_of pool z) amt mask
       / level_den (lsg_of pool) mask
       - (if z then L_ pool i / p_ pool i / (g_ pool i * g_ pool i)
          else L_ pool i * p_ pool i / (g_ pool i * g_ pool i))).
    { now apply active_rate. }
    pose proof (post_len_mask _ _ _ _ _ _ Hp) as Hm.
    assert (length (lagrange_all (lsg_of pool) (res_of pool z) amt mask)
            = size pool) as Hla
      by (rewrite length_lagrange_all;
          rewrite ?length_lsg_of, ?length_res_of; auto with pool).
    rewrite (post_closed _ _ _ _ _ _ Hp).
    rewrite nth_where, Em by (rewrite ?length_zeros; congruence).
    rewrite (nth_lagrange_all _ _ _ (size pool))
      by auto using length_lsg_of, length_res_of with pool.
    now rewrite nth_lsg_of, nth_res_of.
  - exact (sf_inactive _ _ _ _ _ Hsf i Em).
  - rewrite (sf_inactive _ _ _ _ _ Hsf i Em).
    destruct (tier_unused z _ _ (g_ pool i) Hpi HL) as [<- _].
    apply (excluded_rate z (L_ pool i)); auto.
    specialize (Hex i Hi Em). unfold worse in Hex.
    now rewrite nth_lsg_of, nth_res_of in Hex.
Qed.
End Rates.

(** The rates at which the tiers end a swap: none above [1 / t], the
    tiers that received something at [1 / t], and a tier that received
    nothing at its old price. *)
Lemma swap_rates (pool pool' : Pool Q) (z : bool) (amt : Q)
  (r : SwapResult Q) :
  wf_pool pool -> (0 < size pool)%nat ->
  swap pool z amt = Ok (pool', r) ->
  exists t, 0 < t /\
    forall i, (i < size pool)%nat ->
      let m := rate z (g_ pool i) (nth i (sqrt_p_arr pool') 0) in
      m * t <= 1
      /\ (0 < nth i (amts_in r) 0 -> m * t == 1)
      /\ (nth i (amts_in r) 0 == 0 ->
          nth i (sqrt_p_arr pool') 0 == p_ pool i).
Proof.
  intros Hwf Hsz Hs.
  destruct (swap_inv_kkt _ _ _ _ _ Hwf Hsz Hs)
    as (x & mask & Hsf & Hp & Hex & HT & Hx).
  exists (multiplier pool z amt mask).
  split; [now apply (multiplier_pos pool z amt x mask)|]. intros i Hi m.
  destruct (swap_tier_step _ _ _ _ _ i Hwf Hs Hi) as [_ _ Hprice _ _].
  destruct (tier_pool_facts pool i Hwf Hi) as (HL & Hpi & _).
  pose proof (tier_rate pool z amt x mask Hwf Hsf Hp Hex HT i Hi) as Ht.
  unfold end_rate in Ht. subst m. rewrite Hprice, Hx.
  assert (nth i x 0 == 0 ->
          calc_sqrt_p_from_amt z (p_ pool i) (L_ pool i)
            (nth i x 0 * (g_ pool i * g_ pool i)) == p_ pool i) as H0
    by (intros ->; symmetry; now apply tier_unused).
  split; [|split; [|exact H0]]; destruct (nth i mask false).
  - rewrite Ht. apply Qle_refl.
  - destruct Ht as [_ Hlt]. lra.
  - intros _. exact Ht.
  - destruct Ht as [E0 _]. rewrite E0. intros Hpos.
    exfalso. revert Hpos. apply Qlt_irrefl.
Qed.

(** C14: After a swap there is a multiplier t > 0 such that every tier
    that received a positive amount ends at the same marginal rate
    (sqrt_gamma * sqrt_p when token0 is sold, sqrt_gamma / sqrt_p when
    token1 is) equal to 1 / t, and no tier, used or not, ends at a
    higher rate: the Kuhn-Tucker conditions of the allocation problem. *)
Theorem swap_equalises_marginal_rate (pool pool' : Pool Q) (z : bool)
  (amt : Q) (r : SwapResult Q) :
  wf_pool pool -> (0 < size pool)%nat ->
  swap pool z amt = Ok (pool', r) ->
  exists t, 0 < t /\
    forall i, (i < size pool)%nat ->
      let m := rate z (g_ pool i) (nth i (sqrt_p_arr pool') 0) in
      m * t <= 1 /\ (0 < nth i (amts_in r) 0 -> m * t == 1).
Proof.
  intros Hwf Hsz Hs.
  destruct (swap_rates _ _ _ _ _ Hwf Hsz Hs) as (t & Ht & Hr).
  exists t. split; [exact Ht|]. intros i Hi m.
  destruct (Hr i Hi) as (Hle & Heq & _). split; assumption.
Qed.

Lemma swap_equalises_marginal_rate_witness :
  exists t, 0 < t /\
    forall i, (i < size (@default_pool Q _))%nat ->
      let m := rate true (g_ default_pool i)
                 (nth i (sqrt_p_arr sample_pool) 0) in
      m * t <= 1 /\ (0 < nth i (amts_in sample_result) 0 -> m * t == 1).
Proof.
  apply (swap_equalises_marginal_rate default_pool sample_pool true 1000);
    [exact default_pool_wf | simpl; lia | exact sample_swap_ok].
Defined.

(** ** No other split is paid more *)

Lemma Qsqr_nonneg (x : Q) : 0 <= x * x.
Proof. destruct (Qlt_le_dec x 0); nra. Qed.

Lemma Qsqr_pos_neq (x y : Q) : ~ x == y -> 0 < (y - x) * (y - x).
Proof.
  intros Hn. destruct (Qlt_le_dec x y); [nra|].
  destruct (Qlt_le_dec y x); [nra|]. exfalso. apply Hn. lra.
Qed.

(** The constant-product payout lies below its tangent at [a], and
    strictly below it away from [a]: it is strictly concave. *)
Lemma cpmm_tangent (R : reserves) (a b : Q) :
  0 < r_in R -> 0 < r_out R -> 0 <= a -> 0 <= b ->
  let T := cpmm_out R a
           + r_in R * r_out R / ((r_in R + a) * (r_in R + a)) * (b - a) in
  cpmm_out R b <= T /\ (~ a == b -> cpmm_out R b < T).
Proof.
  intros HA HB Ha Hb T. subst T. unfold cpmm_out.
  set (A := r_in R) in *. set (B := r_out R) in *.
  assert (B * a / (A + a) + A * B / ((A + a) * (A + a)) * (b - a)
          - B * b / (A + b)
          == A * B * ((b - a) * (b - a)) / ((A + a) * (A + a) * (A + b)))
    as E by (field; repeat split; lra).
  assert (0 < (A + a) * (A + a) * (A + b)) as Hd
    by (repeat apply Qmult_pos; lra).
  assert (0 < A * B) as HAB by nra.
  split; [|intros Hn].
  - assert (0 <= A * B * ((b - a) * (b - a))
                 / ((A + a) * (A + a) * (A + b)))
      by (apply Qdiv_nonneg; auto; pose proof (Qsqr_nonneg (b - a)); nra).
    lra.
  - assert (0 < A * B * ((b - a) * (b - a))
                / ((A + a) * (A + a) * (A + b)))
      by (apply Qdiv_pos; auto; apply Qmult_pos; auto;
          now apply Qsqr_pos_neq).
    lra.
Qed.

(** The slope of the payout of a tier is the square of its rate. *)
Lemma slope_rate (z : bool) (L p g a : Q) :
  0 < L -> 0 < p -> 0 < g -> 0 <= a ->
  let R := reserves_of z L p in
  let m := rate z g (calc_sqrt_p_from_amt z p L a) in
  r_in R * r_out R / ((r_in R + a) * (r_in R + a)) * (g * g) == m * m.
Proof.
  intros HL Hp Hg Ha R m. pose proof (denom_pos p L a Hp HL Ha).
  assert (0 < L * p + a) by nra.
  subst R m. destruct z; unfold rate, reserves_of, calc_sqrt_p_from_amt;
    qnum; simpl; field; repeat split; lra.
Qed.

Lemma tier_tangent (z : bool) (L p g x y : Q) :
  0 < L -> 0 < p -> 0 < g -> 0 <= x -> 0 <= y ->
  let R := reserves_of z L p in
  let m := rate z g (calc_sqrt_p_from_amt z p L (x * (g * g))) in
  let T := cpmm_out R (x * (g * g)) + m * m * (y - x) in
  cpmm_out R (y * (g * g)) <= T
  /\ (~ x == y -> cpmm_out R (y * (g * g)) < T).
Proof.
  intros HL Hp Hg Hx Hy R m T. subst T.
  assert (0 < g * g) as Hgg by nra.
  destruct (reserves_of_pos z p L Hp HL) as [Hin Hout].
  pose proof (cpmm_tangent R (x * (g * g)) (y * (g * g)) Hin Hout) as Ht.
  cbv zeta in Ht.
  pose proof (slope_rate z L p g (x * (g * g)) HL Hp Hg) as Hs.
  cbv zeta in Hs. fold R m in Hs. rewrite <- Hs by nra.
  setoid_replace
    (r_in R * r_out R / ((r_in R + x * (g * g)) * (r_in R + x * (g * g)))
     * (g * g) * (y - x))
    with (r_in R * r_out R
          / ((r_in R + x * (g * g)) * (r_in R + x * (g * g)))
          * (y * (g * g) - x * (g * g))) by ring.
  destruct Ht as [Hle Hlt]; [nra|nra|]. split; [exact Hle|].
  intros Hn. apply Hlt. intros E. apply Hn.
  apply (Qmult_inj_r _ _ (g * g)); [lra|exact E].
Qed.

(** What each tier would pay for its part [y] of a split of the token
    sold, the fee of the tier taken first. *)
Definition payouts (pool : Pool Q) (z : bool) (y : list Q) : list Q :=
  map3 (fun L p a => cpmm_out (reserves_of z L p) a)
    (liquidity_arr pool) (sqrt_p_arr pool) (all_after_fee pool y).

(** What the pool would pay for the split. *)
Definition payout (pool : Pool Q) (z : bool) (y : list Q) : Q :=
  nsum (payouts pool z y).

Section Payouts.
Variables (pool : Pool Q) (z : bool) (y : list Q).
Hypotheses (Hwf : wf_pool pool) (Hy : length y = size pool).

Lemma length_payouts : length (payouts pool z y) = size pool.
Proof using All.
  pose proof (length_all_after_fee pool y (wf_shape_ok _ Hwf) Hy).
  destruct Hwf. unfold payouts. rewrite length_map3; congruence.
Qed.

Lemma nth_payouts (i : nat) :
  (i < size pool)%nat ->
  nth i (payouts pool z y) 0
  = cpmm_out (reserves_of z (L_ pool i) (p_ pool i))
      (nth i y 0 * (g_ pool i * g_ pool i)).
Proof using All.
  intros Hi.
  pose proof (length_all_after_fee pool y (wf_shape_ok _ Hwf) Hy).
  destruct Hwf. unfold payouts, all_after_fee in *.
  rewrite (nth_map3 _ _ _ _ _ 0 0 0), (nth_map2 _ _ _ _ 0 0),
    (nth_map_lt _ _ _ 0) by (rewrite ?length_map; congruence).
  reflexivity.
Qed.
End Payouts.

Section Optimal.
Variables (pool : Pool Q) (z : bool) (amt : Q) (x : list Q)
  (mask : list bool).
Hypotheses (Hwf : wf_pool pool)
  (Hsf : swap_facts pool z amt x mask)
  (Hp : alloc_post (lsg_of pool) (res_of pool z) amt (size pool) x mask)
  (Hex : excluded_worse (lsg_of pool) (res_of pool z) amt (size pool) mask)
  (HT : 0 < level_num (res_of pool z) amt mask).

(** The multiplier of the payout problem. *)
Definition lambda : Q := 1 / (multiplier pool z amt mask * multiplier pool z amt mask).

(** Tier by tier, the split of the allocator maximises payout minus
    [lambda] times the amount. *)
Lemma tier_lagrangian (i : nat) (v : Q) :
  (i < size pool)%nat -> 0 <= v ->
  let R := reserves_of z (L_ pool i) (p_ pool i) in
  let c := g_ pool i * g_ pool i in
  let best := cpmm_out R (nth i x 0 * c) - lambda * nth i x 0 in
  cpmm_out R (v * c) - lambda * v <= best
  /\ (~ nth i x 0 == v -> cpmm_out R (v * c) - lambda * v < best).
Proof using All.
  intros Hi Hv R c best. subst R c best.
  destruct (tier_facts pool z amt x mask Hwf Hsf i Hi)
    as (Hx & HL & Hpi & Hg & _). unfold x_ in Hx.
  destruct (tier_tangent z _ _ _ _ v HL Hpi Hg Hx Hv) as [Ht Hts].
  cbv zeta in Ht, Hts. fold (end_rate pool z x i) in Ht, Hts.
  pose proof (multiplier_pos pool z amt x mask Hwf Hsf Hp Hex HT) as Hl.
  pose proof (end_rate_pos pool z amt x mask Hwf Hsf Hp Hex HT i Hi) as Hm.
  pose proof (tier_rate pool z amt x mask Hwf Hsf Hp Hex HT i Hi) as Hr.
  set (m := end_rate pool z x i) in *.
  set (t := multiplier pool z amt mask) in *.
  assert (lambda * (t * t) == 1) as El
    by (unfold lambda; fold t; field; lra).
  assert (0 < t * t) as Htt by nra.
  assert (m * m * (v - nth i x 0) <= lambda * (v - nth i x 0));
    [|split; [lra|intros Hn; specialize (Hts Hn); lra]].
  destruct (nth i mask false).
  - assert (m * m == lambda) as ->; [|apply Qle_refl].
    assert ((m * m - lambda) * (t * t) == 0) as E0
      by (transitivity ((m * t) * (m * t) - lambda * (t * t));
          [ring|rewrite Hr, El; ring]).
    apply Qmult_integral in E0. destruct E0; lra.
  - destruct Hr as [-> Hlt].
    assert (m * m * (t * t) < lambda * (t * t)).
    { rewrite El. setoid_replace (m * m * (t * t)) with ((m * t) * (m * t))
        by ring.
      assert (0 < m * t) by now apply Qmult_pos. nra. }
    assert (m * m < lambda) by (apply (Qmult_lt_r _ _ (t * t)); auto).
    nra.
Qed.

(** Summed over the tiers. *)
Lemma split_lagrangian (y : list Q) :
  length y = size pool -> Forall (fun a => 0 <= a) y ->
  payout pool z y - lambda * nsum y <= payout pool z x - lambda * nsum x.
Proof using All.
  intros Hy Hnn. pose proof (sf_len_x _ _ _ _ _ Hsf) as Hx.
  pose proof (length_payouts pool z y Hwf Hy) as Hly.
  pose proof (length_payouts pool z x Hwf Hx) as Hlx.
  unfold payout.
  rewrite <- !nsum_map_mult, <- !nsum_map2_sub
    by (rewrite ?length_map; congruence).
  apply nsum_nth_le;
    rewrite ?length_map2; rewrite ?length_map; try congruence.
  rewrite Hly. intros i Hi.
  rewrite !(nth_map2 _ _ _ _ 0 0), !(nth_map_lt _ _ _ 0), !nth_payouts
    by (rewrite ?length_map; congruence).
  apply tier_lagrangian; auto. apply Forall_nth_at; [auto|congruence].
Qed.

(** A split that differs from the allocator's in some tier does
    strictly worse. *)
Lemma split_lagrangian_strict (y : list Q) (j : nat) :
  length y = size pool -> Forall (fun a => 0 <= a) y ->
  (j < size pool)%nat -> ~ nth j x 0 == nth j y 0 ->
  payout pool z y - lambda * nsum y < payout pool z x - lambda * nsum x.
Proof using All.
  intros Hy Hnn Hj Hne. pose proof (sf_len_x _ _ _ _ _ Hsf) as Hx.
  pose proof (length_payouts pool z y Hwf Hy) as Hly.
  pose proof (length_payouts pool z x Hwf Hx) as Hlx.
  assert (forall i, (i < size pool)%nat -> 0 <= nth i y 0) as Hyi
    by (intros; apply Forall_nth_at; [auto|congruence]).
  unfold payout.
  rewrite <- !nsum_map_mult, <- !nsum_map2_sub
    by (rewrite ?length_map; congruence).
  apply nsum_nth_lt with (j := j);
    rewrite ?length_map2; rewrite ?length_map; try congruence;
    rewrite ?Hly; [intros i Hi|];
    rewrite !(nth_map2 _ _ _ _ 0 0), !(nth_map_lt _ _ _ 0), !nth_payouts
      by (rewrite ?length_map; congruence);
    apply tier_lagrangian; auto.
Qed.
End Optimal.

(** What the swap reports as paid out is the payout of its split, with
    a minus sign. *)
Lemma amt_out_payout (pool : Pool Q) (z : bool) (amt : Q) (x : list Q)
  (mask : list bool) :
  wf_pool pool -> swap_facts pool z amt x mask ->
  amt_out (ref_result pool z x mask) == - payout pool z x.
Proof.
  intros Hwf Hsf. pose proof (sf_len_x _ _ _ _ _ Hsf) as Hx.
  destruct (ref_result_sums pool z amt x mask Hwf Hsf) as [<- _].
  unfold payout. rewrite <- nsum_map_opp. simpl.
  pose proof (length_all_amts_out pool z amt x mask Hwf Hsf) as Hlo.
  pose proof (length_payouts pool z x Hwf Hx) as Hlp.
  pose proof (sf_len_mask _ _ _ _ _ Hsf) as Hm.
  assert (length (where_ mask (all_amts_out pool z x) (zeros (size pool)))
          = size pool) as Hlw
    by (rewrite length_where; rewrite ?length_zeros; congruence).
  apply nsum_nth_eq; rewrite ?length_map; [congruence|].
  rewrite Hlw. intros i Hi.
  rewrite (nth_map_lt _ _ _ 0), nth_payouts by congruence.
  rewrite (nth_ref_amts_out pool z amt x mask i Hwf Hsf Hi).
  destruct (tier_facts pool z amt x mask Hwf Hsf i Hi)
    as (Hxi & HL & Hpi & Hg & _). unfold x_ in Hxi.
  apply amt_out_is_cpmm_out; auto. nra.
Qed.

(** No split is paid more than the split of the swap, and the swap
    reports its payout with a minus sign. *)
Lemma swap_payout_best (pool pool' : Pool Q) (z : bool) (amt : Q)
  (r : SwapResult Q) (y : list Q) :
  wf_pool pool -> (0 < size pool)%nat ->
  swap pool z amt = Ok (pool', r) ->
  length y = size pool -> Forall (fun a => 0 <= a) y -> nsum y == amt ->
  payout pool z y <= payout pool z (amts_in r)
  /\ payout pool z (amts_in r) == - amt_out r.
Proof.
  intros Hwf Hsz Hs Hy Hnn Hsum.
  destruct (swap_inv_kkt _ _ _ _ _ Hwf Hsz Hs)
    as (x & mask & Hsf & Hp & Hex & HT & Hx).
  destruct (swap_inv_facts _ _ _ _ _ Hs) as (x' & mask' & Hsf' & _ & _ & Er).
  pose proof (post_sum _ _ _ _ _ _ Hp) as Hsx.
  rewrite Hx. split.
  - pose proof (split_lagrangian pool z amt x mask Hwf Hsf Hp Hex HT y Hy Hnn)
      as Hl.
    rewrite Hsum, Hsx in Hl. lra.
  - subst r. simpl in Hx. subst x'.
    rewrite (amt_out_payout pool z amt x mask') by auto. ring.
Qed.

(** C2: The split that swap routes to the tiers is the best one, and the
    only best one: any other split of the same amount over the tiers
    into parts that are not negative would be paid no more by the
    constant-product tiers (each after its own fee), a split that is
    paid as much is the split of the swap (up to Qeq), and what the swap
    reports as amt_out is the payout of its split with a minus sign. *)
Theorem swap_optimal (pool pool' : Pool Q) (z : bool) (amt : Q)
  (r : SwapResult Q) (y : list Q) :
  wf_pool pool -> (0 < size pool)%nat ->
  swap pool z amt = Ok (pool', r) ->
  length y = size pool -> Forall (fun a => 0 <= a) y -> nsum y == amt ->
  payout pool z y <= payout pool z (amts_in r)
  /\ payout pool z (amts_in r) == - amt_out r
  /\ (payout pool z y == payout pool z (amts_in r) ->
      Qeq_list y (amts_in r)).
Proof.
  intros Hwf Hsz Hs Hy Hnn Hsum.
  destruct (swap_payout_best _ _ _ _ _ y Hwf Hsz Hs Hy Hnn Hsum) as [Hb Ho].
  split; [exact Hb|split; [exact Ho|]].
  destruct (swap_inv_kkt _ _ _ _ _ Hwf Hsz Hs)
    as (x & mask & Hsf & Hp & Hex & HT & Hx).
  pose proof (post_sum _ _ _ _ _ _ Hp) as Hsx. rewrite Hx.
  intros Heq. apply Forall2_nth_lt with (da := 0) (db := 0);
    [rewrite (sf_len_x _ _ _ _ _ Hsf); exact Hy|].
  intros i Hi. rewrite Hy in Hi.
  destruct (Qeq_dec (nth i x 0) (nth i y 0)) as [E|Hne];
    [now symmetry|exfalso].
  pose proof (split_lagrangian_strict pool z amt x mask Hwf Hsf Hp Hex HT
                y i Hy Hnn Hi Hne) as Hl.
  rewrite Hsum, Hsx in Hl. lra.
Qed.

Lemma swap_optimal_witness :
  payout default_pool true [1000; 0]
  <= payout default_pool true (amts_in sample_result)
  /\ payout default_pool true (amts_in sample_result)
     == - amt_out sample_result
  /\ (payout default_pool true [1000; 0]
      == payout default_pool true (amts_in sample_result) ->
      Qeq_list [1000; 0] (amts_in sample_result)).
Proof.
  apply (swap_optimal default_pool sample_pool true 1000);
    [ exact default_pool_wf | simpl; lia | exact sample_swap_ok | reflexivity
    | repeat constructor; discriminate | reflexivity ].
Defined.
