(* ===== verification/Monotone.v ===== *)
(** * Monotone: a larger order gives every tier at least as much

    The split of the allocator has the shape of water filling: with
    [t] the multiplier of the last pass, tier [i] receives
    [max 0 (lsg i * t - res i)].  Since the amounts sum to the order,
    a larger order has a multiplier at least as large, and so no tier
    receives less.  For [swap] this gives: a larger order, on the same
    pool, routes at least as much to every tier, moves every price at
    least as far and is paid at least as much. *)

From Stdlib Require Import List Bool Arith ZArith QArith Lqa Lia Morphisms.
From S2P Require Import Prelude Numeric ArrayIndex PriceAlgebra PoolState.
From S2P Require Import Allocator AllocatorExact Swap SwapExact Optimality.
Import ListNotations.
Local Open Scope Q_scope.

(** Two arrays compared index by index whose sums compare the other
    way are equal index by index. *)
Lemma nsum_le_pointwise (a b : list Q) (i : nat) :
  length a = length b ->
  (forall j, (j < length a)%nat -> nth j a 0 <= nth j b 0) ->
  nsum b <= nsum a -> (i < length a)%nat -> nth i b 0 <= nth i a 0.
Proof.
  intros Hl Hle Hs Hi.
  destruct (Qlt_le_dec (nth i a 0) (nth i b 0)) as [Hlt|]; [exfalso|auto].
  pose proof (nsum_nth_lt a b i Hl Hle Hi Hlt). lra.
Qed.

(** ** Water filling *)

Section WaterFilling.
Variables (lsg res : list Q) (n : nat).
Hypotheses (Hlsg : length lsg = n) (Hres : length res = n).
Hypothesis Hpos : Forall (fun l => 0 < l) lsg.

(** What the Lagrange formula gives tier [i] at multiplier [t]. *)
Definition fill_at (t : Q) (i : nat) : Q := nth i lsg 0 * t - nth i res 0.

Lemma fill_at_mono (t t' : Q) (i : nat) :
  (i < n)%nat -> t <= t' -> fill_at t i <= fill_at t' i.
Proof using Hlsg Hpos.
  intros Hi Ht. unfold fill_at.
  assert (0 < nth i lsg 0) by (apply Forall_nth_at; [auto|congruence]).
  nra.
Qed.

(** [x] is the water filling at level [t]. *)
Definition filled (t : Q) (x : list Q) : Prop :=
  forall i, (i < n)%nat ->
    0 <= nth i x 0 /\ fill_at t i <= nth i x 0
    /\ (0 < nth i x 0 -> nth i x 0 == fill_at t i).

Lemma filled_mono (t t' : Q) (x x' : list Q) (i : nat) :
  filled t x -> filled t' x' -> t <= t' -> (i < n)%nat ->
  nth i x 0 <= nth i x' 0.
Proof using Hlsg Hpos.
  intros Hx Hx' Ht Hi.
  destruct (Hx i Hi) as (H0 & _ & Heq), (Hx' i Hi) as (H0' & Hge' & _).
  destruct (Qlt_le_dec 0 (nth i x 0)) as [Hlt|]; [|lra].
  rewrite (Heq Hlt). pose proof (fill_at_mono t t' i Hi Ht). lra.
Qed.

(** Two fillings of the same tiers: the one that sums to more gives
    every tier at least as much. *)
Lemma filled_sum_mono (t t' : Q) (x x' : list Q) (i : nat) :
  length x = n -> length x' = n ->
  filled t x -> filled t' x' -> nsum x <= nsum x' -> (i < n)%nat ->
  nth i x 0 <= nth i x' 0.
Proof using Hlsg Hpos.
  intros Hl Hl' Hx Hx' Hs Hi.
  destruct (Qlt_le_dec t' t) as [Hlt|Hle];
    [|now apply (filled_mono t t')].
  apply (nsum_le_pointwise x' x); try congruence.
  intros j Hj. apply (filled_mono t' t); auto; [lra|congruence].
Qed.

(** Two fillings of the same tiers with the same sum are the same. *)
Lemma filled_unique (t t' : Q) (x x' : list Q) (i : nat) :
  length x = n -> length x' = n ->
  filled t x -> filled t' x' -> nsum x == nsum x' -> (i < n)%nat ->
  nth i x 0 == nth i x' 0.
Proof using Hlsg Hpos.
  intros Hl Hl' Hx Hx' Hs Hi.
  apply Qle_antisym; [apply (filled_sum_mono t t')|apply (filled_sum_mono t' t)];
    auto; lra.
Qed.

(** The amounts the allocator returns are the water filling at the
    multiplier of the returned mask. *)
Lemma alloc_filled (amount : Q) (x : list Q) (mask : list bool) :
  alloc_post lsg res amount n x mask ->
  excluded_worse lsg res amount n mask ->
  filled (level_num res amount mask / level_den lsg mask) x.
Proof using Hlsg Hres.
  intros Hp Hex i Hi.
  pose proof (post_weight _ _ _ _ _ _ Hp) as HW. fold (level_den lsg mask) in HW.
  set (T := level_num res amount mask) in *.
  set (W := level_den lsg mask) in *.
  assert (0 <= nth i x 0) as H0
    by (apply Forall_nth_at; [apply Hp|rewrite (post_len_amts _ _ _ _ _ _ Hp); auto]).
  assert (fill_at (T / W) i == nth i lsg 0 * T / W - nth i res 0) as Ef
    by (unfold fill_at; field; lra).
  pose proof (post_len_mask _ _ _ _ _ _ Hp) as Hm.
  assert (nth i x 0
          = if nth i mask false
            then nth i lsg 0 * T / W - nth i res 0 else 0) as Ex.
  { rewrite (post_closed _ _ _ _ _ _ Hp) at 1.
    rewrite nth_where
      by (rewrite ?length_zeros, ?length_lagrange_all; congruence).
    rewrite (nth_lagrange_all lsg res amount n) by auto.
    unfold zeros. now rewrite nth_repeat. }
  split; [exact H0|]. rewrite Ef.
  destruct (nth i mask false) eqn:Em.
  - rewrite Ex. split; [apply Qle_refl|reflexivity].
  - specialize (Hex i Hi Em). unfold worse in Hex. fold T W in Hex.
    assert (nth i lsg 0 * T / W < nth i res 0)
      by (apply Qlt_shift_div_r; auto).
    rewrite Ex. split; [lra|intros Hf; lra].
Qed.
End WaterFilling.

(** ** The formulas are monotone in the amount *)

Lemma sqrt_p_monotone (z : bool) (p L a b : Q) :
  0 < p -> 0 < L -> 0 <= a <= b ->
  if z then calc_sqrt_p_from_amt z p L b <= calc_sqrt_p_from_amt z p L a
  else calc_sqrt_p_from_amt z p L a <= calc_sqrt_p_from_amt z p L b.
Proof.
  intros Hp HL [Ha Hab]. assert (0 <= b) as Hb by lra.
  pose proof (sqrt_p_pos p L b Hp HL Hb z) as Hqb.
  destruct z.
  - pose proof (sqrt_p_token0_eq p L a Hp HL Ha) as Ea.
    pose proof (sqrt_p_token0_eq p L b Hp HL Hb) as Eb.
    pose proof (denom_pos p L a Hp HL Ha) as Hd.
    set (qa := calc_sqrt_p_from_amt true p L a) in *.
    set (qb := calc_sqrt_p_from_amt true p L b) in *.
    assert ((qa - qb) * (L + a * p) == qb * p * (b - a)) as E by nra.
    assert (0 <= qb * p * (b - a))
      by (apply Qmult_le_0_compat; [apply Qmult_le_0_compat|]; lra).
    nra.
  - pose proof (sqrt_p_token1_eq p L a Hp HL Ha) as Ea.
    pose proof (sqrt_p_token1_eq p L b Hp HL Hb) as Eb.
    nra.
Qed.

Lemma cpmm_out_monotone (R : reserves) (a b : Q) :
  0 < r_in R -> 0 < r_out R -> 0 <= a <= b ->
  cpmm_out R a <= cpmm_out R b.
Proof.
  intros Hi Ho [Ha Hab]. unfold cpmm_out.
  assert (r_out R * b / (r_in R + b) - r_out R * a / (r_in R + a)
          == r_in R * r_out R * (b - a) / ((r_in R + a) * (r_in R + b))) as E
    by (field; split; lra).
  assert (0 <= r_in R * r_out R * (b - a) / ((r_in R + a) * (r_in R + b))).
  { apply Qdiv_nonneg; [|apply Qmult_pos; lra].
    apply Qmult_le_0_compat; [|lra]. apply Qlt_le_weak, Qmult_pos; auto. }
  lra.
Qed.

(** ** The allocator *)

Lemma alloc_monotone (pool : Pool Q) (z : bool) (a a' : Q)
  (x x' : list Q) (mask mask' : list bool) (i : nat) :
  wf_pool pool -> (0 < size pool)%nat -> 0 <= a <= a' ->
  _calc_tier_amts_in pool z a = Ok (x, mask) ->
  _calc_tier_amts_in pool z a' = Ok (x', mask') ->
  (i < size pool)%nat -> nth i x 0 <= nth i x' 0.
Proof.
  intros Hwf Hsz [Ha Haa] Hc Hc' Hi. assert (0 <= a') as Ha' by lra.
  pose proof (alloc_inv_post _ _ _ _ _ Hwf Hsz Ha Hc) as Hp.
  pose proof (alloc_inv_post _ _ _ _ _ Hwf Hsz Ha' Hc') as Hp'.
  pose proof (alloc_excluded _ _ _ _ _ Hwf Hsz Ha Hc) as Hex.
  pose proof (alloc_excluded _ _ _ _ _ Hwf Hsz Ha' Hc') as Hex'.
  pose proof (length_lsg_of pool (wf_shape_ok _ Hwf)) as Hl.
  pose proof (length_res_of pool z (wf_shape_ok _ Hwf)) as Hr.
  eapply (filled_sum_mono (lsg_of pool) (res_of pool z) (size pool) Hl
            (lsg_of_pos pool Hwf));
    [apply Hp|apply Hp'|apply (alloc_filled _ _ _ Hl Hr a); eauto
    |apply (alloc_filled _ _ _ Hl Hr a'); eauto| |exact Hi].
  rewrite (post_sum _ _ _ _ _ _ Hp), (post_sum _ _ _ _ _ _ Hp'). exact Haa.
Qed.

(** ** The swap *)

Section TwoSwaps.
Variables (pool pool1 pool2 : Pool Q) (z : bool) (a a' : Q)
  (r1 r2 : SwapResult Q).
Hypotheses (Hwf : wf_pool pool) (Hsz : (0 < size pool)%nat) (Haa : a <= a')
  (Hs1 : swap pool z a = Ok (pool1, r1))
  (Hs2 : swap pool z a' = Ok (pool2, r2)).

Lemma tier_amt_monotone (i : nat) :
  (i < size pool)%nat -> nth i (amts_in r1) 0 <= nth i (amts_in r2) 0.
Proof using All.
  intros Hi.
  destruct (swap_inv_facts _ _ _ _ _ Hs1) as (x & m & Hsf & Hc & _ & ->).
  destruct (swap_inv_facts _ _ _ _ _ Hs2) as (x' & m' & _ & Hc' & _ & ->).
  pose proof (sf_amt _ _ _ _ _ Hsf). simpl.
  apply (alloc_monotone pool z a a' x x' m m'); auto. lra.
Qed.

(** Tier by tier: the price moves at least as far and at least as much
    is paid. *)
Lemma tier_monotone (i : nat) :
  (i < size pool)%nat ->
  (if z
   then nth i (sqrt_p_arr pool2) 0 <= nth i (sqrt_p_arr pool1) 0
   else nth i (sqrt_p_arr pool1) 0 <= nth i (sqrt_p_arr pool2) 0)
  /\ nth i (amts_out r2) 0 <= nth i (amts_out r1) 0.
Proof using All.
  intros Hi. pose proof (tier_amt_monotone i Hi) as Hx.
  destruct (swap_tier_step _ _ _ _ _ i Hwf Hs1 Hi) as [H1 _ Hp1 Ho1 _].
  destruct (swap_tier_step _ _ _ _ _ i Hwf Hs2 Hi) as [H2 _ Hp2 Ho2 _].
  destruct (tier_pool_facts pool i Hwf Hi) as (HL & Hp & Hg & _).
  set (c := g_ pool i * g_ pool i) in *. assert (0 < c) by (subst c; nra).
  assert (0 <= nth i (amts_in r1) 0 * c <= nth i (amts_in r2) 0 * c)
    as Hac by nra.
  destruct (reserves_of_pos z _ _ Hp HL) as [Hin Hout].
  split.
  - pose proof (sqrt_p_monotone z _ _ _ _ Hp HL Hac) as Hm.
    destruct z; now rewrite Hp1, Hp2.
  - rewrite Ho1, Ho2, !amt_out_is_cpmm_out by (auto; nra).
    pose proof (cpmm_out_monotone _ _ _ Hin Hout Hac). lra.
Qed.
End TwoSwaps.

(** C34: A larger order on the same valid pool routes at least as much
    to every tier, moves the price of every tier at least as far in the
    direction of the trade, and is paid at least as much: the split of
    the allocator is the water filling max(0, lsg * t - res) at the
    multiplier t of its last pass, and t grows with the amount. *)
Theorem swap_monotone (pool pool1 pool2 : Pool Q) (z : bool) (a a' : Q)
  (r1 r2 : SwapResult Q) :
  wf_pool pool -> (0 < size pool)%nat -> a <= a' ->
  swap pool z a = Ok (pool1, r1) -> swap pool z a' = Ok (pool2, r2) ->
  Forall2 Qle (amts_in r1) (amts_in r2)
  /\ (if z then Forall2 Qle (sqrt_p_arr pool2) (sqrt_p_arr pool1)
      else Forall2 Qle (sqrt_p_arr pool1) (sqrt_p_arr pool2))
  /\ amt_out r2 <= amt_out r1.
Proof.
  intros Hwf Hsz Haa Hs1 Hs2.
  pose proof (tier_amt_monotone _ _ _ _ _ _ _ _ Hwf Hsz Haa Hs1 Hs2) as Hx.
  pose proof (tier_monotone _ _ _ _ _ _ _ _ Hwf Hsz Haa Hs1 Hs2) as Ht.
  destruct (swap_result_lengths _ _ _ _ _ Hwf Hs1) as (Hx1 & Ho1 & _).
  destruct (swap_result_lengths _ _ _ _ _ Hwf Hs2) as (Hx2 & Ho2 & _).
  pose proof (wf_len_sqrt_p _ (swap_preserves_wf _ _ _ _ _ Hwf Hs1)) as Hp1.
  pose proof (wf_len_sqrt_p _ (swap_preserves_wf _ _ _ _ _ Hwf Hs2)) as Hp2.
  destruct (swap_frame _ _ _ _ _ Hs1) as (E1 & _).
  destruct (swap_frame _ _ _ _ _ Hs2) as (E2 & _).
  destruct (swap_sums _ _ _ _ _ Hwf Hs1) as [<- _].
  destruct (swap_sums _ _ _ _ _ Hwf Hs2) as [<- _].
  split; [|split].
  - apply Forall2_nth_lt with (da := 0) (db := 0); [congruence|].
    intros i Hi. apply Hx. congruence.
  - destruct z; apply Forall2_nth_lt with (da := 0) (db := 0);
      try congruence; intros i Hi; apply Ht; congruence.
  - apply nsum_nth_le; [congruence|]. intros i Hi. apply Ht. congruence.
Qed.
