(* ===== verification/Trace.v ===== *)
(** * Trace: sequences of swaps

    A pool lives through a sequence of swaps, each on the pool the one
    before left.  [run] executes a list of orders and stops at the first
    one that fails; [steps] is the same as a relation, one rule per
    swap; [reachable] are the pools that a valid construction followed
    by swaps can produce.

    The theorems are the properties of single swaps carried along a
    sequence by induction on it: validity is an invariant of the
    reachable pools, a sequence of positive orders on a valid pool runs
    to its end, the first order that is not positive aborts it, the
    fee-growth arrays never decrease, prices never move against a
    sequence of sales of one token, and size, liquidity and fee
    factors never change. *)

From Stdlib Require Import List Bool Arith ZArith QArith Lqa Lia Morphisms.
From S2P Require Import Prelude Numeric ArrayIndex PriceAlgebra PoolState.
From S2P Require Import Allocator AllocatorExact Swap SwapExact.
Import ListNotations.

Section Code.
Context {F : Type} `{Num F}.
Local Open Scope result_scope.

(** An order: the token sold ([is_token0]) and the amount. *)
Definition order : Type := (bool * F)%type.

(** The swaps of [orders], in order, each on the pool left by the one
    before; the results are collected. *)
Fixpoint run (pool : Pool F) (orders : list order)
  : result (Pool F * list (SwapResult F)) :=
  match orders with
  | [] => Ok (pool, [])
  | (is_token0, amt_desired) :: rest =>
      let! (pool1, r) := swap pool is_token0 amt_desired in
      let! (pool2, rs) := run pool1 rest in
      Ok (pool2, r :: rs)
  end.

(** The same as a relation. *)
Inductive steps : Pool F -> list order -> list (SwapResult F) -> Pool F
  -> Prop :=
| steps_nil pool : steps pool [] [] pool
| steps_cons pool is_token0 amt_desired pool1 r rest rs pool2 :
    swap pool is_token0 amt_desired = Ok (pool1, r) ->
    steps pool1 rest rs pool2 ->
    steps pool ((is_token0, amt_desired) :: rest) (r :: rs) pool2.
End Code.

(** The pools a valid construction and swaps lead to. *)
Inductive reachable : Pool Q -> Prop :=
| reach_init liquidity sqrt_gamma sqrt_p :
    length sqrt_gamma = length liquidity ->
    Forall (fun l => 0 < l)%Q liquidity ->
    Forall (fun g => 0 < g <= 1)%Q sqrt_gamma ->
    (0 < sqrt_p)%Q ->
    reachable (__init__ liquidity sqrt_gamma sqrt_p)
| reach_swap pool is_token0 amt_desired pool1 r :
    reachable pool ->
    swap pool is_token0 amt_desired = Ok (pool1, r) ->
    reachable pool1.

#[export] Hint Constructors steps reachable : pool.

(** ** The function and the relation *)

Section Generic.
Context {F : Type} `{Num F}.

(** The executable run of a list of orders returns a pool and
    results exactly when the step relation relates them. *)
Lemma run_steps (pool : Pool F) (orders : list order) :
  forall pool2 rs,
    run pool orders = Ok (pool2, rs) <-> steps pool orders rs pool2.
Proof.
  revert pool. induction orders as [|[z amt] rest IH]; intros pool pool2 rs.
  - simpl. split; [intros E; inv E; constructor|intros E; now inv E].
  - simpl. split.
    + destruct (swap pool z amt) as [[pool1 r]|e] eqn:Es; [|discriminate].
      cbn [bind].
      destruct (run pool1 rest) as [[pool2' rs']|e] eqn:Er; [|discriminate].
      cbn [bind]. intros E. inv E. econstructor; eauto. now apply IH.
    + intros Hst. inv Hst.
      match goal with Hs : swap _ _ _ = _ |- _ => rewrite Hs end.
      cbn [bind].
      match goal with Hs : steps _ _ _ _ |- _ => apply IH in Hs; rewrite Hs end.
      reflexivity.
Qed.

Lemma steps_cons_inv (pool pool2 : Pool F) (is_token0 : bool)
  (amt_desired : F) (rest : list order) (r : SwapResult F)
  (rs : list (SwapResult F)) :
  steps pool ((is_token0, amt_desired) :: rest) (r :: rs) pool2 ->
  exists pool1,
    swap pool is_token0 amt_desired = Ok (pool1, r)
    /\ steps pool1 rest rs pool2.
Proof. intros Hst. inv Hst. eauto. Qed.

(** Along any sequence of successful swaps, for every instance of
    the numbers, size, liquidity_arr and sqrt_gamma_arr stay what they
    were, and there is one result per order. *)
Theorem steps_frame (pool pool2 : Pool F) (orders : list order)
  (rs : list (SwapResult F)) :
  steps pool orders rs pool2 ->
  size pool2 = size pool
  /\ liquidity_arr pool2 = liquidity_arr pool
  /\ sqrt_gamma_arr pool2 = sqrt_gamma_arr pool
  /\ length rs = length orders.
Proof.
  induction 1 as [|pool z amt pool1 r rest rs pool2 Hs _ IH]; [auto|].
  destruct IH as (E1 & E2 & E3 & E4).
  destruct (swap_frame _ _ _ _ _ Hs) as (F1 & F2 & F3 & _).
  simpl. repeat split; congruence.
Qed.
(** For every instance of the numbers, running the concatenation of
    two lists of orders is running the first list and then the second on
    the pool the first left, with the results appended; an error of
    either part is the error of the whole. *)
Theorem run_app (pool : Pool F) (orders1 orders2 : list order) :
  run pool (orders1 ++ orders2)
  = bind (run pool orders1) (fun '(pool1, rs1) =>
      bind (run pool1 orders2) (fun '(pool2, rs2) =>
        Ok (pool2, rs1 ++ rs2))).
Proof.
  revert pool. induction orders1 as [|[z amt] rest IH]; intros pool; simpl.
  - destruct (run pool orders2) as [[pool2 rs2]|e]; reflexivity.
  - destruct (swap pool z amt) as [[pool1 r]|e]; [|reflexivity].
    cbn [bind]. rewrite IH.
    destruct (run pool1 rest) as [[pool1' rs1]|e]; [|reflexivity].
    cbn [bind]. destruct (run pool1' orders2) as [[pool2 rs2]|e]; reflexivity.
Qed.

End Generic.

Local Open Scope Q_scope.

(** ** Validity is an invariant *)

Lemma steps_wf (pool pool2 : Pool Q) (orders : list order)
  (rs : list (SwapResult Q)) :
  wf_pool pool -> steps pool orders rs pool2 -> wf_pool pool2.
Proof.
  intros Hwf Hst. induction Hst; eauto using swap_preserves_wf.
Qed.

(** C6: Every pool that a construction from valid arguments followed by
    any number of successful swaps leads to is valid: arrays of length
    size, liquidity and prices positive, fee factors in (0, 1], fee
    growth not negative. *)
Theorem reachable_wf (pool : Pool Q) : reachable pool -> wf_pool pool.
Proof.
  induction 1; eauto using swap_preserves_wf, init_wf.
Qed.

(** ** Sequences run to their end, or stop at the first bad order *)

(** C23: Every sequence of orders with positive amounts runs to its end
    on a valid pool: each swap returns, the final pool is valid and
    there is one result per order. *)
Theorem run_total (pool : Pool Q) (orders : list order) :
  wf_pool pool -> Forall (fun o => 0 < snd o) orders ->
  exists pool2 rs,
    run pool orders = Ok (pool2, rs)
    /\ wf_pool pool2 /\ length rs = length orders.
Proof.
  intros Hwf Hall. revert pool Hwf.
  induction Hall as [|[z amt] rest Ha _ IH]; intros pool Hwf; simpl in *.
  - eauto.
  - destruct (swap_total pool z amt Hwf Ha) as (pool1 & r & Hs).
    rewrite Hs. cbn [bind].
    destruct (IH pool1) as (pool2 & rs & -> & Hwf2 & Hl);
      [eauto using swap_preserves_wf|].
    cbn [bind]. exists pool2, (r :: rs). simpl. auto.
Qed.

(** C25: In a sequence of orders on a valid pool, the first order whose
    amount is not positive aborts the sequence with the assertion error,
    whatever follows it. *)
Theorem run_rejects (pool : Pool Q) (before after : list order)
  (z : bool) (amt : Q) :
  wf_pool pool -> Forall (fun o => 0 < snd o) before -> amt <= 0 ->
  run pool (before ++ (z, amt) :: after) = Err AssertionError.
Proof.
  intros Hwf Hall Ha. revert pool Hwf.
  induction Hall as [|[z' amt'] rest Ha' _ IH]; intros pool Hwf; simpl in *.
  - rewrite swap_cases.
    replace (nltb (nlit 0) amt) with false; [reflexivity|].
    symmetry. qnum. now qbool.
  - destruct (swap_total pool z' amt' Hwf Ha') as (pool1 & r & Hs).
    rewrite Hs. cbn [bind]. rewrite IH; eauto using swap_preserves_wf.
Qed.

(** ** Fee growth never decreases *)

Lemma Forall2_Qle_trans (a b c : list Q) :
  Forall2 Qle a b -> Forall2 Qle b c -> Forall2 Qle a c.
Proof.
  intros Hab. revert c.
  induction Hab; intros c Hbc; inv Hbc; constructor; eauto.
  eapply Qle_trans; eauto.
Qed.

(** C22: Along any sequence of successful swaps from a valid pool, no
    entry of fee0_growth_arr or fee1_growth_arr decreases. *)
Theorem steps_fee_growth_monotone (pool pool2 : Pool Q)
  (orders : list order) (rs : list (SwapResult Q)) :
  wf_pool pool -> steps pool orders rs pool2 ->
  Forall2 Qle (fee0_growth_arr pool) (fee0_growth_arr pool2)
  /\ Forall2 Qle (fee1_growth_arr pool) (fee1_growth_arr pool2).
Proof.
  intros Hwf Hst.
  induction Hst as [|pool z amt pool1 r rest rs pool2 Hs _ IH].
  - split; apply Forall2_Qle_refl.
  - destruct (swap_fee_growth_grows _ _ _ _ _ Hwf Hs) as [H0 H1].
    destruct IH as [IH0 IH1]; [eauto using swap_preserves_wf|].
    split; eapply Forall2_Qle_trans; eauto.
Qed.

(** ** Prices along a sequence of sales of one token *)

(** Along any sequence of successful swaps from a valid pool that
    all sell the same token, no tier's sqrt price moves against the
    trade: selling token0 never raises a price, selling token1 never
    lowers one. *)
Theorem steps_prices_monotone (pool pool2 : Pool Q) (z : bool)
  (orders : list order) (rs : list (SwapResult Q)) :
  wf_pool pool -> steps pool orders rs pool2 ->
  Forall (fun o => fst o = z) orders ->
  if z then Forall2 Qle (sqrt_p_arr pool2) (sqrt_p_arr pool)
  else Forall2 Qle (sqrt_p_arr pool) (sqrt_p_arr pool2).
Proof.
  intros Hwf Hst Hall.
  induction Hst as [|pool z' amt pool1 r rest rs pool2 Hs _ IH].
  - destruct z; apply Forall2_Qle_refl.
  - apply Forall_cons_iff in Hall as [<- Hrest]. simpl in *.
    pose proof (swap_prices_monotone _ _ _ _ _ Hwf Hs) as H1.
    specialize (IH (swap_preserves_wf _ _ _ _ _ Hwf Hs) Hrest).
    destruct z'; eapply Forall2_Qle_trans; eauto.
Qed.

(** ** The theorems at the sample swap *)

Lemma sample_steps :
  steps default_pool [(true, 1000)] [sample_result] sample_pool.
Proof. econstructor; [exact sample_swap_ok|constructor]. Qed.

Lemma sample_reachable : reachable sample_pool.
Proof.
  apply (reach_swap default_pool true 1000 sample_pool sample_result);
    [|exact sample_swap_ok].
  apply reach_init;
    [ reflexivity
    | repeat (apply Forall_cons; [reflexivity|]); apply Forall_nil
    | repeat (apply Forall_cons; [split; [reflexivity|discriminate]|]);
      apply Forall_nil
    | reflexivity ].
Qed.

Lemma steps_frame_witness :
  size sample_pool = size (@default_pool Q _)
  /\ liquidity_arr sample_pool = liquidity_arr default_pool
  /\ sqrt_gamma_arr sample_pool = sqrt_gamma_arr default_pool
  /\ length [sample_result] = length [(true, 1000)].
Proof. apply steps_frame. exact sample_steps. Defined.

Lemma reachable_wf_witness : wf_pool sample_pool.
Proof. apply reachable_wf. exact sample_reachable. Defined.

Lemma run_total_witness :
  exists pool2 rs,
    run default_pool [(true, 1000); (false, 500)] = Ok (pool2, rs)
    /\ wf_pool pool2 /\ length rs = 2%nat.
Proof.
  apply (run_total default_pool [(true, 1000); (false, 500)]);
    [exact default_pool_wf|repeat constructor].
Defined.

Lemma run_rejects_witness :
  run default_pool ([(true, 1000)] ++ (false, 0) :: [(true, 1)])
  = Err AssertionError.
Proof.
  apply run_rejects;
    [exact default_pool_wf|repeat constructor|apply Qle_refl].
Defined.

Lemma steps_fee_growth_monotone_witness :
  Forall2 Qle (fee0_growth_arr default_pool) (fee0_growth_arr sample_pool)
  /\ Forall2 Qle (fee1_growth_arr default_pool) (fee1_growth_arr sample_pool).
Proof.
  apply (steps_fee_growth_monotone _ _ [(true, 1000)] [sample_result]);
    [exact default_pool_wf|exact sample_steps].
Defined.
