(* ===== verification/Arbitrage.v ===== *)
(** * Arbitrage: the tiers of a pool as one market

    The tiers keep separate prices, and a trader may sell into one and
    buy from another.  This file shows that the pool gives nothing away
    to such trades.

    - The prices of the tiers stay within the band of their fees: for
      any two tiers, [sqrt_gamma_i * sqrt_gamma_j * sqrt_p_i <= sqrt_p_j]
      ([band]).  It holds when the pool is constructed, every swap keeps
      it (the tiers a swap uses end at one rate, the tiers it leaves out
      offer less), and so it holds of every reachable pool: at the
      margin, selling into one tier and buying back from another never
      pays.
    - The virtual reserves [L / sqrt_p] and [L * sqrt_p] of the pool
      change by what the result of a swap reports: the amount in net of
      fees, and the amount out ([swap_reserve_accounting]).
    - Valued at the price at which all tiers started, the reserves are
      least at the start ([value_least]); so over any sequence of swaps
      the traders put in at least what they take out plus the fees
      ([steps_no_free_lunch]), and a round trip returns no more than
      what was sold less both fees ([round_trip_loses]).

    The reserves, the value and the outlay are notions of the
    specification; the pools, the swaps and the sequences they are
    stated of are those of the code. *)

From Stdlib Require Import List Bool Arith ZArith QArith Lqa Lia Morphisms.
From S2P Require Import Prelude Numeric ArrayIndex PriceAlgebra PoolState.
From S2P Require Import Allocator AllocatorExact Swap SwapExact Optimality.
From S2P Require Import Trace.
Import ListNotations.
Local Open Scope Q_scope.

(** ** The band of the fees *)

(** No tier is priced above another by more than their fee factors. *)
Definition band (pool : Pool Q) : Prop :=
  forall i j, (i < size pool)%nat -> (j < size pool)%nat ->
    g_ pool i * g_ pool j * p_ pool i <= p_ pool j.

Lemma init_band (liquidity sqrt_gamma : list Q) (sqrt_p : Q) :
  length sqrt_gamma = length liquidity ->
  Forall (fun l => 0 < l) liquidity ->
  Forall (fun g => 0 < g <= 1) sqrt_gamma ->
  0 < sqrt_p ->
  band (__init__ liquidity sqrt_gamma sqrt_p).
Proof.
  intros Hlen Hl Hg Hp i j Hi Hj.
  pose proof (init_wf _ _ _ Hlen Hl Hg Hp) as Hwf.
  destruct (tier_pool_facts _ i Hwf Hi) as (_ & _ & Hgi).
  destruct (tier_pool_facts _ j Hwf Hj) as (_ & _ & Hgj).
  unfold p_ in *. simpl in *. rewrite !nth_repeat_lt by auto.
  assert (g_ (__init__ liquidity sqrt_gamma sqrt_p) i
          * g_ (__init__ liquidity sqrt_gamma sqrt_p) j <= 1) by nra.
  nra.
Qed.

Section SwapBand.
Variables (pool pool' : Pool Q) (z : bool) (amt : Q) (r : SwapResult Q).
Hypotheses (Hwf : wf_pool pool) (Hsz : (0 < size pool)%nat)
  (Hb : band pool) (Hs : swap pool z amt = Ok (pool', r)).

(** The new price of a tier, with what is known of it. *)
Let q (i : nat) : Q := nth i (sqrt_p_arr pool') 0.

Lemma swap_band_at (i j : nat) :
  (i < size pool)%nat -> (j < size pool)%nat ->
  g_ pool i * g_ pool j * q i <= q j.
Proof using All.
  intros Hi Hj.
  destruct (swap_rates _ _ _ _ _ Hwf Hsz Hs) as (t & Ht & Hr).
  destruct (Hr i Hi) as (Hle_i & Heq_i & Hold_i).
  destruct (Hr j Hj) as (Hle_j & Heq_j & Hold_j).
  destruct (tier_price_facts _ _ _ _ _ i Hwf Hs Hi) as (Hqi & Hdi & _).
  destruct (tier_price_facts _ _ _ _ _ j Hwf Hs Hj) as (Hqj & Hdj & _).
  destruct (swap_tier_step _ _ _ _ _ i Hwf Hs Hi) as [Hxi _ _ _ _].
  destruct (swap_tier_step _ _ _ _ _ j Hwf Hs Hj) as [Hxj _ _ _ _].
  destruct (tier_pool_facts pool i Hwf Hi) as (_ & Hpi & Hgi & Hgi1).
  destruct (tier_pool_facts pool j Hwf Hj) as (_ & Hpj & Hgj & Hgj1).
  specialize (Hb i j Hi Hj). fold (q i) (q j) in *.
  set (gi := g_ pool i) in *. set (gj := g_ pool j) in *.
  destruct z; unfold rate in *.
  - (* token0 sold: prices fall; look at tier j *)
    destruct (Qlt_le_dec 0 (nth j (amts_in r) 0)) as [Hpos|Hz].
    + specialize (Heq_j Hpos).
      assert (gi * gj * q i * t <= gj * (gj * q j * t)) by nra.
      assert (gj * (gj * q j * t) <= q j * t) by nra.
      apply (Qmult_le_r _ _ t); [auto|]. lra.
    + rewrite Hold_j by lra. assert (0 < gi * gj) by nra. nra.
  - (* token1 sold: prices rise; look at tier i *)
    destruct (Qlt_le_dec 0 (nth i (amts_in r) 0)) as [Hpos|Hz].
    + specialize (Heq_i Hpos).
      assert (gi / q i * q i == gi) as Ei by (field; lra).
      assert (gj / q j * q j == gj) as Ej by (field; lra).
      assert (gi * t == q i) by nra.
      assert (gj * t <= q j) by nra.
      assert (gi * gi <= 1) by nra.
      nra.
    + rewrite (Hold_i ltac:(lra)). nra.
Qed.
End SwapBand.

Lemma swap_band (pool pool' : Pool Q) (z : bool) (amt : Q)
  (r : SwapResult Q) :
  wf_pool pool -> band pool -> swap pool z amt = Ok (pool', r) ->
  band pool'.
Proof.
  intros Hwf Hb Hs i j Hi Hj.
  destruct (swap_frame _ _ _ _ _ Hs) as (Esz & _ & Eg & _).
  unfold g_, p_. rewrite Esz in Hi, Hj. rewrite Eg.
  apply (swap_band_at pool pool' z amt r); auto. lia.
Qed.

Lemma reachable_wf_band (pool : Pool Q) :
  reachable pool -> wf_pool pool /\ band pool.
Proof.
  induction 1 as [liquidity sqrt_gamma sqrt_p Hlen Hl Hg Hp
                 |pool z amt pool1 r Hr [Hwf Hb] Hs].
  - split; [now apply init_wf|now apply init_band].
  - split; [now apply (swap_preserves_wf pool pool1 z amt r)|].
    now apply (swap_band pool pool1 z amt r).
Qed.

(** C10: In every pool reached from a valid construction by successful
    swaps the prices of any two tiers i and j stay within the band of
    their fees, sqrt_gamma_i * sqrt_gamma_j * sqrt_p_i <= sqrt_p_j: the
    tiers a swap uses end at one marginal rate and the tiers it leaves
    out offer less, so that at the margin selling into one tier and
    buying back from another never pays. *)
Theorem reachable_band (pool : Pool Q) : reachable pool -> band pool.
Proof. intros Hr. now apply reachable_wf_band. Qed.

(** ** The reserves and the result of a swap *)

(** The virtual reserves of the pool: [sum (L / sqrt_p)] of token0 and
    [sum (L * sqrt_p)] of token1. *)
Definition reserve0 (pool : Pool Q) : Q :=
  nsum (map2 Qdiv (liquidity_arr pool) (sqrt_p_arr pool)).

Definition reserve1 (pool : Pool Q) : Q :=
  nsum (map2 Qmult (liquidity_arr pool) (sqrt_p_arr pool)).

(** The reserve of the token sold, and of the token bought. *)
Definition reserve_in (z : bool) (pool : Pool Q) : Q :=
  if z then reserve0 pool else reserve1 pool.

Definition reserve_out (z : bool) (pool : Pool Q) : Q :=
  if z then reserve1 pool else reserve0 pool.


(** Tier by tier: the reserve of the token sold grows by the amount in
    net of the fee, the other one by the (negative) amount out. *)
Lemma tier_reserves (pool pool' : Pool Q) (z : bool) (amt : Q)
  (r : SwapResult Q) (i : nat) :
  wf_pool pool -> swap pool z amt = Ok (pool', r) -> (i < size pool)%nat ->
  let R := reserves_of z (L_ pool i) (p_ pool i) in
  let R' := reserves_of z (L_ pool i) (nth i (sqrt_p_arr pool') 0) in
  r_in R' - r_in R == nth i (amts_in r) 0 - nth i (fee_amts r) 0
  /\ r_out R' - r_out R == nth i (amts_out r) 0.
Proof.
  intros Hwf Hs Hi R R'.
  destruct (swap_tier_step _ _ _ _ _ i Hwf Hs Hi) as [Hx Hfee Hprice Hout _].
  destruct (tier_pool_facts pool i Hwf Hi) as (HL & Hp & Hg & _).
  set (a := nth i (amts_in r) 0 * (g_ pool i * g_ pool i)) in *.
  assert (0 <= a) as Ha by (subst a; nra).
  destruct (reserves_of_pos z _ _ Hp HL) as [Hin Ho]. fold R in Hin, Ho.
  assert (reserves_eq R' (cpmm_sell R a)) as [Ein Eout].
  { transitivity (reserves_of z (L_ pool i)
                    (calc_sqrt_p_from_amt z (p_ pool i) (L_ pool i) a));
      [|now apply price_update_refines_cpmm].
    subst R'. unfold reserves_eq. destruct z; simpl; now rewrite Hprice. }
  simpl in Ein, Eout. rewrite Ein, Eout, Hfee, Hout.
  rewrite amt_out_is_cpmm_out by auto. fold R. unfold cpmm_out.
  split; [subst a; ring|field; lra].
Qed.

(** Sums whose terms differ by the terms of a third. *)
Lemma nsum_diff (a b d : list Q) :
  length a = length b -> length d = length b ->
  (forall i, (i < length b)%nat -> nth i a 0 - nth i b 0 == nth i d 0) ->
  nsum a - nsum b == nsum d.
Proof.
  intros Ha Hd Hn. rewrite <- nsum_map2_sub by auto.
  apply nsum_nth_eq; rewrite length_map2 by auto; [congruence|].
  intros i Hi. rewrite (nth_map2 _ _ _ _ 0 0) by auto. apply Hn. congruence.
Qed.

(** The reserves of the token sold and of the token bought, tier by tier. *)
Definition reserves_in (z : bool) (pool : Pool Q) : list Q :=
  if z then map2 Qdiv (liquidity_arr pool) (sqrt_p_arr pool)
  else map2 Qmult (liquidity_arr pool) (sqrt_p_arr pool).

Definition reserves_out (z : bool) (pool : Pool Q) : list Q :=
  reserves_in (negb z) pool.

Lemma reserve_in_nsum (z : bool) (pool : Pool Q) :
  reserve_in z pool = nsum (reserves_in z pool).
Proof. now destruct z. Qed.

Lemma reserve_out_nsum (z : bool) (pool : Pool Q) :
  reserve_out z pool = nsum (reserves_out z pool).
Proof. now destruct z. Qed.

Lemma length_reserves_in (z : bool) (pool : Pool Q) :
  wf_pool pool -> length (reserves_in z pool) = size pool.
Proof. intros []. destruct z; simpl; rewrite length_map2; congruence. Qed.

Lemma nth_reserves (pool : Pool Q) (z : bool) (i : nat) :
  wf_pool pool -> (i < size pool)%nat ->
  nth i (reserves_in z pool) 0 = r_in (reserves_of z (L_ pool i) (p_ pool i))
  /\ nth i (reserves_out z pool) 0
     = r_out (reserves_of z (L_ pool i) (p_ pool i)).
Proof.
  intros [] Hi. unfold reserves_out, reserves_in.
  destruct z; simpl; split; now rewrite (nth_map2 _ _ _ _ 0 0) by congruence.
Qed.

Section Accounting.
Variables (pool pool' : Pool Q) (z : bool) (amt : Q) (r : SwapResult Q).
Hypotheses (Hwf : wf_pool pool) (Hs : swap pool z amt = Ok (pool', r)).

Lemma tier_reserves_nth (i : nat) :
  (i < size pool)%nat ->
  nth i (reserves_in z pool') 0 - nth i (reserves_in z pool) 0
  == nth i (amts_in r) 0 - nth i (fee_amts r) 0
  /\ nth i (reserves_out z pool') 0 - nth i (reserves_out z pool) 0
     == nth i (amts_out r) 0.
Proof using All.
  intros Hi.
  pose proof (swap_preserves_wf _ _ _ _ _ Hwf Hs) as Hwf'.
  destruct (swap_frame _ _ _ _ _ Hs) as (Esz & EL & _).
  rewrite <- Esz in Hi.
  destruct (nth_reserves pool' z i Hwf' Hi) as [Ei' Eo'].
  rewrite Esz in Hi.
  destruct (nth_reserves pool z i Hwf Hi) as [Ei Eo].
  destruct (tier_reserves _ _ _ _ _ i Hwf Hs Hi) as [Hin Hout].
  rewrite Ei', Ei, Eo', Eo. unfold L_, p_ in *. rewrite EL. now split.
Qed.

Lemma reserve_in_moves :
  reserve_in z pool' - reserve_in z pool
  == nsum (map2 Qminus (amts_in r) (fee_amts r)).
Proof using All.
  pose proof (swap_preserves_wf _ _ _ _ _ Hwf Hs) as Hwf'.
  destruct (swap_frame _ _ _ _ _ Hs) as (Esz & _).
  destruct (swap_result_lengths _ _ _ _ _ Hwf Hs) as (Hlx & _ & Hlf).
  rewrite !reserve_in_nsum. apply nsum_diff;
    rewrite ?length_map2, !length_reserves_in by congruence; try congruence.
  intros i Hi. rewrite (nth_map2 _ _ _ _ 0 0) by congruence.
  now apply tier_reserves_nth.
Qed.

Lemma reserve_out_moves :
  reserve_out z pool' - reserve_out z pool == nsum (amts_out r).
Proof using All.
  pose proof (swap_preserves_wf _ _ _ _ _ Hwf Hs) as Hwf'.
  destruct (swap_frame _ _ _ _ _ Hs) as (Esz & _).
  destruct (swap_result_lengths _ _ _ _ _ Hwf Hs) as (_ & Hlo & _).
  rewrite !reserve_out_nsum. unfold reserves_out at 1 2. apply nsum_diff;
    rewrite !length_reserves_in by congruence; try congruence.
  intros i Hi. now apply tier_reserves_nth.
Qed.
End Accounting.

(** The reserves move by what the result reports. *)
Lemma swap_reserves_move (pool pool' : Pool Q) (z : bool) (amt : Q)
  (r : SwapResult Q) :
  wf_pool pool -> (0 < size pool)%nat ->
  swap pool z amt = Ok (pool', r) ->
  reserve_in z pool' - reserve_in z pool == amt_in r - fee_amt r
  /\ reserve_out z pool' - reserve_out z pool == amt_out r.
Proof.
  intros Hwf Hsz Hs.
  destruct (swap_result_lengths _ _ _ _ _ Hwf Hs) as (Hlx & _ & Hlf).
  destruct (swap_sums _ _ _ _ _ Hwf Hs) as [Eo Ef].
  rewrite (reserve_in_moves _ _ _ _ _ Hwf Hs),
    (reserve_out_moves _ _ _ _ _ Hwf Hs), nsum_map2_sub by congruence.
  split; [|exact Eo]. rewrite Ef.
  destruct (swap_inv_post _ _ _ _ _ Hwf Hsz Hs) as (x & m & _ & Hp & _ & ->).
  simpl. rewrite (post_sum _ _ _ _ _ _ Hp),
    (post_sum_active _ _ _ _ _ _ Hp). reflexivity.
Qed.

Theorem swap_reserve_accounting (pool pool' : Pool Q) (z : bool) (amt : Q)
  (r : SwapResult Q) :
  wf_pool pool -> (0 < size pool)%nat ->
  swap pool z amt = Ok (pool', r) ->
  reserve0 pool' - reserve0 pool
  == (if z then amt_in r - fee_amt r else amt_out r)
  /\ reserve1 pool' - reserve1 pool
     == (if z then amt_out r else amt_in r - fee_amt r).
Proof.
  intros Hwf Hsz Hs.
  destruct (swap_reserves_move _ _ _ _ _ Hwf Hsz Hs) as [Ei Eo].
  destruct z; now split.
Qed.

(** ** No free lunch *)

(** The value of the reserves in token1 at the price [q * q]. *)
Definition pool_value (q : Q) (pool : Pool Q) : Q :=
  q * q * reserve0 pool + reserve1 pool.

(** What a trader gives up in a swap, net of the fee and valued in token1
    at the price [q * q]: the amount in less the fee, plus the amount out,
    which the code reports with a minus sign. *)
Definition outlay (q : Q) (o : @order Q) (r : SwapResult Q) : Q :=
  if fst o then q * q * (amt_in r - fee_amt r) + amt_out r
  else (amt_in r - fee_amt r) + q * q * amt_out r.

(** A quantity of the swaps, summed over a sequence. *)
Fixpoint total (f : @order Q -> SwapResult Q -> Q) (orders : list order)
  (rs : list (SwapResult Q)) : Q :=
  match orders, rs with
  | o :: orders, r :: rs => f o r + total f orders rs
  | _, _ => 0
  end.

Definition net_outlay (q : Q) : list order -> list (SwapResult Q) -> Q :=
  total (outlay q).

(** All tiers at the price [q]. *)
Definition uniform (q : Q) (pool : Pool Q) : Prop :=
  Forall (fun p => p == q) (sqrt_p_arr pool).

(** A tier is worth least at its own price. *)
Lemma tier_value_least (q l p : Q) :
  0 < l -> 0 < p -> 2 * q * l <= q * q * (l / p) + l * p.
Proof.
  intros Hl Hp. set (d := l / p).
  assert (0 < d) as Hd by (apply Qdiv_pos; lra).
  assert (l == d * p) as El by (unfold d; field; lra).
  clearbody d. rewrite El.
  assert (0 <= (q - p) * (q - p)) as Hsq by apply Qsqr_nonneg.
  apply (Qmult_le_0_compat d) in Hsq; [|lra].
  setoid_replace (d * ((q - p) * (q - p)))
    with (q * q * d + d * p * p - 2 * q * (d * p)) in Hsq by ring. lra.
Qed.

Lemma value_terms_least (q : Q) (L : list Q) : forall P,
  length P = length L ->
  Forall (fun l => 0 < l) L -> Forall (fun p => 0 < p) P ->
  2 * q * nsum L <= q * q * nsum (map2 Qdiv L P) + nsum (map2 Qmult L P).
Proof.
  induction L as [|l L IH]; intros [|p P] Hl HL HP; simpl in *;
    try discriminate; [rewrite !nsum_nil; lra|].
  apply Forall_cons_iff in HL as [Hl0 HL], HP as [Hp0 HP].
  rewrite !nsum_cons. pose proof (tier_value_least q l p Hl0 Hp0).
  specialize (IH P ltac:(congruence) HL HP). nra.
Qed.

Lemma value_terms_uniform (q : Q) (L : list Q) : forall P,
  length P = length L ->
  Forall (fun p => 0 < p) P -> Forall (fun p => p == q) P ->
  q * q * nsum (map2 Qdiv L P) + nsum (map2 Qmult L P) == 2 * q * nsum L.
Proof.
  induction L as [|l L IH]; intros [|p P] Hl H0 HP; simpl in *;
    try discriminate; [rewrite !nsum_nil; ring|].
  apply Forall_cons_iff in HP as [Hp HP], H0 as [Hp0 H0].
  rewrite !nsum_cons. rewrite Hp in Hp0 |- *.
  specialize (IH P ltac:(congruence) H0 HP).
  transitivity (2 * q * l
    + (q * q * nsum (map2 Qdiv L P) + nsum (map2 Qmult L P)));
    [field; lra|rewrite IH; ring].
Qed.

Lemma value_least (q : Q) (pool : Pool Q) :
  wf_pool pool -> 2 * q * nsum (liquidity_arr pool) <= pool_value q pool.
Proof. intros []. apply value_terms_least; auto; congruence. Qed.

Lemma value_uniform (q : Q) (pool : Pool Q) :
  wf_pool pool -> uniform q pool ->
  pool_value q pool == 2 * q * nsum (liquidity_arr pool).
Proof. intros [] Hu. apply value_terms_uniform; auto; congruence. Qed.

Lemma init_uniform (liquidity sqrt_gamma : list Q) (sqrt_p : Q) :
  uniform sqrt_p (__init__ liquidity sqrt_gamma sqrt_p).
Proof.
  apply Forall_forall. intros p Hp. apply repeat_spec in Hp. now subst.
Qed.

(** A swap changes the value of the reserves by the outlay of the
    trader. *)
Lemma swap_value (q : Q) (pool pool' : Pool Q) (z : bool) (amt : Q)
  (r : SwapResult Q) :
  wf_pool pool -> (0 < size pool)%nat ->
  swap pool z amt = Ok (pool', r) ->
  pool_value q pool' - pool_value q pool == outlay q (z, amt) r.
Proof.
  intros Hwf Hsz Hs.
  destruct (swap_reserves_move _ _ _ _ _ Hwf Hsz Hs) as [Ei Eo].
  unfold outlay, pool_value. destruct z; simpl in *; rewrite <- Ei, <- Eo;
    ring.
Qed.

Lemma steps_value (q : Q) (pool pool2 : Pool Q) (orders : list order)
  (rs : list (SwapResult Q)) :
  steps pool orders rs pool2 -> wf_pool pool -> (0 < size pool)%nat ->
  wf_pool pool2
  /\ liquidity_arr pool2 = liquidity_arr pool
  /\ pool_value q pool2 - pool_value q pool == net_outlay q orders rs.
Proof.
  induction 1 as [pool|pool z amt pool1 r rest rs pool2 Hs _ IH];
    intros Hwf Hsz.
  - split; [auto|split; [auto|]]. unfold net_outlay. simpl total. ring.
  - pose proof (swap_preserves_wf _ _ _ _ _ Hwf Hs) as Hwf1.
    destruct (swap_frame _ _ _ _ _ Hs) as (Esz & EL & _).
    destruct IH as (Hwf2 & EL2 & Ev); [auto|lia|].
    split; [auto|split; [congruence|]].
    unfold net_outlay in *. simpl total.
    rewrite <- Ev, <- (swap_value q _ _ _ _ _ Hwf Hsz Hs). ring.
Qed.

(** C9: No free lunch: from a valid pool whose tiers are all at one
    price q (as the constructor builds it), over any sequence of
    successful swaps in either direction, what the traders put in net of
    the fees covers what they take out, both valued in token1 at the
    starting price q * q: the sum over the swaps of amt_in - fee_amt and
    of amt_out (which the code reports with a minus sign), the token0
    amounts multiplied by q * q, is not negative. The fees are lost on
    top of that. *)
Theorem steps_no_free_lunch (q : Q) (pool pool2 : Pool Q)
  (orders : list order) (rs : list (SwapResult Q)) :
  wf_pool pool -> (0 < size pool)%nat -> uniform q pool ->
  steps pool orders rs pool2 ->
  0 <= net_outlay q orders rs.
Proof.
  intros Hwf Hsz Hu Hst.
  destruct (steps_value q _ _ _ _ Hst Hwf Hsz) as (Hwf2 & EL & Ev).
  pose proof (value_least q pool2 Hwf2) as Hle.
  rewrite <- Ev, (value_uniform q pool Hwf Hu). rewrite EL in Hle. lra.
Qed.

Lemma swap_amt_in (pool pool' : Pool Q) (z : bool) (amt : Q)
  (r : SwapResult Q) :
  wf_pool pool -> (0 < size pool)%nat ->
  swap pool z amt = Ok (pool', r) -> amt_in r == amt.
Proof.
  intros Hwf Hsz Hs.
  destruct (swap_inv_post _ _ _ _ _ Hwf Hsz Hs) as (x & m & _ & Hp & _ & ->).
  exact (post_sum_active _ _ _ _ _ _ Hp).
Qed.

(** Selling token0 and selling back all the token1 received returns no
    more than what was sold less the fees of both swaps, the second fee
    valued at the starting price. *)
Corollary round_trip_loses (q a : Q) (pool pool1 pool2 : Pool Q)
  (r1 r2 : SwapResult Q) :
  wf_pool pool -> (0 < size pool)%nat -> uniform q pool -> 0 < q ->
  swap pool true a = Ok (pool1, r1) ->
  swap pool1 false (- amt_out r1) = Ok (pool2, r2) ->
  - amt_out r2 <= a - fee_amt r1 - fee_amt r2 / (q * q).
Proof.
  intros Hwf Hsz Hu Hq Hs1 Hs2.
  pose proof (swap_preserves_wf _ _ _ _ _ Hwf Hs1) as Hwf1.
  destruct (swap_frame _ _ _ _ _ Hs1) as (Esz & _).
  assert (steps pool [(true, a); (false, - amt_out r1)] [r1; r2] pool2)
    as Hst by (repeat econstructor; eauto).
  destruct (steps_value q _ _ _ _ Hst Hwf Hsz) as (Hwf2 & EL & Ev).
  pose proof (value_least q pool2 Hwf2) as Hle.
  rewrite EL, <- (value_uniform q pool Hwf Hu) in Hle.
  unfold net_outlay in Ev. simpl total in Ev. unfold outlay in Ev.
  simpl fst in Ev.
  cbv iota in Ev.
  rewrite (swap_amt_in _ _ _ _ _ Hwf Hsz Hs1),
    (swap_amt_in _ _ _ _ _ Hwf1 ltac:(lia) Hs2) in Ev.
  pose proof (Qsqr_pos q Hq) as Hqq. set (k := q * q) in *. clearbody k.
  set (w := fee_amt r2 / k).
  assert (fee_amt r2 == w * k) as Ew by (unfold w; field; lra).
  clearbody w. rewrite Ew in Ev. nra.
Qed.

(** ** Witnesses *)

Lemma reachable_band_witness : band sample_pool.
Proof. exact (reachable_band sample_pool sample_reachable). Defined.

Lemma swap_reserve_accounting_witness :
  reserve0 sample_pool - reserve0 default_pool
  == amt_in sample_result - fee_amt sample_result
  /\ reserve1 sample_pool - reserve1 default_pool == amt_out sample_result.
Proof.
  apply (swap_reserve_accounting default_pool sample_pool true 1000);
    sample_swap.
Defined.

Example round_trip_loses_sample :
  forall pool2 r2,
    swap sample_pool false (- amt_out sample_result) = Ok (pool2, r2) ->
    - amt_out r2 <= 1000 - fee_amt sample_result - fee_amt r2 / (1 * 1).
Proof.
  intros pool2 r2.
  apply (round_trip_loses 1 1000 default_pool sample_pool);
    [exact default_pool_wf|simpl; lia|apply init_uniform|lra
    |exact sample_swap_ok].
Qed.
