(* ===== verification/NoArbitrage.v ===== *)
(** * NoArbitrage: no sequence of swaps gains in both tokens

    [Arbitrage] values what the traders give net of the fees, from a
    pool whose tiers start at one price.  This file counts the fees in
    and starts from any pool within the band of its fees, so from every
    reachable pool.

    - [tsum]: sums over the tiers, [sum_(i < n) f i], with the lemmas
      that bring a statement about the pool down to one tier.
    - [dist]: how far a price moved, the way down measured in token0 and
      the way up in token1; it obeys the triangle inequality, and the
      fee a tier withholds in a swap is its fee rate times the distance
      its price moved ([tier_fee_toll]).
    - [within]: a price [q] that no tier is further from than its fee.
      A pool within the band has one ([band_within]).
    - What the traders give in a sequence of swaps, fees included and
      valued at such a price, is not negative ([steps_gross_outlay]);
      so on a reachable pool no sequence of swaps leaves the traders
      with more of one token and no less of the other
      ([reachable_no_arbitrage]).
    - When every tier charges a fee ([charges]) the loss is strict: the
      tier whose price the first swap moves pays for the way there and
      for the way back ([tier_round_pos]), so a sequence that is not
      empty costs the traders something ([steps_gross_strict],
      [reachable_strict_loss]). *)

From Stdlib Require Import List Bool Arith ZArith QArith Qminmax Lqa Lia.
From S2P Require Import Prelude Numeric ArrayIndex PriceAlgebra PoolState.
From S2P Require Import Allocator AllocatorExact Swap SwapExact Optimality.
From S2P Require Import Trace Arbitrage.
Import ListNotations.
Local Open Scope Q_scope.

(** ** Sums over the tiers *)

Definition tsum (n : nat) (f : nat -> Q) : Q := nsum (map f (seq 0 n)).

Lemma nth_map_seq (f : nat -> Q) (n i : nat) :
  (i < n)%nat -> nth i (map f (seq 0 n)) 0 = f i.
Proof.
  intros Hi.
  rewrite (nth_indep _ 0 (f 0%nat)) by now rewrite length_map, length_seq.
  now rewrite map_nth, seq_nth.
Qed.

Lemma tsum_le (n : nat) (f g : nat -> Q) :
  (forall i, (i < n)%nat -> f i <= g i) -> tsum n f <= tsum n g.
Proof.
  intros H. apply nsum_nth_le; rewrite !length_map, !length_seq; auto.
  intros i Hi. rewrite !nth_map_seq by auto. auto.
Qed.

Lemma tsum_eq (n : nat) (f g : nat -> Q) :
  (forall i, (i < n)%nat -> f i == g i) -> tsum n f == tsum n g.
Proof.
  intros H. apply Qle_antisym; apply tsum_le; intros i Hi;
    rewrite (H i Hi); apply Qle_refl.
Qed.

Lemma tsum_nth (l : list Q) : nsum l == tsum (length l) (fun i => nth i l 0).
Proof.
  apply nsum_nth_eq; [now rewrite length_map, length_seq|].
  intros i Hi. now rewrite nth_map_seq.
Qed.

Lemma tsum_add (n : nat) (f g : nat -> Q) :
  tsum n (fun i => f i + g i) == tsum n f + tsum n g.
Proof.
  unfold tsum. generalize 0%nat.
  induction n as [|n IH]; intros a; simpl; [rewrite !nsum_nil; ring|].
  rewrite !nsum_cons, IH. ring.
Qed.

Lemma tsum_scale (c : Q) (n : nat) (f : nat -> Q) :
  tsum n (fun i => c * f i) == c * tsum n f.
Proof.
  unfold tsum. generalize 0%nat.
  induction n as [|n IH]; intros a; simpl; [rewrite !nsum_nil; ring|].
  rewrite !nsum_cons, IH. ring.
Qed.

Lemma tsum_nonneg (n : nat) (f : nat -> Q) :
  (forall i, (i < n)%nat -> 0 <= f i) -> 0 <= tsum n f.
Proof.
  intros H. apply nsum_nonneg, Forall_forall. intros x Hx.
  apply in_map_iff in Hx as (i & <- & Hi). apply in_seq in Hi. apply H. lia.
Qed.

(** The largest of finitely many numbers. *)
Lemma exists_max (f : nat -> Q) (n : nat) :
  (0 < n)%nat ->
  exists j, (j < n)%nat /\ forall i, (i < n)%nat -> f i <= f j.
Proof.
  induction n as [|[|n] IH]; intros Hn; [lia| |].
  - exists 0%nat. split; [lia|]. intros i Hi. replace i with 0%nat by lia.
    apply Qle_refl.
  - destruct IH as (j & Hj & Hmax); [lia|].
    destruct (Qlt_le_dec (f j) (f (S n))) as [Hlt|Hle].
    + exists (S n). split; [lia|]. intros i Hi.
      destruct (Nat.eq_dec i (S n)) as [->|]; [apply Qle_refl|].
      specialize (Hmax i ltac:(lia)). lra.
    + exists j. split; [lia|]. intros i Hi.
      destruct (Nat.eq_dec i (S n)) as [->|]; [exact Hle|].
      apply Hmax. lia.
Qed.

(** ** The distance a price moved *)

Definition pos (x : Q) : Q := Qmax 0 x.

(** Case analysis on the sign under every [pos] of the goal. *)
Ltac pos_cases :=
  unfold pos;
  repeat match goal with
  | |- context [Qmax 0 ?x] =>
      let m := fresh "m" in
      destruct (Q.max_spec 0 x) as [[? ?]|[? ?]];
      set (m := Qmax 0 x) in *; clearbody m
  end.

Lemma pos_nonneg (x : Q) : 0 <= pos x.
Proof. pos_cases; lra. Qed.

Lemma pos_of_nonneg (x : Q) : 0 <= x -> pos x == x.
Proof. intros H. pos_cases; lra. Qed.

Lemma pos_of_nonpos (x : Q) : x <= 0 -> pos x == 0.
Proof. intros H. pos_cases; lra. Qed.

Lemma pos_add (x y : Q) : pos (x + y) <= pos x + pos y.
Proof. pos_cases; lra. Qed.

#[export] Instance pos_Proper : Proper (Qeq ==> Qeq) pos.
Proof. intros x y E. unfold pos. now rewrite E. Qed.

(** The way down is measured in token0, valued at the price [q * q], the
    way up in token1. *)
Definition dist (q s p : Q) : Q := q * q * pos (/ p - / s) + pos (p - s).

Lemma dist_nonneg (q s p : Q) : 0 <= dist q s p.
Proof.
  unfold dist. pose proof (pos_nonneg (/ p - / s)).
  pose proof (pos_nonneg (p - s)).
  pose proof (Qsqr_nonneg q). nra.
Qed.

Lemma dist_triangle (q s p1 p2 : Q) :
  dist q s p2 <= dist q s p1 + dist q p1 p2.
Proof.
  unfold dist.
  assert (/ p2 - / s == (/ p1 - / s) + (/ p2 - / p1)) as -> by ring.
  assert (p2 - s == (p1 - s) + (p2 - p1)) as -> by ring.
  pose proof (pos_add (/ p1 - / s) (/ p2 - / p1)).
  pose proof (pos_add (p1 - s) (p2 - p1)).
  pose proof (Qsqr_nonneg q). nra.
Qed.

Lemma Qinv_le_anti (p s : Q) : 0 < p -> p <= s -> / s <= / p.
Proof.
  intros Hp Hs. assert (0 < s) by lra.
  assert (/ p - / s == (s - p) / (p * s)) as E by (field; lra).
  assert (0 <= (s - p) / (p * s)) by (apply Qdiv_nonneg; nra). lra.
Qed.

Lemma dist_down (q s p : Q) :
  0 < p -> p <= s -> dist q s p == q * q * (/ p - / s).
Proof.
  intros Hp Hs. unfold dist. pose proof (Qinv_le_anti p s Hp Hs).
  rewrite pos_of_nonneg, (pos_of_nonpos (p - s)) by lra. ring.
Qed.

Lemma dist_up (q s p : Q) : 0 < s -> s <= p -> dist q s p == p - s.
Proof.
  intros Hp Hs. unfold dist. pose proof (Qinv_le_anti s p Hp Hs).
  rewrite pos_of_nonpos, (pos_of_nonneg (p - s)) by lra. ring.
Qed.

(** ** One tier *)

(** The fee of a tier per unit that enters its reserves. *)
Definition fee_rate (g : Q) : Q := (1 - g * g) / (g * g).

(** The least fee a tier withholds while its price goes from [s] to [p],
    valued in token1 at the price [q * q]. *)
Definition tier_toll (q g L s p : Q) : Q := fee_rate g * L * dist q s p.

Definition tier_value (q L p : Q) : Q := q * q * (L / p) + L * p.

Lemma fee_rate_nonneg (g : Q) : 0 < g <= 1 -> 0 <= fee_rate g.
Proof. intros Hg. apply Qdiv_nonneg; nra. Qed.

Lemma tier_toll_triangle (q g L s p1 p2 : Q) :
  0 < L -> 0 < g <= 1 ->
  tier_toll q g L s p2 <= tier_toll q g L s p1 + tier_toll q g L p1 p2.
Proof.
  intros HL Hg. unfold tier_toll.
  pose proof (fee_rate_nonneg g Hg) as Hr.
  pose proof (dist_triangle q s p1 p2) as Ht.
  set (c := fee_rate g * L).
  assert (0 <= c) as Hc by (apply Qmult_le_0_compat; lra).
  rewrite <- Qmult_plus_distr_r, !(Qmult_comm c).
  now apply Qmult_le_compat_r.
Qed.

(** Seen from a price [q] within the fee of the tier, moving the price
    of the tier costs at least what the reserves lose in value. *)
Lemma tier_potential_nonneg (q g L s p : Q) :
  0 < L -> 0 < s -> 0 < p -> 0 < g <= 1 -> g * s <= q -> g * q <= s ->
  0 <= tier_value q L p - tier_value q L s + tier_toll q g L s p.
Proof.
  intros HL Hs Hp Hg Hlo Hhi. unfold tier_value, tier_toll, fee_rate.
  assert (0 < g * g * s * p) as Hden by (repeat apply Qmult_pos; lra).
  assert (0 < q) by nra.
  destruct (Qlt_le_dec s p) as [Hsp|Hps].
  - rewrite dist_up by lra.
    assert (g * q * (g * q) <= s * p)
      by (apply Qmult_le_compat_nonneg; split; nra).
    setoid_replace (q * q * (L / p) + L * p - (q * q * (L / s) + L * s)
                    + (1 - g * g) / (g * g) * L * (p - s))
      with (L * (p - s) * (s * p - g * q * (g * q)) / (g * g * s * p))
      by (field; lra).
    apply Qdiv_nonneg; [|lra]. apply Qmult_le_0_compat; nra.
  - rewrite dist_down by lra.
    assert (g * s * (g * p) <= q * q)
      by (apply Qmult_le_compat_nonneg; split; nra).
    setoid_replace (q * q * (L / p) + L * p - (q * q * (L / s) + L * s)
                    + (1 - g * g) / (g * g) * L * (q * q * (/ p - / s)))
      with (L * (s - p) * (q * q - g * s * (g * p)) / (g * g * s * p))
      by (field; lra).
    apply Qdiv_nonneg; [|lra]. apply Qmult_le_0_compat; nra.
Qed.

(** The fee a tier withholds in a swap is its fee rate times the
    distance its price moves. *)
Lemma tier_fee_toll (q : Q) (pool pool' : Pool Q) (z : bool) (amt : Q)
  (r : SwapResult Q) (i : nat) :
  wf_pool pool -> swap pool z amt = Ok (pool', r) -> (i < size pool)%nat ->
  (if z then q * q else 1) * nth i (fee_amts r) 0
  == tier_toll q (g_ pool i) (L_ pool i) (p_ pool i) (p_ pool' i).
Proof.
  intros Hwf Hs Hi.
  destruct (swap_tier_step _ _ _ _ _ i Hwf Hs Hi) as [_ Hfee _ _ _].
  destruct (tier_pool_facts pool i Hwf Hi) as (HL & Hp & Hg & Hg1).
  destruct (tier_price_facts _ _ _ _ _ i Hwf Hs Hi) as (Hp' & Hdir & _).
  destruct (tier_reserves _ _ _ _ _ i Hwf Hs Hi) as [Hin _].
  fold (p_ pool' i) in *. rewrite Hfee in Hin |- *.
  set (x := nth i (amts_in r) 0) in *. set (g := g_ pool i) in *.
  assert (0 < g * g) as Hgg by nra.
  unfold tier_toll, fee_rate.
  destruct z; simpl in Hin; [rewrite dist_down by lra|rewrite dist_up by lra].
  - transitivity ((1 - g * g) / (g * g) * (q * q)
                  * (L_ pool i / p_ pool' i - L_ pool i / p_ pool i));
      [rewrite Hin|]; field; lra.
  - transitivity ((1 - g * g) / (g * g)
                  * (L_ pool i * p_ pool' i - L_ pool i * p_ pool i));
      [rewrite Hin|]; field; lra.
Qed.

(** ** The pool *)

(** A price that no tier is further from than its fee. *)
Definition within (q : Q) (pool : Pool Q) : Prop :=
  forall i, (i < size pool)%nat ->
    g_ pool i * p_ pool i <= q /\ g_ pool i * q <= p_ pool i.

(** Within the band there is such a price: the highest of the prices at
    which a tier buys token0. *)
Lemma band_within (pool : Pool Q) :
  (0 < size pool)%nat -> band pool -> exists q, within q pool.
Proof.
  intros Hsz Hb.
  destruct (exists_max (fun i => g_ pool i * p_ pool i) _ Hsz)
    as (j & Hj & Hmax).
  exists (g_ pool j * p_ pool j). intros i Hi. split; [now apply Hmax|].
  specialize (Hb j i Hj Hi). lra.
Qed.

(** The least fees the tiers withhold between two states of a pool. *)
Definition toll (q : Q) (pool pool' : Pool Q) : Q :=
  tsum (size pool)
    (fun i => tier_toll q (g_ pool i) (L_ pool i) (p_ pool i) (p_ pool' i)).

Lemma pool_value_tsum (q : Q) (pool : Pool Q) :
  wf_pool pool ->
  pool_value q pool
  == tsum (size pool) (fun i => tier_value q (L_ pool i) (p_ pool i)).
Proof.
  intros Hwf. unfold pool_value, reserve0, reserve1, tier_value.
  rewrite tsum_add, tsum_scale, !tsum_nth.
  destruct Hwf. rewrite !length_map2 by congruence.
  rewrite wf_len_liquidity.
  apply Qplus_comp; [apply Qmult_comp; [reflexivity|]|]; apply tsum_eq;
    intros i Hi; rewrite (nth_map2 _ _ _ _ 0 0) by congruence; reflexivity.
Qed.

Lemma toll_triangle (q : Q) (pool pool1 pool2 : Pool Q) :
  wf_pool pool -> size pool1 = size pool ->
  liquidity_arr pool1 = liquidity_arr pool ->
  sqrt_gamma_arr pool1 = sqrt_gamma_arr pool ->
  toll q pool pool2 <= toll q pool pool1 + toll q pool1 pool2.
Proof.
  intros Hwf Esz EL Eg. unfold toll. rewrite Esz, <- tsum_add.
  apply tsum_le. intros i Hi. unfold g_, L_. rewrite EL, Eg.
  destruct (tier_pool_facts pool i Hwf Hi) as (HL & _ & Hg).
  now apply tier_toll_triangle.
Qed.

Lemma potential_nonneg (q : Q) (pool pool2 : Pool Q) :
  wf_pool pool -> wf_pool pool2 -> size pool2 = size pool ->
  liquidity_arr pool2 = liquidity_arr pool -> within q pool ->
  0 <= pool_value q pool2 - pool_value q pool + toll q pool pool2.
Proof.
  intros Hwf Hwf2 Esz EL Hq.
  rewrite !pool_value_tsum by auto. unfold toll.
  rewrite Esz. apply (Qplus_le_r _ _ (tsum (size pool)
    (fun i => tier_value q (L_ pool i) (p_ pool i)))).
  ring_simplify. rewrite <- tsum_add. apply tsum_le. intros i Hi.
  destruct (tier_pool_facts pool i Hwf Hi) as (HL & Hp & Hg).
  destruct (tier_pool_facts pool2 i Hwf2 ltac:(congruence)) as (_ & Hp2 & _).
  destruct (Hq i Hi) as [Hlo Hhi].
  pose proof (tier_potential_nonneg q _ _ _ _ HL Hp Hp2 Hg Hlo Hhi) as Hn.
  unfold L_ in *. rewrite EL. lra.
Qed.

(** ** Sequences of swaps *)

(** What a swap brings the trader, of each token; the code reports the
    amount out with a minus sign. *)
Definition gain0 (o : @order Q) (r : SwapResult Q) : Q :=
  if fst o then - amt_in r else - amt_out r.

Definition gain1 (o : @order Q) (r : SwapResult Q) : Q :=
  if fst o then - amt_out r else - amt_in r.

(** What a swap costs the trader, fees included, valued in token1 at the
    price [q * q]. *)
Definition gross (q : Q) (o : @order Q) (r : SwapResult Q) : Q :=
  - (q * q * gain0 o r + gain1 o r).

Lemma total_gross (q : Q) (orders : list order) : forall rs,
  total (gross q) orders rs
  == - (q * q * total gain0 orders rs + total gain1 orders rs).
Proof.
  induction orders as [|o orders IH]; intros [|r rs]; simpl; try ring.
  rewrite IH. unfold gross. ring.
Qed.

(** A swap costs the trader the change in value of the reserves and the
    fees. *)
Lemma swap_gross (q : Q) (pool pool' : Pool Q) (z : bool) (amt : Q)
  (r : SwapResult Q) :
  wf_pool pool -> (0 < size pool)%nat ->
  swap pool z amt = Ok (pool', r) ->
  gross q (z, amt) r
  == pool_value q pool' - pool_value q pool + toll q pool pool'.
Proof.
  intros Hwf Hsz Hs.
  destruct (swap_sums _ _ _ _ _ Hwf Hs) as [_ Ef].
  destruct (swap_result_lengths _ _ _ _ _ Hwf Hs) as (_ & _ & Hlf).
  rewrite (swap_value q _ _ _ _ _ Hwf Hsz Hs).
  assert (toll q pool pool' == (if z then q * q else 1) * fee_amt r) as ->.
  { rewrite <- Ef, tsum_nth, Hlf, <- tsum_scale. apply tsum_eq.
    intros i Hi. symmetry. now apply (tier_fee_toll q _ _ _ amt). }
  unfold gross, gain0, gain1, outlay. destruct z; simpl; ring.
Qed.

Lemma steps_gross (q : Q) (pool pool2 : Pool Q) (orders : list order)
  (rs : list (SwapResult Q)) :
  steps pool orders rs pool2 -> wf_pool pool -> (0 < size pool)%nat ->
  (wf_pool pool2 /\ size pool2 = size pool
   /\ liquidity_arr pool2 = liquidity_arr pool
   /\ sqrt_gamma_arr pool2 = sqrt_gamma_arr pool)
  /\ pool_value q pool2 - pool_value q pool + toll q pool pool2
     <= total (gross q) orders rs.
Proof.
  induction 1 as [pool|pool z amt pool1 r rest rs pool2 Hs _ IH];
    intros Hwf Hsz.
  - split; [auto|]. simpl total. unfold toll.
    rewrite (tsum_eq _ _ (fun _ => 0 * 0)), tsum_scale; [lra|].
    intros i Hi. unfold tier_toll.
    destruct (tier_pool_facts pool i Hwf Hi) as (_ & Hp & _).
    rewrite dist_up by lra. ring.
  - pose proof (swap_preserves_wf _ _ _ _ _ Hwf Hs) as Hwf1.
    destruct (swap_frame _ _ _ _ _ Hs) as (Esz & EL & Eg & _).
    destruct IH as ((Hwf2 & Esz2 & EL2 & Eg2) & Hle); [auto|lia|].
    split; [split; [auto|repeat split; congruence]|].
    simpl total. rewrite (swap_gross q _ _ _ _ _ Hwf Hsz Hs).
    pose proof (toll_triangle q pool pool1 pool2 Hwf Esz EL Eg). lra.
Qed.

(** Valued at a price that no tier is further from than its fee, what
    the traders give in any sequence of swaps, fees included, covers
    what they take. *)
Lemma steps_gross_outlay (q : Q) (pool pool2 : Pool Q)
  (orders : list order) (rs : list (SwapResult Q)) :
  wf_pool pool -> (0 < size pool)%nat -> within q pool ->
  steps pool orders rs pool2 ->
  0 < q /\ q * q * total gain0 orders rs + total gain1 orders rs <= 0.
Proof.
  intros Hwf Hsz Hq Hst. split.
  - destruct (Hq 0%nat Hsz) as [Hlo _].
    destruct (tier_pool_facts pool 0 Hwf Hsz) as (_ & Hp & Hg & _).
    assert (0 < g_ pool 0 * p_ pool 0) by now apply Qmult_pos. lra.
  - destruct (steps_gross q _ _ _ _ Hst Hwf Hsz)
      as ((Hwf2 & Esz & EL & _) & Hle).
    pose proof (potential_nonneg q pool pool2 Hwf Hwf2 Esz EL Hq).
    rewrite total_gross in Hle. lra.
Qed.

(** C7: No arbitrage: on every pool reached from a valid construction by
    successful swaps, with at least one tier, no further sequence of
    successful swaps in either direction leaves the traders with more of
    one token and no less of the other. There is a price q that no tier
    is further from than its fee (sqrt_gamma_i * sqrt_p_i <= q and
    sqrt_gamma_i * q <= sqrt_p_i for every tier) at which what the
    traders receive over the sequence, q * q times their net token0 plus
    their net token1, fees included, is not positive; so if neither net
    amount is negative, both are zero. *)
Theorem reachable_no_arbitrage (pool pool2 : Pool Q) (orders : list order)
  (rs : list (SwapResult Q)) :
  reachable pool -> (0 < size pool)%nat ->
  steps pool orders rs pool2 ->
  (exists q, 0 < q /\ within q pool
     /\ q * q * total gain0 orders rs + total gain1 orders rs <= 0)
  /\ (0 <= total gain0 orders rs -> 0 <= total gain1 orders rs ->
      total gain0 orders rs == 0 /\ total gain1 orders rs == 0).
Proof.
  intros Hr Hsz Hst.
  destruct (reachable_wf_band pool Hr) as [Hwf Hb].
  destruct (band_within pool Hsz Hb) as (q & Hq).
  destruct (steps_gross_outlay q _ _ _ _ Hwf Hsz Hq Hst) as [Hq0 Hle].
  split; [now exists q|]. intros H0 H1.
  pose proof (Qsqr_pos q Hq0). split; nra.
Qed.

(** ** When every tier charges a fee *)

Lemma tsum_zero (n : nat) : tsum n (fun _ => 0) == 0.
Proof.
  rewrite (tsum_eq _ _ (fun _ => 0 * 0)), tsum_scale by (intros; ring). ring.
Qed.

Lemma tsum_pos (n : nat) (f : nat -> Q) (j : nat) :
  (forall i, (i < n)%nat -> 0 <= f i) -> (j < n)%nat -> 0 < f j ->
  0 < tsum n f.
Proof.
  intros Hn Hj Hf. rewrite <- (tsum_zero n). unfold tsum.
  apply (nsum_nth_lt _ _ j); rewrite ?length_map, ?length_seq; auto.
  - intros i Hi. rewrite !nth_map_seq by auto. auto.
  - now rewrite !nth_map_seq.
Qed.

Lemma dist_pos (q s p : Q) :
  0 < q -> 0 < s -> 0 < p -> ~ p == s -> 0 < dist q s p.
Proof.
  intros Hq Hs Hp Hne. pose proof (Qsqr_pos q Hq).
  destruct (Qlt_le_dec s p) as [Hlt|Hle].
  - rewrite dist_up by lra. lra.
  - assert (p < s) as Hlt by (destruct (Qle_lt_or_eq _ _ Hle); tauto).
    rewrite dist_down by lra.
    assert (/ p - / s == (s - p) / (p * s)) as -> by (field; lra).
    apply Qmult_pos; [auto|]. apply Qdiv_pos; nra.
Qed.

Lemma fee_rate_pos (g : Q) : 0 < g < 1 -> 0 < fee_rate g.
Proof. intros Hg. apply Qdiv_pos; nra. Qed.

#[export] Instance tier_value_Proper :
  Proper (Qeq ==> Qeq ==> Qeq ==> Qeq) tier_value.
Proof.
  intros q q' Eq L L' EL p p' Ep. unfold tier_value. now rewrite Eq, EL, Ep.
Qed.

(** Moving the price of a tier that charges a fee costs, from a price
    [q] within its fee, strictly more than the reserves lose. *)
Lemma tier_potential_pos (q g L s p : Q) :
  0 < L -> 0 < s -> 0 < p -> 0 < g < 1 -> g * s <= q -> g * q <= s ->
  ~ p == s ->
  0 < tier_value q L p - tier_value q L s + tier_toll q g L s p.
Proof.
  intros HL Hs Hp Hg Hlo Hhi Hne. unfold tier_value, tier_toll, fee_rate.
  assert (0 < g * g * s * p) as Hden by (repeat apply Qmult_pos; lra).
  assert (0 < q) by nra.
  destruct (Qlt_le_dec s p) as [Hsp|Hps].
  - rewrite dist_up by lra.
    assert (g * q * (g * q) < s * p).
    { apply Qle_lt_trans with (s * s);
        [apply Qmult_le_compat_nonneg; split; nra|nra]. }
    setoid_replace (q * q * (L / p) + L * p - (q * q * (L / s) + L * s)
                    + (1 - g * g) / (g * g) * L * (p - s))
      with (L * (p - s) * (s * p - g * q * (g * q)) / (g * g * s * p))
      by (field; lra).
    apply Qdiv_pos; [|lra]. repeat apply Qmult_pos; lra.
  - assert (p < s) as Hlt by (destruct (Qle_lt_or_eq _ _ Hps); tauto).
    rewrite dist_down by lra.
    assert (g * s * (g * p) < q * q).
    { apply Qlt_le_trans with (g * s * (g * s));
        [|apply Qmult_le_compat_nonneg; split; nra].
      assert (0 < g * s * g) by (repeat apply Qmult_pos; lra). nra. }
    setoid_replace (q * q * (L / p) + L * p - (q * q * (L / s) + L * s)
                    + (1 - g * g) / (g * g) * L * (q * q * (/ p - / s)))
      with (L * (s - p) * (q * q - g * s * (g * p)) / (g * g * s * p))
      by (field; lra).
    apply Qdiv_pos; [|lra]. repeat apply Qmult_pos; lra.
Qed.

(** A tier whose price went from [s] to [p1] and on to [p]: the fees of
    both moves cover what the reserves lost, strictly if the tier
    charges a fee and the first move was a move. *)
Section TierRound.
Variables (q g L s p1 p : Q).
Hypotheses (HL : 0 < L) (Hs : 0 < s) (Hp1 : 0 < p1) (Hp : 0 < p)
  (Hg : 0 < g <= 1) (Hlo : g * s <= q) (Hhi : g * q <= s).

Let round : Q :=
  tier_value q L p - tier_value q L s
  + (tier_toll q g L s p1 + tier_toll q g L p1 p).

Lemma tier_round_nonneg : 0 <= round.
Proof using All.
  pose proof (tier_toll_triangle q g L s p1 p HL Hg).
  pose proof (tier_potential_nonneg q g L s p HL Hs Hp Hg Hlo Hhi).
  unfold round. lra.
Qed.

Lemma tier_round_pos : g < 1 -> ~ p1 == s -> 0 < round.
Proof using All.
  intros Hg1 Hne. assert (0 < q) by nra. unfold round.
  pose proof (tier_toll_triangle q g L s p1 p HL Hg).
  destruct (Qeq_dec p s) as [E|Hps].
  - assert (0 < tier_toll q g L s p1).
    { unfold tier_toll. apply Qmult_pos; [apply Qmult_pos|];
        [apply fee_rate_pos; lra|lra|now apply dist_pos]. }
    assert (0 <= tier_toll q g L p1 p).
    { unfold tier_toll. apply Qmult_le_0_compat; [apply Qmult_le_0_compat|];
        [now apply fee_rate_nonneg|lra|apply dist_nonneg]. }
    assert (tier_value q L p == tier_value q L s) by now rewrite E.
    lra.
  - pose proof (tier_potential_pos q g L s p HL Hs Hp (conj (proj1 Hg) Hg1)
                  Hlo Hhi Hps). lra.
Qed.
End TierRound.

(** Every tier charges a fee. *)
Definition charges (pool : Pool Q) : Prop :=
  forall i, (i < size pool)%nat -> g_ pool i < 1.

Lemma tsum_sub (n : nat) (f g : nat -> Q) :
  tsum n (fun i => f i - g i) == tsum n f - tsum n g.
Proof.
  rewrite (tsum_eq _ _ (fun i => f i + (-1) * g i)) by (intros; ring).
  rewrite tsum_add, tsum_scale. ring.
Qed.

Section FirstSwap.
Variables (q : Q) (pool pool1 pool2 : Pool Q) (z : bool) (amt : Q)
  (r : SwapResult Q) (rest : list (@order Q)) (rs : list (SwapResult Q)).
Hypotheses (Hwf : wf_pool pool) (Hsz : (0 < size pool)%nat)
  (Hs : swap pool z amt = Ok (pool1, r)) (Hst : steps pool1 rest rs pool2).

(** What tier [i] costs the traders at least: the change in value of
    its reserves, the fee of the first swap and the least fee of the
    rest. *)
Let round (i : nat) : Q :=
  tier_value q (L_ pool i) (p_ pool2 i) - tier_value q (L_ pool i) (p_ pool i)
  + (tier_toll q (g_ pool i) (L_ pool i) (p_ pool i) (p_ pool1 i)
     + tier_toll q (g_ pool i) (L_ pool i) (p_ pool1 i) (p_ pool2 i)).

Lemma first_swap_bound :
  tsum (size pool) round <= total (gross q) ((z, amt) :: rest) (r :: rs).
Proof using All.
  pose proof (swap_preserves_wf _ _ _ _ _ Hwf Hs) as Hwf1.
  destruct (swap_frame _ _ _ _ _ Hs) as (Esz & EL & Eg & _).
  destruct (steps_gross q _ _ _ _ Hst Hwf1 ltac:(lia))
    as ((Hwf2 & Esz2 & EL2 & _) & Hle).
  simpl total. rewrite (swap_gross q _ _ _ _ _ Hwf Hsz Hs).
  assert (tsum (size pool) round
          == pool_value q pool2 - pool_value q pool
             + (toll q pool pool1 + toll q pool1 pool2)) as ->; [|lra].
  rewrite !pool_value_tsum by auto. unfold toll, round, L_, g_.
  rewrite Esz2, Esz, EL2, EL, Eg, !tsum_add, tsum_sub. reflexivity.
Qed.

Lemma first_swap_moves :
  exists j, (j < size pool)%nat /\ ~ p_ pool1 j == p_ pool j.
Proof using Hwf Hsz Hs.
  destruct (swap_inv_post _ _ _ _ _ Hwf Hsz Hs) as (x & m & Hsf & Hp & _ & ->).
  pose proof (sf_amt _ _ _ _ _ Hsf) as Ha.
  destruct (nsum_pos_index x (sf_nonneg _ _ _ _ _ Hsf)) as (j & Hj & Hx);
    [rewrite (post_sum _ _ _ _ _ _ Hp); exact Ha|].
  rewrite (sf_len_x _ _ _ _ _ Hsf) in Hj. exists j. split; [exact Hj|].
  destruct (tier_price_facts _ _ _ _ _ j Hwf Hs Hj) as (_ & _ & Hstrict).
  specialize (Hstrict Hx). fold (p_ pool1 j) in Hstrict.
  destruct z; lra.
Qed.

(** From a price within the fees of all tiers, a sequence of swaps that
    is not empty costs the traders something when every tier charges a
    fee. *)
Lemma steps_gross_strict :
  within q pool -> charges pool ->
  0 < total (gross q) ((z, amt) :: rest) (r :: rs).
Proof using All.
  intros Hq Hc. apply Qlt_le_trans with (2 := first_swap_bound).
  pose proof (swap_preserves_wf _ _ _ _ _ Hwf Hs) as Hwf1.
  destruct (swap_frame _ _ _ _ _ Hs) as (Esz & _).
  destruct (steps_gross q _ _ _ _ Hst Hwf1 ltac:(lia))
    as ((Hwf2 & Esz2 & _) & _).
  assert (forall i, (i < size pool)%nat ->
            0 < L_ pool i /\ 0 < p_ pool i /\ 0 < p_ pool1 i
            /\ 0 < p_ pool2 i /\ 0 < g_ pool i <= 1) as Hpos.
  { intros i Hi.
    destruct (tier_pool_facts pool i Hwf Hi) as (? & ? & ?).
    destruct (tier_pool_facts pool1 i Hwf1 ltac:(lia)) as (_ & ? & _).
    destruct (tier_pool_facts pool2 i Hwf2 ltac:(lia)) as (_ & ? & _).
    auto. }
  destruct first_swap_moves as (j & Hj & Hne).
  apply (tsum_pos _ _ j); auto.
  - intros i Hi. destruct (Hpos i Hi) as (HL & Hp & Hp1 & Hp2 & Hg).
    destruct (Hq i Hi). now apply tier_round_nonneg.
  - destruct (Hpos j Hj) as (HL & Hp & Hp1 & Hp2 & Hg).
    destruct (Hq j Hj). apply tier_round_pos; auto.
Qed.
End FirstSwap.

(** C8: Trading costs: on a reachable pool with at least one tier in
    which every tier charges a fee (sqrt_gamma < 1), every sequence of
    successful swaps that is not empty costs the traders strictly: at a
    price q within the fees of all tiers, q * q times their net token0
    plus their net token1 is negative, so no sequence, and no round trip
    in particular, returns to the traders all they put in of both
    tokens. *)
Theorem reachable_strict_loss (pool pool2 : Pool Q) (orders : list order)
  (rs : list (SwapResult Q)) :
  reachable pool -> (0 < size pool)%nat -> charges pool ->
  steps pool orders rs pool2 -> orders <> [] ->
  (exists q, 0 < q /\ within q pool
     /\ q * q * total gain0 orders rs + total gain1 orders rs < 0)
  /\ ~ (0 <= total gain0 orders rs /\ 0 <= total gain1 orders rs).
Proof.
  intros Hr Hsz Hc Hst Hne.
  destruct (reachable_wf_band pool Hr) as [Hwf Hb].
  destruct (band_within pool Hsz Hb) as (q & Hq).
  destruct (steps_gross_outlay q _ _ _ _ Hwf Hsz Hq Hst) as [Hq0 _].
  pose proof (Qsqr_pos q Hq0).
  assert (q * q * total gain0 orders rs + total gain1 orders rs < 0) as Hlt.
  { destruct Hst as [|pool z amt pool1 r rest rs pool2 Hs Hst];
      [congruence|].
    pose proof (steps_gross_strict q _ _ _ _ _ _ _ _ Hwf Hsz Hs Hst Hq Hc)
      as Hg.
    rewrite total_gross in Hg. lra. }
  split; [now exists q|]. intros [H0 H1]. nra.
Qed.
