(* ===== verification/Ledger.v ===== *)
(** * Ledger: the books of the pool balance

    A pool holds its reserves and the fees it has withheld.  The code
    keeps neither as a number: the reserves are [L / sqrt_p] and
    [L * sqrt_p] tier by tier, and the fees are recorded as growth per
    unit of liquidity.  This file shows that the two together account
    for every token that went in or out:

    - a swap adds its fee to what the accumulators of the token sold
      stand for, and leaves the other token's alone ([swap_accrued]);
    - over any sequence of swaps, reserves plus fees accrued change, for
      each token, by what the traders paid less what they were paid
      ([steps_conserves_tokens]). *)

From Stdlib Require Import List Bool Arith ZArith QArith Lqa Lia Morphisms.
From S2P Require Import Prelude Numeric ArrayIndex PriceAlgebra PoolState.
From S2P Require Import Allocator AllocatorExact Swap SwapExact Optimality.
From S2P Require Import Trace Arbitrage NoArbitrage.
Import ListNotations.
Local Open Scope Q_scope.

(** The fees of each token that the accumulators stand for: growth is
    per unit of liquidity. *)
Definition accrued0 (pool : Pool Q) : Q :=
  nsum (map2 Qmult (liquidity_arr pool) (fee0_growth_arr pool)).

Definition accrued1 (pool : Pool Q) : Q :=
  nsum (map2 Qmult (liquidity_arr pool) (fee1_growth_arr pool)).

(** What the pool holds of each token. *)
Definition holdings0 (pool : Pool Q) : Q := reserve0 pool + accrued0 pool.
Definition holdings1 (pool : Pool Q) : Q := reserve1 pool + accrued1 pool.

Definition accrued_sold (z : bool) (pool : Pool Q) : Q :=
  if z then accrued0 pool else accrued1 pool.

Definition accrued_bought (z : bool) (pool : Pool Q) : Q :=
  if z then accrued1 pool else accrued0 pool.

Lemma accrued_sold_nsum (z : bool) (pool : Pool Q) :
  accrued_sold z pool
  = nsum (map2 Qmult (liquidity_arr pool) (sold_fee_growth z pool)).
Proof. now destruct z. Qed.

Section Swap.
Variables (pool pool' : Pool Q) (z : bool) (amt : Q) (r : SwapResult Q).
Hypotheses (Hwf : wf_pool pool) (Hs : swap pool z amt = Ok (pool', r)).

(** A swap adds its fee to the books of the token sold. *)
Lemma swap_accrued :
  accrued_sold z pool' - accrued_sold z pool == fee_amt r
  /\ accrued_bought z pool' = accrued_bought z pool.
Proof using All.
  pose proof (swap_preserves_wf _ _ _ _ _ Hwf Hs) as Hwf'.
  destruct (swap_frame _ _ _ _ _ Hs) as (Esz & EL & _ & Ef).
  pose proof (length_sold_fee_growth pool z Hwf) as Hl.
  pose proof (length_sold_fee_growth pool' z Hwf') as Hl'.
  pose proof (wf_len_liquidity _ Hwf) as HL.
  split.
  - rewrite <- (swap_fee_accounting _ _ _ _ _ Hwf Hs), !accrued_sold_nsum, EL.
    apply nsum_diff; rewrite !length_map2; rewrite ?length_map2;
      try congruence.
    rewrite HL. intros i Hi.
    rewrite !(nth_map2 _ _ _ _ 0 0) by (rewrite ?length_map2; congruence).
    ring.
  - unfold accrued_bought, accrued0, accrued1.
    destruct z; now rewrite EL, Ef.
Qed.

(** What the pool holds changes by what came in and what went out. *)
Lemma swap_holdings :
  (0 < size pool)%nat ->
  holdings0 pool' - holdings0 pool == - gain0 (z, amt) r
  /\ holdings1 pool' - holdings1 pool == - gain1 (z, amt) r.
Proof using All.
  intros Hsz. destruct swap_accrued as [Ea Eb].
  destruct (swap_reserves_move _ _ _ _ _ Hwf Hsz Hs) as [Ei Eo].
  unfold holdings0, holdings1, gain0, gain1.
  destruct z; simpl in *; rewrite Eb; split; lra.
Qed.
End Swap.

(** C11: The books of the pool balance: over any sequence of successful
    swaps from a valid pool with at least one tier, what the pool holds
    of each token, the virtual reserves (the sum of L / sqrt_p for
    token0 and of L * sqrt_p for token1) plus the fees its accumulators
    stand for (the sum of liquidity times fee growth), changes by what
    the traders paid in of that token less what they were paid out. *)
Theorem steps_conserves_tokens (pool pool2 : Pool Q) (orders : list order)
  (rs : list (SwapResult Q)) :
  steps pool orders rs pool2 -> wf_pool pool -> (0 < size pool)%nat ->
  holdings0 pool2 - holdings0 pool == - total gain0 orders rs
  /\ holdings1 pool2 - holdings1 pool == - total gain1 orders rs.
Proof.
  induction 1 as [pool|pool z amt pool1 r rest rs pool2 Hs _ IH];
    intros Hwf Hsz; simpl total; [split; ring|].
  destruct (swap_frame _ _ _ _ _ Hs) as (Esz & _).
  destruct (swap_holdings _ _ _ _ _ Hwf Hs Hsz) as [H0 H1].
  destruct (IH (swap_preserves_wf _ _ _ _ _ Hwf Hs) ltac:(lia)) as [I0 I1].
  split; lra.
Qed.

Lemma steps_conserves_tokens_witness :
  holdings0 sample_pool - holdings0 default_pool
  == - total gain0 [(true, 1000)] [sample_result]
  /\ holdings1 sample_pool - holdings1 default_pool
     == - total gain1 [(true, 1000)] [sample_result].
Proof.
  apply steps_conserves_tokens;
    [exact sample_steps|exact default_pool_wf|simpl; lia].
Defined.
