(* ===== verification/Extensional.v ===== *)
(** * Extensional: the model respects equality of rationals

    The theorems over [Q] are stated up to [Qeq]: [1 # 2] and [2 # 4]
    are the same number.  The code however branches on comparisons and
    builds arrays, so that its results on two pools whose numbers are
    equal but written differently are different terms.  This file shows
    that they are equal numbers again: every array operation lifts a
    relation on the elements ([Forall2]), the repair loop takes the same
    branches and returns the same mask, and [swap] and [run] map equal
    pools and equal amounts to equal outcomes ([pool_equiv],
    [result_equiv], [outcome_equiv]).  The sum of an array does not
    depend on the order of its elements either ([nsum_Permutation]),
    whatever order [np.sum] adds in. *)

From Stdlib Require Import List Bool ZArith QArith Lqa Morphisms.
From Stdlib Require Import Permutation.
From S2P Require Import Prelude Numeric ArrayIndex PriceAlgebra PoolState.
From S2P Require Import Allocator Swap Trace.
Import ListNotations.

(** ** Array operations lift relations *)

Section Lift.
Context {A : Type} (R : A -> A -> Prop).

Lemma sel_lift (m : list bool) : forall a b,
  Forall2 R a b -> Forall2 R (sel m a) (sel m b).
Proof.
  induction m as [|[] m IH]; intros a b Hab; destruct Hab; simpl;
    auto using Forall2.
Qed.

Lemma put_lift (m : list bool) : forall a b vs ws,
  Forall2 R a b -> Forall2 R vs ws -> Forall2 R (put m a vs) (put m b ws).
Proof.
  induction m as [|[] m IH]; intros a b vs ws Hab Hvw; destruct Hab; simpl;
    auto using Forall2.
  destruct Hvw; auto using Forall2.
Qed.

Lemma fill_lift (m : list bool) : forall a b v w,
  Forall2 R a b -> R v w -> Forall2 R (fill m a v) (fill m b w).
Proof.
  induction m as [|[] m IH]; intros a b v w Hab Hvw; destruct Hab; simpl;
    auto using Forall2.
Qed.

Lemma where_lift (m : list bool) : forall w w' a a',
  Forall2 R w w' -> Forall2 R a a' ->
  Forall2 R (where_ m w a) (where_ m w' a').
Proof.
  induction m as [|b m IH]; intros w w' a a' Hw Ha; destruct Hw, Ha; simpl;
    auto using Forall2.
  constructor; [destruct b|]; auto.
Qed.

Lemma repeat_lift (v w : A) (n : nat) :
  R v w -> Forall2 R (repeat v n) (repeat w n).
Proof. intros Hvw. induction n; simpl; auto using Forall2. Qed.
End Lift.

Section LiftMaps.
Context {A B C D : Type}.
Context (RA : A -> A -> Prop) (RB : B -> B -> Prop) (RC : C -> C -> Prop)
  (RD : D -> D -> Prop).

Lemma map_lift (f g : A -> B) :
  (forall x y, RA x y -> RB (f x) (g y)) ->
  forall a b, Forall2 RA a b -> Forall2 RB (map f a) (map g b).
Proof. intros Hf a b Hab. induction Hab; simpl; auto using Forall2. Qed.

Lemma map2_lift (f : A -> B -> C) :
  (forall x x' y y', RA x x' -> RB y y' -> RC (f x y) (f x' y')) ->
  forall a a' b b', Forall2 RA a a' -> Forall2 RB b b' ->
    Forall2 RC (map2 f a b) (map2 f a' b').
Proof.
  intros Hf a a' b b' Ha. revert b b'.
  induction Ha; intros b b' Hb; destruct Hb; simpl; auto using Forall2.
Qed.

Lemma map3_lift (f : A -> B -> C -> D) :
  (forall x x' y y' z z',
     RA x x' -> RB y y' -> RC z z' -> RD (f x y z) (f x' y' z')) ->
  forall a a' b b' c c',
    Forall2 RA a a' -> Forall2 RB b b' -> Forall2 RC c c' ->
    Forall2 RD (map3 f a b c) (map3 f a' b' c').
Proof.
  intros Hf a a' b b' c c' Ha. revert b b' c c'.
  induction Ha; intros b b' c c' Hb Hc; destruct Hb, Hc; simpl;
    auto using Forall2.
Qed.
End LiftMaps.

Lemma Forall2_eq_eq {A : Type} (a b : list A) : Forall2 eq a b -> a = b.
Proof. induction 1; congruence. Qed.

(** ** The operations of the program at [Q] *)

#[export] Instance Qlt_bool_Proper : Proper (Qeq ==> Qeq ==> eq) Qlt_bool.
Proof. intros x x' Hx y y' Hy. unfold Qlt_bool. now rewrite Hx, Hy. Qed.

#[export] Instance sel_Proper : Proper (eq ==> Qeq_list ==> Qeq_list) sel.
Proof. intros m ? <- a b Hab. now apply sel_lift. Qed.

#[export] Instance put_Proper :
  Proper (eq ==> Qeq_list ==> Qeq_list ==> Qeq_list) put.
Proof. intros m ? <- a b Hab vs ws Hvw. now apply put_lift. Qed.

#[export] Instance fill_Proper :
  Proper (eq ==> Qeq_list ==> Qeq ==> Qeq_list) fill.
Proof. intros m ? <- a b Hab v w Hvw. now apply fill_lift. Qed.

#[export] Instance where_Proper :
  Proper (eq ==> Qeq_list ==> Qeq_list ==> Qeq_list) where_.
Proof. intros m ? <- w w' Hw a a' Ha. now apply where_lift. Qed.

Lemma Qeq_list_length (a b : list Q) : Qeq_list a b -> length a = length b.
Proof. apply Forall2_length. Qed.

Lemma nonneg_mask_Qeq (a b : list Q) :
  Qeq_list a b -> nonneg_mask a = nonneg_mask b.
Proof.
  intros Hab. apply Forall2_eq_eq. unfold nonneg_mask.
  apply (map_lift Qeq eq); auto. intros x y Hxy. qnum. now rewrite Hxy.
Qed.

Lemma all_nonneg_Qeq (a b : list Q) :
  Qeq_list a b -> all_nonneg a = all_nonneg b.
Proof.
  intros Hab. unfold all_nonneg. induction Hab; simpl; [reflexivity|].
  qnum. now rewrite IHHab, H.
Qed.

(** The sum does not depend on the order of the elements. *)
#[export] Instance nsum_Permutation : Proper (@Permutation Q ==> Qeq) nsum.
Proof.
  intros a b Hab. induction Hab; rewrite ?nsum_cons; lra.
Qed.

(** ** The allocator *)

Section Allocator.
Variables (lsg lsg' res res' : list Q) (amount amount' : Q).
Hypotheses (Hlsg : Qeq_list lsg lsg') (Hres : Qeq_list res res')
  (Hamount : amount == amount').

Lemma lagrange_amts_Qeq (mask : list bool) (amts amts' : list Q) :
  Qeq_list amts amts' ->
  Qeq_list (lagrange_amts lsg res amount mask amts)
    (lagrange_amts lsg' res' amount' mask amts').
Proof.
  intros Ha. unfold lagrange_amts.
  pose proof (sel_lift Qeq mask _ _ Hlsg) as Hl.
  pose proof (sel_lift Qeq mask _ _ Hres) as Hr.
  apply put_lift; auto. apply (map2_lift Qeq Qeq Qeq); auto.
  - intros x x' y y' Hx Hy. qnum. now rewrite Hx, Hy.
  - apply (map_lift Qeq Qeq); auto. intros x y Hxy. qnum.
    now rewrite Hxy, Hamount, (nsum_Proper _ _ Hl), (nsum_Proper _ _ Hr).
Qed.

(** The loop takes the same branches on equal numbers: the same mask,
    equal amounts. *)
Lemma repair_loop_Qeq (fuel : nat) : forall mask amts amts',
  Qeq_list amts amts' ->
  match repair_loop fuel lsg res amount mask amts,
        repair_loop fuel lsg' res' amount' mask amts' with
  | Some (x, m), Some (x', m') => Qeq_list x x' /\ m = m'
  | None, None => True
  | _, _ => False
  end.
Proof.
  induction fuel as [|fuel IH]; intros mask amts amts' Ha; simpl; [auto|].
  pose proof (lagrange_amts_Qeq mask _ _ Ha) as H1.
  rewrite (all_nonneg_Qeq _ _ (sel_lift Qeq mask _ _ H1)).
  destruct (all_nonneg _).
  - split; [|reflexivity]. apply fill_lift; auto. reflexivity.
  - rewrite (nonneg_mask_Qeq _ _ H1). now apply IH.
Qed.
End Allocator.

(** ** Pools, results, outcomes *)

(** Two pools with the same numbers, up to [Qeq]. *)
Record pool_equiv (a b : Pool Q) : Prop := {
  pe_size : size a = size b;
  pe_liquidity : Qeq_list (liquidity_arr a) (liquidity_arr b);
  pe_sqrt_p : Qeq_list (sqrt_p_arr a) (sqrt_p_arr b);
  pe_sqrt_gamma : Qeq_list (sqrt_gamma_arr a) (sqrt_gamma_arr b);
  pe_fee0 : Qeq_list (fee0_growth_arr a) (fee0_growth_arr b);
  pe_fee1 : Qeq_list (fee1_growth_arr a) (fee1_growth_arr b)
}.

Record result_equiv (r s : SwapResult Q) : Prop := {
  re_amt_in : amt_in r == amt_in s;
  re_amt_out : amt_out r == amt_out s;
  re_fee_amt : fee_amt r == fee_amt s;
  re_fee_bps : fee_bps r == fee_bps s;
  re_amts_in : Qeq_list (amts_in r) (amts_in s);
  re_amts_out : Qeq_list (amts_out r) (amts_out s);
  re_fee_amts : Qeq_list (fee_amts r) (fee_amts s)
}.

(** The same error, or values related by [R]. *)
Definition outcome_equiv {A : Type} (R : A -> A -> Prop)
  (x y : result A) : Prop :=
  match x, y with
  | Ok a, Ok b => R a b
  | Err e, Err e' => e = e'
  | _, _ => False
  end.

Definition swapped_equiv (x y : Pool Q * SwapResult Q) : Prop :=
  pool_equiv (fst x) (fst y) /\ result_equiv (snd x) (snd y).

#[export] Instance pool_equiv_Equivalence : Equivalence pool_equiv.
Proof.
  split.
  - intros a. split; reflexivity.
  - intros a b []. split; now symmetry.
  - intros a b c [] []. split; etransitivity; eauto.
Qed.

#[export] Instance result_equiv_Equivalence : Equivalence result_equiv.
Proof.
  split.
  - intros a. split; reflexivity.
  - intros a b []. split; now symmetry.
  - intros a b c [] []. split; etransitivity; eauto.
Qed.

#[export] Instance outcome_equiv_Equivalence {A : Type} (R : A -> A -> Prop)
  `{Equivalence A R} : Equivalence (outcome_equiv R).
Proof.
  split.
  - intros [a|e]; simpl; reflexivity.
  - intros [a|e] [b|e']; simpl; auto. now symmetry.
  - intros [a|e] [b|e'] [c|e'']; simpl; try tauto; try congruence.
    apply transitivity.
Qed.

Lemma pool_equiv_shape (a b : Pool Q) :
  pool_equiv a b -> shape_ok a = shape_ok b.
Proof.
  intros [Hs HL Hp Hg H0 H1]. unfold shape_ok.
  now rewrite Hs, (Qeq_list_length _ _ HL), (Qeq_list_length _ _ Hp),
    (Qeq_list_length _ _ Hg), (Qeq_list_length _ _ H0),
    (Qeq_list_length _ _ H1).
Qed.

(** ** The pool-level operations *)

(** Closes a goal [x == y] between two applications of the same
    operations to equal numbers. *)
Ltac qeq_leaf :=
  intros; qnum;
  repeat match goal with H : _ == _ |- _ => rewrite H; clear H end;
  reflexivity.

(** Descends through the array operations to their elements. *)
Ltac qlift :=
  repeat first
    [ assumption
    | apply (map2_lift Qeq Qeq Qeq)
    | apply (map3_lift Qeq Qeq Qeq Qeq)
    | apply (map_lift Qeq Qeq)
    | apply where_lift
    | apply sel_lift
    | apply repeat_lift
    | solve [qeq_leaf] ].

Section Pools.
Variables (a b : Pool Q) (z : bool).
Hypothesis Hab : pool_equiv a b.

Let HL := pe_liquidity a b Hab.
Let Hp := pe_sqrt_p a b Hab.
Let Hg := pe_sqrt_gamma a b Hab.

Lemma lsg_of_Qeq : Qeq_list (lsg_of a) (lsg_of b).
Proof. unfold lsg_of. qlift. Qed.

Lemma res_of_Qeq : Qeq_list (res_of a z) (res_of b z).
Proof. unfold res_of. destruct z; qlift. Qed.

Lemma calc_tier_amts_in_Qeq (amt amt' : Q) :
  amt == amt' ->
  outcome_equiv (fun x y => Qeq_list (fst x) (fst y) /\ snd x = snd y)
    (_calc_tier_amts_in a z amt) (_calc_tier_amts_in b z amt').
Proof.
  intros Ha. rewrite !calc_tier_amts_in_cases.
  rewrite <- (pool_equiv_shape a b Hab), <- (pe_size a b Hab).
  replace (nleb (nlit 0) amt') with (nleb (nlit 0) amt)
    by (qnum; now rewrite Ha).
  destruct (negb _); [reflexivity|]. destruct (negb _); [reflexivity|].
  assert (Qeq_list (zeros (size a)) (zeros (size a))) as Hz by reflexivity.
  pose proof (repair_loop_Qeq _ _ _ _ amt amt' lsg_of_Qeq res_of_Qeq Ha
                (S (size a)) (repeat true (size a)) _ _ Hz) as E.
  destruct (repair_loop _ (lsg_of a) _ _ _ _) as [[x m]|],
    (repair_loop _ (lsg_of b) _ _ _ _) as [[x' m']|]; simpl; auto.
Qed.

Section Routed.
Variables (x x' : list Q) (mask : list bool).
Hypothesis Hx : Qeq_list x x'.

Lemma all_after_fee_Qeq : Qeq_list (all_after_fee a x) (all_after_fee b x').
Proof. unfold all_after_fee. qlift. Qed.

Lemma all_sqrt_p_new_Qeq :
  Qeq_list (all_sqrt_p_new a z x) (all_sqrt_p_new b z x').
Proof.
  unfold all_sqrt_p_new. pose proof all_after_fee_Qeq. qlift.
Qed.

Lemma all_amts_out_Qeq :
  Qeq_list (all_amts_out a z x) (all_amts_out b z x').
Proof.
  unfold all_amts_out. pose proof all_sqrt_p_new_Qeq. qlift.
Qed.

Lemma all_fee_amts_Qeq : Qeq_list (all_fee_amts a x) (all_fee_amts b x').
Proof. unfold all_fee_amts. pose proof all_after_fee_Qeq. qlift. Qed.

Lemma all_fee_growth_Qeq (f f' : list Q) :
  Qeq_list f f' ->
  Qeq_list (all_fee_growth a x f) (all_fee_growth b x' f').
Proof.
  intros Hf. unfold all_fee_growth. pose proof all_fee_amts_Qeq. qlift.
Qed.

Lemma ref_pool_equiv :
  pool_equiv (ref_pool a z x mask) (ref_pool b z x' mask).
Proof.
  pose proof all_sqrt_p_new_Qeq.
  pose proof (all_fee_growth_Qeq _ _ (pe_fee0 a b Hab)).
  pose proof (all_fee_growth_Qeq _ _ (pe_fee1 a b Hab)).
  destruct Hab. unfold ref_pool.
  split; simpl; auto; destruct z; auto; now apply where_lift.
Qed.

Lemma ref_result_equiv :
  result_equiv (ref_result a z x mask) (ref_result b z x' mask).
Proof.
  pose proof all_amts_out_Qeq. pose proof all_fee_amts_Qeq.
  unfold ref_result. rewrite <- (pe_size a b Hab).
  assert (Qeq_list (zeros (size a)) (zeros (size a))) by reflexivity.
  split; simpl; auto; try (apply nsum_Proper); qlift.
  apply Qmult_comp; [|reflexivity].
  apply Qdiv_comp; apply nsum_Proper; qlift.
Qed.
End Routed.
End Pools.

(** [swap] maps equal pools and equal amounts to equal outcomes. *)
Lemma swap_equiv (a b : Pool Q) (z : bool) (amt amt' : Q) :
  pool_equiv a b -> amt == amt' ->
  outcome_equiv swapped_equiv (swap a z amt) (swap b z amt').
Proof.
  intros Hab Ha. rewrite !swap_cases.
  replace (nltb (nlit 0) amt') with (nltb (nlit 0) amt)
    by (qnum; now rewrite Ha).
  destruct (negb _); [reflexivity|].
  pose proof (calc_tier_amts_in_Qeq a b z Hab amt amt' Ha) as E.
  destruct (_calc_tier_amts_in a z amt) as [[x m]|e],
    (_calc_tier_amts_in b z amt') as [[x' m']|e']; simpl in *; auto;
    try tauto.
  destruct E as [Hx <-].
  split; [now apply ref_pool_equiv|now apply ref_result_equiv].
Qed.

#[export] Instance swap_Proper :
  Proper (pool_equiv ==> eq ==> Qeq ==> outcome_equiv swapped_equiv) swap.
Proof. intros a b Hab z ? <- amt amt' Ha. now apply swap_equiv. Qed.

(** ** Validity *)

Lemma Forall_Qeq (P : Q -> Prop) (a b : list Q) :
  Proper (Qeq ==> iff) P -> Qeq_list a b -> Forall P a -> Forall P b.
Proof.
  intros HP Hab. induction Hab; intros Ha; inv Ha; constructor; auto.
  now apply (HP x y).
Qed.

Lemma wf_pool_equiv (a b : Pool Q) : pool_equiv a b -> wf_pool a -> wf_pool b.
Proof.
  intros [Hs HL Hp Hg H0 H1] [].
  split; rewrite <- ?Hs, <- ?(Qeq_list_length _ _ HL),
    <- ?(Qeq_list_length _ _ Hp), <- ?(Qeq_list_length _ _ Hg),
    <- ?(Qeq_list_length _ _ H0), <- ?(Qeq_list_length _ _ H1); auto;
    eapply Forall_Qeq; eauto; intros x y Hxy; now rewrite Hxy.
Qed.

#[export] Instance wf_pool_Proper : Proper (pool_equiv ==> iff) wf_pool.
Proof.
  intros a b Hab. split; apply wf_pool_equiv; [|symmetry]; exact Hab.
Qed.

(** ** Sequences of swaps *)

(** Two orders: the same token, equal amounts. *)
Definition order_equiv (o o' : @order Q) : Prop :=
  fst o = fst o' /\ snd o == snd o'.

Definition ran_equiv (x y : Pool Q * list (SwapResult Q)) : Prop :=
  pool_equiv (fst x) (fst y) /\ Forall2 result_equiv (snd x) (snd y).

(** Over the rationals the program does not depend on how a number
    is written: on two pools whose numbers are equal (up to Qeq) and two
    lists of orders that sell the same tokens in equal amounts, the runs
    fail with the same error or return pools and results whose numbers
    are equal. *)
Theorem run_respects_Qeq (orders orders' : list order) :
  Forall2 order_equiv orders orders' ->
  forall a b : Pool Q, pool_equiv a b ->
    outcome_equiv ran_equiv (run a orders) (run b orders').
Proof.
  induction 1 as [|[z amt] [z' amt'] rest rest' [Hz Ha] _ IH];
    intros a b Hab; simpl in *; [split; auto|].
  subst z'. pose proof (swap_equiv a b z amt amt' Hab Ha) as E.
  destruct (swap a z amt) as [[a1 r]|e], (swap b z amt') as [[b1 r']|e'];
    simpl in *; auto; try tauto.
  destruct E as [Hab1 Hr]. specialize (IH a1 b1 Hab1).
  destruct (run a1 rest) as [[a2 rs]|e], (run b1 rest') as [[b2 rs']|e'];
    simpl in *; auto; try tauto.
  destruct IH as [Hab2 Hrs]. split; [exact Hab2|now constructor].
Qed.

(** ** An example: the default pool written in two ways *)

Definition default_pool_unreduced : Pool Q :=
  __init__ [20000 # 2; 10000] [19970 # 20000; 9997 # 10000] (3 # 3).

Lemma default_pool_unreduced_equiv :
  pool_equiv default_pool default_pool_unreduced.
Proof. split; simpl; repeat constructor. Qed.

Lemma run_respects_Qeq_witness :
  outcome_equiv ran_equiv
    (run default_pool [(true, 1000)])
    (run default_pool_unreduced [(true, 2000 # 2)]).
Proof.
  apply run_respects_Qeq; [|exact default_pool_unreduced_equiv].
  repeat constructor.
Defined.
