(* ===== verification/Additive.v ===== *)
(** * Additive: an order sold in two parts

    Selling [a] and then [b] of the same token leaves the pool where
    selling [a + b] at once leaves it, and is paid the same: the split
    of the allocator, the prices, the amounts out, the fees and the fee
    growth all agree.  So nothing is gained, and nothing lost, by
    cutting an order into pieces.

    - The two formulas compose: moving a price by [a] and then by [b]
      is moving it by [a + b] ([sqrt_p_additive]), and the amounts of
      successive price moves add up ([amt_telescopes]).
    - After a swap the working array [res] of the allocator has grown
      by the amounts routed ([res_after]).  Hence the water filling of
      the second order on top of the first is a water filling of the
      pool before both ([filled_compose]), at the level of the second;
      as it sums to [a + b] it is the split of [a + b].
    - For the pools and the results: [swap_split]; in a sequence of
      orders, two consecutive orders of the same token can be merged
      ([run_merge]). *)

From Stdlib Require Import List Bool Arith ZArith QArith Lqa Lia Morphisms.
From S2P Require Import Prelude Numeric ArrayIndex PriceAlgebra PoolState.
From S2P Require Import Allocator AllocatorExact Swap SwapExact Optimality.
From S2P Require Import Monotone Trace Arbitrage Extensional.
Import ListNotations.
Local Open Scope Q_scope.

(** ** The formulas compose *)

Lemma sqrt_p_additive (z : bool) (p L a b : Q) :
  0 < p -> 0 < L -> 0 <= a -> 0 <= b ->
  calc_sqrt_p_from_amt z (calc_sqrt_p_from_amt z p L a) L b
  == calc_sqrt_p_from_amt z p L (a + b).
Proof.
  intros Hp HL Ha Hb.
  pose proof (denom_pos p L a Hp HL Ha).
  assert (0 < L + (a + b) * p) by nra.
  assert (0 < L * (L + a * p) + b * (L * p)) by nra.
  destruct z; unfold calc_sqrt_p_from_amt; qnum; field; repeat split; lra.
Qed.

Lemma amt_telescopes (z : bool) (p p1 p2 L : Q) :
  0 < p -> 0 < p1 -> 0 < p2 ->
  calc_amt_from_sqrt_p z p p1 L + calc_amt_from_sqrt_p z p1 p2 L
  == calc_amt_from_sqrt_p z p p2 L.
Proof.
  intros Hp Hp1 Hp2.
  destruct z; unfold calc_amt_from_sqrt_p; qnum; field; repeat split; lra.
Qed.

(** ** Water filling on top of water filling *)

Section Compose.
Variables (lsg res res1 : list Q) (n : nat).
Hypotheses (Hlsg : length lsg = n) (Hpos : Forall (fun l => 0 < l) lsg).
Variables (ta tb : Q) (xa xb y : list Q).
Hypotheses (Ha : filled lsg res n ta xa) (Hb : filled lsg res1 n tb xb)
  (Hres : forall i, (i < n)%nat -> nth i res1 0 == nth i res 0 + nth i xa 0)
  (Hy : forall i, (i < n)%nat -> nth i y 0 == nth i xa 0 + nth i xb 0)
  (Hused : exists j, (j < n)%nat /\ 0 < nth j xb 0).

Lemma lsg_pos_at (i : nat) : (i < n)%nat -> 0 < nth i lsg 0.
Proof using Hlsg Hpos. intros Hi. apply Forall_nth_at; [auto|congruence]. Qed.

(** The second order raises the level. *)
Lemma level_rises : ta < tb.
Proof using All.
  destruct Hused as (j & Hj & Hx).
  destruct (Ha j Hj) as (_ & Hfa & _), (Hb j Hj) as (_ & _ & Heb).
  specialize (Heb Hx). unfold fill_at in *. rewrite (Hres j Hj) in Heb.
  pose proof (lsg_pos_at j Hj).
  destruct (Qlt_le_dec ta tb) as [|Hle]; [auto|exfalso]. nra.
Qed.

Lemma filled_compose : filled lsg res n tb y.
Proof using All.
  intros i Hi. pose proof level_rises as Ht. pose proof (lsg_pos_at i Hi) as Hl.
  destruct (Ha i Hi) as (Ha0 & Hfa & Hea), (Hb i Hi) as (Hb0 & Hfb & Heb).
  unfold fill_at in *. rewrite (Hres i Hi) in Hfb, Heb. rewrite (Hy i Hi).
  split; [lra|split; [lra|]]. intros Hpos_y.
  destruct (Qlt_le_dec 0 (nth i xb 0)) as [Hxb|Hxb]; [rewrite (Heb Hxb); ring|].
  assert (0 < nth i xa 0) as Hxa by lra. specialize (Hea Hxa). nra.
Qed.
End Compose.

(** ** Two swaps and one *)

(** After a swap, [res] has grown by the amounts routed: the reserves
    grow by the amounts net of the fee, and [res] is the reserve divided
    by the fee factor. *)
Lemma res_after (pool pool1 : Pool Q) (z : bool) (a : Q) (r1 : SwapResult Q)
  (i : nat) :
  wf_pool pool -> swap pool z a = Ok (pool1, r1) -> (i < size pool)%nat ->
  nth i (res_of pool1 z) 0
  == nth i (res_of pool z) 0 + nth i (amts_in r1) 0.
Proof.
  intros Hwf Hs Hi.
  pose proof (swap_preserves_wf _ _ _ _ _ Hwf Hs) as Hwf1.
  destruct (swap_frame _ _ _ _ _ Hs) as (Esz & EL & Eg & _).
  destruct (swap_tier_step _ _ _ _ _ i Hwf Hs Hi) as [_ Hfee _ _ _].
  destruct (tier_pool_facts pool i Hwf Hi) as (HL & Hp & Hg & _).
  destruct (tier_pool_facts pool1 i Hwf1 ltac:(congruence)) as (_ & Hp1 & _).
  destruct (tier_reserves _ _ _ _ _ i Hwf Hs Hi) as [Hin _].
  rewrite !nth_res_of by (auto; congruence). rewrite Hfee in Hin.
  unfold L_, g_, p_ in *. rewrite EL, Eg.
  set (g := nth i (sqrt_gamma_arr pool) 0) in *.
  assert (0 < g * g) by nra.
  destruct z; simpl in Hin.
  - transitivity ((nth i (liquidity_arr pool) 0 / nth i (sqrt_p_arr pool) 0
                   + (nth i (liquidity_arr pool) 0 / nth i (sqrt_p_arr pool1) 0
                      - nth i (liquidity_arr pool) 0
                        / nth i (sqrt_p_arr pool) 0)) / (g * g));
      [|rewrite Hin]; field; lra.
  - transitivity ((nth i (liquidity_arr pool) 0 * nth i (sqrt_p_arr pool) 0
                   + (nth i (liquidity_arr pool) 0 * nth i (sqrt_p_arr pool1) 0
                      - nth i (liquidity_arr pool) 0
                        * nth i (sqrt_p_arr pool) 0)) / (g * g));
      [|rewrite Hin]; field; lra.
Qed.

(** What the allocator returned in a swap is a water filling. *)
Lemma swap_filled (pool pool1 : Pool Q) (z : bool) (a : Q)
  (r1 : SwapResult Q) :
  wf_pool pool -> (0 < size pool)%nat -> swap pool z a = Ok (pool1, r1) ->
  0 < a /\ length (amts_in r1) = size pool /\ nsum (amts_in r1) == a
  /\ Forall (fun v => 0 <= v) (amts_in r1)
  /\ exists t, filled (lsg_of pool) (res_of pool z) (size pool) t (amts_in r1).
Proof.
  intros Hwf Hsz Hs.
  destruct (swap_inv_facts _ _ _ _ _ Hs) as (x & m & Hsf & Hc & _ & ->).
  pose proof (sf_amt _ _ _ _ _ Hsf) as Ha. assert (0 <= a) as Ha0 by lra.
  pose proof (alloc_inv_post _ _ _ _ _ Hwf Hsz Ha0 Hc) as Hp.
  pose proof (alloc_excluded _ _ _ _ _ Hwf Hsz Ha0 Hc) as Hex.
  pose proof (length_lsg_of pool (wf_shape_ok _ Hwf)) as Hl.
  pose proof (length_res_of pool z (wf_shape_ok _ Hwf)) as Hr.
  simpl.
  repeat split;
    [exact Ha|apply Hsf|apply (post_sum _ _ _ _ _ _ Hp)|apply Hsf|].
  eexists. apply (alloc_filled _ _ _ Hl Hr a); eauto.
Qed.

(** The fee rate a swap reports is the fee over the amount in. *)
Lemma swap_fee_bps (pool pool' : Pool Q) (z : bool) (amt : Q)
  (r : SwapResult Q) :
  swap pool z amt = Ok (pool', r) ->
  fee_bps r = fee_amt r / amt_in r * 10000.
Proof.
  intros Hs.
  now destruct (swap_inv_facts _ _ _ _ _ Hs) as (x & m & _ & _ & _ & ->).
Qed.

Lemma nsum_map2_add (a : list Q) : forall b,
  length a = length b -> nsum (map2 Qplus a b) == nsum a + nsum b.
Proof.
  induction a as [|x a IH]; intros [|y b] Hl; simpl in *; try discriminate.
  - rewrite nsum_nil. lra.
  - rewrite !nsum_cons, IH by congruence. lra.
Qed.

Section SplitOrder.
Variables (pool pool1 pool2 pool3 : Pool Q) (z : bool) (a b : Q)
  (r1 r2 r3 : SwapResult Q).
Hypotheses (Hwf : wf_pool pool) (Hsz : (0 < size pool)%nat)
  (Hs1 : swap pool z a = Ok (pool1, r1))
  (Hs2 : swap pool1 z b = Ok (pool2, r2))
  (Hs3 : swap pool z (a + b) = Ok (pool3, r3)).

Let Hwf1 : wf_pool pool1 := swap_preserves_wf _ _ _ _ _ Hwf Hs1.

Lemma split_frame :
  size pool1 = size pool /\ liquidity_arr pool1 = liquidity_arr pool
  /\ sqrt_gamma_arr pool1 = sqrt_gamma_arr pool.
Proof using Hs1.
  destruct (swap_frame _ _ _ _ _ Hs1) as (? & ? & ? & _). auto.
Qed.

(** The split of [a + b] is the sum of the splits of [a] and of [b]. *)
Lemma split_amts (i : nat) :
  (i < size pool)%nat ->
  nth i (amts_in r3) 0 == nth i (amts_in r1) 0 + nth i (amts_in r2) 0.
Proof using All.
  intros Hi. destruct split_frame as (Esz & EL & Eg).
  destruct (swap_filled _ _ _ _ _ Hwf Hsz Hs1)
    as (Ha & Hla & Hsa & _ & ta & Fa).
  destruct (swap_filled _ _ _ _ _ Hwf1 ltac:(lia) Hs2)
    as (Hb & Hlb & Hsb & Hnb & tb & Fb).
  destruct (swap_filled _ _ _ _ _ Hwf Hsz Hs3)
    as (_ & Hlc & Hsc & _ & tc & Fc).
  assert (lsg_of pool1 = lsg_of pool) as El
    by (unfold lsg_of; now rewrite EL, Eg).
  rewrite El, Esz in *.
  pose proof (length_lsg_of pool (wf_shape_ok _ Hwf)) as Hl.
  pose proof (lsg_of_pos pool Hwf) as Hpos.
  set (y := map2 Qplus (amts_in r1) (amts_in r2)).
  assert (length y = size pool) as Hly
    by (unfold y; rewrite length_map2; congruence).
  assert (forall j, (j < size pool)%nat ->
            nth j y 0 == nth j (amts_in r1) 0 + nth j (amts_in r2) 0) as Hy.
  { intros j Hj. unfold y.
    now rewrite (nth_map2 _ _ _ _ 0 0) by congruence. }
  assert (filled (lsg_of pool) (res_of pool z) (size pool) tb y) as Fy.
  { apply (filled_compose (lsg_of pool) (res_of pool z) (res_of pool1 z)
             (size pool) Hl Hpos ta tb (amts_in r1) (amts_in r2) y); auto.
    - intros j Hj. now apply (res_after pool pool1 z a).
    - destruct (nsum_pos_index _ Hnb) as (j & Hj & Hx); [lra|].
      exists j. split; [congruence|auto]. }
  assert (nsum y == nsum (amts_in r3)) as Hsum
    by (unfold y; rewrite nsum_map2_add, Hsa, Hsb, Hsc by congruence;
        reflexivity).
  rewrite <- (Hy i Hi).
  apply (filled_unique _ (res_of pool z) _ Hl Hpos tc tb); auto.
  now symmetry.
Qed.

(** One tier over the three swaps. *)
Lemma split_tier (i : nat) :
  (i < size pool)%nat ->
  nth i (sqrt_p_arr pool2) 0 == nth i (sqrt_p_arr pool3) 0
  /\ nth i (amts_out r3) 0
     == nth i (amts_out r1) 0 + nth i (amts_out r2) 0
  /\ nth i (fee_amts r3) 0
     == nth i (fee_amts r1) 0 + nth i (fee_amts r2) 0
  /\ nth i (sold_fee_growth z pool2) 0 == nth i (sold_fee_growth z pool3) 0.
Proof using All.
  intros Hi. destruct split_frame as (Esz & EL & Eg).
  assert (i < size pool1)%nat as Hi1 by congruence.
  pose proof (split_amts i Hi) as Hx.
  destruct (swap_tier_step _ _ _ _ _ i Hwf Hs1 Hi) as [Ha Hf1 Hp1 Ho1 Hg1].
  destruct (swap_tier_step _ _ _ _ _ i Hwf1 Hs2 Hi1) as [Hb Hf2 Hp2 Ho2 Hg2].
  destruct (swap_tier_step _ _ _ _ _ i Hwf Hs3 Hi) as [_ Hf3 Hp3 Ho3 Hg3].
  destruct (tier_pool_facts pool i Hwf Hi) as (HL & Hp & Hg & _).
  destruct (tier_pool_facts pool1 i Hwf1 Hi1) as (_ & Hq1 & _).
  rewrite <- Hp1 in Ho1. rewrite <- Hp2 in Ho2. rewrite <- Hp3 in Ho3.
  unfold L_, g_, p_ in *. rewrite EL, Eg in *.
  set (g := nth i (sqrt_gamma_arr pool) 0) in *.
  set (L := nth i (liquidity_arr pool) 0) in *.
  assert (0 < g * g) as Hgg by nra.
  assert (nth i (sqrt_p_arr pool2) 0 == nth i (sqrt_p_arr pool3) 0) as E23.
  { rewrite Hp2, Hp3, Hp1, sqrt_p_additive by (auto; nra).
    apply calc_sqrt_p_from_amt_Proper; try reflexivity. rewrite Hx. ring. }
  assert (0 < nth i (sqrt_p_arr pool2) 0)
    by (rewrite Hp2; apply sqrt_p_pos; auto; nra).
  split; [exact E23|split; [|split]].
  - rewrite Ho1, Ho2, Ho3, <- E23. symmetry. now apply amt_telescopes.
  - rewrite Hf1, Hf2, Hf3, Hx. ring.
  - rewrite Hg2, Hg3, Hg1, Hf1, Hf2, Hf3, Hx. field. lra.
Qed.

Let Hwf2 : wf_pool pool2 := swap_preserves_wf _ _ _ _ _ Hwf1 Hs2.
Let Hwf3 : wf_pool pool3 := swap_preserves_wf _ _ _ _ _ Hwf Hs3.

Lemma split_sizes : size pool2 = size pool /\ size pool3 = size pool.
Proof using Hs1 Hs2 Hs3.
  destruct (swap_frame _ _ _ _ _ Hs1) as (E1 & _).
  destruct (swap_frame _ _ _ _ _ Hs2) as (E2 & _).
  destruct (swap_frame _ _ _ _ _ Hs3) as (E3 & _). split; congruence.
Qed.

Lemma split_sold_growth :
  Qeq_list (sold_fee_growth z pool2) (sold_fee_growth z pool3).
Proof using All.
  destruct split_sizes as [E2 E3].
  apply Forall2_nth_lt with (da := 0) (db := 0);
    rewrite !length_sold_fee_growth by auto; [congruence|].
  intros i Hi. apply split_tier. congruence.
Qed.

(** Pool against pool. *)
Lemma split_pool_equiv : pool_equiv pool2 pool3.
Proof using All.
  destruct split_sizes as [E2 E3]. pose proof split_sold_growth as Hg.
  destruct (swap_frame _ _ _ _ _ Hs1) as (_ & L1 & G1 & F1).
  destruct (swap_frame _ _ _ _ _ Hs2) as (_ & L2 & G2 & F2).
  destruct (swap_frame _ _ _ _ _ Hs3) as (_ & L3 & G3 & F3).
  constructor; [congruence|rewrite L2, L1, L3; reflexivity|
                |rewrite G2, G1, G3; reflexivity| |].
  - apply Forall2_nth_lt with (da := 0) (db := 0);
      [rewrite !wf_len_sqrt_p by auto; congruence|].
    intros i Hi. apply split_tier. rewrite wf_len_sqrt_p in Hi by auto.
    congruence.
  - destruct z; simpl in *; [exact Hg|rewrite F2, F1, F3; reflexivity].
  - destruct z; simpl in *; [rewrite F2, F1, F3; reflexivity|exact Hg].
Qed.

(** Result against results, tier by tier. *)
Lemma split_arrays :
  Qeq_list (amts_in r3) (map2 Qplus (amts_in r1) (amts_in r2))
  /\ Qeq_list (amts_out r3) (map2 Qplus (amts_out r1) (amts_out r2))
  /\ Qeq_list (fee_amts r3) (map2 Qplus (fee_amts r1) (fee_amts r2)).
Proof using All.
  destruct split_frame as (Esz & _).
  destruct (swap_result_lengths _ _ _ _ _ Hwf Hs1) as (X1 & O1 & F1).
  destruct (swap_result_lengths _ _ _ _ _ Hwf1 Hs2) as (X2 & O2 & F2).
  destruct (swap_result_lengths _ _ _ _ _ Hwf Hs3) as (X3 & O3 & F3).
  repeat split; apply Forall2_nth_lt with (da := 0) (db := 0);
    rewrite ?length_map2 by congruence; try congruence;
    intros i Hi; rewrite (nth_map2 _ _ _ _ 0 0) by congruence;
    [apply split_amts|apply split_tier|apply split_tier]; congruence.
Qed.

(** The totals add up. *)
Lemma split_totals :
  amt_in r3 == amt_in r1 + amt_in r2
  /\ amt_out r3 == amt_out r1 + amt_out r2
  /\ fee_amt r3 == fee_amt r1 + fee_amt r2.
Proof using All.
  destruct split_frame as (Esz & _). destruct split_arrays as (_ & Eo & Ef).
  destruct (swap_result_lengths _ _ _ _ _ Hwf Hs1) as (_ & O1 & F1).
  destruct (swap_result_lengths _ _ _ _ _ Hwf1 Hs2) as (_ & O2 & F2).
  destruct (swap_sums _ _ _ _ _ Hwf Hs1) as [<- <-].
  destruct (swap_sums _ _ _ _ _ Hwf1 Hs2) as [<- <-].
  destruct (swap_sums _ _ _ _ _ Hwf Hs3) as [<- <-].
  rewrite (swap_amt_in _ _ _ _ _ Hwf Hsz Hs1),
    (swap_amt_in _ _ _ _ _ Hwf1 ltac:(lia) Hs2),
    (swap_amt_in _ _ _ _ _ Hwf Hsz Hs3), Eo, Ef,
    !nsum_map2_add by congruence.
  repeat split; reflexivity.
Qed.
End SplitOrder.

(** C12: Path independence: on a valid pool with at least one tier,
    selling a and then b of the same token leaves the pool where selling
    a + b at once leaves it (the swap of a + b returns, and its pool has
    the same prices and fee growth up to Qeq), and its result is the sum
    of the two results: the per-tier amounts in, amounts out and fees,
    and the totals amt_in, amt_out and fee_amt. Cutting an order into
    pieces gains nothing and loses nothing. *)
Theorem swap_split (pool pool1 pool2 : Pool Q) (z : bool) (a b : Q)
  (r1 r2 : SwapResult Q) :
  wf_pool pool -> (0 < size pool)%nat ->
  swap pool z a = Ok (pool1, r1) -> swap pool1 z b = Ok (pool2, r2) ->
  exists pool3 r3,
    swap pool z (a + b) = Ok (pool3, r3)
    /\ pool_equiv pool2 pool3
    /\ Qeq_list (amts_in r3) (map2 Qplus (amts_in r1) (amts_in r2))
    /\ Qeq_list (amts_out r3) (map2 Qplus (amts_out r1) (amts_out r2))
    /\ Qeq_list (fee_amts r3) (map2 Qplus (fee_amts r1) (fee_amts r2))
    /\ amt_in r3 == amt_in r1 + amt_in r2
    /\ amt_out r3 == amt_out r1 + amt_out r2
    /\ fee_amt r3 == fee_amt r1 + fee_amt r2.
Proof.
  intros Hwf Hsz Hs1 Hs2.
  pose proof (swap_preserves_wf _ _ _ _ _ Hwf Hs1) as Hwf1.
  destruct (swap_frame _ _ _ _ _ Hs1) as (Esz & _).
  destruct (swap_filled _ _ _ _ _ Hwf Hsz Hs1) as (Ha & _).
  destruct (swap_filled _ _ _ _ _ Hwf1 ltac:(lia) Hs2) as (Hb & _).
  destruct (swap_total pool z (a + b) Hwf) as (pool3 & r3 & Hs3); [lra|].
  exists pool3, r3.
  destruct (split_arrays _ _ _ _ _ _ _ _ _ _ Hwf Hsz Hs1 Hs2 Hs3)
    as (Ex & Eo & Ef).
  destruct (split_totals _ _ _ _ _ _ _ _ _ _ Hwf Hsz Hs1 Hs2 Hs3)
    as (Ti & To & Tf).
  pose proof (split_pool_equiv _ _ _ _ _ _ _ _ _ _ Hwf Hsz Hs1 Hs2 Hs3).
  repeat (split; [assumption|]). assumption.
Qed.

(** ** In a sequence of orders *)

(** A run from an equal pool ends in an equal pool. *)
Lemma run_pool_equiv (orders : list order) : forall pool pool' pool2 rs,
  pool_equiv pool pool' -> run pool orders = Ok (pool2, rs) ->
  exists pool2' rs',
    run pool' orders = Ok (pool2', rs') /\ pool_equiv pool2 pool2'.
Proof.
  induction orders as [|[z amt] rest IH]; intros pool pool' pool2 rs He Hr;
    cbn [run bind] in *; [inv Hr; eauto|].
  pose proof (swap_equiv pool pool' z amt amt He (Qeq_refl amt)) as E.
  destruct (swap pool z amt) as [[p1 r]|e]; [|discriminate].
  destruct (swap pool' z amt) as [[p1' r']|e']; [|contradiction].
  destruct E as [He1 _]. cbn [bind fst] in *.
  destruct (run p1 rest) as [[p2 rs2]|e] eqn:Er; [|discriminate].
  destruct (IH _ _ _ _ He1 Er) as (p2' & rs' & Er' & He2).
  rewrite Er'. cbn [bind] in *. inv Hr. eauto.
Qed.

(** Two consecutive orders of the same token, anywhere in a sequence,
    can be merged into one: the run still succeeds and ends in an equal
    pool. *)
Theorem run_merge (before after : list order) (z : bool) (a b : Q) :
  forall pool pool2 rs,
    wf_pool pool -> (0 < size pool)%nat ->
    run pool (before ++ (z, a) :: (z, b) :: after) = Ok (pool2, rs) ->
    exists pool2' rs',
      run pool (before ++ (z, a + b) :: after) = Ok (pool2', rs')
      /\ pool_equiv pool2 pool2'.
Proof.
  induction before as [|[z0 a0] before IH]; intros pool pool2 rs Hwf Hsz Hr;
    cbn [app run bind] in *.
  - destruct (swap pool z a) as [[p1 r1]|e] eqn:E1; [|discriminate].
    cbn [bind] in Hr.
    destruct (swap p1 z b) as [[p2 r2]|e] eqn:E2; [|discriminate].
    cbn [bind] in Hr.
    destruct (run p2 after) as [[p3 rs3]|e] eqn:Er; [|discriminate].
    destruct (swap_frame _ _ _ _ _ E1) as (Esz & _).
    destruct (swap_filled _ _ _ _ _ Hwf Hsz E1) as (Ha & _).
    destruct (swap_filled _ _ _ _ _ (swap_preserves_wf _ _ _ _ _ Hwf E1)
                ltac:(lia) E2) as (Hb & _).
    destruct (swap_total pool z (a + b) Hwf) as (q & r & E3); [lra|].
    pose proof (split_pool_equiv _ _ _ _ _ _ _ _ _ _ Hwf Hsz E1 E2 E3) as He.
    destruct (run_pool_equiv _ _ _ _ _ He Er) as (q2 & rs' & Er' & He2).
    rewrite E3. cbn [bind]. rewrite Er'. cbn [bind]. inv Hr. eauto.
  - destruct (swap pool z0 a0) as [[p1 r1]|e] eqn:E1; [|discriminate].
    cbn [bind] in *.
    destruct (run p1 _) as [[p3 rs3]|e] eqn:Er; [|discriminate].
    destruct (swap_frame _ _ _ _ _ E1) as (Esz & _).
    destruct (IH _ _ _ (swap_preserves_wf _ _ _ _ _ Hwf E1)
                ltac:(lia) Er) as (q2 & rs' & Er' & He2).
    rewrite Er'. cbn [bind]. inv Hr. eauto.
Qed.

(** ** Witness: a pool of two tiers, one of them free of fees *)

Definition tiny_pool : Pool Q := __init__ [1; 2] [1 # 2; 1] 1.

Definition tiny_first : Pool Q * SwapResult Q :=
  Eval vm_compute in
    get_ok (tiny_pool, ref_result tiny_pool true [] [])
      (swap tiny_pool true 1).

Definition tiny_second : Pool Q * SwapResult Q :=
  Eval vm_compute in
    get_ok (tiny_pool, ref_result tiny_pool true [] [])
      (swap (fst tiny_first) true 3).

Lemma swap_split_witness :
  exists pool3 r3,
    swap tiny_pool true (1 + 3) = Ok (pool3, r3)
    /\ pool_equiv (fst tiny_second) pool3
    /\ Qeq_list (amts_in r3)
         (map2 Qplus (amts_in (snd tiny_first)) (amts_in (snd tiny_second)))
    /\ Qeq_list (amts_out r3)
         (map2 Qplus (amts_out (snd tiny_first)) (amts_out (snd tiny_second)))
    /\ Qeq_list (fee_amts r3)
         (map2 Qplus (fee_amts (snd tiny_first)) (fee_amts (snd tiny_second)))
    /\ amt_in r3 == amt_in (snd tiny_first) + amt_in (snd tiny_second)
    /\ amt_out r3 == amt_out (snd tiny_first) + amt_out (snd tiny_second)
    /\ fee_amt r3 == fee_amt (snd tiny_first) + fee_amt (snd tiny_second).
Proof.
  apply (swap_split tiny_pool (fst tiny_first) (fst tiny_second) true 1 3);
    [apply wf_poolb_iff; reflexivity|simpl; lia
    |vm_compute; reflexivity|vm_compute; reflexivity].
Defined.
