(* ===== verification/Threshold.v ===== *)
(** * Threshold: from which order on a tier is used

    The allocator leaves a tier out when the Lagrange formula gives it
    a negative amount.  In the picture of water filling
    ([Monotone.filled]) tier [i] starts to fill when the level passes
    [res i / lsg i] ([entry]), and the tiers hold [held t] in all when
    the level is [t].  So tier [i] receives a positive amount exactly
    when the order exceeds what the tiers hold at the level at which
    tier [i] starts ([threshold]): small orders go to the tiers with the
    best rate after the fee, and every tier is used by every order above
    its threshold ([swap_uses_tier_iff]).  The tiers enter in the order
    of their rates ([threshold_mono]), and the tier with the best rate
    is used by every order ([threshold_zero]). *)

From Stdlib Require Import List Bool Arith ZArith QArith Qminmax Lqa Lia.
From S2P Require Import Prelude Numeric ArrayIndex PriceAlgebra PoolState.
From S2P Require Import Allocator AllocatorExact Swap SwapExact Optimality.
From S2P Require Import Monotone NoArbitrage Additive.
Import ListNotations.
Local Open Scope Q_scope.

(** ** Levels of the water filling *)

Section Levels.
Variables (lsg res : list Q) (n : nat).
Hypotheses (Hlsg : length lsg = n) (Hres : length res = n).
Hypothesis Hpos : Forall (fun l => 0 < l) lsg.

(** The level at which tier [i] starts to fill. *)
Definition entry (i : nat) : Q := nth i res 0 / nth i lsg 0.

(** What every tier holds when the level is [t], and the sum. *)
Definition fill_list (t : Q) : list Q :=
  map (fun j => pos (fill_at lsg res t j)) (seq 0 n).

Definition held (t : Q) : Q := nsum (fill_list t).

Lemma length_fill_list (t : Q) : length (fill_list t) = n.
Proof. unfold fill_list. now rewrite length_map, length_seq. Qed.

Lemma nth_fill_list (t : Q) (j : nat) :
  (j < n)%nat -> nth j (fill_list t) 0 = pos (fill_at lsg res t j).
Proof. intros Hj. unfold fill_list. now rewrite nth_map_seq. Qed.

Lemma filled_fill_list (t : Q) : filled lsg res n t (fill_list t).
Proof.
  intros j Hj. rewrite nth_fill_list by auto.
  generalize (fill_at lsg res t j). intros v. pos_cases; lra.
Qed.

Lemma lsg_pos_nth (i : nat) : (i < n)%nat -> 0 < nth i lsg 0.
Proof using Hlsg Hpos. intros Hi. apply Forall_nth_at; [auto|congruence]. Qed.

Lemma fill_at_entry (t : Q) (i : nat) :
  (i < n)%nat ->
  fill_at lsg res t i == nth i lsg 0 * (t - entry i).
Proof using Hlsg Hpos.
  intros Hi. pose proof (lsg_pos_nth i Hi). unfold fill_at, entry.
  field. lra.
Qed.

(** A tier holds something exactly when the level is above its entry. *)
Lemma filled_level_pos (t : Q) (x : list Q) (i : nat) :
  filled lsg res n t x -> (i < n)%nat ->
  (0 < nth i x 0 <-> entry i < t).
Proof using Hlsg Hpos.
  intros Hx Hi. destruct (Hx i Hi) as (H0 & Hge & Heq).
  pose proof (lsg_pos_nth i Hi) as Hl.
  rewrite (fill_at_entry t i Hi) in Hge.
  split; [intros Hlt|intros Hlt; nra].
  specialize (Heq Hlt). rewrite (fill_at_entry t i Hi) in Heq. nra.
Qed.

Lemma held_entry_nth (i : nat) :
  (i < n)%nat -> nth i (fill_list (entry i)) 0 == 0.
Proof using Hlsg Hpos.
  intros Hi. rewrite nth_fill_list by auto. apply pos_of_nonpos.
  rewrite fill_at_entry by auto. nra.
Qed.

(** A tier holds something exactly when the filling holds more in all
    than the tiers hold at the entry of the tier. *)
Lemma filled_positive_iff (t : Q) (x : list Q) (i : nat) :
  length x = n -> filled lsg res n t x -> (i < n)%nat ->
  (0 < nth i x 0 <-> held (entry i) < nsum x).
Proof using Hlsg Hpos.
  intros Hl Hx Hi. pose proof (filled_fill_list (entry i)) as Hy.
  pose proof (length_fill_list (entry i)) as Hly.
  pose proof (filled_level_pos t x i Hx Hi) as Hlev.
  split; intros H.
  - apply (nsum_nth_lt _ _ i); rewrite ?Hly; auto.
    + intros j Hj. apply (filled_mono lsg res n Hlsg Hpos (entry i) t); auto.
      apply Qlt_le_weak, Hlev, H.
    + now rewrite held_entry_nth.
  - destruct (Qlt_le_dec (entry i) t) as [Hlt|Hle]; [now apply Hlev|].
    exfalso. apply (Qlt_not_le _ _ H).
    apply nsum_nth_le; rewrite ?Hl; auto.
    intros j Hj. now apply (filled_mono lsg res n Hlsg Hpos t (entry i)).
Qed.

(** The tiers hold more at a higher level, and nothing is held at the
    lowest entry. *)
Lemma held_mono (t t' : Q) : t <= t' -> held t <= held t'.
Proof using Hlsg Hpos.
  intros Ht. apply nsum_nth_le; rewrite !length_fill_list; auto.
  intros j Hj.
  now apply (filled_mono lsg res n Hlsg Hpos t t'); auto using filled_fill_list.
Qed.

Lemma held_lowest (t : Q) :
  (forall j, (j < n)%nat -> t <= entry j) -> held t == 0.
Proof using Hlsg Hpos.
  intros Hlow. unfold held.
  rewrite (nsum_nth_eq (fill_list t) (map (fun _ => 0) (seq 0 n)));
    [apply tsum_zero|now rewrite length_fill_list, length_map, length_seq|].
  intros j Hj. rewrite length_fill_list in Hj.
  rewrite nth_fill_list, nth_map_seq by auto. apply pos_of_nonpos.
  rewrite fill_at_entry by auto.
  pose proof (lsg_pos_nth j Hj). pose proof (Hlow j Hj). nra.
Qed.
End Levels.

(** ** The threshold of a tier *)

(** The order above which tier [i] of the pool is used when token0
    ([z]) or token1 is sold. *)
Definition threshold (pool : Pool Q) (z : bool) (i : nat) : Q :=
  held (lsg_of pool) (res_of pool z) (size pool)
    (entry (lsg_of pool) (res_of pool z) i).

Section PoolThreshold.
Variables (pool : Pool Q) (z : bool).
Hypothesis Hwf : wf_pool pool.

Let Hl := length_lsg_of pool (wf_shape_ok _ Hwf).
Let Hp := lsg_of_pos pool Hwf.

(** The entry of a tier is the inverse of its rate after the fee:
    [1 / (sqrt_gamma * sqrt_p)] when token0 is sold and
    [sqrt_p / sqrt_gamma] when token1 is. *)
Lemma entry_rate (i : nat) :
  (i < size pool)%nat ->
  entry (lsg_of pool) (res_of pool z) i
  == if z then / (g_ pool i * p_ pool i) else p_ pool i / g_ pool i.
Proof using Hwf.
  intros Hi. unfold entry. rewrite nth_lsg_of, nth_res_of by auto.
  destruct (tier_pool_facts pool i Hwf Hi) as (? & ? & ? & ?).
  destruct z; field; lra.
Qed.

Lemma threshold_nonneg (i : nat) : 0 <= threshold pool z i.
Proof.
  apply nsum_nonneg, Forall_forall. intros x Hx.
  apply in_map_iff in Hx as (j & <- & _). apply pos_nonneg.
Qed.

(** The tiers enter in the order of their rates. *)
Lemma threshold_mono (i j : nat) :
  entry (lsg_of pool) (res_of pool z) i
  <= entry (lsg_of pool) (res_of pool z) j ->
  threshold pool z i <= threshold pool z j.
Proof using Hwf. now apply held_mono. Qed.

(** The tier with the best rate is used by every order. *)
Lemma threshold_zero (i : nat) :
  (forall j, (j < size pool)%nat ->
     entry (lsg_of pool) (res_of pool z) i
     <= entry (lsg_of pool) (res_of pool z) j) ->
  threshold pool z i == 0.
Proof using Hwf. now apply held_lowest. Qed.
End PoolThreshold.

(** C18: Which tiers a swap uses: on a valid pool with at least one
    tier, tier i receives a positive amount exactly when the order
    exceeds the threshold of the tier, the sum over the tiers j of
    max(0, lsg_j * res_i / lsg_i - res_j) computed from the arrays lsg
    and res of the allocator, which is what the tiers with a better rate
    after the fee take up before tier i is reached. The while loop
    therefore drops a tier for small orders and never for large ones,
    and returns amounts that are positive on exactly the tiers whose
    threshold is below the order. *)
Theorem swap_uses_tier_iff (pool pool' : Pool Q) (z : bool) (amt : Q)
  (r : SwapResult Q) (i : nat) :
  wf_pool pool -> (0 < size pool)%nat ->
  swap pool z amt = Ok (pool', r) -> (i < size pool)%nat ->
  (0 < nth i (amts_in r) 0 <-> threshold pool z i < amt).
Proof.
  intros Hwf Hsz Hs Hi.
  destruct (swap_filled _ _ _ _ _ Hwf Hsz Hs) as (_ & Hl & Ha & _ & t & Hf).
  rewrite <- Ha.
  apply (filled_positive_iff _ _ _ (length_lsg_of pool (wf_shape_ok _ Hwf))
           (lsg_of_pos pool Hwf) t); auto.
Qed.

Lemma swap_uses_tier_iff_witness :
  0 < nth 1 (amts_in (snd tiny_first)) 0 <-> threshold tiny_pool true 1%nat < 1.
Proof.
  apply (swap_uses_tier_iff tiny_pool (fst tiny_first) true 1);
    [apply wf_poolb_iff; reflexivity|simpl; lia
    |vm_compute; reflexivity|simpl; lia].
Defined.
