(* ===== verification/Equivariant.v ===== *)
(** * Equivariant: the order of the tiers does not matter

    The pool is five parallel arrays indexed by tier, and [swap] reads
    and writes them through boolean masks.  Listing the tiers in another
    order changes nothing but the order of the answers: the swap on the
    permuted pool returns, tier for tier, the amounts, prices and fee
    growth of the swap on the pool, and the same totals.

    - [permute]: an array read through a list of indices, and
      [permute_pool]: the five arrays of a pool read through it.
    - The working arrays of the allocator on the permuted pool are the
      permuted working arrays, a permuted water filling is a water
      filling of the permuted tiers ([filled_permute]), and a sum does
      not depend on the order of its terms.
    - For the pools and the results: [swap_permute].

    This holds of the exact model.  In floating point [np.sum] adds in
    the order of the array, and the order of the tiers can change the
    last digits. *)

From Stdlib Require Import List Bool Arith ZArith QArith Lqa Lia Morphisms.
From Stdlib Require Import Permutation.
From S2P Require Import Prelude Numeric ArrayIndex PriceAlgebra PoolState.
From S2P Require Import Allocator AllocatorExact Swap SwapExact Optimality.
From S2P Require Import Monotone Trace Arbitrage Extensional Additive.
Import ListNotations.
Local Open Scope Q_scope.

(** ** Arrays read through a list of indices *)

Definition permute (sigma : list nat) (l : list Q) : list Q :=
  map (fun i => nth i l 0) sigma.

Definition permute_pool (sigma : list nat) (pool : Pool Q) : Pool Q :=
  {| size := size pool;
     liquidity_arr := permute sigma (liquidity_arr pool);
     sqrt_p_arr := permute sigma (sqrt_p_arr pool);
     sqrt_gamma_arr := permute sigma (sqrt_gamma_arr pool);
     fee0_growth_arr := permute sigma (fee0_growth_arr pool);
     fee1_growth_arr := permute sigma (fee1_growth_arr pool) |}.

Lemma map_nth_seq (l : list Q) :
  map (fun i => nth i l 0) (seq 0 (length l)) = l.
Proof.
  apply (nth_ext _ _ 0 0); rewrite length_map, length_seq; [reflexivity|].
  intros i Hi.
  rewrite (nth_indep _ 0 (nth 0 l 0)) by now rewrite length_map, length_seq.
  now rewrite (map_nth (fun i => nth i l 0)), seq_nth.
Qed.

Section Permuted.
Variables (sigma : list nat) (n : nat).
Hypothesis Hsigma : Permutation sigma (seq 0 n).

Lemma length_sigma : length sigma = n.
Proof using Hsigma.
  now rewrite (Permutation_length Hsigma), length_seq.
Qed.

Lemma length_permute (l : list Q) : length (permute sigma l) = n.
Proof using Hsigma. unfold permute. now rewrite length_map, length_sigma. Qed.

Lemma sigma_lt (k : nat) : (k < n)%nat -> (nth k sigma 0%nat < n)%nat.
Proof using Hsigma.
  intros Hk.
  assert (In (nth k sigma 0%nat) sigma) as Hin
    by (apply nth_In; now rewrite length_sigma).
  apply (Permutation_in _ Hsigma), in_seq in Hin. lia.
Qed.

Lemma nth_permute (l : list Q) (k : nat) :
  (k < n)%nat -> nth k (permute sigma l) 0 = nth (nth k sigma 0%nat) l 0.
Proof using Hsigma.
  intros Hk. unfold permute.
  rewrite (nth_indep _ 0 (nth 0%nat l 0))
    by now rewrite length_map, length_sigma.
  now rewrite (map_nth (fun i => nth i l 0)).
Qed.

Lemma permute_Permutation (l : list Q) :
  length l = n -> Permutation (permute sigma l) l.
Proof using Hsigma.
  intros Hl. rewrite <- (map_nth_seq l) at 2. rewrite Hl.
  now apply Permutation_map.
Qed.

Lemma nsum_permute (l : list Q) :
  length l = n -> nsum (permute sigma l) == nsum l.
Proof using Hsigma.
  intros Hl. now rewrite (permute_Permutation l Hl).
Qed.

Lemma Forall_permute (P : Q -> Prop) (l : list Q) :
  length l = n -> Forall P l -> Forall P (permute sigma l).
Proof using Hsigma.
  intros Hl HP. eapply Permutation_Forall; [|exact HP].
  symmetry. now apply permute_Permutation.
Qed.

(** A permuted water filling is a water filling of the permuted
    tiers. *)
Lemma filled_permute (lsg res lsg' res' : list Q) (t : Q) (x : list Q) :
  (forall k, (k < n)%nat -> nth k lsg' 0 = nth (nth k sigma 0%nat) lsg 0) ->
  (forall k, (k < n)%nat -> nth k res' 0 = nth (nth k sigma 0%nat) res 0) ->
  filled lsg res n t x -> filled lsg' res' n t (permute sigma x).
Proof using Hsigma.
  intros Hl Hr Hx k Hk. unfold fill_at.
  rewrite (Hl k Hk), (Hr k Hk), nth_permute by auto.
  apply (Hx _ (sigma_lt k Hk)).
Qed.
End Permuted.

(** ** The permuted pool *)

Definition permute_result (sigma : list nat) (r : SwapResult Q)
  : SwapResult Q :=
  {| amt_in := amt_in r;
     amt_out := amt_out r;
     fee_amt := fee_amt r;
     fee_bps := fee_bps r;
     amts_in := permute sigma (amts_in r);
     amts_out := permute sigma (amts_out r);
     fee_amts := permute sigma (fee_amts r) |}.

Section PermutedPool.
Variables (sigma : list nat) (pool : Pool Q).
Hypotheses (Hwf : wf_pool pool)
  (Hsigma : Permutation sigma (seq 0 (size pool))).

Lemma wf_permute_pool : wf_pool (permute_pool sigma pool).
Proof using All.
  destruct Hwf.
  constructor; simpl; rewrite ?(length_permute _ _ Hsigma); auto;
    apply (Forall_permute _ _ Hsigma); auto.
Qed.

Lemma tier_permute (k : nat) :
  (k < size pool)%nat ->
  L_ (permute_pool sigma pool) k = L_ pool (nth k sigma 0%nat)
  /\ p_ (permute_pool sigma pool) k = p_ pool (nth k sigma 0%nat)
  /\ g_ (permute_pool sigma pool) k = g_ pool (nth k sigma 0%nat).
Proof using Hsigma.
  intros Hk. unfold L_, p_, g_. simpl.
  now rewrite !(nth_permute _ _ Hsigma) by auto.
Qed.

Lemma nth_lsg_permute (k : nat) :
  (k < size pool)%nat ->
  nth k (lsg_of (permute_pool sigma pool)) 0
  = nth (nth k sigma 0%nat) (lsg_of pool) 0.
Proof using All.
  intros Hk. destruct (tier_permute k Hk) as (EL & _ & Eg).
  pose proof (sigma_lt _ _ Hsigma k Hk). pose proof wf_permute_pool.
  now rewrite !nth_lsg_of, EL, Eg by auto.
Qed.

Lemma nth_res_permute (z : bool) (k : nat) :
  (k < size pool)%nat ->
  nth k (res_of (permute_pool sigma pool) z) 0
  = nth (nth k sigma 0%nat) (res_of pool z) 0.
Proof using All.
  intros Hk. destruct (tier_permute k Hk) as (EL & Ep & Eg).
  pose proof (sigma_lt _ _ Hsigma k Hk). pose proof wf_permute_pool.
  now rewrite !nth_res_of, EL, Ep, Eg by auto.
Qed.

Lemma sold_fee_growth_permute (z : bool) :
  sold_fee_growth z (permute_pool sigma pool)
  = permute sigma (sold_fee_growth z pool).
Proof. now destruct z. Qed.
End PermutedPool.

(** ** The swap on the permuted pool *)

Section PermutedSwap.
Variables (sigma : list nat) (pool pool1 pool1' : Pool Q) (z : bool) (a : Q)
  (r1 r1' : SwapResult Q).
Hypotheses (Hwf : wf_pool pool) (Hsz : (0 < size pool)%nat)
  (Hsigma : Permutation sigma (seq 0 (size pool)))
  (Hs : swap pool z a = Ok (pool1, r1))
  (Hs' : swap (permute_pool sigma pool) z a = Ok (pool1', r1')).

Let Hwf' : wf_pool (permute_pool sigma pool) :=
  wf_permute_pool sigma pool Hwf Hsigma.

(** The split on the permuted pool is the permuted split. *)
Lemma permute_amts (k : nat) :
  (k < size pool)%nat ->
  nth k (amts_in r1') 0 == nth (nth k sigma 0%nat) (amts_in r1) 0.
Proof using All.
  intros Hk.
  destruct (swap_filled _ _ _ _ _ Hwf Hsz Hs) as (_ & Hl & Hsum & _ & t & F).
  destruct (swap_filled _ _ _ _ _ Hwf' Hsz Hs')
    as (_ & Hl' & Hsum' & _ & t' & F').
  simpl size in *.
  rewrite <- (nth_permute _ _ Hsigma) by auto.
  apply (filled_unique (lsg_of (permute_pool sigma pool))
           (res_of (permute_pool sigma pool) z) (size pool)
           (length_lsg_of _ (wf_shape_ok _ Hwf')) (lsg_of_pos _ Hwf') t' t);
    auto using length_permute.
  - apply (filled_permute _ _ Hsigma (lsg_of pool) (res_of pool z)); auto.
    + intros j Hj. now apply nth_lsg_permute.
    + intros j Hj. now apply nth_res_permute.
  - now rewrite Hsum', (nsum_permute _ _ Hsigma) by auto.
Qed.

(** One tier of the permuted pool and the tier it stands for. *)
Lemma permute_tier (k : nat) :
  (k < size pool)%nat ->
  nth k (sqrt_p_arr pool1') 0 == nth (nth k sigma 0%nat) (sqrt_p_arr pool1) 0
  /\ nth k (amts_out r1') 0 == nth (nth k sigma 0%nat) (amts_out r1) 0
  /\ nth k (fee_amts r1') 0 == nth (nth k sigma 0%nat) (fee_amts r1) 0
  /\ nth k (sold_fee_growth z pool1') 0
     == nth (nth k sigma 0%nat) (sold_fee_growth z pool1) 0.
Proof using All.
  intros Hk. pose proof (sigma_lt _ _ Hsigma k Hk) as Hj.
  pose proof (permute_amts k Hk) as Hx.
  destruct (tier_permute sigma pool Hsigma k Hk) as (EL & Ep & Eg).
  destruct (swap_tier_step _ _ _ _ _ _ Hwf Hs Hj) as [_ Hf Hp Ho Hg].
  destruct (swap_tier_step _ _ _ _ _ k Hwf' Hs' Hk) as [_ Hf' Hp' Ho' Hg'].
  rewrite sold_fee_growth_permute, (nth_permute _ _ Hsigma) in Hg' by auto.
  rewrite EL, Ep, Eg, Hx in *.
  split; [|split; [|split]].
  - now rewrite Hp', Hp.
  - now rewrite Ho', Ho.
  - now rewrite Hf', Hf.
  - now rewrite Hg', Hg, Hf', Hf.
Qed.

Lemma permute_arrays :
  Qeq_list (sqrt_p_arr pool1') (permute sigma (sqrt_p_arr pool1))
  /\ Qeq_list (amts_in r1') (permute sigma (amts_in r1))
  /\ Qeq_list (amts_out r1') (permute sigma (amts_out r1))
  /\ Qeq_list (fee_amts r1') (permute sigma (fee_amts r1))
  /\ Qeq_list (sold_fee_growth z pool1')
       (permute sigma (sold_fee_growth z pool1)).
Proof using All.
  pose proof (swap_preserves_wf _ _ _ _ _ Hwf' Hs') as Hwf1'.
  destruct (swap_frame _ _ _ _ _ Hs') as (Esz' & _). simpl size in Esz'.
  destruct (swap_result_lengths _ _ _ _ _ Hwf' Hs') as (X & O & F).
  simpl size in *.
  repeat split; apply Forall2_nth_lt with (da := 0) (db := 0);
    rewrite ?(length_permute _ _ Hsigma), ?length_sold_fee_growth,
      ?wf_len_sqrt_p by auto; try congruence;
    intros k Hk; rewrite (nth_permute _ _ Hsigma) by congruence;
    try (apply permute_amts; congruence); apply permute_tier; congruence.
Qed.

Lemma permute_pool_equiv : pool_equiv pool1' (permute_pool sigma pool1).
Proof using All.
  destruct permute_arrays as (Hp & _ & _ & _ & Hg).
  destruct (swap_frame _ _ _ _ _ Hs) as (E1 & L1 & G1 & F1).
  destruct (swap_frame _ _ _ _ _ Hs') as (E1' & L1' & G1' & F1').
  constructor; simpl in *;
    [congruence|rewrite L1', L1; reflexivity|exact Hp
    |rewrite G1', G1; reflexivity| |].
  - destruct z; simpl in *; [exact Hg|rewrite F1', F1; reflexivity].
  - destruct z; simpl in *; [rewrite F1', F1; reflexivity|exact Hg].
Qed.

Lemma permute_result_equiv : result_equiv r1' (permute_result sigma r1).
Proof using All.
  destruct permute_arrays as (_ & Hx & Ho & Hf & _).
  destruct (swap_result_lengths _ _ _ _ _ Hwf Hs) as (_ & O & F).
  assert (amt_in r1' == amt_in r1) as Ei
    by now rewrite (swap_amt_in _ _ _ _ _ Hwf' Hsz Hs'),
         (swap_amt_in _ _ _ _ _ Hwf Hsz Hs).
  destruct (swap_sums _ _ _ _ _ Hwf Hs) as [So Sf].
  destruct (swap_sums _ _ _ _ _ Hwf' Hs') as [So' Sf'].
  assert (amt_out r1' == amt_out r1) as Eo
    by now rewrite <- So', <- So, Ho, (nsum_permute _ _ Hsigma).
  assert (fee_amt r1' == fee_amt r1) as Ef
    by now rewrite <- Sf', <- Sf, Hf, (nsum_permute _ _ Hsigma).
  constructor; simpl; auto.
  now rewrite (swap_fee_bps _ _ _ _ _ Hs), (swap_fee_bps _ _ _ _ _ Hs'),
    Ei, Ef.
Qed.
End PermutedSwap.

(** C36: The order of the tiers does not matter in exact arithmetic: on
    a valid pool with at least one tier whose five arrays are read
    through a permutation of the tier indices, the swap returns whenever
    the swap on the pool does, and its pool and its per-tier amounts in,
    amounts out and fees are those of the swap on the pool read through
    the same permutation (up to Qeq), with the same amt_in, amt_out,
    fee_amt and fee_bps. *)
Theorem swap_permute (sigma : list nat) (pool pool1 : Pool Q) (z : bool)
  (a : Q) (r1 : SwapResult Q) :
  wf_pool pool -> (0 < size pool)%nat ->
  Permutation sigma (seq 0 (size pool)) ->
  swap pool z a = Ok (pool1, r1) ->
  exists pool1' r1',
    swap (permute_pool sigma pool) z a = Ok (pool1', r1')
    /\ pool_equiv pool1' (permute_pool sigma pool1)
    /\ result_equiv r1' (permute_result sigma r1).
Proof.
  intros Hwf Hsz Hsigma Hs.
  destruct (swap_filled _ _ _ _ _ Hwf Hsz Hs) as (Ha & _).
  destruct (swap_total (permute_pool sigma pool) z a) as (p & r & Hs');
    [now apply wf_permute_pool|exact Ha|].
  exists p, r. split; [exact Hs'|split].
  - now apply (permute_pool_equiv sigma pool pool1 p z a r1 r).
  - now apply (permute_result_equiv sigma pool pool1 p z a r1 r).
Qed.

Lemma swap_permute_witness :
  exists pool1' r1',
    swap (permute_pool [1; 0]%nat tiny_pool) true 4 = Ok (pool1', r1')
    /\ pool_equiv pool1'
         (permute_pool [1; 0]%nat
            (fst (get_ok tiny_first (swap tiny_pool true 4))))
    /\ result_equiv r1'
         (permute_result [1; 0]%nat
            (snd (get_ok tiny_first (swap tiny_pool true 4)))).
Proof.
  apply (swap_permute [1; 0]%nat tiny_pool);
    [apply wf_poolb_iff; reflexivity|simpl; lia
    |apply perm_swap|vm_compute; reflexivity].
Defined.
