(* ===== verification/Scaling.v ===== *)
(** * Scaling: only the ratio of the order to the liquidity matters

    Multiplying the liquidity of every tier and the order by the same
    positive factor multiplies every amount of the result by it and
    leaves the prices, the fee rate and the fee growth (which is per
    unit of liquidity) as they were: the program has no scale of its
    own.

    - The two formulas are homogeneous ([sqrt_p_scale], [amt_scale]).
    - The working arrays of the allocator scale with the liquidity, and
      a scaled water filling is a water filling of the scaled tiers, at
      the same level ([filled_scale]).
    - For the pools and the results: [swap_scale]. *)

From Stdlib Require Import List Bool Arith ZArith QArith Lqa Lia Morphisms.
From S2P Require Import Prelude Numeric ArrayIndex PriceAlgebra PoolState.
From S2P Require Import Allocator AllocatorExact Swap SwapExact Optimality.
From S2P Require Import Monotone Trace Arbitrage Extensional Additive.
Import ListNotations.
Local Open Scope Q_scope.

(** ** The formulas are homogeneous *)

Lemma sqrt_p_scale (z : bool) (c p L a : Q) :
  0 < c -> 0 < p -> 0 < L -> 0 <= a ->
  calc_sqrt_p_from_amt z p (c * L) (c * a) == calc_sqrt_p_from_amt z p L a.
Proof.
  intros Hc Hp HL Ha. pose proof (denom_pos p L a Hp HL Ha).
  assert (0 < c * L + c * a * p) by nra.
  destruct z; unfold calc_sqrt_p_from_amt; qnum; field; repeat split; lra.
Qed.

Lemma amt_scale (z : bool) (c p p' L : Q) :
  0 < p -> 0 < p' ->
  calc_amt_from_sqrt_p z p p' (c * L) == c * calc_amt_from_sqrt_p z p p' L.
Proof.
  intros Hp Hp'.
  destruct z; unfold calc_amt_from_sqrt_p; qnum; field; repeat split; lra.
Qed.

(** ** Scaled arrays and pools *)

Definition scale (c : Q) (l : list Q) : list Q := map (Qmult c) l.

Definition scale_pool (c : Q) (pool : Pool Q) : Pool Q :=
  {| size := size pool;
     liquidity_arr := scale c (liquidity_arr pool);
     sqrt_p_arr := sqrt_p_arr pool;
     sqrt_gamma_arr := sqrt_gamma_arr pool;
     fee0_growth_arr := fee0_growth_arr pool;
     fee1_growth_arr := fee1_growth_arr pool |}.

Definition scale_result (c : Q) (r : SwapResult Q) : SwapResult Q :=
  {| amt_in := c * amt_in r;
     amt_out := c * amt_out r;
     fee_amt := c * fee_amt r;
     fee_bps := fee_bps r;
     amts_in := scale c (amts_in r);
     amts_out := scale c (amts_out r);
     fee_amts := scale c (fee_amts r) |}.

Lemma length_scale (c : Q) (l : list Q) : length (scale c l) = length l.
Proof. apply length_map. Qed.

Lemma nth_scale (c : Q) (l : list Q) (k : nat) :
  nth k (scale c l) 0 == c * nth k l 0.
Proof.
  unfold scale. destruct (Nat.lt_ge_cases k (length l)) as [Hk|Hk].
  - rewrite (nth_indep _ 0 (c * 0)) by now rewrite length_map.
    now rewrite (map_nth (Qmult c)).
  - rewrite !nth_overflow by now rewrite ?length_map. ring.
Qed.

Lemma nsum_scale (c : Q) (l : list Q) : nsum (scale c l) == c * nsum l.
Proof.
  induction l as [|x l IH]; simpl; [rewrite !nsum_nil; ring|].
  rewrite !nsum_cons. unfold scale in IH. rewrite IH. ring.
Qed.

(** A scaled water filling is a water filling of the scaled tiers, at
    the same level. *)
Lemma filled_scale (c : Q) (n : nat) (lsg res lsg' res' : list Q) (t : Q)
  (x : list Q) :
  0 < c ->
  (forall k, (k < n)%nat -> nth k lsg' 0 == c * nth k lsg 0) ->
  (forall k, (k < n)%nat -> nth k res' 0 == c * nth k res 0) ->
  filled lsg res n t x -> filled lsg' res' n t (scale c x).
Proof.
  intros Hc Hl Hr Hx k Hk. unfold fill_at in *.
  destruct (Hx k Hk) as (H0 & Hge & Heq).
  rewrite (Hl k Hk), (Hr k Hk), nth_scale.
  setoid_replace (c * nth k lsg 0 * t - c * nth k res 0)
    with (c * (nth k lsg 0 * t - nth k res 0)) by ring.
  split; [apply Qmult_le_0_compat; lra|split].
  - apply Qmult_le_l; auto.
  - intros Hpos. destruct (Qlt_le_dec 0 (nth k x 0)) as [Hxk|Hxk];
      [now rewrite (Heq Hxk)|exfalso].
    assert (c * nth k x 0 <= c * 0) by (apply Qmult_le_l; auto). lra.
Qed.

(** ** The scaled pool *)

Section ScaledPool.
Variables (c : Q) (pool : Pool Q).
Hypotheses (Hc : 0 < c) (Hwf : wf_pool pool).

Lemma wf_scale_pool : wf_pool (scale_pool c pool).
Proof using All.
  destruct Hwf. constructor; simpl; rewrite ?length_scale; auto.
  apply Forall_map. eapply Forall_impl; [|exact wf_liquidity].
  intros l Hl. now apply Qmult_pos.
Qed.

Lemma tier_scale (k : nat) :
  L_ (scale_pool c pool) k == c * L_ pool k
  /\ p_ (scale_pool c pool) k = p_ pool k
  /\ g_ (scale_pool c pool) k = g_ pool k.
Proof. unfold L_, p_, g_. simpl. now rewrite nth_scale. Qed.

Lemma nth_lsg_scale (k : nat) :
  (k < size pool)%nat ->
  nth k (lsg_of (scale_pool c pool)) 0 == c * nth k (lsg_of pool) 0.
Proof using All.
  intros Hk. destruct (tier_scale k) as (EL & _ & Eg).
  destruct (tier_pool_facts pool k Hwf Hk) as (_ & _ & Hg & _).
  rewrite !nth_lsg_of, EL, Eg by (auto using wf_scale_pool).
  field. lra.
Qed.

Lemma nth_res_scale (z : bool) (k : nat) :
  (k < size pool)%nat ->
  nth k (res_of (scale_pool c pool) z) 0 == c * nth k (res_of pool z) 0.
Proof using All.
  intros Hk. destruct (tier_scale k) as (EL & Ep & Eg).
  destruct (tier_pool_facts pool k Hwf Hk) as (_ & Hp & Hg & _).
  rewrite !nth_res_of, Ep, Eg by (auto using wf_scale_pool).
  destruct z; rewrite EL; field; lra.
Qed.
End ScaledPool.

(** ** The swap on the scaled pool *)

Section ScaledSwap.
Variables (c : Q) (pool pool1 pool1' : Pool Q) (z : bool) (a : Q)
  (r1 r1' : SwapResult Q).
Hypotheses (Hc : 0 < c) (Hwf : wf_pool pool) (Hsz : (0 < size pool)%nat)
  (Hs : swap pool z a = Ok (pool1, r1))
  (Hs' : swap (scale_pool c pool) z (c * a) = Ok (pool1', r1')).

Let Hwf' : wf_pool (scale_pool c pool) := wf_scale_pool c pool Hc Hwf.

(** The split of the scaled order is the scaled split. *)
Lemma scale_amts (k : nat) :
  (k < size pool)%nat ->
  nth k (amts_in r1') 0 == c * nth k (amts_in r1) 0.
Proof using All.
  intros Hk.
  destruct (swap_filled _ _ _ _ _ Hwf Hsz Hs) as (_ & Hl & Hsum & _ & t & F).
  destruct (swap_filled _ _ _ _ _ Hwf' Hsz Hs')
    as (_ & Hl' & Hsum' & _ & t' & F').
  simpl size in *. rewrite <- nth_scale.
  apply (filled_unique (lsg_of (scale_pool c pool))
           (res_of (scale_pool c pool) z) (size pool)
           (length_lsg_of _ (wf_shape_ok _ Hwf')) (lsg_of_pos _ Hwf') t' t);
    auto; [now rewrite length_scale| |now rewrite Hsum', nsum_scale, Hsum].
  apply (filled_scale c _ (lsg_of pool) (res_of pool z)); auto.
  - intros j Hj. now apply nth_lsg_scale.
  - intros j Hj. now apply nth_res_scale.
Qed.

(** One tier of the scaled pool. *)
Lemma scale_tier (k : nat) :
  (k < size pool)%nat ->
  nth k (sqrt_p_arr pool1') 0 == nth k (sqrt_p_arr pool1) 0
  /\ nth k (amts_out r1') 0 == c * nth k (amts_out r1) 0
  /\ nth k (fee_amts r1') 0 == c * nth k (fee_amts r1) 0
  /\ nth k (sold_fee_growth z pool1') 0 == nth k (sold_fee_growth z pool1) 0.
Proof using All.
  intros Hk. pose proof (scale_amts k Hk) as Hx.
  destruct (tier_scale c pool k) as (EL & Ep & Eg).
  destruct (tier_pool_facts pool k Hwf Hk) as (HL & Hp & Hg & _).
  destruct (swap_tier_step _ _ _ _ _ k Hwf Hs Hk) as [Ha Hf Hq Ho Hgr].
  destruct (swap_tier_step _ _ _ _ _ k Hwf' Hs' Hk) as [_ Hf' Hq' Ho' Hgr'].
  assert (sold_fee_growth z (scale_pool c pool) = sold_fee_growth z pool)
    as Esold by now destruct z.
  rewrite Esold, Ep, Eg, EL, Hx in *.
  set (g := g_ pool k) in *. set (x := nth k (amts_in r1) 0) in *.
  assert (0 <= x * (g * g)) as Hxg by nra.
  assert (calc_sqrt_p_from_amt z (p_ pool k) (c * L_ pool k) (c * x * (g * g))
          == calc_sqrt_p_from_amt z (p_ pool k) (L_ pool k) (x * (g * g)))
    as Eq.
  { rewrite <- (sqrt_p_scale z c _ _ _ Hc Hp HL Hxg).
    apply calc_sqrt_p_from_amt_Proper; try reflexivity. ring. }
  rewrite Eq in *. rewrite <- Hq in *.
  destruct (tier_price_facts _ _ _ _ _ k Hwf Hs Hk) as (Hq0 & _).
  split; [|split; [|split]].
  - now rewrite Hq'.
  - now rewrite Ho', Ho, amt_scale.
  - rewrite Hf', Hf. ring.
  - rewrite Hgr', Hgr, Hf', Hf. field. lra.
Qed.

Lemma scale_arrays :
  Qeq_list (sqrt_p_arr pool1') (sqrt_p_arr pool1)
  /\ Qeq_list (amts_in r1') (scale c (amts_in r1))
  /\ Qeq_list (amts_out r1') (scale c (amts_out r1))
  /\ Qeq_list (fee_amts r1') (scale c (fee_amts r1))
  /\ Qeq_list (sold_fee_growth z pool1') (sold_fee_growth z pool1).
Proof using All.
  pose proof (swap_preserves_wf _ _ _ _ _ Hwf Hs) as Hwf1.
  pose proof (swap_preserves_wf _ _ _ _ _ Hwf' Hs') as Hwf1'.
  destruct (swap_frame _ _ _ _ _ Hs) as (Esz & _).
  destruct (swap_frame _ _ _ _ _ Hs') as (Esz' & _). simpl size in Esz'.
  destruct (swap_result_lengths _ _ _ _ _ Hwf Hs) as (X & O & F).
  destruct (swap_result_lengths _ _ _ _ _ Hwf' Hs') as (X' & O' & F').
  simpl size in *.
  repeat split; apply Forall2_nth_lt with (da := 0) (db := 0);
    rewrite ?length_scale, ?length_sold_fee_growth, ?wf_len_sqrt_p by auto;
    try congruence;
    intros k Hk; rewrite ?nth_scale;
    try (apply scale_amts; congruence); apply scale_tier; congruence.
Qed.

Lemma scale_pool_equiv : pool_equiv pool1' (scale_pool c pool1).
Proof using All.
  destruct scale_arrays as (Hp & _ & _ & _ & Hg).
  destruct (swap_frame _ _ _ _ _ Hs) as (E1 & L1 & G1 & F1).
  destruct (swap_frame _ _ _ _ _ Hs') as (E1' & L1' & G1' & F1').
  constructor; simpl in *;
    [congruence|rewrite L1', L1; reflexivity|exact Hp
    |rewrite G1', G1; reflexivity| |].
  - destruct z; simpl in *; [exact Hg|rewrite F1', F1; reflexivity].
  - destruct z; simpl in *; [rewrite F1', F1; reflexivity|exact Hg].
Qed.

Lemma scale_result_equiv : result_equiv r1' (scale_result c r1).
Proof using All.
  destruct scale_arrays as (_ & Hx & Ho & Hf & _).
  destruct (swap_filled _ _ _ _ _ Hwf Hsz Hs) as (Ha & _).
  assert (amt_in r1' == c * amt_in r1) as Ei
    by now rewrite (swap_amt_in _ _ _ _ _ Hwf' Hsz Hs'),
         (swap_amt_in _ _ _ _ _ Hwf Hsz Hs).
  destruct (swap_sums _ _ _ _ _ Hwf Hs) as [So Sf].
  destruct (swap_sums _ _ _ _ _ Hwf' Hs') as [So' Sf'].
  assert (amt_out r1' == c * amt_out r1) as Eo
    by now rewrite <- So', <- So, Ho, nsum_scale.
  assert (fee_amt r1' == c * fee_amt r1) as Ef
    by now rewrite <- Sf', <- Sf, Hf, nsum_scale.
  constructor; simpl; auto.
  rewrite (swap_fee_bps _ _ _ _ _ Hs), (swap_fee_bps _ _ _ _ _ Hs'), Ei, Ef,
    (swap_amt_in _ _ _ _ _ Hwf Hsz Hs).
  field. lra.
Qed.
End ScaledSwap.

(** C19: The swap is homogeneous of degree one: on a valid pool with at
    least one tier, multiplying the liquidity of every tier and the
    order by the same c > 0 gives a swap that returns, leaves the same
    prices and the same fee growth, reports the same fee rate, and
    multiplies every amount of the result (in, out, fee, per tier and in
    total) by c. *)
Theorem swap_scale (c : Q) (pool pool1 : Pool Q) (z : bool) (a : Q)
  (r1 : SwapResult Q) :
  0 < c -> wf_pool pool -> (0 < size pool)%nat ->
  swap pool z a = Ok (pool1, r1) ->
  exists pool1' r1',
    swap (scale_pool c pool) z (c * a) = Ok (pool1', r1')
    /\ pool_equiv pool1' (scale_pool c pool1)
    /\ result_equiv r1' (scale_result c r1).
Proof.
  intros Hc Hwf Hsz Hs.
  destruct (swap_filled _ _ _ _ _ Hwf Hsz Hs) as (Ha & _).
  destruct (swap_total (scale_pool c pool) z (c * a)) as (p & r & Hs');
    [now apply wf_scale_pool|now apply Qmult_pos|].
  exists p, r. split; [exact Hs'|split].
  - now apply (scale_pool_equiv c pool pool1 p z a r1 r).
  - now apply (scale_result_equiv c pool pool1 p z a r1 r).
Qed.

Lemma swap_scale_witness :
  exists pool1' r1',
    swap (scale_pool 1000 tiny_pool) true (1000 * 1) = Ok (pool1', r1')
    /\ pool_equiv pool1' (scale_pool 1000 (fst tiny_first))
    /\ result_equiv r1' (scale_result 1000 (snd tiny_first)).
Proof.
  apply (swap_scale 1000 tiny_pool);
    [lra|apply wf_poolb_iff; reflexivity|simpl; lia|vm_compute; reflexivity].
Defined.
