(* ===== verification/Dominance.v ===== *)
(** * Dominance: a deeper or cheaper pool pays more

    Since the split of a swap is the best one, comparing two pools
    needs no knowledge of how either of them splits the order: if every
    split is paid at least as much by the second pool, so is the order
    ([swap_dominated]).  Tier by tier, more liquidity, a lower fee and
    a price further from where the sale pushes it never pay less
    ([better_pays_more]).  As a sale leaves the pool worse for the next
    sale of the same token, an order is paid no more than its parts
    would be paid on the untouched pool ([swap_subadditive]): price
    impact. *)

From Stdlib Require Import List Bool Arith ZArith QArith Lqa Lia Morphisms.
From S2P Require Import Prelude Numeric ArrayIndex PriceAlgebra PoolState.
From S2P Require Import Allocator AllocatorExact Swap SwapExact Optimality.
From S2P Require Import Monotone Trace Arbitrage Extensional Additive.
Import ListNotations.
Local Open Scope Q_scope.

(** ** One pool pays every split at least as much as another *)

Definition dominates (z : bool) (pool pool' : Pool Q) : Prop :=
  size pool' = size pool
  /\ forall y, length y = size pool -> Forall (fun a => 0 <= a) y ->
       payout pool z y <= payout pool' z y.

(** The order is then paid at least as much; the code reports what is
    paid with a minus sign. *)
Lemma swap_dominated (pool pool' pool1 pool1' : Pool Q) (z : bool) (a : Q)
  (r1 r1' : SwapResult Q) :
  wf_pool pool -> wf_pool pool' -> (0 < size pool)%nat ->
  dominates z pool pool' ->
  swap pool z a = Ok (pool1, r1) -> swap pool' z a = Ok (pool1', r1') ->
  amt_out r1' <= amt_out r1.
Proof.
  intros Hwf Hwf' Hsz [Esz Hdom] Hs Hs'.
  destruct (swap_filled _ _ _ _ _ Hwf Hsz Hs) as (_ & Hl & Hsum & Hnn & _).
  destruct (swap_payout_best _ _ _ _ _ (amts_in r1) Hwf Hsz Hs Hl Hnn Hsum)
    as [_ Ho].
  assert (length (amts_in r1) = size pool') as Hl' by congruence.
  assert (0 < size pool')%nat as Hsz' by lia.
  destruct (swap_payout_best _ _ _ _ _ (amts_in r1) Hwf' Hsz' Hs' Hl' Hnn
              Hsum) as [Hb Ho'].
  specialize (Hdom _ Hl Hnn). lra.
Qed.

(** ** More liquidity, lower fees *)

Lemma cpmm_out_deeper (z : bool) (p L L' a : Q) :
  0 < p -> 0 < L <= L' -> 0 <= a ->
  cpmm_out (reserves_of z L p) a <= cpmm_out (reserves_of z L' p) a.
Proof.
  intros Hp [HL HLL] Ha. assert (0 < L') by lra.
  assert (0 <= (L' - L) * a) by (apply Qmult_le_0_compat; lra).
  assert (0 < (L + a * p) * (L' + a * p)) by (apply Qmult_pos; nra).
  assert (0 < (L * p + a) * (L' * p + a)) by (apply Qmult_pos; nra).
  unfold cpmm_out. destruct z; simpl.
  - assert (L' * p * a / (L' / p + a) - L * p * a / (L / p + a)
            == p * p * p * a * ((L' - L) * a)
               / ((L + a * p) * (L' + a * p))) as E
      by (field; repeat split; nra).
    assert (0 <= p * p * p * a * ((L' - L) * a)
                 / ((L + a * p) * (L' + a * p)))
      by (apply Qdiv_nonneg; auto;
          repeat apply Qmult_le_0_compat; auto; lra).
    lra.
  - assert (L' / p * a / (L' * p + a) - L / p * a / (L * p + a)
            == a * ((L' - L) * a) / (p * ((L * p + a) * (L' * p + a)))) as E
      by (field; repeat split; nra).
    assert (0 <= a * ((L' - L) * a) / (p * ((L * p + a) * (L' * p + a))))
      by (apply Qdiv_nonneg; [apply Qmult_le_0_compat; auto
                             |apply Qmult_pos; auto]).
    lra.
Qed.

Lemma Qle_plus_nonneg (x y : Q) : 0 <= x -> 0 <= y -> 0 <= x + y.
Proof. intros. lra. Qed.

(** A tier pays more for token0 the higher its price, and more for
    token1 the lower. *)
Lemma cpmm_out_price (z : bool) (L p p' a : Q) :
  0 < L -> 0 < p -> 0 < p' -> 0 <= a ->
  (if z then p <= p' else p' <= p) ->
  cpmm_out (reserves_of z L p) a <= cpmm_out (reserves_of z L p') a.
Proof.
  intros HL Hp Hp' Ha Hdir.
  assert (0 < (L + a * p) * (L + a * p')) by (apply Qmult_pos; nra).
  assert (0 < (L * p + a) * (L * p' + a)) by (apply Qmult_pos; nra).
  unfold cpmm_out. destruct z; simpl.
  - assert (L * p' * a / (L / p' + a) - L * p * a / (L / p + a)
            == L * a * ((p' - p) * (L * (p' + p) + a * (p * p')))
               / ((L + a * p) * (L + a * p'))) as E
      by (field; repeat split; nra).
    assert (0 <= L * (p' + p) + a * (p * p')) as Hs
      by (apply Qle_plus_nonneg; repeat apply Qmult_le_0_compat; lra).
    assert (0 <= L * a * ((p' - p) * (L * (p' + p) + a * (p * p')))
                 / ((L + a * p) * (L + a * p')))
      by (apply Qdiv_nonneg; auto;
          repeat apply Qmult_le_0_compat; auto; lra).
    lra.
  - assert (L / p' * a / (L * p' + a) - L / p * a / (L * p + a)
            == L * a * ((p - p') * (L * (p + p') + a))
               / (p * p' * ((L * p + a) * (L * p' + a)))) as E
      by (field; repeat split; nra).
    assert (0 <= L * (p + p') + a) as Hs
      by (apply Qle_plus_nonneg; [apply Qmult_le_0_compat|]; lra).
    assert (0 <= L * a * ((p - p') * (L * (p + p') + a))
                 / (p * p' * ((L * p + a) * (L * p' + a))))
      by (apply Qdiv_nonneg; [|apply Qmult_pos; [apply Qmult_pos|]; auto];
          repeat apply Qmult_le_0_compat; auto; lra).
    lra.
Qed.

(** The second pool has, in every tier, at least the liquidity of the
    first, at most its fee, and a price at least as good for the
    seller. *)
Definition better (z : bool) (pool pool' : Pool Q) : Prop :=
  size pool' = size pool
  /\ forall i, (i < size pool)%nat ->
       (if z then p_ pool i <= p_ pool' i else p_ pool' i <= p_ pool i)
       /\ L_ pool i <= L_ pool' i /\ g_ pool i <= g_ pool' i.

Lemma better_dominates (z : bool) (pool pool' : Pool Q) :
  wf_pool pool -> wf_pool pool' -> better z pool pool' ->
  dominates z pool pool'.
Proof.
  intros Hwf Hwf' [Esz Hb]. split; [exact Esz|]. intros y Hy Hnn.
  apply nsum_nth_le; rewrite !length_payouts by (auto; congruence);
    [congruence|].
  intros i Hi. rewrite !nth_payouts by (auto; congruence).
  destruct (Hb i Hi) as (Hdir & HL & Hg).
  destruct (tier_pool_facts pool i Hwf Hi) as (HL0 & Hp0 & Hg0 & _).
  destruct (tier_pool_facts pool' i Hwf' ltac:(congruence))
    as (HL0' & Hp0' & Hg0' & _).
  assert (0 <= nth i y 0) as Hyi
    by (apply Forall_nth_at; [auto|congruence]).
  assert (g_ pool i * g_ pool i <= g_ pool' i * g_ pool' i) as Hgg
    by (apply Qmult_le_compat_nonneg; split; lra).
  assert (0 <= nth i y 0 * (g_ pool i * g_ pool i)
          <= nth i y 0 * (g_ pool' i * g_ pool' i)) as Hag.
  { split; [apply Qmult_le_0_compat; nra|].
    rewrite !(Qmult_comm (nth i y 0)). now apply Qmult_le_compat_r. }
  destruct (reserves_of_pos z _ _ Hp0' HL0') as [Hin Hout].
  apply Qle_trans with (2 := cpmm_out_monotone _ _ _ Hin Hout Hag).
  apply Qle_trans with (2 := cpmm_out_price z _ _ _ _ HL0' Hp0 Hp0'
                               (proj1 Hag) Hdir).
  apply cpmm_out_deeper; auto; lra.
Qed.

(** C21: Of two valid pools with the same number of tiers, the one that
    has in every tier at least the liquidity, at most the fee
    (sqrt_gamma at least as large) and a price at least as good for the
    seller pays at least as much for the same order, although the
    allocator may split the order differently on the two pools. *)
Theorem better_pays_more (pool pool' pool1 pool1' : Pool Q) (z : bool)
  (a : Q) (r1 r1' : SwapResult Q) :
  wf_pool pool -> wf_pool pool' -> (0 < size pool)%nat ->
  better z pool pool' ->
  swap pool z a = Ok (pool1, r1) -> swap pool' z a = Ok (pool1', r1') ->
  amt_out r1' <= amt_out r1.
Proof.
  intros Hwf Hwf' Hsz Hb. apply swap_dominated; auto.
  now apply better_dominates.
Qed.

(** ** Price impact *)

(** A sale leaves the pool no better for the next sale of the same
    token. *)
Lemma swap_worsens (pool pool1 : Pool Q) (z : bool) (a : Q)
  (r1 : SwapResult Q) :
  wf_pool pool -> swap pool z a = Ok (pool1, r1) -> better z pool1 pool.
Proof.
  intros Hwf Hs. destruct (swap_frame _ _ _ _ _ Hs) as (Esz & EL & Eg & _).
  split; [congruence|]. intros i Hi. rewrite Esz in Hi.
  destruct (tier_price_facts _ _ _ _ _ i Hwf Hs Hi) as (_ & Hdir & _).
  unfold L_, g_. rewrite EL, Eg.
  split; [|split; apply Qle_refl]. now destruct z.
Qed.

(** C20: Price impact: on a valid pool with at least one tier an order
    of a + b is paid no more than orders of a and of b would be paid,
    each on the untouched pool (amt_out is reported with a minus sign,
    so amt_out r_a + amt_out r_b <= amt_out r_(a+b)). *)
Theorem swap_subadditive (pool pool1 pool2 pool3 : Pool Q) (z : bool)
  (a b : Q) (r1 r2 r3 : SwapResult Q) :
  wf_pool pool -> (0 < size pool)%nat ->
  swap pool z a = Ok (pool1, r1) -> swap pool z b = Ok (pool2, r2) ->
  swap pool z (a + b) = Ok (pool3, r3) ->
  amt_out r1 + amt_out r2 <= amt_out r3.
Proof.
  intros Hwf Hsz Hs1 Hs2 Hs3.
  pose proof (swap_preserves_wf _ _ _ _ _ Hwf Hs1) as Hwf1.
  destruct (swap_frame _ _ _ _ _ Hs1) as (Esz & _).
  destruct (swap_filled _ _ _ _ _ Hwf Hsz Hs2) as (Hb & _).
  destruct (swap_total pool1 z b Hwf1 Hb) as (q & r & Hs).
  destruct (split_totals _ _ _ _ _ _ _ _ _ _ Hwf Hsz Hs1 Hs Hs3)
    as (_ & -> & _).
  assert (amt_out r2 <= amt_out r); [|lra].
  apply (swap_dominated pool1 pool q pool2 z b); auto; [lia|].
  apply better_dominates; auto. now apply (swap_worsens pool pool1 z a r1).
Qed.

(** ** Witness: the pool of two tiers, deeper and cheaper *)

Definition tiny_better : Pool Q := __init__ [2; 3] [3 # 4; 1] 1.

Definition tiny_better_first : Pool Q * SwapResult Q :=
  Eval vm_compute in
    get_ok (tiny_better, ref_result tiny_better true [] [])
      (swap tiny_better true 1).

Lemma tiny_is_better : better true tiny_pool tiny_better.
Proof.
  split; [reflexivity|]. intros [|[|i]] Hi; simpl in Hi; try lia;
    vm_compute; intuition discriminate.
Qed.

Lemma better_pays_more_witness :
  amt_out (snd tiny_better_first) <= amt_out (snd tiny_first).
Proof.
  apply (better_pays_more tiny_pool tiny_better (fst tiny_first)
           (fst tiny_better_first) true 1);
    [apply wf_poolb_iff; reflexivity|apply wf_poolb_iff; reflexivity
    |simpl; lia|exact tiny_is_better
    |vm_compute; reflexivity|vm_compute; reflexivity].
Defined.

Lemma swap_subadditive_witness :
  amt_out (snd tiny_first)
  + amt_out (snd (get_ok tiny_first (swap tiny_pool true 3)))
  <= amt_out (snd (get_ok tiny_first (swap tiny_pool true (1 + 3)))).
Proof.
  apply (swap_subadditive tiny_pool (fst tiny_first)
           (fst (get_ok tiny_first (swap tiny_pool true 3)))
           (fst (get_ok tiny_first (swap tiny_pool true (1 + 3)))) true
           1 3);
    [apply wf_poolb_iff; reflexivity|simpl; lia| | |];
    vm_compute; reflexivity.
Defined.
