(* ===== verification/Scenario.v ===== *)
(** * Scenario: the model run on the pool of the constructor's defaults

    Two tiers of liquidity 10000, fee factors [sqrt_gamma] 0.9985 and
    0.9997, price 1.  The swaps are evaluated by the kernel in exact
    rational arithmetic and their outcomes stated as orderings between
    rationals: the split of a large order between both tiers, the
    exclusion of the expensive tier for a small order, and the two legs
    of a round trip. *)

From Stdlib Require Import List Bool Arith ZArith QArith Lqa Lia.
From S2P Require Import Prelude Numeric ArrayIndex PriceAlgebra PoolState.
From S2P Require Import Allocator Swap Trace.
From S2P Require Import Monotone Arbitrage NoArbitrage Additive Threshold.
Import ListNotations.
Local Open Scope Q_scope.

(** Decides the orderings between the rationals of a computed result. *)
Ltac decide_Q :=
  repeat match goal with |- _ /\ _ => split end;
  vm_compute; first [reflexivity | discriminate].

(** The fee rate of a tier, in basis points. *)
Definition fee_rate_bps (sqrt_gamma : Q) : Q :=
  (1 - sqrt_gamma * sqrt_gamma) * 10000.

(** ** A large order is split

    1000 of token0: both tiers are used, the tier with the higher fee
    receives less, the fee rate of the swap lies between the fee rates
    [1 - sqrt_gamma^2] of the tiers (about 6 and 30 basis points) and
    above 15 basis points, and less comes out than went in. *)
(** 1000 of token0 into the default pool uses both tiers, gives the
    tier with the higher fee less, reports a fee rate above 15 and below
    30 basis points and an amount out between -1000 and 0. *)
Example scenario_split :
  swap default_pool true 1000 = Ok (sample_pool, sample_result)
  /\ snd sample_alloc = [true; true]
  /\ 0 < nth 0 (amts_in sample_result) 0 < nth 1 (amts_in sample_result) 0
  /\ fee_rate_bps (9997 # 10000) < fee_bps sample_result
     < fee_rate_bps (9985 # 10000)
  /\ 15 < fee_bps sample_result < 30
  /\ - (1000) < amt_out sample_result < 0.
Proof. decide_Q. Qed.

(** ** A small order leaves the expensive tier out

    10 of token0: the first pass gives the tier with the higher fee a
    negative amount, the loop drops it and routes everything to the
    other tier, whose fee rate is the fee rate of the swap. *)
Definition small_alloc : list Q * list bool :=
  Eval vm_compute in
    get_ok ([], []) (_calc_tier_amts_in default_pool true 10).

Definition small_swap : Pool Q * SwapResult Q :=
  Eval vm_compute in
    get_ok (default_pool, ref_result default_pool true [] [])
      (swap default_pool true 10).

(** 10 of token0 into the default pool: the first pass gives the
    tier with the higher fee a negative amount, the loop drops it, the
    whole amount goes to the other tier, the price of the dropped tier
    does not move and the fee rate of the swap is that of the tier used. *)
Example scenario_excludes :
  _calc_tier_amts_in default_pool true 10 = Ok small_alloc
  /\ swap default_pool true 10 = Ok small_swap
  /\ snd small_alloc = [false; true]
  /\ nth 0 (lagrange_amts (lsg_of default_pool) (res_of default_pool true)
              10 [true; true] (zeros 2)) 0 < 0
  /\ nth 0 (amts_in (snd small_swap)) 0 == 0
  /\ nth 1 (amts_in (snd small_swap)) 0 == 10
  /\ nth 0 (sqrt_p_arr (fst small_swap)) 0 == 1
  /\ nth 1 (sqrt_p_arr (fst small_swap)) 0 < 1
  /\ fee_bps (snd small_swap) == fee_rate_bps (9997 # 10000).
Proof. decide_Q. Qed.

(** The high-fee tier of the default pool is used by the orders of
    token0 above a little more than 12, and the low-fee tier by every
    order: 10 go to the low-fee tier alone and 1000 are split. *)
Example default_threshold :
  12 < threshold default_pool true 0 < 13
  /\ threshold default_pool true 1 == 0.
Proof. decide_Q. Qed.

Lemma swap_inactive_untouched_witness :
  nth 0 (sqrt_p_arr (fst small_swap)) 0 = nth 0 (sqrt_p_arr default_pool) 0
  /\ nth 0 (fee0_growth_arr (fst small_swap)) 0
     = nth 0 (fee0_growth_arr default_pool) 0
  /\ nth 0 (fee1_growth_arr (fst small_swap)) 0
     = nth 0 (fee1_growth_arr default_pool) 0
  /\ nth 0 (amts_in (snd small_swap)) (nlit 0) = nlit 0
  /\ nth 0 (amts_out (snd small_swap)) (nlit 0) = nlit 0
  /\ nth 0 (fee_amts (snd small_swap)) (nlit 0) = nlit 0.
Proof.
  apply (swap_inactive_untouched default_pool (fst small_swap) true 10
           (snd small_swap) (fst small_alloc) (snd small_alloc));
    vm_compute; reflexivity.
Defined.

Lemma swap_monotone_witness :
  Forall2 Qle (amts_in (snd small_swap)) (amts_in sample_result)
  /\ Forall2 Qle (sqrt_p_arr sample_pool) (sqrt_p_arr (fst small_swap))
  /\ amt_out sample_result <= amt_out (snd small_swap).
Proof.
  apply (swap_monotone default_pool (fst small_swap) sample_pool true
           10 1000);
    [exact default_pool_wf|simpl; lia|discriminate|vm_compute; reflexivity
    |exact sample_swap_ok].
Defined.

(** ** A round trip does not come back

    1000 of token0, then 950 of the token1 that came out (a little
    over 950) sold back: the prices do not return to 1 (one tier ends
    below, the other above), less than 1000 of token0 comes back, and
    every fee-growth entry of both tokens is positive. *)
Definition round_trip_orders : list (@order Q) :=
  [(true, 1000); (false, 950)].

Definition round_trip : Pool Q * list (SwapResult Q) :=
  Eval vm_compute in
    get_ok (default_pool, []) (run default_pool round_trip_orders).

Lemma round_trip_run : run default_pool round_trip_orders = Ok round_trip.
Proof. vm_compute. reflexivity. Qed.

(** The second leg on its own: it starts from the pool the sample swap
    left, whose tiers are at different prices. *)
Lemma second_leg_steps :
  steps sample_pool [(false, 950)] (tl (snd round_trip)) (fst round_trip).
Proof.
  pose proof (proj1 (run_steps _ _ _ _) round_trip_run) as Hst.
  apply (steps_cons_inv default_pool (fst round_trip) true 1000
           [(false, 950)] sample_result (tl (snd round_trip))) in Hst.
  destruct Hst as (pool1 & Hs & Hrest).
  assert (Ok (sample_pool, sample_result) = Ok (pool1, sample_result)) as E
    by (rewrite <- Hs; symmetry; exact sample_swap_ok).
  now inv E.
Qed.

(** Selling 1000 of token0 into the default pool and then selling
    back 950 of the token1 received (a little over 950) does not bring
    the prices back to 1, returns less than 1000 of token0, and leaves
    every fee-growth entry of both tokens positive. *)
Example scenario_round_trip :
  run default_pool round_trip_orders = Ok round_trip
  /\ 950 < - amt_out sample_result
  /\ nth 0 (sqrt_p_arr (fst round_trip)) 0 < 1
  /\ 1 < nth 1 (sqrt_p_arr (fst round_trip)) 0
  /\ nsum (map (fun r => - amt_out r) (tl (snd round_trip))) < 1000
  /\ forallb (fun f => Qlt_bool 0 f) (fee0_growth_arr (fst round_trip)) = true
  /\ forallb (fun f => Qlt_bool 0 f) (fee1_growth_arr (fst round_trip)) = true.
Proof. split; [exact round_trip_run|decide_Q]. Qed.

(** The round trip, valued at the starting price 1: what the trader
    gave, net of the fees, covers what the trader took. *)
Lemma steps_no_free_lunch_witness :
  0 <= net_outlay 1 round_trip_orders (snd round_trip).
Proof.
  apply (steps_no_free_lunch 1 default_pool (fst round_trip));
    [exact default_pool_wf|simpl; lia|apply init_uniform
    |apply run_steps; exact round_trip_run].
Defined.

(** The second leg of the round trip starts from a pool whose tiers are
    at different prices: it brings the trader token0 and costs token1,
    and at a price within the fees of both tiers it costs more than it
    brings. *)
Lemma reachable_no_arbitrage_witness :
  (exists q, 0 < q /\ within q sample_pool
     /\ q * q * total gain0 [(false, 950)] (tl (snd round_trip))
        + total gain1 [(false, 950)] (tl (snd round_trip)) <= 0)
  /\ (0 <= total gain0 [(false, 950)] (tl (snd round_trip)) ->
      0 <= total gain1 [(false, 950)] (tl (snd round_trip)) ->
      total gain0 [(false, 950)] (tl (snd round_trip)) == 0
      /\ total gain1 [(false, 950)] (tl (snd round_trip)) == 0).
Proof.
  apply (reachable_no_arbitrage sample_pool (fst round_trip));
    [exact sample_reachable|simpl; lia|exact second_leg_steps].
Defined.

Lemma sample_charges : charges sample_pool.
Proof. intros [|[|i]] Hi; [reflexivity|reflexivity|simpl in Hi; lia]. Qed.

(** Both tiers of the pool charge a fee, so the second leg costs the
    trader strictly more than it brings. *)
Lemma reachable_strict_loss_witness :
  (exists q, 0 < q /\ within q sample_pool
     /\ q * q * total gain0 [(false, 950)] (tl (snd round_trip))
        + total gain1 [(false, 950)] (tl (snd round_trip)) < 0)
  /\ ~ (0 <= total gain0 [(false, 950)] (tl (snd round_trip))
        /\ 0 <= total gain1 [(false, 950)] (tl (snd round_trip))).
Proof.
  apply (reachable_strict_loss sample_pool (fst round_trip));
    [exact sample_reachable|simpl; lia|exact sample_charges
    |exact second_leg_steps|discriminate].
Defined.
