(* ===== verification/Binary64.v ===== *)
(** * Binary64: the model run in IEEE double precision

    The source computes with numpy [float64].  [Num_float] reads the
    operations class at the kernel's primitive floats, which are IEEE
    754 binary64 with rounding to nearest even, as numpy's element-wise
    [+ - * /] and comparisons are; every definition of the development
    then runs on the numbers the program runs on.  Integer literals are
    converted exactly ([float_of_Z], exact below [2^53]); a decimal
    literal such as [0.9985] is the correctly rounded quotient
    [9985 / 10000], which is the double Python reads it as.

    What is generic in the theorems of [Allocator] and [Swap]
    (termination of the loop, shapes, error paths, the closed form, the
    equivalence with the reference) holds of this instance.  The
    algebraic theorems do not: in floating point the amounts of the
    sample swap do not sum to the amount asked for.  This file shows, on
    the pool of the constructor's defaults, by how much the floating
    point run differs from the exact one ([Q_of_float] gives the
    rational a finite double denotes): less than [10^-9] on every
    output.  No bound is proved for other inputs; the examples at the
    end of the file show inputs on which the run in double precision
    leaves what the exact theorems state: an order below the rounding
    of the reserves ([deep_pool], [dust]), on which the loop also takes
    one pass more than it ever does over [Q]; the same tiers listed in
    another order ([three_tiers]); a small order ([small_order]); an
    order that overflows ([huge_order]); NaN and infinity. *)

From Corelib Require Import PrimFloat FloatOps SpecFloat FloatAxioms.
From Stdlib Require Import List Bool ZArith QArith Qabs.
From S2P Require Import Prelude Numeric ArrayIndex PriceAlgebra PoolState.
From S2P Require Import Allocator Swap.
Import ListNotations.

(** ** The instance *)

Fixpoint float_of_pos (p : positive) : float :=
  match p with
  | xH => 1%float
  | xO p => (2 * float_of_pos p)%float
  | xI p => (2 * float_of_pos p + 1)%float
  end.

Definition float_of_Z (z : Z) : float :=
  match z with
  | Z0 => 0%float
  | Zpos p => float_of_pos p
  | Zneg p => (- float_of_pos p)%float
  end.

#[export] Instance Num_float : Num float := {|
  nlit := float_of_Z;
  nadd := PrimFloat.add;
  nsub := PrimFloat.sub;
  nmul := PrimFloat.mul;
  ndiv := PrimFloat.div;
  nleb := PrimFloat.leb;
  nltb := PrimFloat.ltb
|}.

(** The order of the doubles has the two facts of [NumOrder]: by
    evaluation, and by the specification of the primitive comparisons
    ([ltb_spec], [leb_spec]), NaN included. *)
#[export] Instance NumOrder_float : NumOrder float.
Proof.
  split; [reflexivity|]. intros x y. cbn [nltb nleb Num_float].
  rewrite ltb_spec, leb_spec. unfold SFltb, SFleb.
  destruct (SFcompare _ _) as [[]|]; congruence.
Qed.

(** ** The rational a double denotes *)

Definition Q_of_float (f : float) : option Q :=
  match Prim2SF f with
  | S754_zero _ => Some 0%Q
  | S754_finite s m e =>
      let v := if (0 <=? e)%Z then inject_Z (Zpos m * 2 ^ e)
               else Zpos m # Pos.pow 2 (Z.to_pos (- e)) in
      Some (if s then Qopp v else v)
  | _ => None
  end.

(** [f] is finite and within [tol] of [q]. *)
Definition close (tol : Q) (f : float) (q : Q) : bool :=
  match Q_of_float f with
  | Some v => Qle_bool (Qabs (v - q)) tol
  | None => false
  end.

Definition all_close (tol : Q) (fs : list float) (qs : list Q) : bool :=
  (length fs =? length qs)%nat
  && forallb (fun fq => close tol (fst fq) (snd fq)) (combine fs qs).

(** Two pools, two results: every number of the one within [tol] of the
    corresponding number of the other. *)
Definition pool_close (tol : Q) (pf : Pool float) (pq : Pool Q) : bool :=
  (size pf =? size pq)%nat
  && all_close tol (liquidity_arr pf) (liquidity_arr pq)
  && all_close tol (sqrt_p_arr pf) (sqrt_p_arr pq)
  && all_close tol (sqrt_gamma_arr pf) (sqrt_gamma_arr pq)
  && all_close tol (fee0_growth_arr pf) (fee0_growth_arr pq)
  && all_close tol (fee1_growth_arr pf) (fee1_growth_arr pq).

Definition result_close (tol : Q) (rf : SwapResult float) (rq : SwapResult Q)
  : bool :=
  close tol (amt_in rf) (amt_in rq)
  && close tol (amt_out rf) (amt_out rq)
  && close tol (fee_amt rf) (fee_amt rq)
  && close tol (fee_bps rf) (fee_bps rq)
  && all_close tol (amts_in rf) (amts_in rq)
  && all_close tol (amts_out rf) (amts_out rq)
  && all_close tol (fee_amts rf) (fee_amts rq).

(** ** The sample swap in double precision *)

Definition float_swap : Pool float * SwapResult float :=
  Eval vm_compute in
    get_ok (default_pool, ref_result default_pool true [] [])
      (swap default_pool true (nlit 1000)).

(** One part in [10^9]. *)
Definition tolerance : Q := 1 # 1000000000.

Example float_literals_exact :
  close 0 (nlit 10000) (inject_Z 10000) = true
  /\ close 0 (nlit 9985) (inject_Z 9985) = true
  /\ PrimFloat.eqb (nlit 9985 / nlit 10000)%num 0x1.ff3b645a1cac1p-1%float
     = true.
Proof. repeat split; vm_compute; reflexivity. Qed.

(** Run in IEEE double precision on the default pool, the swap of
    1000 token0 returns a pool and a result every number of which is
    finite and within 10^-9 of the corresponding number of the exact
    run; the amounts in sum to slightly less than 1000. *)
Example float_scenario_split :
  @swap float Num_float default_pool true (nlit 1000) = Ok float_swap
  /\ pool_close tolerance (fst float_swap) sample_pool = true
  /\ result_close tolerance (snd float_swap) sample_result = true
  /\ PrimFloat.ltb (amt_in (snd float_swap)) (nlit 1000) = true.
Proof. repeat split; vm_compute; reflexivity. Qed.

(** Run in IEEE double precision on the default pool,
    _calc_tier_amts_in for 10 token0 drops the tier with the higher fee
    and gives the other tier exactly 10. *)
Example float_scenario_excludes :
  @_calc_tier_amts_in float Num_float default_pool true (nlit 10)
  = Ok ([nlit 0; nlit 10], [false; true]).
Proof. vm_compute. reflexivity. Qed.

(** The assertions in double precision. *)
Example float_rejects :
  swap (@default_pool float _) true (nlit 0) = Err AssertionError
  /\ _calc_tier_amts_in (@default_pool float _) true (nlit (-1))
     = Err AssertionError.
Proof. split; vm_compute; reflexivity. Qed.

(** The split of the sample swap in double precision. *)
Definition float_alloc : list float * list bool :=
  Eval vm_compute in
    get_ok ([], []) (_calc_tier_amts_in default_pool true (nlit 1000)).

(** ** Validity in double precision

    [wf_pool] read at the doubles: the shape, and every number finite
    and of the sign the exact invariant asks for. *)

Definition is_finite (f : float) : bool :=
  match Prim2SF f with
  | S754_zero _ | S754_finite _ _ _ => true
  | _ => false
  end.

Definition float_wfb (pool : Pool float) : bool :=
  shape_ok pool
  && forallb (fun l => is_finite l && (0 <? l)%float) (liquidity_arr pool)
  && forallb (fun p => is_finite p && (0 <? p)%float) (sqrt_p_arr pool)
  && forallb (fun g => (0 <? g)%float && (g <=? 1)%float)
       (sqrt_gamma_arr pool)
  && forallb (fun f => is_finite f && (0 <=? f)%float) (fee0_growth_arr pool)
  && forallb (fun f => is_finite f && (0 <=? f)%float) (fee1_growth_arr pool).

(** ** Dust: an order below the rounding of the reserves

    [Pool(liquidity_arr=[50000, 50000])] and an order of [1e-12]. *)

Definition deep_pool : Pool float :=
  __init__ [nlit 50000; nlit 50000] default_sqrt_gamma_arr default_sqrt_p.

Definition dust : float := (nlit 1 / nlit 1000000000000)%num.

(** The first pass drops the tier with the higher fee; in the second,
    [lsg * (amount + res) / lsg - res] rounds below zero for the tier
    that is left, and the mask is empty. *)
Example float_dust_empties_mask :
  float_wfb deep_pool = true
  /\ PrimFloat.eqb dust 0x1.19799812dea11p-40%float = true
  /\ @_calc_tier_amts_in float Num_float deep_pool true dust
     = Ok (zeros 2, [false; false])
  /\ @_calc_tier_amts_in float Num_float deep_pool false dust
     = Ok (zeros 2, [false; false]).
Proof. repeat split; vm_compute; reflexivity. Qed.

(** The dust order takes three passes on two tiers: with fuel 2 the
    loop has not returned.  Over [Q], on a valid pool, [size] passes
    are always enough ([AllocatorExact.calc_loop_within_size]). *)
Example float_dust_extra_pass :
  @repair_loop float Num_float 2 (lsg_of deep_pool) (res_of deep_pool true)
    dust (repeat true 2) (zeros 2) = None
  /\ @repair_loop float Num_float 3 (lsg_of deep_pool)
       (res_of deep_pool true) dust (repeat true 2) (zeros 2)
     = Some (zeros 2, [false; false]).
Proof. split; vm_compute; reflexivity. Qed.

(** ** The order of the tiers

    Three tiers, and the same three listed in another order.  Over [Q]
    the two pools answer alike ([Equivariant.swap_permute]); in double
    precision [np.sum] adds in the order of the array, and the amount
    out and the prices differ in their last digits. *)

Definition three_tiers : Pool float :=
  __init__ [nlit 100; nlit 1000; nlit 10000]
    [(nlit 9985 / nlit 10000)%num; (nlit 9997 / nlit 10000)%num;
     (nlit 999 / nlit 1000)%num] (nlit 1).

Definition three_tiers_rotated : Pool float :=
  __init__ [nlit 10000; nlit 100; nlit 1000]
    [(nlit 999 / nlit 1000)%num; (nlit 9985 / nlit 10000)%num;
     (nlit 9997 / nlit 10000)%num] (nlit 1).

Definition float_three : Pool float * SwapResult float :=
  Eval vm_compute in
    get_ok (three_tiers, ref_result three_tiers true [] [])
      (swap three_tiers true (nlit 1000)).

Definition float_three_rotated : Pool float * SwapResult float :=
  Eval vm_compute in
    get_ok (three_tiers, ref_result three_tiers true [] [])
      (swap three_tiers_rotated true (nlit 1000)).

Example float_tier_order_matters :
  swap three_tiers true (nlit 1000) = Ok float_three
  /\ swap three_tiers_rotated true (nlit 1000) = Ok float_three_rotated
  /\ (amt_out (snd float_three) <? amt_out (snd float_three_rotated))%float
     = true
  /\ (nth 0 (sqrt_p_arr (fst float_three)) 0
      <? nth 1 (sqrt_p_arr (fst float_three_rotated)) 0)%float = true
  /\ (nth 2 (sqrt_p_arr (fst float_three)) 0
      <? nth 0 (sqrt_p_arr (fst float_three_rotated)) 0)%float = true.
Proof. repeat split; vm_compute; reflexivity. Qed.

(** ** A small order: cancellation

    [1e-10] of token0 into the default pool. *)

Definition small_order : float := (nlit 1 / nlit 10000000000)%num.

Definition float_small_swap : Pool float * SwapResult float :=
  Eval vm_compute in
    get_ok (default_pool, idle_result 0) (swap default_pool true small_order).

(** In IEEE double precision an order of 10^-10 token0 on the
    default pool goes to the low-fee tier alone and the amount routed,
    which is the amt_in reported, exceeds the amount asked for by more
    than 4 parts in 10000: the sum amount + np.sum(res) rounds the order
    to the spacing of the reserves, where the exact run conserves the
    amount. *)
Example float_small_order_inexact :
  @swap float Num_float default_pool true small_order = Ok float_small_swap
  /\ float_wfb (fst float_small_swap) = true
  /\ amts_in (snd float_small_swap)
     = [0%float; amt_in (snd float_small_swap)]
  /\ (small_order * (nlit 10004 / nlit 10000) <? amt_in (snd float_small_swap))%num
     = true.
Proof. repeat split; vm_compute; reflexivity. Qed.

(** ** Overflow

    [2^1013] of token0 into the default pool: [lsg * (amount + sum)]
    overflows in the first pass. *)

Definition huge_order : float := 0x1p+1013%float.

Definition float_dead_swap : Pool float * SwapResult float :=
  Eval vm_compute in
    get_ok (default_pool, idle_result 0) (swap default_pool true huge_order).

Definition float_dead_pool : Pool float := fst float_dead_swap.

(** In IEEE double precision a finite order of 2^1013 token0 passes
    both assertions on the default pool and overflows in the first pass
    of the allocator: swap returns, every price of the pool it leaves is
    0, the fee growth of token0 is NaN and amt_in is infinity, so that
    the validity every exact swap preserves is lost; a later order of
    1000 token1 is then paid an infinite amount. *)
Example float_overflow_breaks_validity :
  float_wfb default_pool = true
  /\ is_finite huge_order = true
  /\ @swap float Num_float default_pool true huge_order = Ok float_dead_swap
  /\ float_wfb float_dead_pool = false
  /\ sqrt_p_arr float_dead_pool = [0%float; 0%float]
  /\ forallb is_nan (fee0_growth_arr float_dead_pool) = true
  /\ amt_in (snd float_dead_swap) = infinity
  /\ (exists pool r,
        swap float_dead_pool false (nlit 1000) = Ok (pool, r)
        /\ amt_out r = neg_infinity).
Proof.
  repeat split; try (vm_compute; reflexivity).
  eexists _, _. split; vm_compute; reflexivity.
Qed.

(** [nan] fails both assertions; [infinity] passes them. *)
Example float_nan_rejected :
  @swap float Num_float default_pool true nan = Err AssertionError
  /\ @_calc_tier_amts_in float Num_float default_pool true nan
     = Err AssertionError
  /\ is_ok (@swap float Num_float default_pool true infinity) = true.
Proof. repeat split; vm_compute; reflexivity. Qed.

Lemma swap_degenerate_witness :
  float_wfb deep_pool = true
  /\ is_nan (fee_bps (@idle_result float _ 2)) = true
  /\ zeros 2 = zeros (size deep_pool)
  /\ swap deep_pool true dust = Ok (deep_pool, idle_result (size deep_pool)).
Proof.
  split; [vm_compute; reflexivity|]. split; [vm_compute; reflexivity|].
  apply (swap_degenerate deep_pool true dust (zeros 2) [false; false]);
    vm_compute; reflexivity.
Defined.

(** The two theorems proved from [NumOrder], in double precision: the
    amounts routed pass [>= 0], and [swap] returns exactly when the
    amount passes [> 0] (NaN does not). *)
Lemma calc_tier_amts_in_nonneg_witness :
  all_nonneg (fst float_alloc) = true
  /\ all_nonneg (@zeros float _ 2) = true.
Proof.
  split.
  - apply (calc_tier_amts_in_nonneg default_pool true (nlit 1000) _
             (snd float_alloc)).
    vm_compute. reflexivity.
  - apply (calc_tier_amts_in_nonneg deep_pool true dust _ [false; false]).
    vm_compute. reflexivity.
Defined.

Lemma swap_succeeds_iff_witness :
  is_ok (@swap float _ default_pool true nan)
  = (0 <? nan)%float && shape_ok (@default_pool float _).
Proof. exact (swap_succeeds_iff default_pool true nan). Defined.
